(* ===== verification/_CoqProject ===== *)
-Q . S2P
Prelude.v
RustStd.v
TextLines.v
FileSystem.v
Toc.v
IdMap.v
LangString.v
DocTest.v
MdEvents.v
MdCorrect.v
MdRender.v
MetaItems.v
Cfg.v
CfgCorrect.v
CfgHtml.v
Highlight.v
DocComments.v
CleanTypes.v
CleanItems.v
DocAttributes.v
DocFold.v
Pruning.v
DocPasses.v
CfgPass.v
DocCoverage.v
Sources.v
UnindentCorrect.v
Passes.v
CollectImpls.v
PassesCorrect.v
ItemTree.v
DocPassesCorrect.v
Visitors.v
ItemSamples.v
SourcesCorrect.v
CoverageCorrect.v
PassesSpec.v
PassesRun.v
CfgPassCorrect.v
CollectCorrect.v
RenderCache.v
DocSummary.v
TestCollect.v
CrawlSpec.v
CacheCorrect.v
CacheBuild.v
CallTypes.v
PreludeTypes.v
FuzzableTypes.v
AflHelpers.v
AflDecode.v
ApiUtil.v
CallTyping.v
ModVisibility.v
ApiFunction.v
ApiSequence.v
ApiGraph.v
Samples.v
SequenceWf.v
Satisfy.v
Merge.v
DeadCode.v
SequenceText.v
Stages.v
BodyText.v
BodyRun.v
TargetRun.v
ApiSearch.v
SearchCorrect.v
BackwardSearch.v
ApiChoose.v
ChooseCorrect.v
Messages.v
FileUtil.v
ImplUtil.v
ImplCorrect.v
CrateWalk.v
Described.v
CrateGraph.v
CrateRun.v
