(* ===== verification/Prelude.v ===== *)
(** * RULF: verification of the fuzz-target generator

    RULF is a fork of rustdoc that generates fuzz targets for the public functions of a
    Rust crate. This library translates the generator and the parts of rustdoc that feed it
    into executable definitions and proves what the program promises. File names below are
    relative to [src/src/librustdoc/], those of the generator to its [fuzz_target/].

    ** The program

    [fuzz_target_generator_main_options] ([lib.rs]) takes the cleaned crate from
    [fuzz_target_generator_run_core] ([core.rs]), which runs the passes that the options and
    the attributes of the crate ask for ([passes/]). [fuzz_target_run_clean_krate]
    ([html/render.rs]) writes the pages with the source code ([html/sources.rs]), builds the
    render cache ([Cache::from_krate], [html/render/cache.rs]), which records the paths of the items and the impls of the types,
    collects the methods of the impls ([impl_util.rs]) and the free functions of the module tree
    ([html/render.rs]) in an [ApiGraph], filters functions that cannot be named
    ([mod_visibility.rs], [api_function.rs]), and connects the functions whose result can be
    passed as a parameter of another ([api_util.rs], [call_type.rs]). The searches of
    [api_graph.rs] build call sequences ([api_sequence.rs]): breadth first from the empty
    sequence, then backward, merging sequences for functions not reached. A choice selects
    the sequences that become targets; a target is printed as a test function that makes the
    calls and a closure that decodes its parameters from the input bytes
    ([fuzzable_type.rs], [afl_util.rs], [prelude_type.rs]); [file_util.rs] writes three files
    per target.

    ** The files

    The foundations:
    - [Prelude]: outcomes of Rust code (a value, a panic, the end of the process) as a
      monad, the predicate [returns] (the code returns, with a result that satisfies a
      predicate), the loops ([fold_loop] for a loop without exit, [run_loop] for one with
      [break] or [return]) with their invariant rules, and recursion on a measure.
    - [RustStd]: strings, casts, and the class [HashOrder]. [TextLines]: lines and white
      space. [FileSystem]: files and directories.

    Attributes, configurations and documentation:
    - [MetaItems]: attributes of the syntax tree ([librustc_ast/attr/mod.rs]);
      [DocComments]: the decoration of doc comments ([librustc_ast/util/comments.rs]);
      [DocAttributes]: [Attributes::from_ast] ([clean/types.rs]).
    - [Cfg]: [clean/cfg.rs], [html/escape.rs] and the evaluation of predicates by the
      compiler ([librustc_attr/builtin.rs]); [CfgCorrect], [CfgHtml]: their meaning and
      their rendering.

    Cleaned items and passes:
    - [CleanTypes], [CleanItems]: the types with their names, and the items of
      [clean/types.rs]. [DocFold]: the folds of [fold.rs], with the class [DocFolder];
      [Pruning]: what every fold guarantees; [ItemTree]: the tree of items; [Visitors]:
      folders that only look; [ItemSamples]: a small crate.
    - [Passes]: access levels, the strippers and the choice of the passes; [PassesCorrect],
      [PassesSpec], [PassesRun]: what they leave. [DocPasses] (with [UnindentCorrect],
      [DocPassesCorrect]): the passes over the documentation. [CfgPass] ([CfgPassCorrect]):
      [passes/propagate_doc_cfg.rs]. [DocCoverage] ([CoverageCorrect]):
      [passes/calculate_doc_coverage.rs]. [CollectImpls] ([CollectCorrect]):
      [passes/collect_trait_impls.rs].
    - [Sources] ([SourcesCorrect]): the pages with the source code, [html/sources.rs].
    - [RenderCache]: [html/render/cache.rs]; [CrawlSpec], [CacheCorrect], [CacheBuild]: what
      the cache holds; [DocSummary]: the summaries of the search index ([html/render.rs]).

    Markdown:
    - [Toc]: the table of contents, [html/toc.rs].
    - [IdMap]: the ids of a page; [LangString]: the lines and the
      attributes of code blocks; [MdEvents]: the iterators over the events of a text and the
      renderings, all of [html/markdown.rs]. [MdCorrect]: headings; [MdRender]:
      footnotes, summaries, and that every rendering ends.
    - [Highlight]: the highlighting of source text, [html/highlight.rs], and the table of
      keywords of [librustc_span/symbol.rs]; the module [SourceFile] of [TextLines] is the
      normalisation of a source file ([librustc_span/lib.rs]).
    - [DocTest]: the program made of a documentation test and the verdict on it, and
      [TestCollect]: the search for tests and the collector ([test.rs], [markdown.rs]), with
      the class [Tester] between the two.

    The generator:
    - [CallTypes]: [call_type.rs]; [PreludeTypes]: [prelude_type.rs]; [FuzzableTypes]:
      [fuzzable_type.rs]; [AflHelpers]: [afl_util.rs]; [AflDecode]: what the emitted
      decoding code does: the byte layout of the parameters, and the values that the emitted
      helpers [_to_u8], [_to_i16], ... compute.
    - [ApiUtil]: [api_util.rs]; [CallTyping]: a typing judgement for printed argument
      expressions, and what [_same_type] and the decoding guarantee with respect to it.
    - [ModVisibility]: [mod_visibility.rs]; [ApiFunction]: [api_function.rs] and
      [generic_function.rs].
    - [ApiSequence], [Merge], [DeadCode]: the data of [api_sequence.rs], its updates, the
      merge and the dead-code analysis. [ApiGraph]: [api_graph.rs]: the graph, its filters,
      [find_all_dependencies] and [is_fun_satisfied], which extends a sequence by a call.
    - [SequenceWf]: the contract [wf_sequence] between the parts that build sequences and
      those that print them; [Satisfy]: the dependencies and the extension meet it.
    - [SequenceText]: the printing part of [api_sequence.rs], and [replay_util.rs].
      [Stages]: the stages of a call type and a relation [convert] that says where its parts
      come from; [BodyText]: the emitted test function as a list of statements; [BodyRun]:
      the run of these statements; [TargetRun]: the run of the emitted closure.
    - [ApiSearch], [SearchCorrect], [BackwardSearch]: the searches of [api_graph.rs];
      [ApiChoose], [ChooseCorrect]: its choices. [Messages]:
      [print_message.rs] and the statistics. [FileUtil]: [file_util.rs].
    - [ImplUtil], [ImplCorrect]: [impl_util.rs]. [CrateWalk]: the walk over the modules
      ([html/render.rs]); [Described]: the crates that the cleaning describes; [CrateGraph]:
      the graph of a crate and the files of its targets; [CrateRun]: the run as a whole.
      [Samples]: a graph on which the theorems are instantiated.

    Definitions keep the names of the source. A local loop of a function that is stated
    separately has a name of its own, and the comment above it says which loop it is.

    ** What is proved

    - Attributes and configurations: [from_ast] reads one fragment per documentation text, and
      its number is the line on which it starts unless a fragment before it ends with an empty
      line ([DocAttributes.empty_comment_lines_are_not_counted]);
      the decoration of comments is taken off; a configuration predicate that is parsed means
      what the compiler checks; renderings hold no foreign markup but for three options.
    - Passes: each pass returns; hidden and private items are stripped and exactly the other
      functions are left; the documentation passes keep the code; configurations are handed
      down; documented items are counted once; the impls of traits that are added at the root are
      those that the answers of the compiler determine, filtered by what the crate holds. The
      passes return when the documentation can be unindented; behind a blank first line
      [unindent] can panic.
    - Source pages: each local file is rendered once, until one cannot be read or written.
    - Cache: it holds the paths and impls of the crate.
    - Markdown: headings have the anchors and the numbers of the outline that the table of
      contents shows; footnotes are numbered in the order of their first mention; the
      attributes of code blocks are read; a summary is the first block; renderings end, with
      every iterator run to its end and the ids of the headings of the text.
    - Highlighting: the classifier, with its token of lookahead and its flags, makes the
      calls of a reference on the list of tokens to every writer (the class [Writer]), and the
      highlighted HTML without its tags is the escaped text, but for the mark of a shebang.
    - Documentation tests: the lines of a test are kept and the offset counts the lines put in
      front, unless the parser raises a fatal error before all is found; a test panics exactly
      when the compiler cannot be run or writes what is not UTF-8, and passes as its attributes
      say; the tests of a file are its Rust blocks, with
      the names of the open sections and directories of their own.
    - Sequences: the extension of a well-formed sequence never panics and gives a
      well-formed one (existing, compatible arguments, no use after a move, compatible
      borrows, all [mut] tags set), merging preserves well-formedness, and the dead-code
      analysis marks exactly the calls that nobody needs.
    - Types: when [_same_type] accepts a result for a parameter, the printed expression has
      the parameter's type, provided it makes at most one conversion and no mutable raw
      pointer; the decoded values have the types of their parameters unless the elements of a
      slice are converted. [find_all_dependencies] finds exactly the compatible pairs between
      functions that are not end functions and functions that are not start functions. Where the printed code is ill typed, theorems exhibit it.
    - Decoding: the lengths computed for a parameter are those of its byte layout; after the
      emitted length guard every read is in bounds and the reads are disjoint; the emitted
      helpers return values of their type, but for numbers that are no [char], which end the
      process, and the unsigned ones read every value.
    - Targets: the text of the closure is that of a program that is safe on every input when each
      parameter has a decoder; the
      text of the test function is that of statements which the ownership rules of Rust
      accept, for simple arguments; where they do not, a lemma exhibits it.
    - Searches and choice: the breadth-first search without the fast mode finds exactly the
      reachable sequences of bounded length; the deep search is a breadth-first search of some length; the random
      walk stays within the reachable sequences; the backward search is saturated. The
      heuristic choice covers every coverable function unless a limit is reached.
    - Crate: the walk visits every item ([CrateWalk.walk_visits_every_item]); the methods of
      an impl are added with [Self] replaced; the invisible modules are those below a private
      one; the graph of a crate holds exactly its documented functions.
    - The run as a whole ([CrateRun.generator_writes_well_formed_targets]): the phases
      compose, nothing panics under the conditions [cleaned] and [surroundings_ok], and the directories hold exactly the texts of a good
      choice of well-formed sequences.

    ** Modelling choices

    - Integers: [usize] indices, lengths and counters are [nat]: they are bounded by the
      memory of the process. The one subtraction of the text generator that can go below 0
      ([usize_sub] in [AflHelpers]) wraps as in a release build. The index of a sequence that
      goes through an [i32] is wrapped ([as_i32]), and the theorems about the backward search
      assume that it fits. The integers of the emitted decoders are [Z] at their width, with
      sign extension and wrap-around. The percentages of the coverage are fractions.
    - Iteration over a [HashSet] or [HashMap] has no fixed order: [HashOrder] is an
      arbitrary permutation of the elements for each loop, and the theorems hold for all.
    - Random numbers come from a third-party crate: a stream of numbers is an argument,
      and the theorems assume that it respects the range it is asked for.
    - Definition ids are pairs of numbers; resolutions and ABIs are tokens that are only
      compared. Items have the variants of the source; the data of a variant that no modelled
      function looks into is left out. The map from primitive types to definition ids that
      rustdoc keeps in a thread-local cache is an argument ([cache]).
    - The compiler is the record of the queries that a pass makes ([Tcx] in [CollectImpls]),
      and the passes that read more of it ([collect-intra-doc-links],
      [check-private-items-doc-tests], [check-code-block-syntax]) are an argument
      ([run_pass]) with a contract: they keep the items. The summaries of items ([Summary],
      with an instance in [DocSummary]), the JSON writer of the search index and the test for
      a directory are arguments as well; so are the parser of Markdown and the writer of
      HTML, which come from a third-party crate, and the highlighting, which [Highlight] models
      over the tokens that the lexer hands over ([Lexer], with the contract [lexes]); for
      documentation tests, the parser of Rust, the compiler (whose process can fail), the compiled
      program and the printer of attributes.
      Lazy iterators are run one after the other, since none reads the state of another.
    - Texts are bytes in UTF-8. Lower case, and the white space that separates the names of
      passes, are those of ASCII; the letters and digits beyond ASCII are an argument
      ([unicode_alphanumeric]).
    - Files: [std::fs] is a finite map from paths to files and directories, in which an
      operation fails only for the shape of the tree (no permissions or full disks).
    - The rules of ownership in [BodyRun] accept less than Rust does; a named type is never
      [Copy], as in the source, and the borrows that a result keeps are not tracked.
    - Fuel: recursion that is not structural ([_same_type], [_is_end_type],
      [fuzzable_call_type], the dependencies of helpers) runs with the size of its
      arguments as fuel, and its equation is proved without a bound ([Prelude.fixm_unfold]);
      the work list of [analyse_clean_krate] runs with the number of items, which
      [CrateWalk.walk_visits_every_item] shows to be enough. The iterators
      of Markdown and the loops of the
      highlighting and of the normalisation of a text run with the length of their input, and
      their theorems say that this is enough: an iterator or a loop that runs out of
      fuel has no result but [Panicked]. All other loops are bounded in the source and
      are folds over their ranges.

    ** What is not modelled

    The compiler and the cleaning of its data ([clean/mod.rs], [clean/inline.rs]), which
    produce the crate that the run starts from: [Described] says what is expected of it. The
    parsing of the tokens of attributes, the marking of attributes as used, spans, and the
    report of errors at the end of the run. The source directories of external crates, the
    writing of the other HTML pages, and the column widths of the coverage table. The layout of
    a page and the files that all pages share ([write_shared]) are arguments, and so is the
    lexer of the compiler. The links and the Rust code blocks that [html/markdown.rs] extracts with their
    source positions; the compiler session of [test.rs] and the order in which the compiler
    visits the items: [TestCollect] starts from the tree of the items. The messages of the
    searches that carry no data. That the emitted Rust files
    compile as a whole is not stated: the typing of argument expressions, the ownership of
    variables and the values of the decoders are. *)

From stdpp Require Export base tactics option list gmap strings pretty.
From stdpp Require Import relations.

#[export] Set Warnings "-register-all".

(** ** Outcomes of Rust code

    A Rust function returns a value, panics (an index out of bounds, [unwrap] of
    [None], [panic!]) or leaves the process with [std::process::exit]. *)
Inductive outcome (A : Type) : Type :=
| Ret (a : A)
| Panicked
| Exited (code : Z).
Arguments Ret {A} a.
Arguments Panicked {A}.
Arguments Exited {A} code.

#[export] Instance outcome_ret : MRet outcome := fun A a => Ret a.
#[export] Instance outcome_bind : MBind outcome := fun A B f o =>
  match o with
  | Ret a => f a
  | Panicked => Panicked
  | Exited c => Exited c
  end.
#[export] Instance outcome_fmap : FMap outcome := fun A B f o =>
  match o with
  | Ret a => Ret (f a)
  | Panicked => Panicked
  | Exited c => Exited c
  end.

(** [Option::unwrap]. *)
Definition unwrap {A} (o : option A) : outcome A :=
  match o with Some a => Ret a | None => Panicked end.

(** [v[i]] on a [Vec]: out of range it panics. *)
Definition vec_index {A} (v : list A) (i : nat) : outcome A := unwrap (v !! i).

(** [v[i] = x] on a [Vec]: out of range it panics. *)
Definition vec_store {A} (v : list A) (i : nat) (x : A) : outcome (list A) :=
  if decide (i < length v) then Ret (<[i := x]> v) else Panicked.

Declare Scope rust_scope.
Delimit Scope rust_scope with rust.
Notation "v .[ i ]" := (vec_index v i)
  (at level 1, left associativity, format "v .[ i ]") : rust_scope.
Open Scope rust_scope.

(** Total correctness: the code returns, with a value that satisfies [Q]. *)
Definition returns {A} (o : outcome A) (Q : A -> Prop) : Prop :=
  match o with Ret a => Q a | _ => False end.

Lemma returns_ret {A} (a : A) (Q : A -> Prop) : Q a -> returns (mret a) Q.
Proof. done. Qed.

Lemma returns_bind {A B} (o : outcome A) (f : A -> outcome B) (P : A -> Prop) Q :
  returns o P -> (forall a, P a -> returns (f a) Q) -> returns (o ≫= f) Q.
Proof. destruct o; simpl; intuition. Qed.

Lemma returns_mono {A} (o : outcome A) (P Q : A -> Prop) :
  returns o P -> (forall a, P a -> Q a) -> returns o Q.
Proof. destruct o; simpl; auto. Qed.

Lemma returns_and {A} (o : outcome A) (P Q : A -> Prop) :
  returns o P -> returns o Q -> returns o (fun a => P a /\ Q a).
Proof. destruct o; simpl; auto. Qed.

Lemma returns_exists {A} (o : outcome A) (Q : A -> Prop) :
  returns o Q <-> exists a, o = Ret a /\ Q a.
Proof.
  destruct o as [a| |c]; simpl; split; intros H.
  - by exists a.
  - by destruct H as (? & [= <-] & ?).
  - done.
  - by destruct H as (? & ? & _).
  - done.
  - by destruct H as (? & ? & _).
Qed.

Lemma returns_unwrap {A} (o : option A) a (Q : A -> Prop) :
  o = Some a -> Q a -> returns (unwrap o) Q.
Proof. by intros ->. Qed.

Lemma returns_bind_unwrap {A B} (o : option A) a (f : A -> outcome B) Q :
  o = Some a -> returns (f a) Q -> returns (unwrap o ≫= f) Q.
Proof. by intros ->. Qed.

Lemma returns_index {A} (v : list A) i (Q : A -> Prop) :
  i < length v -> (forall a, v !! i = Some a -> Q a) -> returns (v.[i]) Q.
Proof.
  intros [a Ha]%lookup_lt_is_Some_2 HQ. unfold vec_index. rewrite Ha. simpl. auto.
Qed.

Lemma returns_bind_index {A B} (v : list A) i (f : A -> outcome B) Q :
  i < length v -> (forall a, v !! i = Some a -> returns (f a) Q) -> returns (v.[i] ≫= f) Q.
Proof.
  intros [a Ha]%lookup_lt_is_Some_2 HQ. apply (returns_bind_unwrap _ a); auto.
Qed.

Lemma returns_store {A} (v : list A) i x (Q : list A -> Prop) :
  i < length v -> Q (<[i := x]> v) -> returns (vec_store v i x) Q.
Proof. intros Hi HQ. unfold vec_store. by rewrite decide_True. Qed.

(** ** [for] loops

    The body of a loop continues ([Next]: the end of the body or [continue]),
    stops the loop ([Break]) or returns from the function ([Return]). *)
Inductive flow (S R : Type) : Type :=
| Next (s : S)
| Break (s : S)
| Return (r : R).
Arguments Next {S R} s.
Arguments Break {S R} s.
Arguments Return {S R} r.

Section for_loop.
Context {A S R : Type}.

Fixpoint for_loop (body : A -> S -> outcome (flow S R)) (xs : list A) (s : S)
    : outcome (S + R) :=
  match xs with
  | [] => mret (inl s)
  | x :: xs' =>
      f ← body x s;
      match f with
      | Next s' => for_loop body xs' s'
      | Break s' => mret (inl s')
      | Return r => mret (inr r)
      end
  end.

(** Total-correctness rule: an invariant indexed by the elements done. *)
Lemma for_loop_returns_from (body : A -> S -> outcome (flow S R)) (I : list A -> S -> Prop)
    (QB : S -> Prop) (QR : R -> Prop) xs : forall done s,
  I done s ->
  (forall pre x post s, xs = pre ++ x :: post -> I (done ++ pre) s ->
     returns (body x s) (fun f => match f with
       | Next s' => I (done ++ pre ++ [x]) s'
       | Break s' => QB s'
       | Return r => QR r
       end)) ->
  (forall s, I (done ++ xs) s -> QB s) ->
  returns (for_loop body xs s) (fun r => match r with inl s => QB s | inr r => QR r end).
Proof.
  induction xs as [|x xs IH]; intros done s HI Hstep Hend; cbn [for_loop].
  - apply returns_ret. apply Hend. by rewrite app_nil_r.
  - eapply returns_bind.
    { apply (Hstep [] x xs s); [done|]. by rewrite app_nil_r. }
    intros [s'|s'|r] Hf; [|by apply returns_ret|by apply returns_ret].
    apply (IH (done ++ [x])).
    + exact Hf.
    + intros pre y post s0 -> Hs0.
      eapply returns_mono; [apply (Hstep (x :: pre) y post s0); [done|]|].
      * by rewrite <- app_assoc in Hs0.
      * intros [?|?|?]; simpl; auto. by rewrite <- !app_assoc.
    + intros s0. rewrite <- app_assoc. apply Hend.
Qed.

Lemma for_loop_returns (body : A -> S -> outcome (flow S R)) (I : list A -> S -> Prop)
    (QB : S -> Prop) (QR : R -> Prop) xs s :
  I [] s ->
  (forall pre x post s, xs = pre ++ x :: post -> I pre s ->
     returns (body x s) (fun f => match f with
       | Next s' => I (pre ++ [x]) s'
       | Break s' => QB s'
       | Return r => QR r
       end)) ->
  (forall s, I xs s -> QB s) ->
  returns (for_loop body xs s) (fun r => match r with inl s => QB s | inr r => QR r end).
Proof. intros. by apply (for_loop_returns_from _ I QB QR xs [] s). Qed.
End for_loop.

(** A loop whose body never leaves the function: the final state. *)
Definition run_loop {A S} (body : A -> S -> outcome (flow S Empty_set)) (xs : list A) (s : S)
    : outcome S :=
  r ← for_loop (R := Empty_set) body xs s;
  match r with inl s' => mret s' | inr e => match (e : Empty_set) with end end.

Lemma run_loop_returns {A S} (body : A -> S -> outcome (flow S Empty_set))
    (I : list A -> S -> Prop) (QB : S -> Prop) xs s :
  I [] s ->
  (forall pre x post s, xs = pre ++ x :: post -> I pre s ->
     returns (body x s) (fun f => match f with
       | Next s' => I (pre ++ [x]) s'
       | Break s' => QB s'
       | Return _ => False
       end)) ->
  (forall s, I xs s -> QB s) ->
  returns (run_loop body xs s) QB.
Proof.
  intros H0 Hstep Hend. unfold run_loop.
  eapply returns_bind.
  - apply (for_loop_returns body I QB (fun _ => False) xs s H0 Hstep Hend).
  - intros [s'|[]] Hs'. by apply returns_ret.
Qed.

(** [for x in xs { ... }] with neither [break] nor [return]. *)
Fixpoint fold_loop {A S} (body : A -> S -> outcome S) (xs : list A) (s : S) : outcome S :=
  match xs with
  | [] => mret s
  | x :: xs' => s' ← body x s; fold_loop body xs' s'
  end.

Lemma fold_loop_app {A S} (body : A -> S -> outcome S) xs ys s :
  fold_loop body (xs ++ ys) s = (s' ← fold_loop body xs s; fold_loop body ys s').
Proof.
  revert s; induction xs as [|x xs IH]; intros s; [done|].
  cbn [app fold_loop]. destruct (body x s); simpl; auto.
Qed.

(** A loop on a state simulates the loop on a part of the state. *)
Lemma fold_loop_fmap {A S T} (h : S -> T) (body : A -> S -> outcome S)
    (body' : A -> T -> outcome T) xs s :
  (forall x s, h <$> body x s = body' x (h s)) ->
  h <$> fold_loop body xs s = fold_loop body' xs (h s).
Proof.
  intros Hb. revert s. induction xs as [|x xs IH]; intros s; [done|].
  cbn [fold_loop]. rewrite <- Hb. destruct (body x s); cbn; [apply IH|done..].
Qed.

(** What one iteration adds at most to a measure, summed over the loop. *)
Lemma fold_loop_measure {A S} (m : S -> nat) (w : A -> nat) (body : A -> S -> outcome S)
    xs s s' :
  (forall x s s', body x s = Ret s' -> m s' <= m s + w x) ->
  fold_loop body xs s = Ret s' -> m s' <= m s + sum_list_with w xs.
Proof.
  intros Hb. revert s. induction xs as [|x xs IH]; intros s; cbn.
  - intros [= <-]. lia.
  - destruct (body x s) as [s1| |] eqn:H1; cbn; try done.
    intros H2%IH. apply Hb in H1. lia.
Qed.

Lemma sum_list_with_const {A} c (xs : list A) : sum_list_with (fun _ => c) xs = length xs * c.
Proof. induction xs; cbn; lia. Qed.

Lemma fold_loop_returns {A S} (body : A -> S -> outcome S) (I : list A -> S -> Prop) xs s :
  I [] s ->
  (forall pre x post s, xs = pre ++ x :: post -> I pre s ->
     returns (body x s) (fun s' => I (pre ++ [x]) s')) ->
  returns (fold_loop body xs s) (I xs).
Proof.
  revert s. induction xs as [|x xs IH] using rev_ind; intros s H0 Hstep; [done|].
  rewrite fold_loop_app. eapply returns_bind.
  - apply IH; [done|]. intros pre y post s0 -> HI. apply (Hstep pre y (post ++ [x])); [|done].
    by rewrite <- app_assoc.
  - intros s1 H1. cbn [fold_loop]. eapply returns_bind.
    + apply (Hstep xs x [] s1); [done|exact H1].
    + intros s2 H2. by apply returns_ret.
Qed.

(** [f] on every element, in order: [iter().map(f).collect()]. *)
Fixpoint map_loop {A B} (f : A -> outcome B) (l : list A) : outcome (list B) :=
  match l with
  | [] => mret []
  | x :: l => y ← f x; ys ← map_loop f l; mret (y :: ys)
  end.

Lemma map_loop_returns {A B} (f : A -> outcome B) (R : A -> B -> Prop) l :
  (forall x, x ∈ l -> returns (f x) (R x)) -> returns (map_loop f l) (Forall2 R l).
Proof.
  induction l as [|x l IH]; intros Hf; cbn [map_loop]; [by apply returns_ret|].
  eapply returns_bind; [apply Hf; set_solver|]. intros y Hy.
  eapply returns_bind; [apply IH; set_solver|]. intros ys Hys. apply returns_ret. by constructor.
Qed.

(** ** Recursion on a measure

    [fixm] runs a functional with as much fuel as the measure of its argument. It
    satisfies the recursive equation as soon as the functional only calls itself
    on arguments of a smaller measure. *)
Section measure.
Context {X A : Type} (m : X -> nat) (F : (X -> A) -> X -> A) (default : A).

Definition fixm_fuel (n : nat) : X -> A := Nat.iter n F (fun _ => default).
Definition fixm (x : X) : A := fixm_fuel (S (m x)) x.

Definition contractive : Prop :=
  forall f g x, (forall y, m y < m x -> f y = g y) -> F f x = F g x.

Context (HF : contractive).

Lemma fixm_fuel_enough n k x : m x < n -> m x < k -> fixm_fuel n x = fixm_fuel k x.
Proof using HF.
  revert k x; induction n as [|n IH]; intros [|k] x Hn Hk; try lia.
  cbn. apply HF. intros y Hy. apply IH; lia.
Qed.

Lemma fixm_unfold x : fixm x = F fixm x.
Proof using HF.
  unfold fixm at 1. cbn. apply HF. intros y Hy.
  apply fixm_fuel_enough; lia.
Qed.
End measure.
