(* ===== verification/RustStd.v ===== *)
(** The parts of the Rust standard library that the generator uses: [str] and
    [String] operations, [to_string] on [usize], the casts [as i32] and
    [as usize], and the iteration order of [HashSet] and [HashMap], which the
    language leaves open. *)

From stdpp Require Import relations.
From S2P Require Import Prelude.

(** ** [Result] *)
Inductive result (E A : Type) : Type := Ok (a : A) | Err (e : E).
Arguments Ok {E A}. Arguments Err {E A}.

(** The operator [?]. *)
#[export] Instance result_ret {E} : MRet (result E) := fun A a => Ok a.
#[export] Instance result_bind {E} : MBind (result E) := fun A B f r =>
  match r with Ok a => f a | Err e => Err e end.

(** ** Strings *)

#[global] Arguments String.append !_ _ / : simpl nomatch.

(** [s.starts_with(p)]. *)
Definition starts_with (s p : string) : bool := String.prefix p s.

(** [s.contains(pat)]. *)
Fixpoint str_contains (s pat : string) : bool :=
  starts_with s pat ||
  match s with
  | EmptyString => false
  | String _ s' => str_contains s' pat
  end.

(** [s.split(pat)] for a non-empty pattern: matches are found from the left and do
    not overlap; [skip] characters of the current match are still to be dropped. *)
Fixpoint split_skip (pat : string) (skip : nat) (s : string) : list string :=
  match s with
  | EmptyString => [EmptyString]
  | String c s' =>
      match skip with
      | S k => split_skip pat k s'
      | O =>
          if starts_with s pat then
            EmptyString :: split_skip pat (String.length pat - 1) s'
          else
            match split_skip pat 0 s' with
            | h :: t => String c h :: t
            | [] => [String c EmptyString]
            end
      end
  end.

Definition split_str (s pat : string) : list string := split_skip pat 0 s.

(** [v.join(sep)]. *)
Fixpoint join (sep : string) (v : list string) : string :=
  match v with
  | [] => EmptyString
  | [x] => x
  | x :: v' => x +:+ sep +:+ join sep v'
  end.

(** [s.replace(from, to)]. *)
Definition str_replace (s from to : string) : string := join to (split_str s from).

(** [n.to_string()] and [{}] on a [usize]. *)
Definition usize_to_string (n : nat) : string := pretty n.

(** A double quote character, and a newline. *)
Definition dquote : string := String (Ascii.ascii_of_nat 34) EmptyString.
Definition nl : string := String (Ascii.ascii_of_nat 10) EmptyString.

(** Well-formed UTF-8 ([str::from_utf8]). *)
Definition continuation (b : Z) : bool := ((128 <=? b) && (b <? 192))%Z.

Fixpoint utf8 (bytes : list Z) : bool :=
  match bytes with
  | [] => true
  | b0 :: l1 =>
      if (b0 <? 128)%Z then utf8 l1
      else
        match l1 with
        | [] => false
        | b1 :: l2 =>
            if ((194 <=? b0) && (b0 <? 224))%Z then continuation b1 && utf8 l2
            else
              match l2 with
              | [] => false
              | b2 :: l3 =>
                  if ((224 <=? b0) && (b0 <? 240))%Z then
                    (if (b0 =? 224)%Z then ((160 <=? b1) && (b1 <? 192))%Z
                     else if (b0 =? 237)%Z then ((128 <=? b1) && (b1 <? 160))%Z
                     else continuation b1) && continuation b2 && utf8 l3
                  else
                    match l3 with
                    | [] => false
                    | b3 :: l4 =>
                        ((240 <=? b0) && (b0 <? 245))%Z
                        && (if (b0 =? 240)%Z then ((144 <=? b1) && (b1 <? 192))%Z
                            else if (b0 =? 244)%Z then ((128 <=? b1) && (b1 <? 144))%Z
                            else continuation b1)
                        && continuation b2 && continuation b3 && utf8 l4
                    end
              end
        end
  end.

(** The bytes of a text. *)
Fixpoint bytes_of (s : string) : list Z :=
  match s with
  | EmptyString => []
  | String c s => Z.of_nat (Ascii.nat_of_ascii c) :: bytes_of s
  end.
Definition str_utf8 (s : string) : Prop := utf8 (bytes_of s) = true.

(** [char::is_whitespace], on the UTF-8 bytes of a character: one, two or three. *)
Definition is_whitespace (c : Ascii.ascii) : bool :=
  let n := Ascii.nat_of_ascii c in (n =? 32) || ((9 <=? n) && (n <=? 13)).
Definition is_whitespace2 (c d : Ascii.ascii) : bool :=
  let n := Ascii.nat_of_ascii d in
  (Ascii.nat_of_ascii c =? 194) && ((n =? 133) || (n =? 160)).
Definition is_whitespace3 (c d e : Ascii.ascii) : bool :=
  let m := Ascii.nat_of_ascii d in
  let n := Ascii.nat_of_ascii e in
  let k := Ascii.nat_of_ascii c in
  ((k =? 225) && (m =? 154) && (n =? 128))
  || ((k =? 226) && (m =? 128)
      && (((128 <=? n) && (n <=? 138)) || (n =? 168) || (n =? 169) || (n =? 175)))
  || ((k =? 226) && (m =? 129) && (n =? 159))
  || ((k =? 227) && (m =? 128) && (n =? 128)).

(** [s.trim_start()]. *)
Fixpoint trim_start (s : string) : string :=
  match s with
  | EmptyString => EmptyString
  | String c s1 =>
      if is_whitespace c then trim_start s1
      else
        match s1 with
        | EmptyString => s
        | String d s2 =>
            if is_whitespace2 c d then trim_start s2
            else
              match s2 with
              | EmptyString => s
              | String e s3 => if is_whitespace3 c d e then trim_start s3 else s
              end
        end
  end.

(** [s.chars().all(|c| c.is_whitespace())]. *)
Definition all_whitespace (s : string) : bool := bool_decide (trim_start s = EmptyString).

(** A line without a carriage return at its end. *)
Fixpoint without_cr (s : string) : string :=
  match s with
  | EmptyString => EmptyString
  | String c EmptyString => if Ascii.nat_of_ascii c =? 13 then EmptyString else s
  | String c s' => String c (without_cr s')
  end.

(** [s.split_terminator(pat)] and [s.lines()]. *)
Definition split_terminator (s pat : string) : list string :=
  let v := split_str s pat in
  if bool_decide (last v = Some EmptyString) then take (length v - 1) v else v.
Definition lines (s : string) : list string := without_cr <$> split_terminator s nl.

(** [s.get(i..)], for [i] at most the length: [None] inside a character. *)
Fixpoint str_drop (i : nat) (s : string) : string :=
  match i, s with
  | S i, String _ s => str_drop i s
  | _, _ => s
  end.
Definition inside_char (s : string) : bool :=
  match s with
  | EmptyString => false
  | String c _ => (128 <=? Ascii.nat_of_ascii c) && (Ascii.nat_of_ascii c <? 192)
  end.

(** [s[i..]]: panics out of range and inside a character. *)
Definition str_slice_from (s : string) (i : nat) : outcome string :=
  if (i <=? String.length s) && negb (inside_char (str_drop i s)) then mret (str_drop i s)
  else Panicked.

(** [s[i..j]]. *)
Definition str_slice (s : string) (i j : nat) : outcome string :=
  if (i <=? j) && (j <=? String.length s) && negb (inside_char (str_drop i s))
     && negb (inside_char (str_drop j s))
  then mret (String.substring i (j - i) s)
  else Panicked.

(** [usize::MAX]. *)
Definition usize_MAX : N := 2 ^ 64 - 1.

(** [v.pop()] on a [Vec]; the element is dropped by the callers. *)
Definition vec_pop {A} (v : list A) : list A := take (length v - 1) v.

Lemma str_app_nil_r s : s +:+ EmptyString = s.
Proof. induction s; simpl; congruence. Qed.

Lemma str_app_assoc (s1 s2 s3 : string) : s1 +:+ (s2 +:+ s3) = (s1 +:+ s2) +:+ s3.
Proof. induction s1; simpl; congruence. Qed.

Lemma str_length_app (s1 s2 : string) :
  String.length (s1 +:+ s2) = String.length s1 + String.length s2.
Proof. induction s1; simpl; congruence. Qed.

Lemma str_app_inj_r (s1 s2 t : string) : s1 +:+ t = s2 +:+ t -> s1 = s2.
Proof.
  revert s2. induction s1 as [|c s1 IH]; intros [|d s2] Heq; [done|..].
  - apply (f_equal String.length) in Heq. rewrite !str_length_app in Heq. simpl in Heq. lia.
  - apply (f_equal String.length) in Heq. rewrite !str_length_app in Heq. simpl in Heq. lia.
  - simpl in Heq. injection Heq as -> Heq. f_equal. by apply IH.
Qed.

Lemma starts_with_spec s p : starts_with s p = true <-> exists t, s = p +:+ t.
Proof.
  unfold starts_with. revert s. induction p as [|c p IH]; intros s; simpl.
  - split; [by exists s|by destruct s].
  - destruct s as [|d s]; [split; [done|by intros [? ?]]|].
    cbn [String.prefix]. case_match; [subst d|].
    + rewrite IH. split; intros [t Ht]; exists t; [by subst|by simplify_eq].
    + split; [done|intros [t Ht]; simplify_eq].
Qed.

Lemma starts_with_refl s : starts_with s s = true.
Proof. apply starts_with_spec. exists EmptyString. by rewrite str_app_nil_r. Qed.

Lemma starts_with_app s t : starts_with (s +:+ t) s = true.
Proof. apply starts_with_spec. by exists t. Qed.

Lemma str_contains_spec s pat :
  str_contains s pat = true <-> exists pre post, s = pre +:+ pat +:+ post.
Proof.
  induction s as [|c s IH]; cbn [str_contains]; rewrite orb_true_iff, starts_with_spec.
  - split.
    + intros [[t Ht]|?]; [by exists EmptyString, t|done].
    + intros (pre & post & Heq). left. exists post. by destruct pre.
  - rewrite IH. split.
    + intros [[t Ht]|(pre & post & ->)]; [by exists EmptyString, t|].
      by exists (String c pre), post.
    + intros (pre & post & Heq). destruct pre as [|d pre]; simpl in Heq; simplify_eq.
      * left. by exists post.
      * right. by exists pre, post.
Qed.

Lemma split_skip_nonempty pat k s : split_skip pat k s <> [].
Proof.
  revert k. induction s as [|c s IH]; intros k; cbn [split_skip]; [done|].
  destruct k; [|apply IH]. destruct (starts_with _ _); [done|].
  destruct (split_skip pat 0 s); done.
Qed.

Lemma join_cons sep x v : v <> [] -> join sep (x :: v) = x +:+ sep +:+ join sep v.
Proof. destruct v; done. Qed.

Lemma join_cons_head sep c h v :
  join sep (String c h :: v) = String c (join sep (h :: v)).
Proof. destruct v; done. Qed.

Lemma join_snoc sep v x : v <> [] -> join sep (v ++ [x]) = join sep v +:+ sep +:+ x.
Proof.
  induction v as [|y v IH]; [done|]. intros _. destruct (decide (v = [])) as [->|Hv]; [done|].
  cbn [app]. rewrite !join_cons by (try done; by destruct v). rewrite IH by done.
  by rewrite !str_app_assoc.
Qed.

Lemma split_skip_drop pat p s :
  split_skip pat (String.length p) (p +:+ s) = split_skip pat 0 s.
Proof.
  induction p as [|c p IH]; [by destruct s|]. exact IH.
Qed.

(** Splitting and joining with the same separator gives the string back. *)
Lemma join_split pat s : pat <> EmptyString -> join pat (split_str s pat) = s.
Proof.
  intros Hpat. unfold split_str.
  induction s as [s IH] using (well_founded_induction
    (well_founded_ltof _ String.length)).
  destruct s as [|c s]; [done|]. cbn [split_skip].
  destruct (starts_with (String c s) pat) eqn:Hpre.
  - apply starts_with_spec in Hpre as [t Ht].
    destruct pat as [|d p]; [done|]. simpl in Ht. injection Ht as -> ->.
    cbn [String.length]. rewrite Nat.sub_1_r, Nat.pred_succ.
    rewrite split_skip_drop, join_cons by apply split_skip_nonempty.
    rewrite IH; [done|]. unfold ltof. simpl. rewrite str_length_app. lia.
  - assert (Hs : join pat (split_skip pat 0 s) = s).
    { apply IH. unfold ltof. simpl. lia. }
    destruct (split_skip pat 0 s) as [|h t] eqn:Hsp.
    + by apply split_skip_nonempty in Hsp.
    + by rewrite join_cons_head, Hs.
Qed.

(** Replacing a pattern by itself changes nothing. *)
Lemma str_replace_same s pat : pat <> EmptyString -> str_replace s pat pat = s.
Proof. apply join_split. Qed.

Lemma split_not_contains s pat : str_contains s pat = false -> split_str s pat = [s].
Proof.
  unfold split_str. induction s as [|c s IH]; [done|].
  cbn [str_contains split_skip]. intros [-> Hs]%orb_false_iff.
  by rewrite IH.
Qed.

Lemma str_replace_not_contains s pat to :
  str_contains s pat = false -> str_replace s pat to = s.
Proof. intros H. unfold str_replace. by rewrite split_not_contains. Qed.

(** [as i32] and [as usize] on a 64-bit target, with their wrap-around. *)
Definition as_i32 (z : Z) : Z :=
  let w := Z.modulo z (2 ^ 32) in
  if Z.ltb w (2 ^ 31) then w else (w - 2 ^ 32)%Z.
Definition as_usize (z : Z) : nat := Z.to_nat (Z.modulo z (2 ^ 64)).

Lemma as_usize_i32_small (n : nat) :
  (Z.of_nat n < 2 ^ 31)%Z -> as_usize (as_i32 (Z.of_nat n)) = n.
Proof.
  intros H. unfold as_usize, as_i32.
  rewrite (Z.mod_small (Z.of_nat n)) by lia.
  rewrite (proj2 (Z.ltb_lt _ _)) by lia.
  rewrite Z.mod_small by lia. lia.
Qed.

(** ** Iteration order of [HashSet] and [HashMap]

    A loop over a hash set visits every element once, in an order that depends on
    the hasher and on the history of the set. [hash_order site s] is the order at
    the iteration identified by [site]: any permutation of the elements. *)
Class HashOrder := {
  hash_order : forall {A : Type} `{Countable A}, nat -> gset A -> list A;
  hash_order_perm : forall {A : Type} `{Countable A} (site : nat) (s : gset A),
    hash_order site s ≡ₚ elements s
}.

(** One admissible order: the canonical one of the finite set. *)
#[local] Obligation Tactic := idtac.
#[export] Program Instance canonical_order : HashOrder | 100 := {|
  hash_order := fun A _ _ _ s => elements s
|}.
Next Obligation. done. Qed.

Section hash_order.
Context `{HashOrder} {A : Type} `{Countable A}.

Lemma elem_of_hash_order site (s : gset A) x : x ∈ hash_order site s <-> x ∈ s.
Proof. rewrite hash_order_perm. apply elem_of_elements. Qed.

Lemma NoDup_hash_order site (s : gset A) : NoDup (hash_order site s).
Proof. rewrite hash_order_perm. apply NoDup_elements. Qed.

Lemma length_hash_order site (s : gset A) : length (hash_order site s) = size s.
Proof. by rewrite hash_order_perm. Qed.
End hash_order.

(** A loop over a hash map: the pairs, in the order of the keys. *)
Definition map_order `{HashOrder} {K V} `{Countable K} (site : nat) (m : gmap K V)
    : list (K * V) :=
  omap (fun k => (fun v => (k, v)) <$> m !! k) (hash_order site (dom m)).

Lemma elem_of_map_order `{HashOrder} {K V} `{Countable K} site (m : gmap K V) k v :
  (k, v) ∈ map_order site m <-> m !! k = Some v.
Proof.
  unfold map_order. rewrite list_elem_of_omap. split.
  - intros (k' & _ & Hk). destruct (m !! k') eqn:Hm; simpl in Hk; by simplify_eq.
  - intros Hk. exists k. rewrite elem_of_hash_order, elem_of_dom, Hk. by split.
Qed.

Lemma map_order_perm `{HashOrder} {K V} `{Countable K} site (m : gmap K V) :
  map_order site m ≡ₚ map_to_list m.
Proof.
  apply NoDup_Permutation; [|apply NoDup_map_to_list|].
  - unfold map_order. pose proof (NoDup_hash_order site (dom m)) as Hnd.
    induction Hnd as [|k l Hk _ IH]; cbn; [constructor|].
    destruct (m !! k) as [v|]; cbn; [|exact IH]. constructor; [|exact IH].
    intros (k' & Hk' & Hv)%list_elem_of_omap. destruct (m !! k'); cbn in Hv; by simplify_eq.
  - intros [k v]. by rewrite elem_of_map_order, elem_of_map_to_list.
Qed.

Create HintDb rust discriminated.
Create Rewrite HintDb rust_str.
#[export] Hint Resolve starts_with_refl starts_with_app split_skip_nonempty : rust.
#[export] Hint Rewrite str_app_nil_r str_length_app : rust_str.
