(* ===== verification/TextLines.v ===== *)
(** Lines of text and white space: how [split], [join] and [lines] fit together, and what
    trimming and cutting a line leaves of it; and the normalisation of the text of a source
    file. *)

From S2P Require Import Prelude RustStd.

(** ** Induction on suffixes *)

Lemma string_suffix_ind (P : string -> Prop) :
  (forall s, (forall t, String.length t < String.length s -> P t) -> P s) -> forall s, P s.
Proof.
  intros Hstep s. induction s as [s IH] using (induction_ltof1 _ String.length).
  apply Hstep. intros t Ht. by apply IH.
Qed.

(** ** Trimming *)

(** The four ways a text can begin. *)
Lemma trim_start_cases (P : string -> string -> Prop) s :
  (trim_start s = s -> P s s) ->
  (forall pre t, s = pre +:+ t -> pre <> EmptyString -> trim_start s = trim_start t ->
     P s (trim_start t)) ->
  P s (trim_start s).
Proof.
  intros Hstop Hgo. destruct s as [|c s1]; [by apply Hstop|]. cbn [trim_start] in *.
  destruct (is_whitespace c).
  { by apply (Hgo (String c EmptyString)). }
  destruct s1 as [|d s2]; [by apply Hstop|].
  destruct (is_whitespace2 c d).
  { by apply (Hgo (String c (String d EmptyString))). }
  destruct s2 as [|e s3]; [by apply Hstop|].
  destruct (is_whitespace3 c d e); [|by apply Hstop].
  by apply (Hgo (String c (String d (String e EmptyString)))).
Qed.

Lemma nonempty_length pre : pre <> EmptyString -> 0 < String.length pre.
Proof. destruct pre; cbn; [done|lia]. Qed.

Lemma trim_start_suffix s : exists pre, s = pre +:+ trim_start s.
Proof.
  induction s as [s IH] using string_suffix_ind.
  apply (trim_start_cases (fun s t => exists pre, s = pre +:+ t)).
  - intros _. by exists EmptyString.
  - intros pre t -> Hpre _. destruct (IH t) as [p Hp].
    { rewrite str_length_app. apply nonempty_length in Hpre. lia. }
    exists (pre +:+ p). by rewrite <- str_app_assoc, <- Hp.
Qed.

Lemma trim_start_idem s : trim_start (trim_start s) = trim_start s.
Proof.
  induction s as [s IH] using string_suffix_ind.
  apply (trim_start_cases (fun s t => trim_start t = t)); [done|].
  intros pre t -> Hpre _. apply IH.
  rewrite str_length_app. apply nonempty_length in Hpre. lia.
Qed.

Lemma all_whitespace_trim s : all_whitespace (trim_start s) = all_whitespace s.
Proof. unfold all_whitespace. by rewrite trim_start_idem. Qed.

(** The number of spaces and tabs at the beginning. *)
Definition is_indent (c : Ascii.ascii) : bool :=
  (Ascii.nat_of_ascii c =? 32) || (Ascii.nat_of_ascii c =? 9).
Fixpoint indentation (s : string) : nat :=
  match s with
  | String c s => if is_indent c then S (indentation s) else 0
  | EmptyString => 0
  end.

Lemma is_indent_whitespace c : is_indent c = true -> is_whitespace c = true.
Proof.
  unfold is_indent, is_whitespace. by intros [->%Nat.eqb_eq| ->%Nat.eqb_eq]%orb_true_iff.
Qed.

Lemma indentation_length s : indentation s <= String.length s.
Proof. induction s as [|c s IH]; cbn; [lia|]. destruct (is_indent c); lia. Qed.

(** Cutting a line inside its indentation. *)
Lemma drop_indentation s : forall i, i <= indentation s ->
  all_whitespace (str_drop i s) = all_whitespace s.
Proof.
  induction s as [|c s IH]; intros [|i] Hi; cbn [str_drop indentation] in *; try done.
  destruct (is_indent c) eqn:Hc; [|lia]. rewrite IH by lia.
  unfold all_whitespace. cbn [trim_start]. by rewrite (is_indent_whitespace _ Hc).
Qed.

Lemma str_drop_suffix s : forall i, exists pre, s = pre +:+ str_drop i s.
Proof.
  induction s as [|c s IH]; intros [|i]; cbn [str_drop]; try by exists EmptyString.
  destruct (IH i) as [pre Hp]. exists (String c pre). simpl. by rewrite <- Hp.
Qed.

(** ** UTF-8 *)

Ltac utf8_step :=
  repeat match goal with
    | H : context [if ?b then _ else _] |- _ => destruct b eqn:?
    | |- context [if ?b then _ else _] => destruct b eqn:?
    end.

(** Texts are put together and taken apart at characters. *)
Lemma utf8_app a b : utf8 a = true -> utf8 (a ++ b) = utf8 b.
Proof.
  revert b. induction a as [a IH] using (induction_ltof1 _ length). intros b Ha.
  destruct a as [|b0 l1]; [done|]. cbn [utf8 app] in *.
  destruct (b0 <? 128)%Z; [apply IH; [unfold ltof; cbn; lia|done]|].
  destruct l1 as [|b1 l2]; [done|]. cbn [app].
  destruct ((194 <=? b0) && (b0 <? 224))%Z.
  { apply andb_true_iff in Ha as [-> Ha]. apply IH; [unfold ltof; cbn; lia|done]. }
  destruct l2 as [|b2 l3]; [done|]. cbn [app].
  destruct ((224 <=? b0) && (b0 <? 240))%Z.
  { apply andb_true_iff in Ha as [-> Ha]. apply IH; [unfold ltof; cbn; lia|done]. }
  destruct l3 as [|b3 l4]; [done|]. cbn [app].
  apply andb_true_iff in Ha as [-> Ha]. apply IH; [unfold ltof; cbn; lia|done].
Qed.

Lemma ascii_continuation c : (0 <= c < 128)%Z -> continuation c = false.
Proof. intros Hc. unfold continuation. destruct (Z.leb_spec 128 c); [lia|done]. Qed.

Lemma utf8_before_ascii a c b :
  (0 <= c < 128)%Z -> utf8 (a ++ c :: b) = true -> utf8 a = true.
Proof.
  intros Hc. revert b. induction a as [a IH] using (induction_ltof1 _ length). intros b Ha.
  assert (Hn := ascii_continuation c Hc).
  assert (Hrange : forall lo hi : Z, (128 <= lo)%Z -> ((lo <=? c) && (c <? hi))%Z = false).
  { intros lo hi Hlo. destruct (Z.leb_spec lo c); [lia|done]. }
  destruct a as [|b0 l1]; [done|]. cbn [utf8 app] in *.
  destruct (b0 <? 128)%Z; [eapply IH; [unfold ltof; cbn; lia|done]|].
  destruct l1 as [|b1 l2]; cbn [app] in Ha.
  { rewrite Hn, !Hrange in Ha by lia. utf8_step; destruct b as [|? [|? ?]]; cbn in Ha; utf8_step;
      rewrite ?andb_false_r in Ha; done. }
  destruct ((194 <=? b0) && (b0 <? 224))%Z.
  { apply andb_true_iff in Ha as [-> Ha]. eapply IH; [unfold ltof; cbn; lia|done]. }
  destruct l2 as [|b2 l3]; cbn [app] in Ha.
  { rewrite Hn, ?andb_false_r in Ha. utf8_step; destruct b as [|? ?]; cbn in Ha;
      rewrite ?andb_false_r in Ha; cbn in Ha; rewrite ?andb_false_r in Ha; done. }
  destruct ((224 <=? b0) && (b0 <? 240))%Z.
  { apply andb_true_iff in Ha as [-> Ha]. eapply IH; [unfold ltof; cbn; lia|done]. }
  destruct l3 as [|b3 l4]; cbn [app] in Ha.
  { by rewrite Hn, ?andb_false_r in Ha. }
  apply andb_true_iff in Ha as [-> Ha]. eapply IH; [unfold ltof; cbn; lia|done].
Qed.

Lemma bytes_of_app s t : bytes_of (s +:+ t) = bytes_of s ++ bytes_of t.
Proof. induction s as [|c s IH]; [done|]. cbn. by rewrite <- IH. Qed.

Lemma str_utf8_app s t : str_utf8 s -> str_utf8 (s +:+ t) <-> str_utf8 t.
Proof. intros Hs. unfold str_utf8. by rewrite bytes_of_app, utf8_app. Qed.

Definition is_ascii (c : Ascii.ascii) : Prop := Ascii.nat_of_ascii c < 128.

Lemma str_utf8_cons c s : is_ascii c -> str_utf8 (String c s) <-> str_utf8 s.
Proof.
  unfold is_ascii. intros Hc. unfold str_utf8. cbn.
  destruct (Z.ltb_spec (Z.of_nat (Ascii.nat_of_ascii c)) 128); [done|lia].
Qed.

Lemma str_utf8_before s c t : is_ascii c -> str_utf8 (s +:+ String c t) -> str_utf8 s /\ str_utf8 t.
Proof.
  unfold is_ascii. intros Hc Hs.
  assert (H1 : str_utf8 s).
  { unfold str_utf8 in *. rewrite bytes_of_app in Hs. cbn in Hs.
    eapply utf8_before_ascii; [|exact Hs]. lia. }
  split; [done|]. by rewrite str_utf8_app, str_utf8_cons in Hs.
Qed.

Lemma utf8_not_inside s : str_utf8 s -> inside_char s = false.
Proof.
  destruct s as [|c s]; [done|]. unfold str_utf8, inside_char. cbn [bytes_of].
  set (n := Ascii.nat_of_ascii c). intros Hs. clearbody n. apply not_true_iff_false.
  intros [H1%Nat.leb_le H2%Nat.ltb_lt]%andb_true_iff.
  assert (Hlt : forall k : Z, (192 <= k)%Z -> (k <=? Z.of_nat n)%Z = false) by (intros; lia).
  cbn [utf8] in Hs. rewrite !Hlt in Hs by lia. cbn [andb] in Hs.
  assert ((Z.of_nat n <? 128)%Z = false) as Hge by lia. rewrite Hge in Hs.
  by destruct (bytes_of s) as [|b1 [|b2 [|b3 l]]].
Qed.

Lemma indent_ascii c : is_indent c = true -> is_ascii c.
Proof. unfold is_indent, is_ascii. intros [->%Nat.eqb_eq| ->%Nat.eqb_eq]%orb_true_iff; lia. Qed.

Lemma drop_utf8 s : forall i, i <= indentation s -> str_utf8 s -> str_utf8 (str_drop i s).
Proof.
  induction s as [|c s IH]; intros [|i] Hi Hs; cbn [str_drop indentation] in *; try done.
  destruct (is_indent c) eqn:Hc; [|lia]. apply IH; [lia|].
  by apply (str_utf8_cons c s (indent_ascii c Hc)).
Qed.

Lemma whitespace3_utf8 c d e s :
  is_whitespace3 c d e = true -> str_utf8 (String c (String d (String e s))) -> str_utf8 s.
Proof.
  unfold is_whitespace3, str_utf8. intros He Hs.
  apply orb_true_iff in He as [[[He|He]%orb_true_iff|He]%orb_true_iff|He].
  all: apply andb_true_iff in He as [[Hk%Nat.eqb_eq Hm%Nat.eqb_eq]%andb_true_iff He].
  all: cbn [bytes_of] in Hs; rewrite Hk, Hm in Hs; cbn in Hs.
  all: by apply andb_true_iff in Hs as [_ Hs].
Qed.

(** Each white space character is a whole one. *)
Lemma trim_start_utf8 s : str_utf8 s -> str_utf8 (trim_start s).
Proof.
  induction s as [s IH] using string_suffix_ind. intros Hs.
  destruct s as [|c s1]; [done|]. cbn [trim_start].
  destruct (is_whitespace c) eqn:Hc.
  { apply IH; [cbn; lia|]. apply (str_utf8_cons c); [|done].
    unfold is_whitespace in Hc. unfold is_ascii.
    apply orb_true_iff in Hc as [->%Nat.eqb_eq|[_ Hc%Nat.leb_le]%andb_true_iff]; lia. }
  destruct s1 as [|d s2]; [done|]. destruct (is_whitespace2 c d) eqn:Hd.
  { apply IH; [cbn; lia|]. unfold is_whitespace2 in Hd. unfold str_utf8 in *.
    apply andb_true_iff in Hd as [Hn [Hm|Hm]%orb_true_iff]; apply Nat.eqb_eq in Hn, Hm;
      cbn in Hs; rewrite Hn, Hm in Hs; exact Hs. }
  destruct s2 as [|e s3]; [done|]. destruct (is_whitespace3 c d e) eqn:He; [|done].
  apply IH; [cbn; lia|]. by apply (whitespace3_utf8 c d e).
Qed.

(** ** Splitting at newlines *)

Definition has_newline (s : string) : bool := str_contains s nl.

Lemma starts_with_nl c s t : starts_with (String c s) nl = starts_with (String c t) nl.
Proof.
  unfold starts_with. change (String.prefix nl (String c ?s)) with
    (if Ascii.ascii_dec (Ascii.ascii_of_nat 10) c then String.prefix EmptyString s else false).
  destruct (Ascii.ascii_dec _ _); [by destruct s, t|done].
Qed.

Lemma split_nl_app s t :
  split_str (s +:+ nl +:+ t) nl = split_str s nl ++ split_str t nl.
Proof.
  unfold split_str. induction s as [|c s IH]; [by destruct t|].
  change (String c s +:+ nl +:+ t) with (String c (s +:+ nl +:+ t)). cbn [split_skip].
  rewrite (starts_with_nl c (s +:+ nl +:+ t) s). destruct (starts_with (String c s) nl).
  - change (String.length nl - 1) with 0. by rewrite IH.
  - rewrite IH. destruct (split_skip nl 0 s) as [|h l] eqn:Hs; [|done].
    by apply split_skip_nonempty in Hs.
Qed.

Lemma split_nl_nonempty s : split_str s nl <> [].
Proof. apply split_skip_nonempty. Qed.

(** Texts with newlines, line by line. *)
Lemma lines_ind (P : string -> Prop) :
  (forall l, has_newline l = false -> P l) ->
  (forall l s, has_newline l = false -> P s -> P (l +:+ nl +:+ s)) -> forall s, P s.
Proof.
  intros Hone Hmore s. rewrite <- (join_split nl s) by done.
  assert (Hall : Forall (fun l => has_newline l = false) (split_str s nl)).
  { unfold split_str, has_newline. induction s as [|c s IH]; [by repeat constructor|].
    cbn [split_skip]. destruct (starts_with (String c s) nl) eqn:Hc; [by constructor|].
    destruct (split_skip nl 0 s) as [|h l] eqn:Hs; [by apply split_skip_nonempty in Hs|].
    apply Forall_cons in IH as [Hh Hl]. constructor; [|done].
    cbn [str_contains]. by rewrite (starts_with_nl c _ s), Hc. }
  pose proof (split_nl_nonempty s) as Hne. induction Hall as [|l ls Hl Hls IH]; [done|].
  destruct (decide (ls = [])) as [->|Hls']; [by apply Hone|].
  rewrite join_cons by done. auto.
Qed.

Lemma split_line l : has_newline l = false -> split_str l nl = [l].
Proof. apply split_not_contains. Qed.

Lemma split_newlines s : Forall (fun l => has_newline l = false) (split_str s nl).
Proof.
  induction s as [l Hl|l s Hl IH] using lines_ind; rewrite ?split_nl_app, split_line by done;
    by constructor.
Qed.

Lemma split_join ls :
  ls <> [] -> Forall (fun l => has_newline l = false) ls -> split_str (join nl ls) nl = ls.
Proof.
  intros Hne Hall. induction Hall as [|l ls Hl Hls IH]; [done|].
  destruct (decide (ls = [])) as [->|Hls']; [by apply split_line|].
  rewrite join_cons, split_nl_app, split_line, IH by done. done.
Qed.

Lemma nl_ascii : is_ascii (Ascii.ascii_of_nat 10).
Proof. by apply Nat.ltb_lt. Qed.

Lemma split_utf8 s : str_utf8 s -> Forall str_utf8 (split_str s nl).
Proof.
  induction s as [l Hl|l s Hl IH] using lines_ind; rewrite ?split_nl_app, split_line by done.
  - by repeat constructor.
  - intros Hs. apply (str_utf8_before _ _ _ nl_ascii) in Hs as [? ?]. constructor; auto.
Qed.

Lemma join_utf8 ls : Forall str_utf8 ls -> str_utf8 (join nl ls).
Proof.
  induction 1 as [|l ls Hl Hls IH]; [done|].
  destruct (decide (ls = [])) as [->|Hls']; [done|].
  rewrite join_cons by done. rewrite str_utf8_app by done. by apply (str_utf8_cons _ _ nl_ascii).
Qed.

Lemma has_newline_part pre s post :
  has_newline (pre +:+ s +:+ post) = false -> has_newline s = false.
Proof.
  intros Hn. apply not_true_iff_false. intros (a & b & ->)%str_contains_spec.
  assert (has_newline (pre +:+ (a +:+ nl +:+ b) +:+ post) = true); [|congruence].
  apply str_contains_spec. exists (pre +:+ a), (b +:+ post).
  by rewrite <- !str_app_assoc.
Qed.

Lemma has_newline_suffix pre s : has_newline (pre +:+ s) = false -> has_newline s = false.
Proof. intros H. apply (has_newline_part pre s EmptyString). by rewrite str_app_nil_r. Qed.

(** ** The carriage return at the end of a line *)

Definition cr : string := String (Ascii.ascii_of_nat 13) EmptyString.

Lemma without_cr_spec l : l = without_cr l \/ l = without_cr l +:+ cr.
Proof.
  induction l as [|c l IH]; [by left|]. cbn [without_cr]. destruct l as [|d l].
  - destruct (Nat.eqb_spec (Ascii.nat_of_ascii c) 13) as [Hc|]; [right|by left].
    unfold cr. rewrite <- (Ascii.ascii_nat_embedding c), Hc. done.
  - destruct IH as [IH|IH]; [left; by rewrite <- IH|right; by rewrite IH at 1].
Qed.

(** A carriage return is white space and no part of another character. *)
Lemma all_whitespace_cr l : all_whitespace (l +:+ cr) = all_whitespace l.
Proof.
  unfold all_whitespace. apply bool_decide_ext. induction l as [l IH] using string_suffix_ind.
  destruct l as [|c l1]; [done|]. simpl. destruct (is_whitespace c); [by apply IH; cbn; lia|].
  destruct l1 as [|d l2]; simpl.
  { unfold is_whitespace2. rewrite andb_false_r. done. }
  destruct (is_whitespace2 c d); [by apply IH; cbn; lia|].
  destruct l2 as [|e l3]; simpl.
  { assert (is_whitespace3 c d (Ascii.ascii_of_nat 13) = false) as ->; [|done].
    unfold is_whitespace3. by rewrite !andb_false_r. }
  destruct (is_whitespace3 c d e); [by apply IH; cbn; lia|done].
Qed.

Lemma without_cr_whitespace l : all_whitespace (without_cr l) = all_whitespace l.
Proof.
  destruct (without_cr_spec l) as [H|H]; rewrite H at 2; [done|]. by rewrite all_whitespace_cr.
Qed.

Lemma without_cr_newline l : has_newline l = false -> has_newline (without_cr l) = false.
Proof.
  destruct (without_cr_spec l) as [H|H]; rewrite H at 1; [done|].
  apply (has_newline_part EmptyString).
Qed.

Lemma without_cr_utf8 l : str_utf8 l -> str_utf8 (without_cr l).
Proof.
  destruct (without_cr_spec l) as [H|H]; rewrite H at 1; [done|].
  intros [Hl _]%str_utf8_before; [done|]. by apply Nat.ltb_lt.
Qed.

(** ** Lines with text *)

Definition text (l : string) : bool := negb (all_whitespace l).

(** Whether the first line has text, and how many lines have. *)
Definition text_first (s : string) : bool :=
  match split_str s nl with l :: _ => text l | [] => false end.
Definition texts (s : string) : nat := length (List.filter text (split_str s nl)).

Lemma text_first_app s t : text_first (s +:+ nl +:+ t) = text_first s.
Proof.
  unfold text_first. rewrite split_nl_app.
  destruct (split_str s nl) eqn:Hs; [by apply split_nl_nonempty in Hs|done].
Qed.

Lemma texts_app s t : texts (s +:+ nl +:+ t) = texts s + texts t.
Proof. unfold texts. by rewrite split_nl_app, List.filter_app, length_app. Qed.

Lemma text_first_nl s : text_first (s +:+ nl) = text_first s.
Proof. apply (text_first_app s EmptyString). Qed.

Lemma texts_nl s : texts (s +:+ nl) = texts s.
Proof. rewrite (texts_app s EmptyString : texts (s +:+ nl) = _). apply Nat.add_0_r. Qed.

Lemma text_without_cr l : text (without_cr l) = text l.
Proof. unfold text. by rewrite without_cr_whitespace. Qed.

Lemma filter_text_cr ls : length (List.filter text (without_cr <$> ls)) = length (List.filter text ls).
Proof.
  induction ls as [|l ls IH]; [done|]. cbn. rewrite text_without_cr.
  destruct (text l); cbn; by rewrite IH.
Qed.

(** Only an empty text has no lines. *)
Lemma lines_spec s :
  texts s = length (List.filter text (lines s)) /\
  match lines s with l :: _ => text_first s = text l | [] => s = EmptyString end.
Proof.
  unfold lines, split_terminator, texts, text_first.
  pose proof (split_nl_nonempty s) as Hne. case_bool_decide as Hl.
  - apply last_Some in Hl as [ls Hls]. rewrite Hls, length_app, Nat.add_sub, take_app_length.
    rewrite filter_text_cr, List.filter_app. cbn. rewrite app_nil_r. split; [done|].
    destruct ls as [|l ls]; cbn; [|by rewrite text_without_cr].
    by rewrite <- (join_split nl s), Hls.
  - rewrite filter_text_cr. split; [done|]. destruct (split_str s nl); [done|]. cbn.
    by rewrite text_without_cr.
Qed.

Lemma lines_split (P : string -> Prop) s :
  (forall l, P l -> P (without_cr l)) -> Forall P (split_str s nl) -> Forall P (lines s).
Proof.
  intros HP Hall. unfold lines, split_terminator. apply Forall_fmap.
  eapply Forall_impl; [|exact HP]. case_bool_decide; [by apply Forall_take|done].
Qed.

Lemma lines_newlines s : Forall (fun l => has_newline l = false) (lines s).
Proof. apply lines_split; [apply without_cr_newline|apply split_newlines]. Qed.

Lemma lines_utf8 s : str_utf8 s -> Forall str_utf8 (lines s).
Proof. intros Hs. apply lines_split; [apply without_cr_utf8|by apply split_utf8]. Qed.

(** ** Slices *)

Lemma str_drop_app a : forall b, str_drop (String.length a) (a +:+ b) = b.
Proof. induction a as [|c a IH]; intros b; [by destruct b|apply IH]. Qed.

Lemma str_substring_app a : forall b c,
  String.substring (String.length a) (String.length b) (a +:+ b +:+ c) = b.
Proof.
  induction a as [|x a IH]; intros b c; [|apply IH]. cbn [String.length String.append].
  induction b as [|y b IHb]; [by destruct c|]. cbn. by rewrite IHb.
Qed.

Lemma str_slice_app a b c :
  inside_char (b +:+ c) = false -> inside_char c = false ->
  str_slice (a +:+ b +:+ c) (String.length a) (String.length a + String.length b) = Ret b.
Proof.
  intros Ha Hb. unfold str_slice. rewrite str_drop_app, Ha.
  assert (Hdrop : str_drop (String.length a + String.length b) (a +:+ b +:+ c) = c).
  { rewrite <- str_length_app, str_app_assoc. apply str_drop_app. }
  rewrite Hdrop, Hb, !str_length_app.
  rewrite (proj2 (Nat.leb_le _ _)), (proj2 (Nat.leb_le _ _)) by lia. cbn [andb negb].
  replace (String.length a + String.length b - String.length a) with (String.length b) by lia.
  by rewrite str_substring_app.
Qed.

Lemma str_slice_from_app a b :
  inside_char b = false -> str_slice_from (a +:+ b) (String.length a) = Ret b.
Proof.
  intros Hb. unfold str_slice_from. rewrite str_drop_app, Hb, str_length_app.
  by rewrite (proj2 (Nat.leb_le _ _)) by lia.
Qed.

(** ** The text of a source file

    [SourceFile::new] ([librustc_span/lib.rs]) takes the byte order mark off and replaces the
    line ends of Windows in place, and records where the positions of the two texts drift
    apart. *)

Module SourceFile.

(** [x as u32]. *)
Definition as_u32 (n : nat) : N := N.modulo (N.of_nat n) (2 ^ 32).

Record NormalizedPos := mk_NormalizedPos { np_pos : N; np_diff : N }.

(** [\u{feff}]. *)
Definition bom : string :=
  String (Ascii.ascii_of_nat 239) (String (Ascii.ascii_of_nat 187)
    (String (Ascii.ascii_of_nat 191) EmptyString)).

Definition remove_bom (src : string) (normalized_pos : list NormalizedPos)
    : string * list NormalizedPos :=
  if starts_with src bom then (str_drop 3 src, normalized_pos ++ [mk_NormalizedPos 0 3])
  else (src, normalized_pos).

(** [v[i..]] and [v[i..j]]. *)
Definition slice_from {A} (v : list A) (i : nat) : outcome (list A) :=
  if i <=? length v then mret (drop i v) else Panicked.
Definition slice {A} (v : list A) (i j : nat) : outcome (list A) :=
  if (i <=? j) && (j <=? length v) then mret (take (j - i) (drop i v)) else Panicked.

(** [iter().position(p)]. *)
Fixpoint position {A} (p : A -> bool) (v : list A) : option nat :=
  match v with
  | [] => None
  | b :: v => if p b then Some 0 else S <$> position p v
  end.

Definition is_cr (b : Ascii.ascii) : bool := Ascii.nat_of_ascii b =? 13.
Definition is_lf (b : Ascii.ascii) : bool := Ascii.nat_of_ascii b =? 10.

Definition find_cr (src : list Ascii.ascii) : option nat := position is_cr src.

(** The loop of [find_crlf]; every round moves [search_idx] on. *)
Fixpoint find_crlf_loop (fuel : nat) (src : list Ascii.ascii) (search_idx : nat)
    : outcome (option nat) :=
  match fuel with
  | O => Panicked
  | S fuel =>
      rest ← slice_from src search_idx;
      match find_cr rest with
      | None => mret None
      | Some idx =>
          if negb (from_option is_lf false (rest !! (idx + 1)))
          then find_crlf_loop fuel src (search_idx + (idx + 1))
          else mret (Some (search_idx + idx))
      end
  end.
Definition find_crlf (src : list Ascii.ascii) : outcome (option nat) :=
  find_crlf_loop (length src + 1) src 0.

(** The loop of [normalize_newlines]: [front] are the bytes of the buffer before [tail]; the
    first [gap_len] bytes of [tail] are free. Every round moves over a carriage return. *)
Fixpoint newline_loop (fuel : nat) (original_gap : N) (front tail : list Ascii.ascii)
    (gap_len cursor : nat) (normalized_pos : list NormalizedPos)
    : outcome (list Ascii.ascii * nat * list NormalizedPos) :=
  match fuel with
  | O => Panicked
  | S fuel =>
      rest ← slice_from tail gap_len;
      found ← find_crlf rest;
      let idx := match found with None => length tail | Some idx => idx + gap_len end in
      moved ← slice tail gap_len idx;
      let tail := moved ++ drop (idx - gap_len) tail in
      let front := front ++ take (idx - gap_len) tail in
      let tail := drop (idx - gap_len) tail in
      if length tail =? gap_len then mret (front ++ tail, gap_len, normalized_pos)
      else
        let cursor := cursor + (idx - gap_len) in
        let gap_len := gap_len + 1 in
        newline_loop fuel original_gap front tail gap_len cursor
          (normalized_pos ++ [mk_NormalizedPos (as_u32 (cursor + 1))
            (N.modulo (original_gap + as_u32 gap_len) (2 ^ 32))])
  end.

Definition normalize_newlines (src : string) (normalized_pos : list NormalizedPos)
    : outcome (string * list NormalizedPos) :=
  let buf := String.list_ascii_of_string src in
  if negb (existsb is_cr buf) then mret (src, normalized_pos)
  else
    let original_gap := from_option np_diff 0%N (last normalized_pos) in
    r ← newline_loop (length buf + 1) original_gap [] buf 0 0 normalized_pos;
    let '(buf, gap_len, normalized_pos) := (r : list Ascii.ascii * nat * list NormalizedPos) in
    let new_len := length buf - gap_len in
    mret (String.string_of_list_ascii (take new_len buf), normalized_pos).

Definition normalize_src (src : string) (start_pos : N) : outcome (string * list NormalizedPos) :=
  let '(src, normalized_pos) := remove_bom src [] in
  r ← normalize_newlines src normalized_pos;
  mret (r.1, List.map (fun np =>
    mk_NormalizedPos (N.modulo (np_pos np + start_pos) (2 ^ 32)) (np_diff np)) r.2).

(** *** The reference: byte by byte *)

Fixpoint crlf_to_lf (l : list Ascii.ascii) : list Ascii.ascii :=
  match l with
  | [] => []
  | b :: l' =>
      if is_cr b && from_option is_lf false (head l') then crlf_to_lf l' else b :: crlf_to_lf l'
  end.

(** The places of the new text from which the distance to the old one is a greater one. *)
Fixpoint drifts (pos diff : nat) (l : list Ascii.ascii) : list (nat * nat) :=
  match l with
  | [] => []
  | b :: l' =>
      if is_cr b && from_option is_lf false (head l')
      then (pos + 1, diff + 1) :: drifts pos (diff + 1) l'
      else drifts (pos + 1) diff l'
  end.

Definition as_normalized (e : nat * nat) : NormalizedPos := mk_NormalizedPos (N.of_nat e.1) (N.of_nat e.2).

(** The text behind the byte order mark, and the positions. *)
Definition unmarked (src : string) : string := if starts_with src bom then str_drop 3 src else src.
Definition normal_text (src : string) : string :=
  String.string_of_list_ascii (crlf_to_lf (String.list_ascii_of_string (unmarked src))).
Definition normal_pos (src : string) : list NormalizedPos :=
  (if starts_with src bom then [mk_NormalizedPos 0 3] else [])
  ++ List.map as_normalized
       (drifts 0 (if starts_with src bom then 3 else 0) (String.list_ascii_of_string (unmarked src))).

(** *** The search *)

(** The first carriage return before a line feed. *)
Fixpoint first_crlf (l : list Ascii.ascii) : option nat :=
  match l with
  | [] => None
  | b :: l' => if is_cr b && from_option is_lf false (head l') then Some 0 else S <$> first_crlf l'
  end.

Lemma position_some {A} (p : A -> bool) l i : position p l = Some i ->
  exists a x b, l = a ++ x :: b /\ length a = i /\ forallb (fun y => negb (p y)) a = true /\ p x = true.
Proof.
  revert i. induction l as [|x l IH]; intros i; [done|]. cbn. destruct (p x) eqn:Hp.
  - intros [= <-]. exists [], x, l. by rewrite Hp.
  - destruct (position p l) as [j|]; [|done]. intros [= <-].
    destruct (IH j eq_refl) as (a & y & b & -> & <- & Ha & Hy).
    exists (x :: a), y, b. cbn. by rewrite Hp, Ha.
Qed.

Lemma position_none {A} (p : A -> bool) l : position p l = None -> forallb (fun y => negb (p y)) l = true.
Proof.
  induction l as [|x l IH]; [done|]. cbn. destruct (p x); [done|].
  destruct (position p l); [done|]. intros _. by apply IH.
Qed.

Lemma first_crlf_skip a : forall l, forallb (fun y => negb (is_cr y)) a = true ->
  first_crlf (a ++ l) = Nat.add (length a) <$> first_crlf l.
Proof.
  induction a as [|x a IH]; intros l; cbn [app first_crlf forallb].
  - intros _. by destruct (first_crlf l).
  - intros Ha. destruct (is_cr x); [done|]. cbn [negb andb] in *. rewrite (IH l Ha).
    by destruct (first_crlf l).
Qed.

Lemma find_crlf_loop_first fuel : forall pre l, length l < fuel ->
  find_crlf_loop fuel (pre ++ l) (length pre) = Ret (Nat.add (length pre) <$> first_crlf l).
Proof.
  induction fuel as [|fuel IH]; intros pre l Hl; [lia|]. cbn [find_crlf_loop]. unfold slice_from.
  rewrite length_app. destruct (Nat.leb_spec (length pre) (length pre + length l)); [|lia].
  cbn [mbind outcome_bind mret outcome_ret]. rewrite drop_app_length. unfold find_cr.
  destruct (position is_cr l) as [idx|] eqn:Hp.
  - destruct (position_some _ _ _ Hp) as (a & x & b & -> & <- & Ha & Hx).
    rewrite first_crlf_skip by done. cbn [first_crlf]. rewrite Hx.
    replace ((a ++ x :: b) !! (length a + 1)) with (head b).
    2: { rewrite lookup_app_r by lia. replace (length a + 1 - length a) with 1 by lia.
         by destruct b. }
    cbn [andb]. destruct (from_option is_lf false (head b)); cbn [negb].
    { cbn. f_equal. f_equal. lia. }
    specialize (IH (pre ++ a ++ [x]) b). rewrite !length_app in IH. cbn [length] in IH.
    rewrite <- !app_assoc in IH. cbn [app] in IH. rewrite IH.
    + destruct (first_crlf b); cbn; [|done]. f_equal. f_equal. lia.
    + rewrite length_app in Hl. cbn in Hl. lia.
  - apply position_none in Hp. rewrite <- (app_nil_r l), (first_crlf_skip l []) by done. done.
Qed.

Lemma find_crlf_first l : find_crlf l = Ret (first_crlf l).
Proof.
  unfold find_crlf. rewrite (find_crlf_loop_first _ [] l) by lia. by destruct (first_crlf l).
Qed.

Lemma first_crlf_none l : first_crlf l = None ->
  crlf_to_lf l = l /\ forall pos diff, drifts pos diff l = [].
Proof.
  induction l as [|b l IH]; [done|]. cbn [first_crlf crlf_to_lf drifts].
  destruct (is_cr b && from_option is_lf false (head l)); [done|].
  destruct (first_crlf l); [done|]. intros _. destruct (IH eq_refl) as [-> Hd]. by split.
Qed.

Lemma first_crlf_some l i : first_crlf l = Some i ->
  crlf_to_lf l = take i l ++ crlf_to_lf (drop (i + 1) l) /\ i < length l /\
  forall pos diff, drifts pos diff l =
    (pos + i + 1, diff + 1) :: drifts (pos + i) (diff + 1) (drop (i + 1) l).
Proof.
  revert i. induction l as [|b l IH]; intros i; [done|]. cbn [first_crlf crlf_to_lf drifts].
  destruct (is_cr b && from_option is_lf false (head l)).
  - intros [= <-]. cbn. split; [by rewrite drop_0|]. split; [lia|]. intros pos diff.
    by rewrite Nat.add_0_r, drop_0.
  - destruct (first_crlf l) as [j|]; [|done]. intros [= <-].
    destruct (IH j eq_refl) as (-> & Hj & Hd). cbn. split; [done|]. split; [lia|].
    intros pos diff. rewrite Hd. by replace (pos + S j) with (pos + 1 + j) by lia.
Qed.

(** *** The replacement in place *)

Lemma slice_ok {A} (v : list A) i j : i <= j -> j <= length v ->
  slice v i j = Ret (take (j - i) (drop i v)).
Proof.
  intros Hi Hj. unfold slice. by rewrite (proj2 (Nat.leb_le _ _) Hi), (proj2 (Nat.leb_le _ _) Hj).
Qed.

Lemma slice_from_ok {A} (v : list A) i : i <= length v -> slice_from v i = Ret (drop i v).
Proof. intros Hi. unfold slice_from. by rewrite (proj2 (Nat.leb_le _ _) Hi). Qed.

(** The positions that the loop records, in 32 bits. *)
Definition recorded (gap : N) (e : nat * nat) : NormalizedPos :=
  mk_NormalizedPos (as_u32 e.1) (N.modulo (gap + as_u32 e.2) (2 ^ 32)).

Lemma newline_loop_replaces gap fuel : forall front tail gap_len cursor pos,
  gap_len <= length tail -> length (drop gap_len tail) < fuel ->
  exists buf gap_len', newline_loop fuel gap front tail gap_len cursor pos =
    Ret (buf, gap_len', pos ++ List.map (recorded gap) (drifts cursor gap_len (drop gap_len tail))) /\
    take (length buf - gap_len') buf = front ++ crlf_to_lf (drop gap_len tail).
Proof.
  induction fuel as [|fuel IH]; intros front tail g cursor pos Hg Hf; [lia|]. cbn [newline_loop].
  rewrite slice_from_ok by done. cbn [mbind outcome_bind mret outcome_ret].
  rewrite find_crlf_first. cbn [mbind outcome_bind]. cbv zeta. rewrite length_drop in Hf.
  destruct (first_crlf (drop g tail)) as [i|] eqn:Hi.
  - destruct (first_crlf_some _ _ Hi) as (-> & Hlt & Hd). rewrite length_drop in Hlt.
    replace (i + g - g) with i by lia. rewrite slice_ok by lia. cbn [mbind outcome_bind].
    replace (i + g - g) with i by lia.
    assert (Hlen : length (take i (drop g tail)) = i).
    { rewrite length_take, length_drop. lia. }
    rewrite drop_app_length', take_app_length' by done.
    rewrite length_drop. destruct (Nat.eqb_spec (length tail - i) g); [lia|].
    destruct (IH (front ++ take i (drop g tail)) (drop i tail) (g + 1) (cursor + i)
      (pos ++ [recorded gap (cursor + i + 1, g + 1)])) as (buf & g' & Heq & Hbuf).
    { rewrite length_drop. lia. }
    { rewrite !length_drop. lia. }
    replace (drop (g + 1) (drop i tail)) with (drop (i + 1) (drop g tail)) in *
      by (rewrite !drop_drop; f_equal; lia).
    exists buf, g'. split; [|by rewrite Hbuf, <- app_assoc]. unfold recorded in Heq at 1. cbn in Heq.
    rewrite Heq, Hd. cbn [List.map]. by rewrite <- app_assoc.
  - destruct (first_crlf_none _ Hi) as [-> Hd]. rewrite slice_ok by lia. cbn [mbind outcome_bind].
    rewrite Hd, app_nil_r. rewrite (take_ge (drop g tail)) by (rewrite length_drop; lia).
    assert (Hlen : length tail - g = length (drop g tail)) by (by rewrite length_drop).
    rewrite Hlen, drop_app_length, take_app_length, length_drop.
    destruct (Nat.eqb_spec (length tail - length (drop g tail)) g) as [_|Hne].
    2: { rewrite length_drop in Hne. lia. }
    eexists _, _. split; [done|]. apply take_app_length'. rewrite !length_app, !length_drop. lia.
Qed.

Lemma no_cr_first l : existsb is_cr l = false -> first_crlf l = None.
Proof.
  induction l as [|b l IH]; [done|]. cbn. intros [Hb Hl]%orb_false_iff. by rewrite Hb, (IH Hl).
Qed.

Lemma string_of_list_take s : String.string_of_list_ascii (String.list_ascii_of_string s) = s.
Proof. apply String.string_of_list_ascii_of_string. Qed.

Lemma normalize_newlines_replaces src pos :
  let l := String.list_ascii_of_string src in
  normalize_newlines src pos =
    Ret (String.string_of_list_ascii (crlf_to_lf l),
         pos ++ List.map (recorded (from_option np_diff 0%N (last pos))) (drifts 0 0 l)).
Proof.
  cbn zeta. unfold normalize_newlines.
  destruct (existsb is_cr (String.list_ascii_of_string src)) eqn:Hcr; cbn [negb].
  - destruct (newline_loop_replaces (from_option np_diff 0%N (last pos))
      (length (String.list_ascii_of_string src) + 1) [] (String.list_ascii_of_string src) 0 0 pos)
      as (buf & g & -> & Hbuf).
    { lia. } { rewrite drop_0. lia. }
    cbn [mbind outcome_bind]. rewrite drop_0, Hbuf. done.
  - apply no_cr_first, first_crlf_none in Hcr as [-> Hd].
    by rewrite Hd, app_nil_r, String.string_of_list_ascii_of_string.
Qed.

Lemma drifts_bounds l : forall pos diff,
  Forall (fun e => e.1 <= pos + length l /\ e.2 <= diff + length l) (drifts pos diff l).
Proof.
  induction l as [|b l IH]; intros pos diff; [constructor|]. cbn [drifts length].
  destruct (is_cr b && from_option is_lf false (head l)) eqn:Hb.
  - constructor; [cbn; lia|]. eapply Forall_impl; [apply IH|]. intros e He. cbn in *. lia.
  - eapply Forall_impl; [apply IH|]. intros e He. cbn in *. lia.
Qed.

Lemma drifts_shift l k : forall pos diff,
  drifts pos (diff + k) l = List.map (fun e => (e.1, e.2 + k)) (drifts pos diff l).
Proof.
  induction l as [|b l IH]; intros pos diff; [done|]. cbn [drifts].
  destruct (is_cr b && from_option is_lf false (head l)); [|apply IH].
  cbn [List.map fst snd]. rewrite <- IH. f_equal; [f_equal; lia|]. f_equal. lia.
Qed.

Lemma crlf_to_lf_length l : length (crlf_to_lf l) <= length l.
Proof.
  induction l as [|b l IH]; [done|]. cbn [crlf_to_lf].
  destruct (is_cr b && from_option is_lf false (head l)); cbn [length]; lia.
Qed.

Lemma list_ascii_length s : length (String.list_ascii_of_string s) = String.length s.
Proof. induction s as [|c s IH]; [done|]. cbn. by rewrite IH. Qed.

Lemma str_drop_length i : forall s, String.length (str_drop i s) = String.length s - i.
Proof. induction i as [|i IH]; intros [|c s]; cbn; try lia; [done..|apply IH]. Qed.

Lemma starts_with_length s p : starts_with s p = true -> String.length p <= String.length s.
Proof.
  unfold starts_with. revert p. induction s as [|c s IH]; intros [|d p]; cbn; try done; [lia|].
  destruct (Ascii.ascii_dec d c); [|done]. intros Hp. apply IH in Hp. lia.
Qed.

Lemma unmarked_length src :
  String.length (unmarked src) + (if starts_with src bom then 3 else 0) = String.length src.
Proof.
  unfold unmarked. destruct (starts_with src bom) eqn:Hb; [|lia].
  apply starts_with_length in Hb. rewrite str_drop_length. change (String.length bom) with 3 in Hb. lia.
Qed.

(** The replacement in place does what the reference does, byte by byte. *)
Lemma normalize_src_reference src :
  (N.of_nat (String.length src) < 2 ^ 32)%N ->
  normalize_src src 0 = Ret (normal_text src, normal_pos src).
Proof.
  intros Hlen. pose proof (unmarked_length src) as Hun. unfold normalize_src, normal_text, normal_pos.
  assert (Hmarks : remove_bom src [] =
    (unmarked src, if starts_with src bom then [mk_NormalizedPos 0 3] else [])).
  { unfold remove_bom, unmarked. by destruct (starts_with src bom). }
  rewrite Hmarks. cbn zeta iota. rewrite normalize_newlines_replaces. cbn [mbind outcome_bind fst snd].
  cbn [mret outcome_ret]. f_equal. f_equal. rewrite map_app. f_equal.
  { by destruct (starts_with src bom). }
  set (k := if starts_with src bom then 3 else 0) in *.
  assert (Hgap : from_option np_diff 0%N
    (last (if starts_with src bom then [mk_NormalizedPos 0 3] else [])) = N.of_nat k).
  { subst k. by destruct (starts_with src bom). }
  rewrite Hgap. change k with (0 + k) at 2.
  rewrite drifts_shift.
  rewrite !map_map. apply map_ext_Forall.
  eapply Forall_impl; [apply (drifts_bounds _ 0 0)|]. intros e He. rewrite list_ascii_length in He.
  unfold recorded, as_normalized, as_u32. cbn [fst snd np_pos np_diff]. f_equal.
  - rewrite N.add_0_r. rewrite !(N.mod_small (N.of_nat e.1)); lia.
  - rewrite (N.mod_small (N.of_nat e.2)) by lia. rewrite N.mod_small by lia. lia.
Qed.

Lemma normal_text_length src : String.length (normal_text src) <= String.length src.
Proof.
  unfold normal_text. pose proof (unmarked_length src).
  rewrite <- list_ascii_length, String.list_ascii_of_string_of_list_ascii.
  etrans; [apply crlf_to_lf_length|]. rewrite list_ascii_length. lia.
Qed.

Lemma list_ascii_utf8 l : forall a, str_utf8 (a +:+ String.string_of_list_ascii l) ->
  str_utf8 (a +:+ String.string_of_list_ascii (crlf_to_lf l)).
Proof.
  induction l as [|b l IH]; intros a Ha; [done|]. cbn [crlf_to_lf].
  destruct (is_cr b && from_option is_lf false (head l)) eqn:Hb.
  - apply IH. apply andb_true_iff in Hb as [Hb _]. unfold is_cr in Hb. apply Nat.eqb_eq in Hb.
    cbn in Ha. apply str_utf8_before in Ha as [Ha Hl]; [|unfold is_ascii; lia].
    by apply str_utf8_app.
  - assert (Hassoc : forall t, a +:+ String b t = (a +:+ String b EmptyString) +:+ t).
    { intros t. by rewrite <- str_app_assoc. }
    cbn in *. rewrite Hassoc in *. by apply IH.
Qed.

Lemma starts_with_drop s p : starts_with s p = true -> s = p +:+ str_drop (String.length p) s.
Proof.
  unfold starts_with. revert p. induction s as [|c s IH]; intros [|d p]; cbn; try done.
  destruct (Ascii.ascii_dec d c) as [->|]; [|done]. intros Hp. by rewrite (IH p Hp) at 1.
Qed.

Lemma normal_text_utf8 src : str_utf8 src -> str_utf8 (normal_text src).
Proof.
  intros Hs. apply (list_ascii_utf8 _ EmptyString). rewrite String.string_of_list_ascii_of_string.
  unfold unmarked. destruct (starts_with src bom) eqn:Hb; [|done].
  apply starts_with_drop in Hb. cbn [String.append]. change (String.length bom) with 3 in Hb.
  rewrite Hb in Hs. by apply str_utf8_app in Hs.
Qed.
End SourceFile.
