(* ===== verification/FileSystem.v ===== *)
(** [std::path] and [std::fs]: paths, and a file system in which only the shape of the tree
    makes an operation fail. *)

From S2P Require Import Prelude RustStd.

(** ** Files and directories *)

(** A path, as its components. *)
Abbreviation path := (list string).
Definition path_from (s : string) : path := split_str s "/".
Definition path_join (p : path) (name : string) : path := p ++ [name].

Inductive node := File (content : string) | Dir.
#[export] Instance node_eq_dec : EqDecision node.
Proof. solve_decision. Defined.
Abbreviation Fs := (gmap path node).

Definition is_file (fs : Fs) (p : path) : bool :=
  match fs !! p with Some (File _) => true | _ => false end.
Definition is_dir (fs : Fs) (p : path) : bool :=
  match fs !! p with Some Dir => true | _ => false end.

(** [fs::remove_file(p).unwrap()] and [fs::remove_dir_all(p).unwrap()]. *)
Definition remove_file (fs : Fs) (p : path) : outcome Fs :=
  if is_file fs p then mret (delete p fs) else Panicked.
Definition remove_dir_all (fs : Fs) (p : path) : outcome Fs :=
  if is_dir fs p then mret (filter (fun e => ~ p `prefix_of` e.1) fs) else Panicked.

(** [fs::create_dir_all(p).unwrap()]: the missing directories from the root on. *)
Definition create_dir_all (fs : Fs) (p : path) : outcome Fs :=
  fold_loop (fun n fs =>
    if is_file fs (take n p) then Panicked else mret (<[take n p := Dir]> fs))
    (seq 1 (length p)) fs.

(** [File::create(p).unwrap()] and [write_all(content).unwrap()]. *)
Definition write_file (fs : Fs) (p : path) (content : string) : outcome Fs :=
  if is_dir fs (take (length p - 1) p) && negb (is_dir fs p)
  then mret (<[p := File content]> fs) else Panicked.

(** ** What the operations do *)

Lemma is_file_spec fs p : is_file fs p = true <-> exists c, fs !! p = Some (File c).
Proof. unfold is_file. destruct (fs !! p) as [[c|]|]; naive_solver. Qed.
Lemma is_dir_spec fs p : is_dir fs p = true <-> fs !! p = Some Dir.
Proof. unfold is_dir. destruct (fs !! p) as [[c|]|]; naive_solver. Qed.

Lemma create_dir_all_returns fs p :
  (forall n, 0 < n <= length p -> is_file fs (take n p) = false) ->
  returns (create_dir_all fs p) (fun fs' =>
    (forall n, 0 < n <= length p -> fs' !! take n p = Some Dir) /\
    forall q, (forall n, 0 < n <= length p -> take n p <> q) -> fs' !! q = fs !! q).
Proof.
  intros Hno. unfold create_dir_all.
  eapply returns_mono.
  - apply (fold_loop_returns _ (fun pre fs' =>
      (forall n, 0 < n <= length pre -> fs' !! take n p = Some Dir) /\
      forall q, (forall n, 0 < n <= length pre -> take n p <> q) -> fs' !! q = fs !! q)).
    { split; [cbn; lia|done]. }
    intros pre n post fs' Hseq [Hdir Hsame].
    assert (seq 1 (length p) !! length pre = Some n) as Hn
      by (rewrite Hseq; by apply list_lookup_middle).
    apply lookup_seq in Hn as [Hn Hlt]. cbn in Hn. subst n.
    assert (Htake : forall m, m <= length pre -> take m p <> take (S (length pre)) p).
    { intros m Hm Heq. apply (f_equal length) in Heq. rewrite !length_take in Heq. lia. }
    rewrite (proj1 (not_true_iff_false (is_file fs' (take (S (length pre)) p)))).
    2:{ rewrite is_file_spec. intros (c & Hc). rewrite Hsame in Hc by (intros; apply Htake; lia).
        assert (is_file fs (take (S (length pre)) p) = true) as Hf by (apply is_file_spec; eauto).
        rewrite Hno in Hf by lia. done. }
    apply returns_ret. rewrite length_app. cbn [length]. split.
    + intros m Hm. destruct (decide (m = S (length pre))) as [->|Hne].
      * apply lookup_insert_eq.
      * rewrite lookup_insert_ne by (intros Heq; eapply Htake; [|by symmetry]; lia).
        apply Hdir. lia.
    + intros q Hq. rewrite lookup_insert_ne by (apply Hq; lia). apply Hsame.
      intros m Hm. apply Hq. lia.
  - intros fs'. by rewrite length_seq.
Qed.

(** Without success there is a file on the way. *)
Lemma create_dir_all_blocked fs p :
  (exists fs', create_dir_all fs p = Ret fs') \/
  exists n, 0 < n <= length p /\ is_file fs (take n p) = true.
Proof.
  destruct (decide (Exists (fun n => is_file fs (take n p) = true) (seq 1 (length p)))) as [He|He].
  - right. apply Exists_exists in He as (n & Hn%elem_of_seq & Hf). exists n. split; [lia|done].
  - left. pose proof (create_dir_all_returns fs p) as Hr.
    destruct (create_dir_all fs p) as [fs'| |]; [by exists fs'|..]; exfalso; apply Hr; intros n Hn;
      apply not_true_iff_false; intros Hf; apply He, Exists_exists; exists n;
      (split; [apply elem_of_seq; lia|done]).
Qed.

(** Files and directories stay what they are. *)
Definition grows (fs fs' : Fs) : Prop :=
  (forall q, is_file fs q = true -> is_file fs' q = true) /\
  (forall q, fs !! q = Some Dir -> fs' !! q = Some Dir).

#[export] Instance grows_preorder : PreOrder grows.
Proof. split; [by split|]. intros f1 f2 f3 [? ?] [? ?]. split; auto. Qed.

Lemma create_dir_all_keeps fs p fs' : create_dir_all fs p = Ret fs' ->
  (forall q c, fs !! q = Some (File c) -> fs' !! q = Some (File c)) /\
  (forall q, fs !! q = Some Dir -> fs' !! q = Some Dir) /\
  (p <> [] -> fs' !! p = Some Dir).
Proof.
  unfold create_dir_all. intros Hc.
  enough (Hgen : forall ns fs, fold_loop (fun n fs =>
      if is_file fs (take n p) then Panicked else mret (<[take n p := Dir]> fs)) ns fs = Ret fs' ->
    (forall q c, fs !! q = Some (File c) -> fs' !! q = Some (File c)) /\
    (forall q, fs !! q = Some Dir -> fs' !! q = Some Dir) /\
    (forall n, n ∈ ns -> fs' !! take n p = Some Dir)).
  { destruct (Hgen _ _ Hc) as (H1 & H2 & H3). split_and!; [done..|]. intros Hp.
    rewrite <- (firstn_all p) at 1. apply H3, elem_of_seq. destruct p; [done|cbn; lia]. }
  clear fs Hc. induction ns as [|n ns IH]; intros fs; cbn [fold_loop].
  - intros [= ->]. split_and!; [done..|]. by intros n ?%not_elem_of_nil.
  - destruct (is_file fs (take n p)) eqn:Hf; [done|]. cbn [mbind outcome_bind mret outcome_ret].
    intros (H1 & H2 & H3)%IH. split_and!.
    + intros q c Hq. apply H1. rewrite lookup_insert_ne; [done|]. intros <-.
      assert (is_file fs (take n p) = true) by (apply is_file_spec; by exists c). congruence.
    + intros q Hq. apply H2. destruct (decide (take n p = q)) as [->|]; [apply lookup_insert_eq|].
      by rewrite lookup_insert_ne.
    + intros m [->|Hm]%elem_of_cons; [apply H2, lookup_insert_eq|by apply H3].
Qed.

(** No file is made. *)
Lemma create_dir_all_files fs p fs' q :
  create_dir_all fs p = Ret fs' -> is_file fs' q = true -> is_file fs q = true.
Proof.
  unfold create_dir_all. generalize (seq 1 (length p)). intros ns. revert fs.
  induction ns as [|n ns IH]; intros fs; cbn [fold_loop]; [by intros [= ->]|].
  destruct (is_file fs (take n p)); [done|]. cbn [mbind outcome_bind mret outcome_ret].
  intros Hc (c & Hq)%(IH _ Hc)%is_file_spec. apply is_file_spec. exists c.
  by apply lookup_insert_Some in Hq as [[_ ?]|[_ ?]].
Qed.

Lemma create_dir_all_grows fs p fs' : create_dir_all fs p = Ret fs' -> grows fs fs'.
Proof.
  intros (H1 & H2 & _)%create_dir_all_keeps. split; [|done].
  intros q (c & Hq)%is_file_spec. apply is_file_spec. exists c. by apply H1.
Qed.

Lemma write_file_cases fs p content :
  (write_file fs p content = Ret (<[p := File content]> fs) /\ grows fs (<[p := File content]> fs)) \/
  (write_file fs p content = Panicked /\ (fs !! p = Some Dir \/ fs !! take (length p - 1) p <> Some Dir)).
Proof.
  unfold write_file. destruct (is_dir fs (take (length p - 1) p)) eqn:Hd; cbn [andb].
  - apply is_dir_spec in Hd. destruct (is_dir fs p) eqn:Hp; cbn [negb].
    + right. split; [done|]. left. by apply is_dir_spec.
    + left. split; [done|]. split.
      * intros q (c & Hq)%is_file_spec. apply is_file_spec. destruct (decide (p = q)) as [->|].
        -- exists content. apply lookup_insert_eq.
        -- exists c. by rewrite lookup_insert_ne.
      * intros q Hq. rewrite lookup_insert_ne; [done|]. intros ->. apply is_dir_spec in Hq. congruence.
  - right. split; [done|]. right. intros H%is_dir_spec. congruence.
Qed.

(** ** Trees *)

(** [q] is inside the directory [p]. *)
Definition below (p q : path) : Prop := exists x r, q = p ++ x :: r.

(** Every entry but the first component has a directory above it. *)
Definition fs_wf (fs : Fs) : Prop :=
  forall q x, q <> [] -> is_Some (fs !! (q ++ [x])) -> fs !! q = Some Dir.

(** No proper prefix of [p] is a file. *)
Definition no_file_above (fs : Fs) (p : path) : Prop :=
  forall n, n < length p -> is_file fs (take n p) = false.

Lemma no_file_above_check fs p :
  forallb (fun n => negb (is_file fs (take n p))) (seq 0 (length p)) = true ->
  no_file_above fs p.
Proof.
  rewrite forallb_forall. intros Hall n Hn. apply negb_true_iff, Hall, in_seq. lia.
Qed.

Lemma fs_wf_below fs p q : fs_wf fs -> p <> [] -> below p q -> is_Some (fs !! q) ->
  fs !! p = Some Dir.
Proof.
  intros Hwf Hp (x & r & ->). revert x. induction r as [|y r IH] using rev_ind; intros x Hq.
  - by apply (Hwf p x).
  - apply (IH x). rewrite app_comm_cons, app_assoc in Hq. apply Hwf in Hq; [by rewrite Hq|].
    by destruct p.
Qed.

Lemma below_irrefl p : ~ below p p.
Proof. intros (x & r & Heq). apply (f_equal length) in Heq. rewrite length_app in Heq. cbn in Heq. lia. Qed.

Lemma below_join p name : below p (path_join p name).
Proof. by exists name, []. Qed.

Lemma not_below_take p q n : below p q -> take n p <> q.
Proof.
  intros (x & r & ->) Heq. apply (f_equal length) in Heq.
  rewrite length_take, length_app in Heq. cbn in Heq. lia.
Qed.

Lemma prefix_below (p q : path) : p `prefix_of` q -> q = p \/ below p q.
Proof.
  intros [[|x r] ->]; [left; apply app_nil_r|]. right. by exists x, r.
Qed.

Lemma list_snoc_case {A} (l : list A) : l = [] \/ exists l' x, l = l' ++ [x].
Proof. induction l as [|x l _] using rev_ind; [by left|right; eauto]. Qed.

Lemma join_nonempty p name : path_join p name <> [].
Proof. by destruct p. Qed.

(** ** What an operation leaves alone *)

(** Neither path leads to the other. *)
Definition apart (p q : path) : Prop := ~ p `prefix_of` q /\ ~ q `prefix_of` p.

(** Nothing changes but at [p], below it and above it, and the tree stays one. *)
Record framed (p : path) (fs fs' : Fs) : Prop := {
  fr_wf : fs_wf fs';
  fr_same : forall q, apart p q -> fs' !! q = fs !! q;
  fr_root : fs' !! [] = fs !! []
}.

Lemma framed_trans p fs1 fs2 fs3 : framed p fs1 fs2 -> framed p fs2 fs3 -> framed p fs1 fs3.
Proof.
  intros [_ Hs1 Hr1] [Hwf Hs2 Hr2]. split; [done| |congruence].
  intros q Hq. by rewrite Hs2, Hs1.
Qed.

(** Directories above and apart from a changed one. *)
Lemma wf_dir_above fs p name : fs_wf fs -> p <> [] -> fs !! path_join p name = Some Dir ->
  fs !! p = Some Dir.
Proof. intros Hwf Hp Hd. apply (Hwf p name Hp). by exists Dir. Qed.

Lemma no_file_above_framed p q fs fs' :
  framed p fs fs' -> p <> [] -> fs' !! p = Some Dir -> apart p q ->
  no_file_above fs q -> no_file_above fs' q.
Proof.
  intros [Hwf Hsame Hroot] Hp Hdir [Hpq Hqp] Hno n Hn.
  assert (Hnp : ~ p `prefix_of` take n q).
  { intros Hpre. apply Hpq. etrans; [exact Hpre|apply prefix_take]. }
  unfold is_file. destruct (decide (take n q `prefix_of` p)) as [Hpre|Hpre].
  - destruct (decide (take n q = [])) as [Hnil|Hnil].
    + rewrite Hnil, Hroot, <- Hnil. by apply Hno.
    + destruct Hpre as [[|y r] Heq]; [exfalso; apply Hnp; rewrite Heq, app_nil_r; done|].
      rewrite (fs_wf_below fs' (take n q) p); [done|done|done|by exists y, r|by rewrite Hdir].
  - rewrite Hsame by done. by apply Hno.
Qed.

(** *** Growing below a directory *)

Lemma prefix_snoc_cases (p q : path) x : p `prefix_of` q ++ [x] -> p `prefix_of` q \/ p = q ++ [x].
Proof.
  intros [r Hr]. destruct (list_snoc_case r) as [->|(r' & y & ->)].
  - right. by rewrite app_nil_r in Hr.
  - left. rewrite app_assoc in Hr. apply app_inj_tail in Hr as [-> _]. by exists r'.
Qed.

(** An entry that is added at [p], in its directory and where no directory is. *)
Lemma insert_framed d p nd fs :
  fs_wf fs -> d <> [] -> d `prefix_of` p \/ p `prefix_of` d -> p <> [] ->
  (take (length p - 1) p <> [] -> fs !! take (length p - 1) p = Some Dir) ->
  nd = Dir \/ fs !! p <> Some Dir -> framed d fs (<[p := nd]> fs).
Proof.
  intros Hwf Hd Hdp Hp Hparent Hnd. split.
  - intros q x Hq Hsome. destruct (decide (q ++ [x] = p)) as [Heq|Hne].
    + assert (take (length p - 1) p = q) as Htake.
      { rewrite <- Heq, length_app. cbn [length]. by rewrite Nat.add_sub, take_app_length. }
      rewrite Htake in Hparent. rewrite lookup_insert_ne; [by apply Hparent|].
      intros ->. apply (f_equal length) in Heq. rewrite length_app in Heq. cbn in Heq. lia.
    + rewrite lookup_insert_ne in Hsome by done. apply Hwf in Hsome; [|done].
      destruct (decide (p = q)) as [->|]; [|by rewrite lookup_insert_ne].
      rewrite lookup_insert_eq. destruct Hnd as [->|Hnd]; [done|congruence].
  - intros q [H1 H2]. rewrite lookup_insert_ne; [done|]. intros ->. tauto.
  - by rewrite lookup_insert_ne.
Qed.

Lemma framed_refl d fs : fs_wf fs -> framed d fs fs.
Proof. by split. Qed.

Lemma take_prefix_cases {A} (d p : list A) n :
  d `prefix_of` p -> d `prefix_of` take n p \/ take n p `prefix_of` d.
Proof.
  intros [r ->]. destruct (decide (n <= length d)) as [Hn|Hn].
  - right. rewrite take_app_le by done. apply prefix_take.
  - left. rewrite take_app_ge by lia. by apply prefix_app_r.
Qed.

Lemma create_dir_all_framed d p fs fs' :
  fs_wf fs -> d <> [] -> d `prefix_of` p -> create_dir_all fs p = Ret fs' -> framed d fs fs'.
Proof.
  intros Hwf Hd Hdp. unfold create_dir_all.
  enough (Hgen : forall m k fs, k + m <= length p -> (0 < k -> fs !! take k p = Some Dir) -> fs_wf fs ->
    fold_loop (fun n fs =>
      if is_file fs (take n p) then Panicked else mret (<[take n p := Dir]> fs)) (seq (S k) m) fs
      = Ret fs' -> framed d fs fs') by (by apply Hgen; [|lia|]).
  clear fs Hwf. induction m as [|m IH]; intros k fs Hk Hdir Hwf; cbn [fold_loop seq].
  { intros [= <-]. by apply framed_refl. }
  destruct (is_file fs (take (S k) p)) eqn:Hf; [done|]. cbn [mbind outcome_bind mret outcome_ret].
  assert (Hlen : length (take (S k) p) = S k) by (rewrite length_take; lia).
  assert (Hpar : take (length (take (S k) p) - 1) (take (S k) p) = take k p).
  { rewrite Hlen, take_take. f_equal. lia. }
  assert (Hfr : framed d fs (<[take (S k) p := Dir]> fs)).
  { apply insert_framed; [done|done|by apply take_prefix_cases|by intros Heq; rewrite Heq in Hlen|
      |by left].
    rewrite Hpar. intros Hne. apply Hdir. destruct k; [by rewrite take_0 in Hne|lia]. }
  intros Hrest%IH; [by eapply framed_trans|lia|intros _; apply lookup_insert_eq|apply Hfr].
Qed.

Lemma write_file_framed d p content fs fs' :
  fs_wf fs -> d <> [] -> d `prefix_of` p -> write_file fs p content = Ret fs' -> framed d fs fs'.
Proof.
  intros Hwf Hd Hdp. unfold write_file.
  destruct (is_dir fs (take (length p - 1) p)) eqn:Hdir; cbn [andb]; [|done].
  apply is_dir_spec in Hdir. destruct (is_dir fs p) eqn:Hp; cbn [negb]; [done|]. intros [= <-].
  apply insert_framed; [done|done|by left| |done|].
  - intros ->. by apply Hd, prefix_nil_inv.
  - right. intros H%is_dir_spec. congruence.
Qed.
