(* ===== verification/Toc.v ===== *)
(** The table of contents of a page ([html/toc.rs]): a builder that takes one heading after
    the other, and that it makes the outline of the headings: each heading is below the last
    one before it of a smaller level, and the section numbers increase. *)

From Stdlib Require Import Sorting.Sorted.
From S2P Require Import Prelude RustStd.

(** ** The builder *)

(** [Toc] has a single field, the list of its entries. Levels are at least 1. *)
Inductive TocEntry := mk_TocEntry {
  level : nat;
  sec_number : string;
  heading_name : string;
  heading_id : string;
  children : list TocEntry
}.
Abbreviation Toc := (list TocEntry).

Definition count_entries_with_level (self : Toc) (l : nat) : nat :=
  length (List.filter (fun e => level e =? l) self).

(** The chain, its last entry first. *)
Record TocBuilder := mk_TocBuilder { top_level : Toc; chain : list TocEntry }.

Definition TocBuilder_new : TocBuilder := mk_TocBuilder [] [].

(** [entries.extend(this)]. *)
Definition extend (toc : Toc) (this : option TocEntry) : Toc := toc ++ option_list this.
Definition with_children (e : TocEntry) (c : Toc) : TocEntry :=
  mk_TocEntry (level e) (sec_number e) (heading_name e) (heading_id e) c.

(** The loop of [fold_until]: [this] is the entry popped last. *)
Fixpoint fold_loop_until (l : nat) (top : Toc) (this : option TocEntry) (chain : list TocEntry)
    : TocBuilder :=
  match chain with
  | next :: chain =>
      let next := with_children next (extend (children next) this) in
      if level next <? l then mk_TocBuilder top (next :: chain)
      else fold_loop_until l top (Some next) chain
  | [] => mk_TocBuilder (extend top this) []
  end.
Definition fold_until (l : nat) (self : TocBuilder) : TocBuilder :=
  fold_loop_until l (top_level self) None (chain self).

Definition into_toc (self : TocBuilder) : Toc := top_level (fold_until 0 self).

(** The zeros for the levels between the parent and the heading. *)
Fixpoint zeros (n : nat) : string :=
  match n with O => EmptyString | S n => "0." +:+ zeros n end.

(** The section number of a heading of level [l]. *)
Definition number_for (self : TocBuilder) (l : nat) : string :=
  let '(start, toc_level, toc) := match chain self with
    | [] => (EmptyString, 0, top_level self)
    | entry :: _ => (sec_number entry +:+ ".", level entry, children entry)
    end in
  (start +:+ zeros (l - 1 - toc_level)) +:+ usize_to_string (count_entries_with_level toc l + 1).

Definition push (self : TocBuilder) (l : nat) (nm i : string) : outcome (TocBuilder * string) :=
  if 1 <=? l then
    let self := fold_until l self in
    let sec := number_for self l in
    mret (mk_TocBuilder (top_level self) (mk_TocEntry l sec nm i [] :: chain self), sec)
  else Panicked.

(** [print_inner] and [print]. *)
Fixpoint print_entry (e : TocEntry) : string :=
  nl +:+ "<li><a href=" +:+ dquote +:+ "#" +:+ heading_id e +:+ dquote +:+ ">" +:+ sec_number e +:+ " "
    +:+ heading_name e +:+ "</a><ul>"
    +:+ foldr (fun c v => print_entry c +:+ v) EmptyString (children e) +:+ "</ul></li>".
Definition print (self : Toc) : string :=
  "<ul>" +:+ foldr (fun c v => print_entry c +:+ v) EmptyString self +:+ "</ul>".

(** ** The outline *)

(** The level, the name and the id of a heading. *)
Abbreviation Heading := (nat * string * string)%type.
Definition heading_level (h : Heading) : nat := h.1.1.
#[local] Arguments heading_level : simpl never.
#[local] Arguments Nat.ltb : simpl never.

(** The headings below one of level [l], and those after them. *)
Fixpoint inner (l : nat) (hs : list Heading) : list Heading :=
  match hs with
  | h :: hs => if l <? heading_level h then h :: inner l hs else []
  | [] => []
  end.
Fixpoint after (l : nat) (hs : list Heading) : list Heading :=
  match hs with
  | h :: hs' => if l <? heading_level h then after l hs' else hs
  | [] => []
  end.

Definition show (n : list nat) : string := join "." (List.map usize_to_string n).

(** The number of a heading of level [l], below [parent] and after siblings of levels [before]. *)
Definition number (parent before : list nat) (l : nat) : list nat :=
  parent ++ replicate (l - 1 - length parent) 0 ++ [S (count_occ Nat.eq_dec before l)].

#[local] Arguments number : simpl never.

(** The outline of the headings [hs], with the numbers of its entries. *)
Inductive Numbered := mk_Numbered {
  numbered_heading : Heading;
  numbered_as : list nat;
  numbered_children : list Numbered
}.

Fixpoint outline (fuel : nat) (parent before : list nat) (hs : list Heading) : list Numbered :=
  match fuel, hs with
  | S fuel, h :: hs =>
      let l := heading_level h in
      let n := number parent before l in
      mk_Numbered h n (outline fuel n [] (inner l hs))
        :: outline fuel parent (before ++ [l]) (after l hs)
  | _, _ => []
  end.

(** The entry of the table for one of the outline. *)
Fixpoint entry_of (x : Numbered) : TocEntry :=
  mk_TocEntry (heading_level (numbered_heading x)) (show (numbered_as x)) (numbered_heading x).1.2
    (numbered_heading x).2 (List.map entry_of (numbered_children x)).

(** The entries in the order of the text. *)
Fixpoint preorder (x : Numbered) : list Numbered := x :: flat_map preorder (numbered_children x).
Definition listing (l : list Numbered) : list Numbered := flat_map preorder l.

(** A heading without heading above it in the text, [h] before [h']: numbers in the order of
    books. *)
Inductive number_lt : list nat -> list nat -> Prop :=
| number_lt_prefix x l : number_lt [] (x :: l)
| number_lt_head x y l1 l2 : x < y -> number_lt (x :: l1) (y :: l2)
| number_lt_tail x l1 l2 : number_lt l1 l2 -> number_lt (x :: l1) (x :: l2).

(** ** The list of the headings, in two parts *)
Lemma inner_after l hs : inner l hs ++ after l hs = hs.
Proof. induction hs as [|h hs IH]; [done|]. cbn. destruct (l <? heading_level h); [|done]. cbn. by rewrite IH. Qed.

Lemma inner_above l hs : Forall (fun h => l < heading_level h) (inner l hs).
Proof.
  induction hs as [|h hs IH]; [constructor|]. cbn.
  destruct (Nat.ltb_spec l (heading_level h)); by constructor.
Qed.

Lemma after_head l hs h rest : after l hs = h :: rest -> heading_level h <= l.
Proof.
  induction hs as [|h0 hs IH]; [done|]. cbn. destruct (Nat.ltb_spec l (heading_level h0)); [done|].
  by intros [= -> _].
Qed.

Lemma inner_length l hs : length (inner l hs) <= length hs.
Proof. rewrite <- (inner_after l hs) at 2. rewrite length_app. lia. Qed.
Lemma after_length l hs : length (after l hs) <= length hs.
Proof. rewrite <- (inner_after l hs) at 2. rewrite length_app. lia. Qed.

Lemma after_Forall (P : Heading -> Prop) l hs : Forall P hs -> Forall P (after l hs).
Proof. rewrite <- (inner_after l hs) at 1. by intros [_ ?]%Forall_app. Qed.

(** Enough fuel: one step for a heading. *)
Lemma outline_fuel n1 : forall n2 parent before hs,
  length hs <= n1 -> length hs <= n2 -> outline n1 parent before hs = outline n2 parent before hs.
Proof.
  induction n1 as [|n1 IH]; intros n2 parent before hs H1 H2.
  - destruct hs; [by destruct n2|cbn in H1; lia].
  - destruct n2 as [|n2]; [destruct hs; [done|cbn in H2; lia]|].
    destruct hs as [|h hs]; [done|]. cbn in H1, H2 |- *.
    pose proof (inner_length (heading_level h) hs). pose proof (after_length (heading_level h) hs).
    f_equal; [f_equal|]; apply IH; lia.
Qed.

(** Each heading once, in its order. *)
Lemma listing_outline n : forall parent before hs, length hs <= n ->
  List.map numbered_heading (listing (outline n parent before hs)) = hs.
Proof.
  induction n as [|n IH]; intros parent before hs Hn; [by destruct hs; [|cbn in Hn; lia]|].
  destruct hs as [|h hs]; [done|]. cbn in Hn |- *.
  pose proof (inner_length (heading_level h) hs). pose proof (after_length (heading_level h) hs).
  rewrite map_app. unfold listing in IH. rewrite !IH by lia. by rewrite inner_after.
Qed.

(** ** The numbers increase *)
Lemma number_length parent before l : length parent < l -> length (number parent before l) = l.
Proof. intros Hl. unfold number. rewrite !length_app, length_replicate. cbn. lia. Qed.

Lemma number_lt_app p x y : number_lt x y -> number_lt (p ++ x) (p ++ y).
Proof. intros H. induction p as [|a p IH]; [done|]. by apply number_lt_tail. Qed.

Lemma number_lt_irrefl x : ~ number_lt x x.
Proof. induction x as [|a x IH]; intros H; inversion H; subst; [lia|done]. Qed.

#[export] Instance number_lt_trans : Transitive number_lt.
Proof.
  intros x y z Hxy. revert z. induction Hxy as [b l|a b l1 l2 Hab|a l1 l2 _ IH]; intros z Hz;
    inversion Hz; subst; try constructor; try lia; by apply IH.
Qed.

(** A number that a sibling of a level of [before], or something below it, may have. *)
Definition taken_before (parent before x : list nat) : Prop :=
  exists a k q, x = parent ++ replicate (a - 1 - length parent) 0 ++ k :: q /\
    length parent < a /\ 1 <= k <= count_occ Nat.eq_dec before a.

Lemma taken_here parent before l q : length parent < l ->
  taken_before parent (before ++ [l]) (number parent before l ++ q).
Proof.
  intros Hl. exists l, (S (count_occ Nat.eq_dec before l)), q. unfold number.
  rewrite <- !app_assoc. split_and!; [done|done|lia|].
  rewrite count_occ_app. cbn. destruct (Nat.eq_dec l l); [lia|done].
Qed.

Lemma taken_more parent before l x : taken_before parent before x -> taken_before parent (before ++ [l]) x.
Proof.
  intros (a & k & q & -> & Ha & Hk). exists a, k, q. rewrite count_occ_app. split_and!; [done|done|lia|lia].
Qed.

Lemma taken_lt parent before l x r :
  length parent < l -> Forall (fun a => l <= a) before -> taken_before parent before x ->
  number_lt x (number parent before l ++ r).
Proof.
  intros Hl Hb (a & k & q & -> & Ha & Hk). unfold number. rewrite <- !app_assoc. apply number_lt_app.
  assert (Hin : In a before) by (apply (count_occ_In Nat.eq_dec); lia).
  rewrite Forall_forall in Hb. specialize (Hb a (proj2 (list_elem_of_In _ _) Hin)).
  destruct (decide (a = l)) as [->|Hne].
  - apply number_lt_app. cbn. constructor. lia.
  - replace (a - 1 - length parent) with ((l - 1 - length parent) + S (a - l - 1)) by lia.
    rewrite replicate_add, <- app_assoc. apply number_lt_app. cbn. constructor. lia.
Qed.

Lemma StronglySorted_both {A} (R : relation A) l1 l2 :
  StronglySorted R l1 -> StronglySorted R l2 -> (forall x y, x ∈ l1 -> y ∈ l2 -> R x y) ->
  StronglySorted R (l1 ++ l2).
Proof.
  induction 1 as [|x l1 _ IH Hx]; intros H2 H12; [done|]. cbn. constructor.
  - apply IH; [done|]. intros y z Hy. apply H12. by apply list_elem_of_further.
  - apply Forall_app. split; [done|]. apply Forall_forall. intros y. apply H12, list_elem_of_here.
Qed.

(** What the numbers of an outline satisfy. *)
Record numbers_ok (parent before : list nat) (hs : list Heading) (ns : list (list nat)) : Prop := {
  no_sorted : StronglySorted number_lt ns;
  no_below : forall m, m ∈ ns -> exists q, q <> [] /\ m = parent ++ q;
  no_later : forall m x, m ∈ ns -> taken_before parent before x -> number_lt x m;
  no_length : Forall2 (fun m h => length m = heading_level h) ns hs
}.

Lemma numbers_nil parent before : numbers_ok parent before [] [].
Proof.
  split; [constructor| | |constructor].
  - by intros m ?%not_elem_of_nil.
  - by intros m x ?%not_elem_of_nil.
Qed.

Lemma outline_numbers n : forall parent before hs, length hs <= n ->
  Forall (fun h => length parent < heading_level h) hs ->
  (forall h rest, hs = h :: rest -> Forall (fun a => heading_level h <= a) before) ->
  numbers_ok parent before hs (List.map numbered_as (listing (outline n parent before hs))).
Proof.
  induction n as [|n IH]; intros parent before hs Hn Hl Hb.
  { destruct hs; [apply numbers_nil|cbn in Hn; lia]. }
  destruct hs as [|h hs]; [apply numbers_nil|].
  apply Forall_cons in Hl as [Hh Hl]. specialize (Hb h hs eq_refl). cbn in Hn.
  pose proof (inner_length (heading_level h) hs). pose proof (after_length (heading_level h) hs).
  set (l := heading_level h) in *. set (m0 := number parent before l).
  assert (Hm0 : length m0 = l) by by apply number_length.
  destruct (IH m0 [] (inner l hs)) as [Hs1 Hb1 _ Hl1]; [lia| |done|].
  { rewrite Hm0. apply inner_above. }
  destruct (IH parent (before ++ [l]) (after l hs)) as [Hs2 Hb2 Ht2 Hl2]; [lia|by apply after_Forall| |].
  { intros h' rest Hr%after_head. apply Forall_app. split; [|by repeat constructor].
    eapply Forall_impl; [exact Hb|]. cbn. lia. }
  assert (Hext : forall m, m ∈ m0 :: List.map numbered_as (listing (outline n m0 [] (inner l hs))) ->
    exists r, m = m0 ++ r).
  { intros m [->|Hm]%elem_of_cons; [exists []; by rewrite app_nil_r|].
    destruct (Hb1 m Hm) as (q & _ & ->). by exists q. }
  cbn [outline listing flat_map preorder List.map numbered_as numbered_children]. rewrite !map_app.
  cbn [List.map numbered_as]. fold l m0. split.
  - apply (StronglySorted_both _ (m0 :: _)).
    + constructor; [done|]. apply Forall_forall. intros m Hm. destruct (Hb1 m Hm) as (q & Hq & ->).
      rewrite <- (app_nil_r m0) at 1. apply number_lt_app. destruct q; [done|constructor].
    + done.
    + intros x y (r & ->)%Hext Hy. apply (Ht2 y _ Hy). by apply taken_here.
  - intros m [Hm|Hm]%elem_of_app; [|by apply Hb2].
    destruct (Hext m Hm) as (r & ->). unfold m0, number. rewrite <- !app_assoc.
    eexists. split; [|done]. by destruct (replicate _ _).
  - intros m x [Hm|Hm]%elem_of_app Hx.
    + destruct (Hext m Hm) as (r & ->). by apply taken_lt.
    + apply (Ht2 m x Hm). by apply taken_more.
  - constructor; [done|]. pose proof (Forall2_app Hl1 Hl2) as HF. by rewrite inner_after in HF.
Qed.

(** ** The builder makes the outline *)

(** The headings one after the other, with the section numbers that are returned. *)
Definition push_all (hs : list Heading) (b : TocBuilder) : outcome (TocBuilder * list string) :=
  fold_loop (fun h '(b, secs) =>
    r ← push b (heading_level h) h.1.2 h.2;
    mret (r.1, secs ++ [r.2])) hs (b, []).

(** The place where the next entries go: the last entry of the chain, or the top. *)
Definition base_level (b : TocBuilder) : nat :=
  match chain b with [] => 0 | e :: _ => level e end.
Definition base_toc (b : TocBuilder) : Toc :=
  match chain b with [] => top_level b | e :: _ => children e end.
Definition add (b : TocBuilder) (es : Toc) : TocBuilder :=
  match chain b with
  | [] => mk_TocBuilder (top_level b ++ es) []
  | e :: c => mk_TocBuilder (top_level b) (with_children e (children e ++ es) :: c)
  end.

(** The state stands for the entry numbered [parent] with children of levels [before]. *)
Record based (b : TocBuilder) (parent before : list nat) : Prop := {
  bs_level : base_level b = length parent;
  bs_number : forall e c, chain b = e :: c -> parent <> [] /\ sec_number e = show parent;
  bs_before : List.map level (base_toc b) = before
}.

Lemma add_nil b : add b [] = b.
Proof.
  destruct b as [top [|[] c]]; unfold add; cbn; by rewrite app_nil_r.
Qed.

Lemma add_add b es1 es2 : add (add b es1) es2 = add b (es1 ++ es2).
Proof. destruct b as [top [|[] c]]; unfold add; cbn; by rewrite app_assoc. Qed.

Lemma base_add b es : base_level (add b es) = base_level b /\ base_toc (add b es) = base_toc b ++ es.
Proof. by destruct b as [top [|[] c]]. Qed.

Lemma fold_until_base l b : base_level b < l -> fold_until l b = b.
Proof.
  destruct b as [top [|e c]]; unfold fold_until, base_level; cbn; intros Hl.
  - unfold extend. cbn. by rewrite app_nil_r.
  - unfold extend. cbn. rewrite app_nil_r. destruct (Nat.ltb_spec (level e) l); [|lia].
    by destruct e.
Qed.

Lemma entry_eta e :
  mk_TocEntry (level e) (sec_number e) (heading_name e) (heading_id e) (children e) = e.
Proof. by destruct e. Qed.

(** Folding further. *)
Lemma fold_loop_further l1 l2 : l1 <= l2 -> forall c top this,
  fold_until l1 (fold_loop_until l2 top this c) = fold_loop_until l1 top this c.
Proof.
  intros Hl. induction c as [|e c IH]; intros top this; cbn.
  - unfold fold_until, extend. cbn. by rewrite app_nil_r.
  - destruct (Nat.ltb_spec (level e) l2) as [H2|H2].
    + unfold fold_until. cbn. unfold extend. cbn. by rewrite app_nil_r.
    + destruct (Nat.ltb_spec (level e) l1); [lia|]. apply IH.
Qed.

Lemma fold_until_further l1 l2 b : l1 <= l2 -> fold_until l1 (fold_until l2 b) = fold_until l1 b.
Proof. intros Hl. by apply fold_loop_further. Qed.

Lemma push_further l l' nm i b : l <= l' -> push (fold_until l' b) l nm i = push b l nm i.
Proof. intros Hl. unfold push. by rewrite fold_until_further. Qed.

(** An entry is closed into the one below it. *)
Lemma fold_until_close l e b : base_level b < l -> l <= level e ->
  fold_until l (mk_TocBuilder (top_level b) (e :: chain b)) = add b [e].
Proof.
  intros Hb Hl. unfold fold_until. cbn.
  destruct (Nat.ltb_spec (level e) l); [lia|].
  unfold with_children, extend at 1. cbn. rewrite app_nil_r, entry_eta. destruct b as [top [|e' c]]; cbn in *; [done|].
  destruct (Nat.ltb_spec (level e') l); [done|]. unfold base_level in Hb. cbn in Hb. lia.
Qed.

(** *** The numbers as texts *)
Lemma join_app sep u v : u <> [] -> v <> [] -> join sep (u ++ v) = join sep u +:+ sep +:+ join sep v.
Proof.
  intros Hu Hv. induction u as [|x u IH]; [done|]. destruct u as [|y u].
  - by destruct v.
  - change (x +:+ sep +:+ join sep ((y :: u) ++ v) = (x +:+ sep +:+ join sep (y :: u)) +:+ sep +:+ join sep v).
    rewrite IH by done. by rewrite !str_app_assoc.
Qed.

Lemma show_zeros n k : show (replicate n 0 ++ [k]) = zeros n +:+ usize_to_string k.
Proof.
  induction n as [|n IH]; [done|]. change (replicate (S n) 0 ++ [k]) with ([0] ++ (replicate n 0 ++ [k])).
  unfold show. rewrite map_app, join_app; [|done|by destruct n].
  fold (show (replicate n 0 ++ [k])). by rewrite IH.
Qed.

Lemma count_levels toc l : count_entries_with_level toc l = count_occ Nat.eq_dec (List.map level toc) l.
Proof.
  unfold count_entries_with_level. induction toc as [|e toc IH]; [done|]. cbn.
  destruct (Nat.eqb_spec (level e) l), (Nat.eq_dec (level e) l); cbn; congruence.
Qed.

Lemma number_for_based b parent before l : based b parent before -> length parent < l ->
  number_for b l = show (number parent before l).
Proof.
  intros [Hl Hn Hb] Hlt. unfold number_for, number. unfold base_level in Hl. unfold base_toc in Hb.
  destruct (chain b) as [|e c]; cbn zeta beta iota.
  - assert (parent = []) as -> by (by apply length_zero_iff_nil).
    rewrite count_levels, Hb, Nat.add_1_r. cbn [app length]. by rewrite show_zeros.
  - destruct (Hn e c eq_refl) as [Hp ->]. rewrite count_levels, Hb, Nat.add_1_r, Hl.
    unfold show at 2. rewrite map_app, join_app; [|by destruct parent|by destruct (replicate _ _)].
    fold (show parent). rewrite map_app. change ([usize_to_string ?x]) with (List.map usize_to_string [x]).
    rewrite <- map_app. fold (show (replicate (l - 1 - length parent) 0 ++ [S (count_occ Nat.eq_dec before l)])).
    rewrite show_zeros. by rewrite !str_app_assoc.
Qed.

(** *** All the headings *)
#[local] Abbreviation push_one := (fun (h : Heading) '(b, secs) =>
  r ← push b (heading_level h) h.1.2 h.2;
  mret (r.1, secs ++ [r.2])).

Lemma push_all_further l b h hs secs : heading_level h <= l ->
  fold_loop push_one (h :: hs) (fold_until l b, secs) = fold_loop push_one (h :: hs) (b, secs).
Proof. intros Hl. cbn [fold_loop]. by rewrite push_further. Qed.

Lemma push_based b parent before h : based b parent before -> length parent < heading_level h ->
  push b (heading_level h) h.1.2 h.2 =
    Ret (mk_TocBuilder (top_level b)
           (entry_of (mk_Numbered h (number parent before (heading_level h)) []) :: chain b),
         show (number parent before (heading_level h))).
Proof.
  intros Hb Hl. unfold push. destruct (Nat.leb_spec 1 (heading_level h)); [|lia].
  rewrite fold_until_base by (rewrite (bs_level _ _ _ Hb); done).
  by rewrite (number_for_based b parent before).
Qed.

Lemma based_add b parent before x : based b parent before ->
  based (add b [entry_of x]) parent (before ++ [heading_level (numbered_heading x)]).
Proof.
  intros [Hl Hn Hb]. destruct (base_add b [entry_of x]) as [H1 H2]. split.
  - by rewrite H1.
  - intros e c. destruct b as [top [|e' c']]; unfold add; cbn; [done|].
    intros [= <- <-]. cbn. by apply (Hn e' c').
  - rewrite H2, map_app, Hb. by destruct x.
Qed.

(** The headings [hs] below the place of [b] become entries there. *)
Lemma push_all_outline n : forall hs b parent before secs, length hs <= n ->
  based b parent before -> Forall (fun h => length parent < heading_level h) hs ->
  returns (fold_loop push_one hs (b, secs)) (fun r =>
    fold_until (S (length parent)) r.1 = add b (List.map entry_of (outline n parent before hs)) /\
    r.2 = secs ++ List.map (fun x => show (numbered_as x)) (listing (outline n parent before hs))).
Proof.
  induction n as [|n IH]; intros hs b parent before secs Hn Hb Hl.
  { destruct hs; [|cbn in Hn; lia]. apply returns_ret. cbn.
    rewrite fold_until_base by (rewrite (bs_level _ _ _ Hb); lia). by rewrite add_nil, app_nil_r. }
  destruct hs as [|h hs].
  { apply returns_ret. cbn.
    rewrite fold_until_base by (rewrite (bs_level _ _ _ Hb); lia). by rewrite add_nil, app_nil_r. }
  apply Forall_cons in Hl as [Hh Hl]. cbn in Hn.
  pose proof (inner_length (heading_level h) hs). pose proof (after_length (heading_level h) hs).
  set (l := heading_level h) in *. set (m := number parent before l).
  assert (Hm : length m = l) by by apply number_length.
  set (b1 := mk_TocBuilder (top_level b) (entry_of (mk_Numbered h m []) :: chain b)).
  assert (Hb1 : based b1 m []).
  { split; [by rewrite Hm| |done]. intros e c [= <- _]. split; [|done]. intros ->. cbn in Hm. lia. }
  cbn [fold_loop]. rewrite (push_based b parent before h) by done. cbn [mbind outcome_bind fst snd mret outcome_ret].
  fold l m b1. rewrite <- (inner_after l hs) at 1. rewrite fold_loop_app.
  eapply returns_bind; [apply (IH _ b1 m [] (secs ++ [show m])); [lia|done|]|].
  { rewrite Hm. apply inner_above. }
  intros [b2 secs2] [Hf2 Hs2]. cbn [fst snd] in Hf2, Hs2.
  set (x := mk_Numbered h m (outline n m [] (inner l hs))).
  change (outline (S n) parent before (h :: hs))
    with (x :: outline n parent (before ++ [l]) (after l hs)).
  assert (Hclose : forall k, length parent < k -> k <= l -> fold_until k b2 = add b [entry_of x]).
  { intros k Hk1 Hk2. rewrite <- (fold_until_further k (S (length m))) by lia. rewrite Hf2.
    change (add b1 (List.map entry_of (outline n m [] (inner l hs))))
      with (mk_TocBuilder (top_level b) (entry_of x :: chain b)).
    apply fold_until_close; [by rewrite (bs_level _ _ _ Hb)|done]. }
  assert (Hlist : listing (x :: outline n parent (before ++ [l]) (after l hs)) =
    (x :: listing (outline n m [] (inner l hs))) ++ listing (outline n parent (before ++ [l]) (after l hs)))
    by done.
  rewrite Hlist, map_app. clear Hlist. rewrite app_assoc.
  assert (Hsecs : secs ++ List.map (fun x => show (numbered_as x)) (x :: listing (outline n m [] (inner l hs))) = secs2)
    by (rewrite Hs2; by rewrite <- app_assoc).
  rewrite Hsecs. clear Hsecs.
  assert (Hrest : returns (fold_loop push_one (after l hs) (add b [entry_of x], secs2)) (fun r =>
    fold_until (S (length parent)) r.1 = add (add b [entry_of x])
      (List.map entry_of (outline n parent (before ++ [l]) (after l hs))) /\
    r.2 = secs2 ++ List.map (fun x => show (numbered_as x))
      (listing (outline n parent (before ++ [l]) (after l hs))))).
  { apply IH; [lia| |by apply after_Forall]. by apply (based_add b parent before x). }
  rewrite add_add in Hrest. destruct (after l hs) as [|h2 rest] eqn:Ha.
  - apply returns_ret. cbn [fst snd]. destruct n; rewrite Hclose by lia; by rewrite app_nil_r.
  - pose proof (after_head _ _ _ _ Ha) as Hh2.
    assert (Hlt : length parent < heading_level h2).
    { apply (after_Forall _ l) in Hl. rewrite Ha in Hl. by inversion Hl. }
    rewrite <- (push_all_further (heading_level h2)) by done. by rewrite Hclose.
Qed.

(** A heading of level 0 panics. *)
Lemma level_zero_panics b nm i : push b 0 nm i = Panicked.
Proof. done. Qed.

(** The table of contents is the outline of the page. For every list of headings of level
    1 and more the builder never panics; the table is that of the outline, in which the
    headings below one are those that follow it up to the next one that is not of a greater
    level; every heading is in it once, in the order of the text. The section numbers that
    are returned are those of the table. They strictly increase in the order of the text, so
    that no two sections have the same number, and a number has as many parts as its heading
    has levels. *)
Lemma push_all_builds (hs : list Heading)
    (Hl : Forall (fun h => 1 <= heading_level h) hs) :
  let o := outline (length hs) [] [] hs in
  returns (push_all hs TocBuilder_new) (fun r =>
    into_toc r.1 = List.map entry_of o /\
    r.2 = List.map (fun x => show (numbered_as x)) (listing o)) /\
  List.map numbered_heading (listing o) = hs /\
  StronglySorted number_lt (List.map numbered_as (listing o)) /\
  Forall2 (fun n h => length n = heading_level h) (List.map numbered_as (listing o)) hs.
Proof.
  intros o.
  destruct (outline_numbers (length hs) [] [] hs) as [Hs _ _ Hlen]; [done|done| |].
  { by intros h rest _. }
  split_and!; [|by apply listing_outline|done|done].
  eapply returns_mono; [apply (push_all_outline (length hs) hs TocBuilder_new [] []); [done| |done]|].
  { by split. }
  intros r [Hf Hr]. split; [|done]. cbn [length] in Hf. unfold into_toc.
  rewrite <- (fold_until_further 0 1) by lia. rewrite Hf. cbn. unfold extend. by rewrite app_nil_r.
Qed.

(** The headings of the unit test of the builder, with their numbers. *)
Definition smoke_headings : list Heading :=
  List.map (fun l => (l, "", "")) [2; 1; 2; 3; 3; 2; 3; 3; 1; 1; 4; 6; 4; 2; 4].

Lemma smoke_outline :
  exists b, push_all smoke_headings TocBuilder_new = Ret (b,
      ["0.1"; "1"; "1.1"; "1.1.1"; "1.1.2"; "1.2"; "1.2.1"; "1.2.2"; "2"; "3"; "3.0.0.1";
       "3.0.0.1.0.1"; "3.0.0.2"; "3.1"; "3.1.0.1"]) /\
    into_toc b = List.map entry_of (outline 15 [] [] smoke_headings).
Proof. eexists. split; vm_compute; reflexivity. Qed.
