(* ===== verification/IdMap.v ===== *)
(** The ids of a page ([IdMap] of [html/markdown.rs]): a candidate that is taken gets a
    number. *)

From S2P Require Import Prelude RustStd.

(** ** [IdMap] *)

(** The number that the next id derived from a candidate gets. *)
Record IdMap := mk_IdMap { map_ : gmap string nat }.

(** The ids used by the templates of rustdoc, and by its sections. *)
Definition template_ids : list string :=
  ["mainThemeStyle"; "themeStyle"; "theme-picker"; "theme-choices"; "settings-menu"; "main";
   "search"; "crate-search"; "render-detail"; "toggle-all-docs"; "all-types";
   "fields"; "variants"; "implementors-list"; "synthetic-implementors-list"; "implementations";
   "trait-implementations"; "synthetic-implementations"; "blanket-implementations";
   "deref-methods"].
Definition init_id_map : gmap string nat :=
  foldl (fun map id => <[id := 1]> map) ∅ template_ids.

Definition IdMap_new : IdMap := mk_IdMap init_id_map.

Definition derived_id (candidate : string) (a : nat) : string :=
  candidate +:+ "-" +:+ usize_to_string a.

Definition derive (self : IdMap) (candidate : string) : IdMap * string :=
  let '(map, id) := match map_ self !! candidate with
    | None => (map_ self, candidate)
    | Some a => (<[candidate := a + 1]> (map_ self), derived_id candidate a)
    end in
  (mk_IdMap (<[id := 1]> map), id).

Definition populate (self : IdMap) (ids : list string) : IdMap :=
  foldl (fun self id => (derive self id).1) self ids.

Definition reset (self : IdMap) : IdMap := mk_IdMap init_id_map.

(** One candidate after the other. *)
Fixpoint derive_all (self : IdMap) (candidates : list string) : IdMap * list string :=
  match candidates with
  | [] => (self, [])
  | c :: candidates =>
      let r := derive self c in
      let rs := derive_all r.1 candidates in
      (rs.1, r.2 :: rs.2)
  end.

(** ** Derived ids *)

(** Texts without a character. *)
Definition free_of (x : Ascii.ascii) (s : string) : Prop :=
  forall pre post, s <> pre +:+ String x EmptyString +:+ post.

(** The last one of a separator splits a text. *)
Lemma split_last x c1 c2 d1 d2 : free_of x d1 -> free_of x d2 ->
  c1 +:+ String x EmptyString +:+ d1 = c2 +:+ String x EmptyString +:+ d2 -> c1 = c2 /\ d1 = d2.
Proof.
  intros H1 H2. revert c2. induction c1 as [|a c1 IH]; intros [|b c2] Heq; simpl in Heq.
  - by simplify_eq.
  - injection Heq as _ Heq. exfalso. by apply (H1 c2 d2).
  - injection Heq as _ Heq. exfalso. by apply (H2 c1 d1).
  - injection Heq as -> Heq. apply IH in Heq as [-> ->]. done.
Qed.

(** Decimal numbers. *)
Definition is_digit (c : Ascii.ascii) : bool :=
  let n := Ascii.nat_of_ascii c in (48 <=? n) && (n <=? 57).
Fixpoint all_digits (s : string) : bool :=
  match s with EmptyString => true | String c s => is_digit c && all_digits s end.

Lemma pretty_digits n : usize_to_string n <> EmptyString /\ all_digits (usize_to_string n) = true.
Proof.
  unfold usize_to_string. change (pretty n) with (pretty (N.of_nat n)). unfold pretty, pretty_N.
  destruct (decide (N.of_nat n = 0%N)) as [_|Hn]; [done|].
  enough (Hgo : forall x s, all_digits s = true -> x <> 0%N \/ s <> EmptyString ->
    pretty_N_go x s <> EmptyString /\ all_digits (pretty_N_go x s) = true) by (apply Hgo; [done|by left]).
  clear n Hn. induction x as [x IH] using (well_founded_induction N.lt_wf_0). intros s Hs Hx.
  destruct (decide (x = 0%N)) as [->|Hne]; [rewrite pretty_N_go_0; split; [by destruct Hx|done]|].
  rewrite pretty_N_go_step by lia. apply IH; [apply N.div_lt; lia| |by right].
  cbn. rewrite Hs, andb_true_r. unfold pretty_N_char. by repeat case_match.
Qed.

Lemma digits_free_of x s : is_digit x = false -> all_digits s = true -> free_of x s.
Proof.
  intros Hx Hs pre post ->. induction pre as [|c pre IH]; simpl in Hs; apply andb_true_iff in Hs as [Hc Hs].
  - congruence.
  - by apply IH.
Qed.

Lemma pretty_free_of x n : is_digit x = false -> free_of x (usize_to_string n).
Proof. intros Hx. apply digits_free_of; [done|]. apply pretty_digits. Qed.

Lemma derived_id_inj c1 c2 a1 a2 : derived_id c1 a1 = derived_id c2 a2 -> c1 = c2 /\ a1 = a2.
Proof.
  intros [-> Ha]%split_last; [|by apply pretty_free_of..]. split; [done|]. by apply pretty_nat_inj.
Qed.

(** No candidate looks like a derived one. *)
Definition plain (c : string) : Prop := forall c' a, c <> derived_id c' a.

(** The ids in the map are plain or derived from one of them, with a number that was taken. *)
Record ids_ok (m : gmap string nat) : Prop := {
  io_positive : forall id v, m !! id = Some v -> 1 <= v;
  io_keys : forall id, is_Some (m !! id) -> plain id \/
    exists c a b, id = derived_id c a /\ m !! c = Some b /\ 1 <= a < b
}.

Lemma derived_fresh m c v : ids_ok m -> m !! c = Some v -> m !! derived_id c v = None.
Proof.
  intros [_ Hk] Hc. destruct (m !! derived_id c v) eqn:Hd; [|done].
  destruct (Hk (derived_id c v) ltac:(by eexists)) as [Hp|(c' & a & b & Heq & Hb & Ha)].
  - by destruct (Hp c v).
  - apply derived_id_inj in Heq as [-> ->]. rewrite Hc in Hb. injection Hb as ->. lia.
Qed.

Lemma derive_ok self c : plain c -> ids_ok (map_ self) ->
  map_ self !! (derive self c).2 = None /\ ids_ok (map_ (derive self c).1) /\
  forall id, is_Some (map_ (derive self c).1 !! id) <-> id = (derive self c).2 \/ is_Some (map_ self !! id).
Proof.
  intros Hc Hok. unfold derive. destruct (map_ self !! c) as [v|] eqn:Hv; cbn [fst snd map_].
  - pose proof (derived_fresh _ _ _ Hok Hv) as Hfresh.
    assert (Hne : derived_id c v <> c) by (intros Heq; by apply (Hc c v)).
    destruct Hok as [Hpos Hk]. split_and!; [done|split|].
    + intros id w [[_ <-]|[_ [[_ <-]|[_ Hw]]%lookup_insert_Some]]%lookup_insert_Some; [lia|lia|by eapply Hpos].
    + intros id [<-|[Hid [<-|[Hid' Hs]]%lookup_insert_is_Some]]%lookup_insert_is_Some.
      * right. exists c, v, (v + 1). rewrite lookup_insert_ne, lookup_insert_eq by done.
        split_and!; [done|done|by eapply Hpos|lia].
      * by left.
      * destruct (Hk id Hs) as [?|(c0 & a & b & -> & Hb & Ha)]; [by left|right].
        assert (Hc0 : derived_id c v <> c0) by (intros <-; congruence).
        destruct (decide (c = c0)) as [<-|Hcc].
        -- exists c, a, (v + 1). rewrite lookup_insert_ne, lookup_insert_eq by done.
           rewrite Hv in Hb. injection Hb as ->. split_and!; [done|done|lia|lia].
        -- exists c0, a, b. by rewrite !lookup_insert_ne.
    + intros id. rewrite !lookup_insert_is_Some'. split; [|naive_solver].
      intros [<-|[<-|?]]; [by left|right; by eexists|by right].
  - destruct Hok as [Hpos Hk]. split_and!; [done|split|].
    + intros id w [[_ <-]|[_ Hw]]%lookup_insert_Some; [lia|by eapply Hpos].
    + intros id [<-|[Hid Hs]]%lookup_insert_is_Some; [by left|].
      destruct (Hk id Hs) as [?|(c0 & a & b & -> & Hb & Ha)]; [by left|right].
      exists c0, a, b. rewrite lookup_insert_ne; [done|congruence].
    + intros id. rewrite lookup_insert_is_Some'. naive_solver.
Qed.

Lemma derive_all_ok cs : forall self, Forall plain cs -> ids_ok (map_ self) ->
  let rs := derive_all self cs in
  ids_ok (map_ rs.1) /\ NoDup rs.2 /\ (forall id, id ∈ rs.2 -> map_ self !! id = None) /\
  forall id, is_Some (map_ rs.1 !! id) <-> id ∈ rs.2 \/ is_Some (map_ self !! id).
Proof.
  induction cs as [|c cs IH]; intros self Hcs Hok; cbn [derive_all fst snd].
  { split_and!; [done|constructor|by intros id ?%not_elem_of_nil|].
    intros id. split; [by right|]. by intros [?%not_elem_of_nil|?]. }
  apply Forall_cons in Hcs as [Hc Hcs]. destruct (derive_ok self c Hc Hok) as (Hnew & Hok1 & Hdom).
  destruct (IH (derive self c).1 Hcs Hok1) as (Hok2 & Hnd & Hfresh & Hdom2). split_and!; [done|..].
  - constructor; [|done]. intros Hin%Hfresh. apply eq_None_not_Some in Hin. apply Hin, Hdom. by left.
  - intros id [->|Hin%Hfresh]%elem_of_cons; [done|]. apply eq_None_not_Some in Hin.
    apply eq_None_not_Some. intros Hs. apply Hin, Hdom. by right.
  - intros id. rewrite Hdom2, Hdom, elem_of_cons. tauto.
Qed.

(** The form of a derived id. *)
Fixpoint ends_in_number (s : string) : bool :=
  match s with
  | EmptyString => false
  | String c s =>
      (Ascii.eqb c (Ascii.ascii_of_nat 45) && negb (String.eqb s "") && all_digits s)
      || ends_in_number s
  end.

Lemma derived_ends_in_number c a : ends_in_number (derived_id c a) = true.
Proof.
  unfold derived_id. induction c as [|x c IH]; cbn [String.append ends_in_number].
  - destruct (pretty_digits a) as [Hne Hd]. rewrite Hd. change (EmptyString +:+ ?s) with s.
    destruct (String.eqb_spec (usize_to_string a) ""); [done|]. done.
  - apply orb_true_iff. by right.
Qed.

Lemma plain_check c : ends_in_number c = false -> plain c.
Proof. intros Hc c' a ->. by rewrite derived_ends_in_number in Hc. Qed.

Lemma template_plain : Forall plain template_ids.
Proof. repeat (constructor; [by apply plain_check|]). constructor. Qed.

Lemma init_ok : ids_ok init_id_map /\ forall id, is_Some (init_id_map !! id) <-> id ∈ template_ids.
Proof.
  unfold init_id_map. pose proof template_plain as Hp.
  enough (Hgen : forall l m, Forall plain l -> ids_ok m ->
    (forall id v, m !! id = Some v -> v = 1) ->
    ids_ok (foldl (fun map id => <[id := 1]> map) m l) /\
    forall id, is_Some (foldl (fun map id => <[id := 1]> map) m l !! id) <-> id ∈ l \/ is_Some (m !! id)).
  { destruct (Hgen template_ids ∅ Hp) as [H1 H2].
    - split; [intros id v Hv|intros id [v Hv]]; by rewrite lookup_empty in Hv.
    - intros id v Hv. by rewrite lookup_empty in Hv.
    - split; [done|]. intros id. rewrite H2. split; [|by left].
      intros [?|[v Hv]]; [done|]. by rewrite lookup_empty in Hv. }
  clear Hp. induction l as [|c l IH]; intros m Hl Hok Hone; cbn [foldl].
  { split; [done|]. intros id. split; [by right|]. by intros [?%not_elem_of_nil|?]. }
  apply Forall_cons in Hl as [Hc Hl]. destruct (IH (<[c := 1]> m) Hl) as [H1 H2].
  - destruct Hok as [Hpos Hk]. split.
    + intros id v [[_ <-]|[_ Hv]]%lookup_insert_Some; [lia|by eapply Hpos].
    + intros id [<-|[_ Hs]]%lookup_insert_is_Some; [by left|].
      destruct (Hk id Hs) as [?|(c0 & a & b & _ & Hb & Ha)]; [by left|].
      apply Hone in Hb. lia.
  - intros id v [[_ <-]|[_ Hv]]%lookup_insert_Some; [done|by eapply Hone].
  - split; [done|]. intros id. rewrite H2, lookup_insert_is_Some', elem_of_cons. naive_solver.
Qed.

(** ** Properties *)

(** The ids of a page. From candidates that do not look like derived ids themselves
    (a text, a dash and a number) the map derives ids that are all different, and none of
    which the templates use; all of them are taken afterwards. *)
Lemma derived_ids_are_distinct (candidates : list string) (Hc : Forall plain candidates) :
  let rs := derive_all IdMap_new candidates in
  NoDup rs.2 /\ (forall id, id ∈ rs.2 -> id ∉ template_ids) /\
  forall id, is_Some (map_ rs.1 !! id) <-> id ∈ rs.2 \/ id ∈ template_ids.
Proof.
  destruct init_ok as [Hok Hdom].
  destruct (derive_all_ok candidates IdMap_new Hc Hok) as (_ & Hnd & Hfresh & Hall). cbn [map_ IdMap_new] in *.
  split_and!; [done|..].
  - intros id Hid%Hfresh Ht%Hdom. apply eq_None_not_Some in Hid. by apply Hid.
  - intros id. by rewrite Hall, Hdom.
Qed.

(** The ids of the unit test of the map. *)
Definition test_candidates : list string :=
  ["foo"; "examples"; "examples"; "method.into_iter"; "examples"; "method.into_iter"; "foo";
   "main"; "search"; "methods"; "examples"; "method.into_iter"; "assoc_type.Item"; "assoc_type.Item"].

Lemma test_unique_ids :
  (derive_all IdMap_new test_candidates).2 =
    ["foo"; "examples"; "examples-1"; "method.into_iter"; "examples-2"; "method.into_iter-1";
     "foo-1"; "main-1"; "search-1"; "methods"; "examples-3"; "method.into_iter-2";
     "assoc_type.Item"; "assoc_type.Item-1"].
Proof. vm_compute. reflexivity. Qed.

(** A candidate of the form of a derived id can be derived again. *)
Lemma derived_ids_can_collide :
  (derive_all IdMap_new ["step-1"; "step"; "step"]).2 = ["step-1"; "step"; "step-1"].
Proof. vm_compute. reflexivity. Qed.
