(* ===== verification/LangString.v ===== *)
(** The lines and the attributes of a code block ([map_line] and [LangString] of
    [html/markdown.rs]): each flag is that of its tokens, and when the block is Rust. *)

From S2P Require Import Prelude RustStd.

(** ** Characters *)

(** [s.chars()], each character as its bytes. *)
Fixpoint chars (s : string) : list string :=
  match s with
  | EmptyString => []
  | String c s' =>
      if inside_char s' then
        match chars s' with
        | h :: t => String c h :: t
        | [] => [String c EmptyString]
        end
      else String c EmptyString :: chars s'
  end.

(** [s.trim_end()] and [s.trim()]. *)
Fixpoint trim_end (s : string) : string :=
  match s with
  | EmptyString => EmptyString
  | String c s' => if all_whitespace s then EmptyString else String c (trim_end s')
  end.
Definition trim (s : string) : string := trim_end (trim_start s).

(** [s.split(p)], on the characters. *)
Fixpoint split_where (p : string -> bool) (cs : list string) : list string :=
  match cs with
  | [] => [EmptyString]
  | c :: cs =>
      if p c then EmptyString :: split_where p cs
      else match split_where p cs with h :: t => (c +:+ h) :: t | [] => [c] end
  end.

Definition ascii_in (low high : nat) (c : Ascii.ascii) : bool :=
  let n := Ascii.nat_of_ascii c in (low <=? n) && (n <=? high).
Definition is_ascii_digit (c : Ascii.ascii) : bool := ascii_in 48 57 c.
Fixpoint all_ascii_digits (s : string) : bool :=
  match s with EmptyString => true | String c s => is_ascii_digit c && all_ascii_digits s end.

(** [s.parse::<u32>().is_ok()], for at most nine bytes. *)
Definition parses_u32 (s : string) : bool :=
  match s with
  | EmptyString => false
  | String c s' =>
      if Ascii.nat_of_ascii c =? 43 then negb (String.eqb s' EmptyString) && all_ascii_digits s'
      else all_ascii_digits s
  end.

(** [s.trim_start_matches(pat)]. *)
Fixpoint trim_start_matches (fuel : nat) (s pat : string) : string :=
  match fuel with
  | O => s
  | S fuel => if starts_with s pat then trim_start_matches fuel (str_drop (String.length pat) s) pat else s
  end.

(** [char::to_ascii_lowercase]; [to_lowercase] agrees with it on ASCII. *)
Definition to_ascii_lowercase (c : Ascii.ascii) : Ascii.ascii :=
  if ascii_in 65 90 c then Ascii.ascii_of_nat (Ascii.nat_of_ascii c + 32) else c.
Fixpoint str_to_lowercase (s : string) : string :=
  match s with EmptyString => EmptyString | String c s => String (to_ascii_lowercase c) (str_to_lowercase s) end.

Section alphanumeric.
(** [char::is_alphanumeric] beyond ASCII. *)
Context (unicode_alphanumeric : string -> bool).

Definition is_alphanumeric (c : string) : bool :=
  match c with
  | String a EmptyString => is_ascii_digit a || ascii_in 65 90 a || ascii_in 97 122 a
  | _ => unicode_alphanumeric c
  end.

(** A character of a title in an id. *)
Definition slugify (c : string) : option string :=
  if is_alphanumeric c || String.eqb c "-" || String.eqb c "_" then
    match c with
    | String a EmptyString => Some (String (to_ascii_lowercase a) EmptyString)
    | _ => Some c
    end
  else
    match c with
    | String a EmptyString => if is_whitespace a then Some "-" else None
    | _ => None
    end.

(** ** Lines *)

(** Hidden lines are not shown, but are part of the test. *)
Inductive Line := Hidden (l : string) | Shown (l : string).

Definition for_html (l : Line) : option string :=
  match l with Shown l => Some l | Hidden _ => None end.
Definition for_code (l : Line) : string := match l with Shown l | Hidden l => l end.

(** [s.replacen("##", "#", 1)]. *)
Fixpoint replace_hashes (s : string) : string :=
  match s with
  | EmptyString => EmptyString
  | String c s' => if starts_with s "##" then s' else String c (replace_hashes s')
  end.

Definition map_line (s : string) : Line :=
  let trimmed := trim s in
  if starts_with trimmed "##" then Shown (replace_hashes s)
  else if starts_with trimmed "# " then Hidden (str_drop 2 trimmed)
  else if String.eqb trimmed "#" then Hidden EmptyString
  else Shown s.

(** The text of a block that is shown, and the one that is tested. *)
Definition shown_text (origtext : string) : string :=
  join nl (omap (fun l => for_html (map_line l)) (lines origtext)).
Definition tested_text (origtext : string) : string :=
  join nl (List.map (fun l => for_code (map_line l)) (lines origtext)).

(** ** [LangString] *)

Inductive Edition := Edition2015 | Edition2018.
Definition Edition_from_str (s : string) : option Edition :=
  if String.eqb s "2015" then Some Edition2015
  else if String.eqb s "2018" then Some Edition2018
  else None.

Inductive Ignore := IgnoreAll | IgnoreNone | IgnoreSome (targets : list string).

Record LangString := mk_LangString {
  original : string;
  should_panic : bool;
  no_run : bool;
  ignore : Ignore;
  rust : bool;
  test_harness : bool;
  compile_fail : bool;
  error_codes : list string;
  allow_fail : bool;
  lang_edition : option Edition
}.

Definition all_false : LangString :=
  mk_LangString EmptyString false false IgnoreNone true false false [] false None.

(** The arms of the match on a token. *)
Inductive Token :=
| TEmpty | TShouldPanic | TNoRun | TIgnore | TIgnoreTarget (target : string) | TAllowFail | TRust
| TTestHarness | TCompileFail | TEdition (e : option Edition) | TErrorCode (code : string)
| TNoErrorCode | TOther (x : string).

Definition token_of (allow_error_code_check : bool) (token : string) : Token :=
  let x := trim token in
  if String.eqb x "" then TEmpty
  else if String.eqb x "should_panic" then TShouldPanic
  else if String.eqb x "no_run" then TNoRun
  else if String.eqb x "ignore" then TIgnore
  else if starts_with x "ignore-" then TIgnoreTarget (trim_start_matches (String.length x) x "ignore-")
  else if String.eqb x "allow_fail" then TAllowFail
  else if String.eqb x "rust" then TRust
  else if String.eqb x "test_harness" then TTestHarness
  else if String.eqb x "compile_fail" then TCompileFail
  else if starts_with x "edition" then TEdition (Edition_from_str (str_drop 7 x))
  else if allow_error_code_check && starts_with x "E" && (String.length x =? 5) then
    if parses_u32 (str_drop 1 x) then TErrorCode x else TNoErrorCode
  else TOther x.

(** The state of the loop over the tokens. *)
Record ParseState := mk_ParseState {
  data : LangString;
  seen_rust_tags : bool;
  seen_other_tags : bool;
  ignores : list string
}.

Definition with_flag (st : ParseState) (seen_rust : bool) (f : LangString -> LangString) : ParseState :=
  mk_ParseState (f (data st)) seen_rust (seen_other_tags st) (ignores st).

Definition parse_token (enable_per_target_ignores : bool) (st : ParseState) (t : Token) : ParseState :=
  let fresh := negb (seen_other_tags st) in
  let kept := fresh || seen_rust_tags st in
  match t with
  | TEmpty => st
  | TShouldPanic => with_flag st fresh (fun d =>
      mk_LangString (original d) true (no_run d) (ignore d) (rust d) (test_harness d)
        (compile_fail d) (error_codes d) (allow_fail d) (lang_edition d))
  | TNoRun => with_flag st fresh (fun d =>
      mk_LangString (original d) (should_panic d) true (ignore d) (rust d) (test_harness d)
        (compile_fail d) (error_codes d) (allow_fail d) (lang_edition d))
  | TIgnore => with_flag st fresh (fun d =>
      mk_LangString (original d) (should_panic d) (no_run d) IgnoreAll (rust d) (test_harness d)
        (compile_fail d) (error_codes d) (allow_fail d) (lang_edition d))
  | TIgnoreTarget x =>
      if enable_per_target_ignores
      then mk_ParseState (data st) fresh (seen_other_tags st) (ignores st ++ [x])
      else st
  | TAllowFail => with_flag st fresh (fun d =>
      mk_LangString (original d) (should_panic d) (no_run d) (ignore d) (rust d) (test_harness d)
        (compile_fail d) (error_codes d) true (lang_edition d))
  | TRust => with_flag st true (fun d =>
      mk_LangString (original d) (should_panic d) (no_run d) (ignore d) true (test_harness d)
        (compile_fail d) (error_codes d) (allow_fail d) (lang_edition d))
  | TTestHarness => with_flag st kept (fun d =>
      mk_LangString (original d) (should_panic d) (no_run d) (ignore d) (rust d) true
        (compile_fail d) (error_codes d) (allow_fail d) (lang_edition d))
  | TCompileFail => with_flag st kept (fun d =>
      mk_LangString (original d) (should_panic d) true (ignore d) (rust d) (test_harness d)
        true (error_codes d) (allow_fail d) (lang_edition d))
  | TEdition e => with_flag st (seen_rust_tags st) (fun d =>
      mk_LangString (original d) (should_panic d) (no_run d) (ignore d) (rust d) (test_harness d)
        (compile_fail d) (error_codes d) (allow_fail d) e)
  | TErrorCode x => with_flag st kept (fun d =>
      mk_LangString (original d) (should_panic d) (no_run d) (ignore d) (rust d) (test_harness d)
        (compile_fail d) (error_codes d ++ [x]) (allow_fail d) (lang_edition d))
  | TNoErrorCode | TOther _ => mk_ParseState (data st) (seen_rust_tags st) true (ignores st)
  end.

(** The attribute that is meant by an unknown one. *)
Definition meant_attribute (x : string) : option string :=
  let s := str_to_lowercase x in
  let among := fun a b c => String.eqb s a || String.eqb s b || String.eqb s c in
  if among "compile-fail" "compile_fail" "compilefail" then Some "compile_fail"
  else if among "should-panic" "should_panic" "shouldpanic" then Some "should_panic"
  else if among "no-run" "no_run" "norun" then Some "no_run"
  else if among "allow-fail" "allow_fail" "allowfail" then Some "allow_fail"
  else if among "test-harness" "test_harness" "testharness" then Some "test_harness"
  else None.

(** What is reported with [extra]: the unknown attribute and the one that is meant. *)
Definition reports (tokens : list Token) : list (string * string) :=
  omap (fun t => match t with
                 | TOther x => flag ← meant_attribute x; Some (x, flag)
                 | _ => None
                 end) tokens.

Definition is_separator (c : string) : bool :=
  negb (String.eqb c "_" || String.eqb c "-" || is_alphanumeric c).

Definition tokens_of (allow_error_code_check : bool) (s : string) : list Token :=
  List.map (token_of allow_error_code_check) (split_where is_separator (chars s)).

(** The end of [parse]. *)
Definition parsed (st : ParseState) : LangString :=
  let d := data st in
  mk_LangString (original d) (should_panic d) (no_run d)
    (match ignores st with [] => ignore d | ts => IgnoreSome ts end)
    (rust d && (negb (seen_other_tags st) || seen_rust_tags st))
    (test_harness d) (compile_fail d) (error_codes d) (allow_fail d) (lang_edition d).

Definition parse (s : string) (allow_error_code_check enable_per_target_ignores : bool) : LangString :=
  let d := mk_LangString s false false IgnoreNone true false false [] false None in
  parsed (foldl (parse_token enable_per_target_ignores) (mk_ParseState d false false [])
            (tokens_of allow_error_code_check s)).

(** What [parse] reports with [extra]. *)
Definition parse_reports (s : string) (allow_error_code_check : bool) : list (string * string) :=
  reports (tokens_of allow_error_code_check s).
End alphanumeric.

(** ** The kinds of tokens *)

(** A token of rustdoc, after which a block counts as Rust unless an unknown one came before
    it. *)
Definition resets (per_target : bool) (t : Token) : bool :=
  match t with
  | TShouldPanic | TNoRun | TIgnore | TAllowFail => true
  | TIgnoreTarget _ => per_target
  | _ => false
  end.
(** The same, but never back from Rust. *)
Definition keeps (t : Token) : bool :=
  match t with TTestHarness | TCompileFail | TErrorCode _ => true | _ => false end.
Definition is_other (t : Token) : bool :=
  match t with TNoErrorCode | TOther _ => true | _ => false end.
Definition is_rust_tag (t : Token) : bool := match t with TRust => true | _ => false end.

#[export] Instance Edition_eq_dec : EqDecision Edition.
Proof. solve_decision. Defined.
#[export] Instance Token_eq_dec : EqDecision Token.
Proof. solve_decision. Defined.

(** The flag of the block after the tokens [ts], in which the first unknown token is between
    [before] and [behind]. *)
Definition rust_after (per_target : bool) (before behind : list Token) : bool :=
  match last (List.filter (fun t => resets per_target t || is_rust_tag t) behind) with
  | Some t => is_rust_tag t
  | None => existsb (fun t => resets per_target t || keeps t || is_rust_tag t) before
  end.

Definition target_of (t : Token) : option string :=
  match t with TIgnoreTarget x => Some x | _ => None end.
Definition code_of (t : Token) : option string :=
  match t with TErrorCode x => Some x | _ => None end.
Definition edition_of (t : Token) : option (option Edition) :=
  match t with TEdition e => Some e | _ => None end.

(** ** The state after some tokens *)
Section state.
Context (per_target : bool) (s : string).

#[local] Abbreviation start :=
  (mk_ParseState (mk_LangString s false false IgnoreNone true false false [] false None) false false []).
#[local] Abbreviation run ts := (foldl (parse_token per_target) start ts).

Record state_ok (ts : list Token) (st : ParseState) : Prop := {
  st_original : original (data st) = s;
  st_panic : should_panic (data st) = bool_decide (TShouldPanic ∈ ts);
  st_no_run : no_run (data st) = bool_decide (TNoRun ∈ ts \/ TCompileFail ∈ ts);
  st_ignore : ignore (data st) = if decide (TIgnore ∈ ts) then IgnoreAll else IgnoreNone;
  st_targets : ignores st = if per_target then omap target_of ts else [];
  st_harness : test_harness (data st) = bool_decide (TTestHarness ∈ ts);
  st_fail : compile_fail (data st) = bool_decide (TCompileFail ∈ ts);
  st_codes : error_codes (data st) = omap code_of ts;
  st_allow : allow_fail (data st) = bool_decide (TAllowFail ∈ ts);
  st_edition : lang_edition (data st) = default None (last (omap edition_of ts));
  st_rust : rust (data st) = true;
  st_other : seen_other_tags st = existsb is_other ts
}.

Lemma bool_decide_snoc (t t' : Token) ts :
  bool_decide (t ∈ ts ++ [t']) = bool_decide (t ∈ ts) || bool_decide (t = t').
Proof.
  rewrite <- bool_decide_or. apply bool_decide_ext. by rewrite elem_of_app, list_elem_of_singleton.
Qed.

Lemma run_ok ts : state_ok ts (run ts).
Proof.
  induction ts as [|t ts IH] using rev_ind; [split; try done; by destruct per_target|].
  rewrite foldl_app. cbn [foldl]. destruct IH as [H1 H2 H3 H4 H5 H6 H7 H8 H9 H10 H11 H12].
  set (st := run ts) in *. clearbody st.
  assert (Hdec : forall t', bool_decide (t' ∈ ts ++ [t]) = bool_decide (t' ∈ ts) || bool_decide (t' = t))
    by (intros t'; apply bool_decide_snoc).
  assert (Hnr : bool_decide (TNoRun ∈ ts ++ [t] \/ TCompileFail ∈ ts ++ [t]) =
    bool_decide (TNoRun ∈ ts \/ TCompileFail ∈ ts) || bool_decide (TNoRun = t) || bool_decide (TCompileFail = t)).
  { rewrite !bool_decide_or, !Hdec. by destruct (bool_decide (TNoRun ∈ ts)), (bool_decide (TCompileFail ∈ ts)),
      (bool_decide (TNoRun = t)), (bool_decide (TCompileFail = t)). }
  assert (Hig : (if decide (TIgnore ∈ ts ++ [t]) then IgnoreAll else IgnoreNone) =
    if decide (TIgnore = t) then IgnoreAll else if decide (TIgnore ∈ ts) then IgnoreAll else IgnoreNone).
  { destruct (decide (TIgnore ∈ ts ++ [t])) as [Hin|Hin]; rewrite elem_of_app, list_elem_of_singleton in Hin;
      repeat case_decide; tauto. }
  split; destruct t; cbn; rewrite ?Hdec, ?Hnr, ?Hig, ?existsb_app, ?omap_app, ?last_app;
    rewrite ?H1, ?H2, ?H3, ?H4, ?H5, ?H6, ?H7, ?H8, ?H9, ?H10, ?H11, ?H12; cbn;
    rewrite ?orb_false_r, ?orb_true_r, ?app_nil_r; try done.
  all: try (destruct per_target; cbn; rewrite ?H1, ?H2, ?H3, ?H4, ?H5, ?H6, ?H7, ?H8, ?H9, ?H10, ?H11, ?H12; cbn; rewrite ?app_nil_r; done).
Qed.

(** Before the first unknown token, and after it. *)
Lemma seen_rust_before ts : existsb is_other ts = false ->
  seen_rust_tags (run ts) = existsb (fun t => resets per_target t || keeps t || is_rust_tag t) ts.
Proof.
  induction ts as [|t ts IH] using rev_ind; [done|]. rewrite foldl_app, !existsb_app. cbn [foldl existsb].
  rewrite !orb_false_r. intros [Ho Ht]%orb_false_iff. specialize (IH Ho).
  pose proof (st_other _ _ (run_ok ts)) as Hst. rewrite Ho in Hst.
  destruct t; cbn in *; rewrite ?Hst; cbn; rewrite ?orb_true_r, ?orb_false_r; try done.
  by destruct per_target; cbn; rewrite ?orb_true_r, ?orb_false_r, ?Hst.
Qed.

Lemma seen_rust_behind st ts : seen_other_tags st = true ->
  let st' := foldl (parse_token per_target) st ts in
  seen_other_tags st' = true /\
  seen_rust_tags st' = match last (List.filter (fun t => resets per_target t || is_rust_tag t) ts) with
                       | Some t => is_rust_tag t
                       | None => seen_rust_tags st
                       end.
Proof.
  intros Hst. induction ts as [|t ts IH] using rev_ind; [done|]. cbv zeta in *.
  rewrite foldl_app, List.filter_app, last_app. cbn [foldl]. destruct IH as [H1 H2].
  destruct t; cbn; rewrite ?H1, ?H2; cbn; try done.
  by destruct per_target; cbn; rewrite ?H1, ?H2.
Qed.

Lemma run_rust ts :
  (existsb is_other ts = false -> rust (parsed (run ts)) = true) /\
  forall before o behind, ts = before ++ o :: behind -> existsb is_other before = false ->
    is_other o = true -> rust (parsed (run ts)) = rust_after per_target before behind.
Proof.
  pose proof (run_ok ts) as Hok. split.
  - intros Ho. unfold parsed. cbn [rust]. by rewrite (st_rust _ _ Hok), (st_other _ _ Hok), Ho.
  - intros before o behind -> Hb Ho. unfold parsed, rust_after. cbn [rust]. rewrite (st_rust _ _ Hok).
    rewrite foldl_app. cbn [foldl].
    assert (Hst : seen_other_tags (parse_token per_target (run before) o) = true) by (by destruct o).
    assert (Hsame : seen_rust_tags (parse_token per_target (run before) o) = seen_rust_tags (run before))
      by (by destruct o).
    destruct (seen_rust_behind _ behind Hst) as [-> ->]. rewrite Hsame, seen_rust_before by done. done.
Qed.
End state.

(** A block that must not compile is not run. *)
Lemma compile_fail_no_run unicode_alphanumeric s check per_target :
  compile_fail (parse unicode_alphanumeric s check per_target) = true ->
  no_run (parse unicode_alphanumeric s check per_target) = true.
Proof.
  unfold parse. set (ts := tokens_of _ _ _). pose proof (run_ok per_target s ts) as Hok.
  unfold parsed. cbn [compile_fail no_run]. rewrite (st_fail _ _ _ _ Hok), (st_no_run _ _ _ _ Hok), !bool_decide_eq_true. by right.
Qed.

(** ** Properties *)

(** C29: the attributes of a code block. Each flag is set exactly when its token is among those
    of the text, an ignored target overrides a plain [ignore], the error codes are listed in
    order, and of several editions the last one counts, even when it is not known. Without an
    unknown token the block is Rust. With one it is Rust exactly when, of the tokens behind
    the first unknown one that decide, the last is [rust]; when none decides, it is Rust
    exactly when a token of rustdoc came before the unknown one. *)
Theorem code_block_attributes_are_read (unicode_alphanumeric : string -> bool) (s : string)
    (error_code_check per_target : bool) :
  let ts := tokens_of unicode_alphanumeric error_code_check s in
  let d := parse unicode_alphanumeric s error_code_check per_target in
  original d = s /\
  (should_panic d = true <-> TShouldPanic ∈ ts) /\
  (no_run d = true <-> TNoRun ∈ ts \/ TCompileFail ∈ ts) /\
  (test_harness d = true <-> TTestHarness ∈ ts) /\
  (compile_fail d = true <-> TCompileFail ∈ ts) /\
  (allow_fail d = true <-> TAllowFail ∈ ts) /\
  ignore d = match (if per_target then omap target_of ts else []) with
             | [] => if decide (TIgnore ∈ ts) then IgnoreAll else IgnoreNone
             | targets => IgnoreSome targets
             end /\
  error_codes d = omap code_of ts /\
  lang_edition d = default None (last (omap edition_of ts)) /\
  (existsb is_other ts = false -> rust d = true) /\
  forall before o behind, ts = before ++ o :: behind -> existsb is_other before = false ->
    is_other o = true -> rust d = rust_after per_target before behind.
Proof.
  cbv zeta. unfold parse. set (ts := tokens_of _ _ _).
  destruct (run_ok per_target s ts) as [H1 H2 H3 H4 H5 H6 H7 H8 H9 H10 _ _].
  destruct (run_rust per_target s ts) as [Hr1 Hr2].
  split_and!; [exact H1|..|exact Hr1|exact Hr2]; unfold parsed; cbn;
    rewrite ?H2, ?H3, ?H6, ?H7, ?H9, ?bool_decide_eq_true; try done.
  by rewrite H5, H4.
Qed.

(** The attributes of the unit test, without characters beyond ASCII. *)
#[local] Abbreviation test_parse s := (parse (fun _ => false) s true true).

Lemma test_lang_string_parse :
  rust (test_parse "") = true /\ rust (test_parse "sh") = false /\
  test_parse "ignore-foo" = mk_LangString "ignore-foo" false false (IgnoreSome ["foo"]) true false false [] false None /\
  test_parse "{.no_run .example}" = mk_LangString "{.no_run .example}" false true IgnoreNone true false false [] false None /\
  test_parse "{.sh .should_panic}" = mk_LangString "{.sh .should_panic}" true false IgnoreNone false false false [] false None /\
  test_parse "{.test_harness .rust}" = mk_LangString "{.test_harness .rust}" false false IgnoreNone true true false [] false None /\
  test_parse "text,no_run" = mk_LangString "text,no_run" false true IgnoreNone false false false [] false None /\
  lang_edition (test_parse "edition2018") = Some Edition2018 /\
  error_codes (test_parse "E0450,compile_fail") = ["E0450"].
Proof. vm_compute. split_and!; reflexivity. Qed.

(** [rust] first does not make up for an unknown token when a flag follows. *)
Lemma flags_behind_unknown_tokens_undo_rust :
  rust (test_parse "rust,foo") = true /\ rust (test_parse "rust,foo,ignore") = false /\
  rust (test_parse "rust,foo,compile_fail") = true.
Proof. vm_compute. split_and!; reflexivity. Qed.

Lemma code_block_attributes_are_read_witness :
  rust (test_parse "no_run,text,E0450") = true /\ error_codes (test_parse "no_run,text,E0450") = ["E0450"].
Proof.
  destruct (code_block_attributes_are_read (fun _ => false) "no_run,text,E0450" true true)
    as (_ & _ & _ & _ & _ & _ & _ & Hcodes & _ & _ & Hrust).
  split; [|rewrite Hcodes; vm_compute; reflexivity].
  rewrite (Hrust [TNoRun] (TOther "text") [TErrorCode "E0450"]); vm_compute; reflexivity.
Defined.
