(* ===== verification/DocTest.v ===== *)
(** The program made of a documentation test ([make_test] of [test.rs]): the text in its
    three parts, what is put around it, and where its lines end up; and the verdict on the
    test ([run_test]). The parser of Rust, the compiler and the compiled program are
    arguments. *)

From S2P Require Import Prelude RustStd TextLines LangString.

(** ** The parts of a text *)

Inductive PartitionState := Attrs | Crates | Other.

Definition ends_with (s pat : string) : bool :=
  (String.length pat <=? String.length s) && String.eqb (str_drop (String.length s - String.length pat) s) pat.

Definition plain_comment (trimline : string) : bool :=
  starts_with trimline "//" && negb (starts_with trimline "///").
Definition extern_crate_line (trimline : string) : bool :=
  starts_with trimline "extern crate" || starts_with trimline "#[macro_use] extern crate".

(** The state in which a line is taken. *)
Definition partition_next (state : PartitionState) (trimline : string) : PartitionState :=
  match state with
  | Attrs =>
      if starts_with trimline "#![" || all_whitespace trimline || plain_comment trimline then Attrs
      else if extern_crate_line trimline then Crates
      else Other
  | Crates =>
      if extern_crate_line trimline || all_whitespace trimline || plain_comment trimline then Crates
      else Other
  | Other => Other
  end.

Record Partition := mk_Partition {
  pt_state : PartitionState; pt_before : string; pt_crates : string; pt_after : string
}.
Definition partition_step (st : Partition) (line : string) : Partition :=
  let '(mk_Partition state before crates after) := st in
  match partition_next state (trim line) with
  | Attrs => mk_Partition Attrs (before +:+ line +:+ nl) crates after
  | Crates => mk_Partition Crates before (crates +:+ line +:+ nl) after
  | Other => mk_Partition Other before crates (after +:+ line +:+ nl)
  end.

Definition partition_source (s : string) : string * string * string :=
  let st := foldl partition_step (mk_Partition Attrs EmptyString EmptyString EmptyString) (lines s) in
  (pt_before st, pt_after st, pt_crates st).

(** ** [make_test] *)

Record TestOptions := mk_TestOptions {
  no_crate_inject : bool;
  display_warnings : bool;
  opt_attrs : list string
}.
Definition TestOptions_default : TestOptions := mk_TestOptions false false [].

(** What the loop looks at in an item. *)
Inductive AstItem :=
| ItemFn (ident : string) | ItemExternCrate (original : option string) (ident : string)
| ItemMacCall | ItemOther.

(** What the calls of [parse_item] give, one after the other: an item, the end of the text or
    an error, or an error that is fatal. *)
Inductive Parsed := ParseEnd | ParseFatal | ParseItem (item : AstItem) (rest : Parsed).

Record Found := mk_Found { found_main : bool; found_extern_crate : bool; found_macro : bool }.

Definition look_at (cratename : option string) (st : Found) (item : AstItem) : outcome Found :=
  let main := found_main st || match item with ItemFn ident => String.eqb ident "main" | _ => false end in
  let macro := found_macro st || match item with ItemMacCall => true | _ => false end in
  extern ← (if found_extern_crate st then mret true
    else match item with
         | ItemExternCrate original ident =>
             cratename ← unwrap cratename;
             mret (String.eqb (default ident original) cratename)
         | _ => mret false
         end);
  mret (mk_Found main extern macro).

(** The loop over the items: [None] when the parser gives up. *)
Fixpoint look (cratename : option string) (st : Found) (p : Parsed) : outcome (option Found) :=
  match p with
  | ParseEnd => mret (Some st)
  | ParseFatal => mret None
  | ParseItem item rest =>
      st ← look_at cratename st item;
      if found_main st && found_extern_crate st then mret (Some st) else look cratename st rest
  end.

(** The code of a line in front of a comment. *)
Fixpoint before_comment (line : string) : string :=
  match line with
  | EmptyString => EmptyString
  | String c line' => if starts_with line "//" then EmptyString else String c (before_comment line')
  end.
Definition main_in_text (s : string) : bool :=
  existsb (fun line => str_contains (before_comment line) "fn main") (lines s).

Definition main_wrapper (returns_result : bool) : string * string :=
  if returns_result then
    ("fn main() { fn _inner() -> Result<(), impl core::fmt::Debug> {", "}" +:+ nl +:+ "_inner().unwrap() }")
  else ("fn main() {" +:+ nl, nl +:+ "}").

(** The attributes in front of the text, with their number. *)
Definition test_header (opts : TestOptions) : string * nat :=
  let '(prog, line_offset) :=
    if bool_decide (opt_attrs opts = []) && negb (display_warnings opts)
    then ("#![allow(unused)]" +:+ nl, 1) else (EmptyString, 0) in
  foldl (fun '(prog, line_offset) attr => (prog +:+ "#![" +:+ attr +:+ "]" +:+ nl, line_offset + 1))
    (prog, line_offset) (opt_attrs opts).

Section make_test.
(** The parser of items on a text: [None] when it cannot be made. *)
Context (parser : Edition -> string -> option Parsed).

(** The end of [make_test], with what was found in the text. *)
Definition assemble (s : string) (cratename : option string) (dont_insert_main : bool) (opts : TestOptions)
    (parts : string * string * string) (found : Found) : string * nat :=
  let '(crate_attrs, everything_else, crates) := parts in
  let '(prog, line_offset) := test_header opts in
  let prog := prog +:+ crate_attrs +:+ crates in
  let already_has_main :=
    if found_macro found && negb (found_main found) then main_in_text s else found_main found in
  let '(prog, line_offset) :=
    if negb (found_extern_crate found) && negb (no_crate_inject opts)
       && negb (bool_decide (cratename = Some "std"))
    then match cratename with
         | Some cratename =>
             if str_contains s cratename
             then (prog +:+ "extern crate " +:+ cratename +:+ ";" +:+ nl, line_offset + 1)
             else (prog, line_offset)
         | None => (prog, line_offset)
         end
    else (prog, line_offset) in
  if dont_insert_main || already_has_main || str_contains prog "![no_std]" then
    (prog +:+ everything_else, line_offset)
  else
    let '(main_pre, main_post) := main_wrapper (ends_with (trim_end everything_else) "(())") in
    (prog +:+ main_pre +:+ everything_else +:+ main_post, line_offset + 1).

Definition make_test (s : string) (cratename : option string) (dont_insert_main : bool) (opts : TestOptions)
    (edition : Edition) : outcome (string * nat) :=
  let '(crate_attrs, everything_else, crates) := partition_source s in
  let everything_else := trim everything_else in
  let start := mk_Found false (bool_decide (cratename = None)) false in
  result ← match parser edition (crates +:+ everything_else) with
           | None => mret (Some start)
           | Some p => look cratename start p
           end;
  match result with
  | None => mret (s, 0)
  | Some found =>
      mret (assemble s cratename dont_insert_main opts (crate_attrs, everything_else, crates) found)
  end.
End make_test.

(** ** Lines *)
Fixpoint newlines (s : string) : nat :=
  match s with
  | EmptyString => 0
  | String c s => (if starts_with (String c s) nl then 1 else 0) + newlines s
  end.
#[local] Arguments newlines : simpl never.

Definition unlines (ls : list string) : string := foldr (fun l s => l +:+ nl +:+ s) EmptyString ls.

Lemma newlines_cons c s : newlines (String c s) = (if starts_with (String c EmptyString) nl then 1 else 0) + newlines s.
Proof. unfold newlines at 1. fold newlines. by rewrite (starts_with_nl c s EmptyString). Qed.

Lemma newlines_app s t : newlines (s +:+ t) = newlines s + newlines t.
Proof.
  induction s as [|c s IH]; [done|]. change (String c s +:+ t) with (String c (s +:+ t)).
  rewrite !newlines_cons, IH. lia.
Qed.

Lemma newlines_none s : has_newline s = false -> newlines s = 0.
Proof.
  induction s as [|c s IH]; [done|]. unfold has_newline. cbn [str_contains]. intros [Hc Hs]%orb_false_iff.
  rewrite newlines_cons, (IH Hs). rewrite (starts_with_nl c EmptyString s), Hc. done.
Qed.

Lemma unlines_app l1 l2 : unlines (l1 ++ l2) = unlines l1 +:+ unlines l2.
Proof.
  induction l1 as [|l l1 IH]; [done|]. cbn [app unlines foldr]. fold (unlines (l1 ++ l2)) (unlines l1).
  by rewrite IH, !str_app_assoc.
Qed.

Lemma newlines_unlines ls : Forall (fun l => has_newline l = false) ls -> newlines (unlines ls) = length ls.
Proof.
  induction 1 as [|l ls Hl _ IH]; [done|]. cbn [unlines foldr length]. fold (unlines ls).
  rewrite !newlines_app, newlines_none, IH by done. done.
Qed.

(** ** The partition *)

(** The lines of the three parts, in the state after them. *)
Record parted (ls : list string) (st : Partition) (before crates after : list string) : Prop := {
  pa_lines : ls = before ++ crates ++ after;
  pa_before : pt_before st = unlines before;
  pa_crates : pt_crates st = unlines crates;
  pa_after : pt_after st = unlines after;
  pa_attrs : Forall (fun l => partition_next Attrs (trim l) = Attrs) before;
  pa_crate : match crates with
             | [] => True
             | l :: ls => partition_next Attrs (trim l) = Crates /\
                 Forall (fun l => partition_next Crates (trim l) = Crates) ls
             end;
  pa_other : match after with
             | [] => True
             | l :: _ => partition_next (match crates with [] => Attrs | _ => Crates end) (trim l) = Other
             end;
  pa_state : match pt_state st with
             | Attrs => crates = [] /\ after = []
             | Crates => crates <> [] /\ after = []
             | Other => after <> []
             end
}.

Lemma unlines_snoc ls l : unlines (ls ++ [l]) = unlines ls +:+ l +:+ nl.
Proof. rewrite unlines_app. cbn [unlines foldr]. by rewrite str_app_nil_r. Qed.

Lemma partition_step_parted ls st before crates after line : parted ls st before crates after ->
  exists before' crates' after', parted (ls ++ [line]) (partition_step st line) before' crates' after'.
Proof.
  intros [-> Hb Hc Ha Hattrs Hcrate Hother Hst]. destruct st as [state b c a].
  cbn [pt_before pt_crates pt_after pt_state partition_step] in *. subst b c a.
  destruct (partition_next state (trim line)) eqn:Hn.
  - destruct state; [|exfalso..].
    + destruct Hst as [-> ->]. exists (before ++ [line]), [], []. split; cbn; try done.
      * by rewrite !app_nil_r.
      * by rewrite unlines_snoc.
      * apply Forall_app. by repeat constructor.
    + cbn in Hn. by repeat case_match.
    + done.
  - destruct state; [|destruct Hst as [Hne ->]|done].
    + destruct Hst as [-> ->]. exists before, [line], []. split; cbn; try done.
      * by rewrite app_nil_r.
    + exists before, (crates ++ [line]), []. split; cbn; try done.
      * by rewrite !app_nil_r, app_assoc.
      * by rewrite unlines_snoc.
      * destruct crates as [|l ls]; [done|]. destruct Hcrate as [H1 H2]. split; [done|].
        apply Forall_app. by repeat constructor.
      * by destruct crates.
  - exists before, crates, (after ++ [line]). split; cbn; try done.
    + by rewrite !app_assoc.
    + by rewrite unlines_snoc.
    + destruct after as [|l ls]; [|done]. cbn. destruct state; [by destruct Hst as [-> _]| |done].
      destruct Hst as [Hne _]. by destruct crates.
    + by destruct after.
Qed.

Lemma partition_parted s : exists before crates after,
  lines s = before ++ crates ++ after /\
  partition_source s = (unlines before, unlines after, unlines crates) /\
  Forall (fun l => partition_next Attrs (trim l) = Attrs) before /\
  match crates with
  | [] => True
  | l :: ls => partition_next Attrs (trim l) = Crates /\ Forall (fun l => partition_next Crates (trim l) = Crates) ls
  end /\
  match after with
  | [] => True
  | l :: _ => partition_next (match crates with [] => Attrs | _ => Crates end) (trim l) = Other
  end.
Proof.
  assert (H : forall ls, exists b c a,
    parted ls (foldl partition_step (mk_Partition Attrs EmptyString EmptyString EmptyString) ls) b c a).
  { induction ls as [|l ls IH] using rev_ind.
    - exists [], [], []. by split.
    - rewrite foldl_app. cbn [foldl]. destruct IH as (b & c & a & Hp). by eapply partition_step_parted. }
  destruct (H (lines s)) as (b & c & a & [Hl Hb Hc Ha H1 H2 H3 _]). exists b, c, a.
  unfold partition_source. rewrite Hb, Hc, Ha. by split_and!.
Qed.

Lemma next_crates t : partition_next Attrs t = Crates -> partition_next Crates t = Crates.
Proof. cbn. destruct (extern_crate_line t); [done|]. by destruct (_ || _ || _). Qed.

Lemma next_other state t : state <> Other -> partition_next state t = Other -> all_whitespace t = false.
Proof. destruct state; [| |done]; intros _; cbn; destruct (all_whitespace t); rewrite ?orb_true_r; done. Qed.

(** ** The program *)

(** The reference for the search: the items that the parser gives, and whether it ends with a
    fatal error. *)
Fixpoint parsed_items (p : Parsed) : list AstItem :=
  match p with ParseItem item rest => item :: parsed_items rest | _ => [] end.
Fixpoint ends_fatally (p : Parsed) : bool :=
  match p with ParseEnd => false | ParseFatal => true | ParseItem _ rest => ends_fatally rest end.
Definition is_main (item : AstItem) : bool :=
  match item with ItemFn ident => String.eqb ident "main" | _ => false end.
Definition names_crate (cratename : string) (item : AstItem) : bool :=
  match item with
  | ItemExternCrate original ident => String.eqb (default ident original) cratename
  | _ => false
  end.
(** Whether there is nothing left to look for after some items. *)
Definition all_found (cratename : option string) (items : list AstItem) : bool :=
  existsb is_main items
  && match cratename with Some name => existsb (names_crate name) items | None => true end.

(** The parser gives up: it raises a fatal error before all is found. *)
Definition gives_up (parser : Edition -> string -> option Parsed) (edition : Edition)
    (cratename : option string) (source : string) : bool :=
  match parser edition source with
  | Some p => ends_fatally p && negb (all_found cratename (parsed_items p))
  | None => false
  end.

Lemma look_gives_up cratename p : forall st, found_main st && found_extern_crate st = false ->
  (cratename = None -> found_extern_crate st = true) ->
  forall r, look cratename st p = Ret r ->
  (r = None <-> ends_fatally p = true /\
    (found_main st || existsb is_main (parsed_items p))
    && (found_extern_crate st ||
        match cratename with Some name => existsb (names_crate name) (parsed_items p) | None => true end)
      = false).
Proof.
  induction p as [| |item rest IH]; intros st Hst Hname r; cbn [look ends_fatally parsed_items existsb].
  - intros [= <-]. split; [done|by intros [? _]].
  - intros [= <-]. split; [|done]. intros _. split; [done|].
    rewrite orb_false_r. destruct cratename; [by rewrite orb_false_r|].
    by rewrite orb_true_r, andb_true_r in *; rewrite (Hname eq_refl), andb_true_r in Hst.
  - unfold look_at. fold (is_main item).
    assert (Hex : exists b, (if found_extern_crate st then mret true
        else match item with
             | ItemExternCrate original ident =>
                 cratename ← unwrap cratename;
                 mret (String.eqb (default ident original) cratename)
             | _ => mret false
             end) = Ret b /\
        b = found_extern_crate st || match cratename with Some name => names_crate name item | None => true end).
    { destruct (found_extern_crate st) eqn:He; [by exists true|].
      destruct cratename as [name|]; [|by specialize (Hname eq_refl)].
      eexists. split; [|reflexivity]. by destruct item. }
    destruct Hex as (b & -> & Hb). cbn [mbind outcome_bind mret outcome_ret].
    set (st' := mk_Found _ _ _). intros Hr.
    destruct (found_main st' && found_extern_crate st') eqn:Hdone.
    + injection Hr as <-. split; [done|]. intros [_ Hno]. exfalso. revert Hno. subst st' b.
      cbn [found_main found_extern_crate] in Hdone. apply andb_true_iff in Hdone as [Hm He].
      apply not_false_iff_true, andb_true_iff. rewrite orb_assoc, Hm. split; [done|].
      destruct cratename as [name|]; [|apply orb_true_r]. rewrite orb_assoc, He. done.
    + apply IH in Hr; [|done|].
      * rewrite Hr. subst st' b. cbn [found_main found_extern_crate]. rewrite !orb_assoc.
        by destruct cratename; rewrite ?orb_assoc, ?orb_true_r.
      * intros ->. subst st' b. apply orb_true_r.
Qed.

Lemma look_returns cratename p : forall st, (cratename = None -> found_extern_crate st = true) ->
  exists r, look cratename st p = Ret r.
Proof.
  induction p as [| |item rest IH]; intros st Hst; [by eexists..|]. cbn [look].
  assert (Hl : exists st', look_at cratename st item = Ret st' /\ (cratename = None -> found_extern_crate st' = true)).
  { unfold look_at. destruct (found_extern_crate st); [by eexists|].
    destruct cratename as [name|]; [|by specialize (Hst eq_refl)].
    destruct item; cbn; by eexists. }
  destruct Hl as (st' & -> & Hst'). cbn [mbind outcome_bind].
  destruct (found_main st' && found_extern_crate st'); [by eexists|]. by apply IH.
Qed.

Lemma look_found (parser : Edition -> string -> option Parsed) cratename edition source : exists r,
  match parser edition source with
  | None => mret (Some (mk_Found false (bool_decide (cratename = None)) false))
  | Some p => look cratename (mk_Found false (bool_decide (cratename = None)) false) p
  end = Ret r.
Proof. destruct (parser edition source) as [p|]; [|by eexists]. apply look_returns. by intros ->. Qed.

Lemma found_gives_up (parser : Edition -> string -> option Parsed) cratename edition source r :
  match parser edition source with
  | None => mret (Some (mk_Found false (bool_decide (cratename = None)) false))
  | Some p => look cratename (mk_Found false (bool_decide (cratename = None)) false) p
  end = Ret r ->
  r = None <-> gives_up parser edition cratename source = true.
Proof.
  unfold gives_up. destruct (parser edition source) as [p|]; [|by intros [= <-]].
  intros Hr. apply look_gives_up in Hr; [|done|by intros ->]. rewrite Hr, andb_true_iff, negb_true_iff.
  unfold all_found. cbn [found_main found_extern_crate orb]. destruct cratename; [done|].
  by rewrite bool_decide_true.
Qed.

Lemma make_test_returns parser s cratename dont opts edition : exists r,
  make_test parser s cratename dont opts edition = Ret r.
Proof.
  unfold make_test. destruct (partition_source s) as [[attrs other] crates].
  destruct (look_found parser cratename edition (crates +:+ trim other)) as [[found|] ->]; by eexists.
Qed.

Lemma test_header_newlines opts : Forall (fun a => has_newline a = false) (opt_attrs opts) ->
  newlines (test_header opts).1 = (test_header opts).2.
Proof.
  unfold test_header. intros Ha.
  enough (H : forall p n, newlines p = n ->
    newlines (foldl (fun '(prog, line_offset) attr => (prog +:+ "#![" +:+ attr +:+ "]" +:+ nl, line_offset + 1))
      (p, n) (opt_attrs opts)).1 =
    (foldl (fun '(prog, line_offset) attr => (prog +:+ "#![" +:+ attr +:+ "]" +:+ nl, line_offset + 1))
      (p, n) (opt_attrs opts)).2) by (destruct (bool_decide _ && _); by apply H).
  induction Ha as [|a l Ha _ IH]; intros p n Hn; cbn [foldl]; [done|]. apply IH.
  rewrite !newlines_app, (newlines_none a), Hn by done.
  change (newlines "#![") with 0. change (newlines "]") with 0. change (newlines nl) with 1. lia.
Qed.

(** What stands behind the text, and the lines that the offset counts too many. *)
Inductive wrapped : string -> nat -> Prop :=
| wrapped_not : wrapped EmptyString 0
| wrapped_main : wrapped (main_wrapper false).2 0
| wrapped_result : wrapped (main_wrapper true).2 1.

Lemma main_wrapper_newlines r : newlines (main_wrapper r).1 = if r then 0 else 1.
Proof. by destruct r. Qed.

Lemma assemble_lines s cratename dont opts attrs other crates found :
  Forall (fun a => has_newline a = false) (opt_attrs opts) ->
  (forall c, cratename = Some c -> has_newline c = false) ->
  exists head tail back off excess,
    assemble s cratename dont opts (attrs, other, crates) found =
      (head +:+ attrs +:+ crates +:+ tail +:+ other +:+ back, off) /\
    wrapped back excess /\ newlines head + newlines tail + excess = off.
Proof.
  intros Ha Hname. unfold assemble. pose proof (test_header_newlines opts Ha) as Hh.
  destruct (test_header opts) as [head n]. cbn [fst snd] in Hh.
  set (inject := (if negb (found_extern_crate found) && _ && _ then _ else _) : string * nat).
  assert (Hi : exists crate_line k, inject = (head +:+ attrs +:+ crates +:+ crate_line, n + k) /\ newlines crate_line = k).
  { unfold inject. assert (H0 : exists crate_line k,
      (head +:+ attrs +:+ crates, n) = (head +:+ attrs +:+ crates +:+ crate_line, n + k) /\ newlines crate_line = k).
    { exists EmptyString, 0. by rewrite !str_app_nil_r, Nat.add_0_r. }
    destruct (negb _ && _ && _); [|done]. destruct cratename as [c|]; [|done].
    destruct (str_contains s c); [|done].
    exists ("extern crate " +:+ c +:+ ";" +:+ nl), 1. split; [by rewrite !str_app_assoc|].
    rewrite !newlines_app, (newlines_none c) by by apply Hname. done. }
  destruct Hi as (crate_line & k & -> & Hk).
  destruct (dont || _ || _).
  - exists head, crate_line, EmptyString, (n + k), 0. split_and!; [|constructor|lia].
    by rewrite str_app_nil_r, !str_app_assoc.
  - set (r := ends_with _ _). destruct (main_wrapper r) as [pre post] eqn:Hw.
    exists head, (crate_line +:+ pre), post, (n + k + 1), (if r then 1 else 0). split_and!.
    + by rewrite !str_app_assoc.
    + destruct r; injection Hw as <- <-; constructor.
    + rewrite newlines_app. pose proof (main_wrapper_newlines r) as Hm. rewrite Hw in Hm. cbn [fst] in Hm.
      destruct r; lia.
Qed.

(** ** The verdict *)

Inductive TestFailure :=
| CompileError | UnexpectedCompilePass | MissingErrorCodes (codes : list string)
| ExecutionError (e : string) | ExecutionFailure (out : string) | UnexpectedRunPass.

Section run_test.
Context (parser : Edition -> string -> option Parsed).
(** The compiler on a program and the line its text stands for: [None] when it cannot be found, the
    path of its target is not Unicode, or
    its process cannot be started, fed or waited for; otherwise whether it accepts the program, and the bytes that
    it writes. The compiled program: an error, or whether it succeeds, and its output. *)
Context (compile : string -> Z -> option (bool * string)) (execute : string -> string + bool * string).

(** The run of the compiler: its failures and bytes that are not UTF-8 are panics. *)
Definition compiler_output (program : string) (line : Z) : outcome (bool * string) :=
  output ← unwrap (compile program line);
  if utf8 (bytes_of output.2) then mret output else Panicked.

(** [None] is [Ok(())]. *)
Definition run_test (test cratename : string) (line : nat) (should_panic no_run as_test_harness compile_fail : bool)
    (error_codes : list string) (opts : TestOptions) (edition : Edition) : outcome (option TestFailure) :=
  r ← make_test parser test (Some cratename) as_test_harness opts edition;
  let '(test, line_offset) := (r : string * nat) in
  output ← compiler_output test (Z.of_nat line - Z.of_nat line_offset)%Z;
  let '(success, out) := (output : bool * string) in
  let run :=
    if no_run then None
    else match execute test with
         | inl e => Some (ExecutionError e)
         | inr (success, out) =>
             if should_panic && success then Some UnexpectedRunPass
             else if negb should_panic && negb success then Some (ExecutionFailure out)
             else None
         end in
  mret (match success, compile_fail with
        | true, true => Some UnexpectedCompilePass
        | true, false => run
        | false, true =>
            match List.filter (fun err => negb (str_contains out ("error[" +:+ err +:+ "]: "))) error_codes with
            | [] => run
            | missing => Some (MissingErrorCodes missing)
            end
        | false, false => Some CompileError
        end).
End run_test.

(** ** Properties *)

(** C31: the lines of a documentation test. [make_test] never panics. The text is passed on as
    it is exactly when the parser gives up, that is, raises a fatal error on the code before a
    function [main] and an [extern crate] of the crate were found. Otherwise
    the program holds the whole text: the leading lines of attributes and comments, the
    lines from the first [extern crate] on that are of that kind, and the rest, which begins
    with a line of code, each in its place. The offset is the number of lines that stand in
    front of the rest without being part of the text, and so what is to be added to the
    number of a line of the rest; it is one too large exactly when the text is wrapped in a
    function that returns a result. *)
Theorem lines_of_a_test_are_kept (parser : Edition -> string -> option Parsed) (s : string)
    (cratename : option string) (dont_insert_main : bool) (opts : TestOptions) (edition : Edition)
    (Hattrs : Forall (fun a => has_newline a = false) (opt_attrs opts))
    (Hname : forall c, cratename = Some c -> has_newline c = false) :
  let '(_, rest, crates) := partition_source s in
  if gives_up parser edition cratename (crates +:+ trim rest)
  then make_test parser s cratename dont_insert_main opts edition = Ret (s, 0)
  else
    exists before crates after head tail back off excess,
    lines s = before ++ crates ++ after /\
    make_test parser s cratename dont_insert_main opts edition =
      Ret (head +:+ unlines before +:+ unlines crates +:+ tail +:+ trim (unlines after) +:+ back, off) /\
    wrapped back excess /\ newlines head + newlines tail + excess = off /\
    newlines (head +:+ unlines before +:+ unlines crates +:+ tail) + excess
      = off + length (before ++ crates) /\
    Forall (fun l => partition_next Attrs (trim l) = Attrs) before /\
    Forall (fun l => partition_next Crates (trim l) = Crates) crates /\
    match after with l :: _ => all_whitespace (trim l) = false | [] => True end.
Proof.
  destruct (partition_parted s) as (before & crates & after & Hl & Hp & H1 & H2 & H3).
  unfold make_test. rewrite Hp.
  destruct (look_found parser cratename edition (unlines crates +:+ trim (unlines after))) as [r Hr].
  pose proof (found_gives_up _ _ _ _ _ Hr) as Hg. rewrite Hr. clear Hr.
  destruct r as [found|]; cbn [mbind outcome_bind];
    [rewrite (not_true_is_false _ (fun H => ltac:(apply Hg in H; discriminate H)))
    |by rewrite (proj1 Hg eq_refl)].
  destruct (assemble_lines s cratename dont_insert_main opts (unlines before) (trim (unlines after)) (unlines crates)
    found Hattrs Hname) as (head & tail & back & off & excess & -> & Hw & Hoff).
  pose proof (lines_newlines s) as Hnl. rewrite Hl in Hnl. apply Forall_app in Hnl as [Hb [Hc _]%Forall_app].
  exists before, crates, after, head, tail, back, off, excess. split_and!; try done.
  - rewrite !newlines_app, !newlines_unlines, length_app by done. lia.
  - destruct crates as [|l ls]; [constructor|]. destruct H2 as [H2 H4]. constructor; [by apply next_crates|done].
  - destruct after as [|l ls]; [done|]. eapply next_other; [|exact H3]. by destruct crates.
Qed.

(** The text of a test with a result: its first line is on the line of the wrapper. *)
Definition result_test : string := "let n: u8 = x.parse()?;" +:+ nl +:+ "Ok::<(), E>(())".
Lemma lines_of_results_are_off_by_one :
  make_test (fun _ _ => Some ParseEnd) result_test None false TestOptions_default Edition2018 =
    Ret ("#![allow(unused)]" +:+ nl +:+ "fn main() { fn _inner() -> Result<(), impl core::fmt::Debug> {"
      +:+ result_test +:+ "}" +:+ nl +:+ "_inner().unwrap() }", 2).
Proof. vm_compute. reflexivity. Qed.

(** A test with attributes, an [extern crate] and code. *)
Definition sample_test : string :=
  "#![feature(x)]" +:+ nl +:+ "// a" +:+ nl +:+ "extern crate b;" +:+ nl +:+ "  k::f();" +:+ nl +:+ "g()".
Definition sample_parser (_ : Edition) (_ : string) : option Parsed :=
  Some (ParseItem (ItemExternCrate None "b") (ParseItem ItemMacCall ParseEnd)).

Lemma lines_of_a_test_are_kept_witness :
  make_test sample_parser sample_test (Some "k") false TestOptions_default Edition2018 =
    Ret ("#![allow(unused)]" +:+ nl +:+ "#![feature(x)]" +:+ nl +:+ "// a" +:+ nl +:+ "extern crate b;" +:+ nl
      +:+ "extern crate k;" +:+ nl +:+ "fn main() {" +:+ nl +:+ "k::f();" +:+ nl +:+ "g()" +:+ nl +:+ "}", 3) /\
  (exists before crates after, lines sample_test = before ++ crates ++ after) /\
  make_test (fun _ _ => Some ParseFatal) sample_test (Some "k") false TestOptions_default Edition2018 =
    Ret (sample_test, 0).
Proof.
  split; [vm_compute; reflexivity|]. split.
  - destruct (lines_of_a_test_are_kept sample_parser sample_test (Some "k") false TestOptions_default Edition2018)
      as (before & crates & after & _ & _ & _ & _ & _ & Hl & _); [constructor|by intros c [= <-]|].
    by exists before, crates, after.
  - apply (lines_of_a_test_are_kept (fun _ _ => Some ParseFatal) sample_test (Some "k") false
      TestOptions_default Edition2018); [constructor|by intros c [= <-]].
Defined.

(** C32: a documentation test passes exactly when its attributes say so. The test of a block
    panics exactly when the process of the compiler fails or what it writes is not UTF-8.
    Otherwise, with the attributes that are read from the block, it passes exactly when, for a
    block that must not compile, the compiler rejects it with all the error codes that are
    asked for, and otherwise accepts it and the program, unless it is not to be run, ends as
    it should: with a failure for a test that should panic and with success for the others.
    A program that must not compile is never run. *)
Theorem tests_pass_as_their_attributes_say (parser : Edition -> string -> option Parsed)
    (compile : string -> Z -> option (bool * string)) (execute : string -> string + bool * string)
    (unicode_alphanumeric : string -> bool) (lang test cratename : string) (codes per_target : bool) (line : nat)
    (opts : TestOptions) (edition : Edition) :
  let d := parse unicode_alphanumeric lang codes per_target in
  exists prog off,
    make_test parser test (Some cratename) (test_harness d) opts edition = Ret (prog, off) /\
    let tested := run_test parser compile execute test cratename line (should_panic d) (no_run d)
      (test_harness d) (compile_fail d) (error_codes d) opts edition in
    match compile prog (Z.of_nat line - Z.of_nat off)%Z with
    | None => tested = Panicked
    | Some (success, out) =>
        if decide (str_utf8 out) then
          exists verdict, tested = Ret verdict /\
          (verdict = None <->
            if compile_fail d
            then success = false /\
              Forall (fun err => str_contains out ("error[" +:+ err +:+ "]: ") = true) (error_codes d)
            else success = true /\
              (no_run d = true \/ exists out, execute prog = inr (negb (should_panic d), out)))
        else tested = Panicked
    end.
Proof.
  intros d. destruct (make_test_returns parser test (Some cratename) (test_harness d) opts edition) as [[prog off] Hm].
  pose proof (compile_fail_no_run unicode_alphanumeric lang codes per_target) as Hn. fold d in Hn.
  exists prog, off. split; [done|]. cbn zeta. unfold run_test, compiler_output. rewrite Hm.
  cbn [mbind outcome_bind]. destruct (compile prog _) as [[success out]|]; [|done].
  cbn [unwrap mbind outcome_bind snd]. unfold str_utf8.
  destruct (decide _) as [->|Hno]; [|by rewrite (not_true_is_false _ Hno)].
  cbn [mbind outcome_bind mret outcome_ret]. eexists. split; [done|]. destruct (compile_fail d).
  - rewrite Hn by done. destruct success; [split; [done|by intros [? _]]|].
    split.
    + destruct (List.filter _ _) as [|m ms] eqn:Hf; [|done]. intros _. split; [done|].
      apply Forall_forall. intros e He. destruct (str_contains out _) eqn:Hs; [done|exfalso].
      assert (Hin : In e (List.filter (fun err => negb (str_contains out ("error[" +:+ err +:+ "]: "))) (error_codes d))).
      { apply filter_In. split; [by apply list_elem_of_In|]. by rewrite Hs. }
      rewrite Hf in Hin. done.
    + intros [_ Hall]. destruct (List.filter _ _) as [|m ms] eqn:Hf; [done|exfalso].
      assert (Hin : In m (m :: ms)) by by left. rewrite <- Hf in Hin. apply filter_In in Hin as [Hin Hs].
      rewrite Forall_forall in Hall. rewrite Hall in Hs by by apply list_elem_of_In. done.
  - destruct success; [|split; [done|by intros [? _]]]. destruct (no_run d); [split; [intros _; by split; [|left]|done]|].
    destruct (execute prog) as [e|[ok o]].
    + split; [done|]. intros [_ [?|[? ?]]]; done.
    + destruct (should_panic d), ok; cbn; split; try done; intros H; try (split; [done|right; by eexists]).
      all: destruct H as [_ [?|[? [= ?]]]]; done.
Qed.
