(* ===== verification/MdEvents.v ===== *)
(** The iterators over the events of a Markdown text ([html/markdown.rs]): headings with
    anchors, replaced links, code blocks, the summary line and the footnotes. The parser of
    Markdown and the writer of HTML are arguments. *)

From S2P Require Import Prelude RustStd Toc IdMap LangString DocTest.

(** ** Events *)

(** The tags and events of the parser that this file looks at; [X] stands for the others. *)
Inductive CodeBlockKind := Indented | Fenced (lang : string).

Section events.
Context {X : Type}.

Inductive Tag :=
| Paragraph | Heading (level : nat) | BlockQuote | CodeBlock (kind : CodeBlockKind) | ListItem
| FootnoteDefinition (name : string) | Emphasis | Strong
| Link (kind : X) (dest title : string)
| OtherTag (t : X).

Inductive Event :=
| Start (t : Tag) | End (t : Tag) | Text (s : string) | Code (s : string) | Html (s : string)
| FootnoteReference (name : string)
| OtherEvent (e : X).

(** [html::push_html], and [char::is_alphanumeric] beyond ASCII. *)
Context (push_html : list Event -> string) (unicode_alphanumeric : string -> bool).

(** All the items of an iterator. [fuel] bounds the number of calls: an iterator that does not
    end within it has no result. *)
Fixpoint collect {S} (next : S -> outcome (option Event * S)) (fuel : nat) (st : S)
    : outcome (list Event * S) :=
  match fuel with
  | O => Panicked
  | Datatypes.S fuel =>
      r ← next st;
      match r.1 with
      | None => mret ([], r.2)
      | Some e =>
          rest ← collect next fuel r.2;
          mret (e :: rest.1, rest.2)
      end
  end.

(** ** [LinkReplacer] *)
Definition replace_link (links : list (string * string)) (e : Event) : Event :=
  match e with
  | Start (Link kind dest text) =>
      match List.find (fun link => String.eqb link.1 dest) links with
      | Some (_, replace) => Start (Link kind replace text)
      | None => Start (Link kind dest text)
      end
  | _ => e
  end.
Definition LinkReplacer (links : list (string * string)) (events : list Event) : list Event :=
  List.map (replace_link links) events.

(** ** [HeadingLinks] *)

Record HeadingLinks := mk_HeadingLinks {
  hl_inner : list Event;
  hl_toc : option TocBuilder;
  hl_buf : list Event;
  hl_ids : IdMap
}.

(** The part of the id that an event gives. *)
Definition slug_of (e : Event) : string :=
  match e with
  | Text text | Code text =>
      foldr String.append EmptyString (omap (slugify unicode_alphanumeric) (chars text))
  | _ => EmptyString
  end.
Definition is_link (e : Event) : bool :=
  match e with Start (Link _ _ _) | End (Link _ _ _) => true | _ => false end.

(** The loop up to the end of the heading: its id, its events without links, and the rest. *)
Fixpoint take_heading (inner : list Event) : string * list Event * list Event :=
  match inner with
  | [] => (EmptyString, [], [])
  | End (Heading _) :: inner => (EmptyString, [], inner)
  | e :: inner =>
      let '(id, buf, rest) := take_heading inner in
      (slug_of e +:+ id, (if is_link e then buf else e :: buf), rest)
  end.

Definition start_tags (level : nat) (id : string) : string :=
  "<h" +:+ usize_to_string level +:+ " id=" +:+ dquote +:+ id +:+ dquote +:+ " class=" +:+ dquote
    +:+ "section-header" +:+ dquote +:+ "><a href=" +:+ dquote +:+ "#" +:+ id +:+ dquote +:+ ">".
Definition end_tags (level : nat) : string := "</a></h" +:+ usize_to_string level +:+ ">".

Definition heading_next (self : HeadingLinks) : outcome (option Event * HeadingLinks) :=
  match hl_buf self with
  | e :: buf => mret (Some e, mk_HeadingLinks (hl_inner self) (hl_toc self) buf (hl_ids self))
  | [] =>
      match hl_inner self with
      | [] => mret (None, self)
      | Start (Heading level) :: inner =>
          let '(id, buf, inner) := take_heading inner in
          let '(ids, id) := derive (hl_ids self) id in
          r ← match hl_toc self with
              | None => mret (None, buf)
              | Some builder =>
                  r ← push builder level (push_html buf) id;
                  mret (Some r.1, Html (r.2 +:+ " ") :: buf)
              end;
          let '(toc, buf) := (r : option TocBuilder * list Event) in
          mret (Some (Html (start_tags level id)),
                mk_HeadingLinks inner toc (buf ++ [Html (end_tags level)]) ids)
      | e :: inner => mret (Some e, mk_HeadingLinks inner (hl_toc self) [] (hl_ids self))
      end
  end.

(** Each call takes an event from the text or from the buffer. *)
Definition heading_fuel (self : HeadingLinks) : nat :=
  3 * length (hl_inner self) + length (hl_buf self) + 1.
Definition run_headings (self : HeadingLinks) : outcome (list Event * HeadingLinks) :=
  collect heading_next (heading_fuel self) self.

(** ** [SummaryLine] *)

(** The depth is a [u32]; it wraps, as without overflow checks. *)
Record SummaryLine := mk_SummaryLine { sl_inner : list Event; sl_started : bool; sl_depth : Z }.

Definition check_if_allowed_tag (t : Tag) : bool :=
  match t with
  | Paragraph | ListItem | Emphasis | Strong | Link _ _ _ | BlockQuote => true
  | _ => false
  end.

Definition summary_next (self : SummaryLine) : outcome (option Event * SummaryLine) :=
  if sl_started self && (sl_depth self =? 0)%Z then mret (None, self)
  else
    match sl_inner self with
    | [] => mret (None, mk_SummaryLine [] true (sl_depth self))
    | event :: inner =>
        let at_depth := mk_SummaryLine inner true in
        match event with
        | Start (CodeBlock _) | End (CodeBlock _) => mret (None, at_depth (sl_depth self))
        | Start c =>
            mret (Some (if check_if_allowed_tag c then event else Start Paragraph),
                  at_depth ((sl_depth self + 1) mod 2 ^ 32)%Z)
        | End c =>
            mret (Some (if check_if_allowed_tag c then event else End Paragraph),
                  at_depth ((sl_depth self - 1) mod 2 ^ 32)%Z)
        | _ => mret (Some event, at_depth (sl_depth self))
        end
    end.
Definition run_summary (events : list Event) : outcome (list Event * SummaryLine) :=
  collect summary_next (length events + 1) (mk_SummaryLine events false 0).

(** ** [Footnotes] *)

(** The number is a [u16]. *)
Record Footnotes := mk_Footnotes {
  fn_inner : list Event;
  footnotes : gmap string (list Event * Z)
}.

Definition get_entry (notes : gmap string (list Event * Z)) (key : string)
    : gmap string (list Event * Z) * (list Event * Z) :=
  match notes !! key with
  | Some entry => (notes, entry)
  | None =>
      let entry := ([], (Z.of_nat (size notes + 1) mod 2 ^ 16)%Z) in
      (<[key := entry]> notes, entry)
  end.

Definition show_number (n : Z) : string := usize_to_string (Z.to_nat n).

Definition reference_html (n : Z) : string :=
  "<sup id=" +:+ dquote +:+ "fnref" +:+ show_number n +:+ dquote +:+ "><a href=" +:+ dquote +:+ "#fn"
    +:+ show_number n +:+ dquote +:+ ">" +:+ show_number n +:+ "</a></sup>".

(** The events up to the end of the definition, and the rest. *)
Fixpoint take_definition (inner : list Event) : list Event * list Event :=
  match inner with
  | [] => ([], [])
  | End (FootnoteDefinition _) :: inner => ([], inner)
  | e :: inner => let '(content, rest) := take_definition inner in (e :: content, rest)
  end.

Definition note_html (note : list Event * Z) : string :=
  let is_paragraph := match last note.1 with Some (End Paragraph) => true | _ => false end in
  let content := if is_paragraph then take (length note.1 - 1) note.1 else note.1 in
  "<li id=" +:+ dquote +:+ "fn" +:+ show_number note.2 +:+ dquote +:+ ">" +:+ push_html content
    +:+ "&nbsp;<a href=" +:+ dquote +:+ "#fnref" +:+ show_number note.2 +:+ dquote +:+ " rev="
    +:+ dquote +:+ "footnote" +:+ dquote +:+ ">↩</a>"
    +:+ (if is_paragraph then "</p>" else EmptyString) +:+ "</li>".

(** [v.sort_by(|a, b| a.1.cmp(&b.1))], a stable sort. *)
Fixpoint insert_note (x : list Event * Z) (v : list (list Event * Z)) : list (list Event * Z) :=
  match v with
  | [] => [x]
  | y :: v' => if (x.2 <=? y.2)%Z then x :: v else y :: insert_note x v'
  end.
Definition sort_notes (v : list (list Event * Z)) : list (list Event * Z) := foldr insert_note [] v.

Definition notes_html (v : list (list Event * Z)) : string :=
  "<div class=" +:+ dquote +:+ "footnotes" +:+ dquote +:+ "><hr><ol>"
    +:+ foldr String.append EmptyString (List.map note_html v) +:+ "</ol></div>".

(** The loop of [next]: one event of the text after the other. *)
Fixpoint footnotes_loop `{HashOrder} (fuel : nat) (self : Footnotes) : outcome (option Event * Footnotes) :=
  match fuel with
  | O => Panicked
  | Datatypes.S fuel =>
      match fn_inner self with
      | FootnoteReference reference :: inner =>
          let '(notes, entry) := get_entry (footnotes self) reference in
          mret (Some (Html (reference_html entry.2)), mk_Footnotes inner notes)
      | Start (FootnoteDefinition def) :: inner =>
          let '(content, inner) := take_definition inner in
          let '(notes, entry) := get_entry (footnotes self) def in
          footnotes_loop fuel (mk_Footnotes inner (<[def := (content, entry.2)]> notes))
      | e :: inner => mret (Some e, mk_Footnotes inner (footnotes self))
      | [] =>
          if bool_decide (footnotes self = ∅) then mret (None, self)
          else
            let v := sort_notes (List.map snd (map_order 15 (footnotes self))) in
            mret (Some (Html (notes_html v)), mk_Footnotes [] ∅)
      end
  end.
Definition footnotes_next `{HashOrder} (self : Footnotes) : outcome (option Event * Footnotes) :=
  footnotes_loop (length (fn_inner self) + 1) self.
Definition run_footnotes `{HashOrder} (events : list Event) : outcome (list Event * Footnotes) :=
  collect footnotes_next (length events + 2) (mk_Footnotes events ∅).

(** ** [CodeBlocks] *)

Record Playground := mk_Playground { playground_crate : option string; playground_url : string }.

(** [highlight::render_with_highlighting] on a text, its class, a button and a tooltip, and
    the parser of Rust. *)
Context (highlight : string -> string -> option string -> option (string * string) -> string).
Context (rust_parser : Edition -> string -> option Parsed).

Definition edition_to_string (e : Edition) : string :=
  match e with Edition2015 => "2015" | Edition2018 => "2018" end.

Definition dont_escape (c : Ascii.ascii) : bool :=
  ascii_in 97 122 c || ascii_in 65 90 c || ascii_in 48 57 c
  || existsb (Ascii.eqb c) (String.list_ascii_of_string "-_.~!'()*").
Definition hex_upper (n : nat) : Ascii.ascii :=
  Ascii.ascii_of_nat (if n <? 10 then 48 + n else 55 + n).
(** The bytes of the test in a URI. *)
Fixpoint escape_uri (s : string) : string :=
  match s with
  | EmptyString => EmptyString
  | String c s =>
      if dont_escape c then String c (escape_uri s)
      else
        let n := Ascii.nat_of_ascii c in
        String (Ascii.ascii_of_nat 37) (String (hex_upper (n / 16)) (String (hex_upper (n mod 16)) (escape_uri s)))
  end.

Definition playground_button (playground : option Playground) (origtext : string) (edition : Edition)
    : outcome (option string) :=
  match playground with
  | None => mret None
  | Some playground =>
      if String.eqb (playground_url playground) EmptyString then mret None
      else
        r ← make_test rust_parser (tested_text origtext) (playground_crate playground) false TestOptions_default edition;
        let test := r.1 in
        let channel := if str_contains test "#![feature(" then "&amp;version=nightly" else EmptyString in
        mret (Some ("<a class=" +:+ dquote +:+ "test-arrow" +:+ dquote +:+ " target=" +:+ dquote +:+ "_blank"
          +:+ dquote +:+ " href=" +:+ dquote +:+ playground_url playground +:+ "?code=" +:+ escape_uri test
          +:+ channel +:+ "&amp;edition=" +:+ edition_to_string edition +:+ dquote +:+ ">Run</a>"))
  end.

Definition is_ignored (i : Ignore) : bool := match i with IgnoreNone => false | _ => true end.

Definition block_tooltip (d : LangString) (edition : Edition) : option (string * string) :=
  if is_ignored (ignore d) then Some ("This example is not tested", "ignore")
  else if compile_fail d then Some ("This example deliberately fails to compile", "compile_fail")
  else if should_panic d then Some ("This example panics", "should_panic")
  else if bool_decide (is_Some (lang_edition d))
    then Some ("This code runs with edition " +:+ edition_to_string edition, "edition")
  else None.
Definition block_class (d : LangString) : string :=
  "rust-example-rendered" +:+
    (if is_ignored (ignore d) then " ignore"
     else if compile_fail d then " compile_fail"
     else if should_panic d then " should_panic"
     else if bool_decide (is_Some (lang_edition d)) then " edition "
     else EmptyString).

(** The loop up to the end of the block: its text, and the rest. *)
Fixpoint take_block (inner : list Event) : string * list Event :=
  match inner with
  | [] => (EmptyString, [])
  | End (CodeBlock _) :: inner => (EmptyString, inner)
  | Text s :: inner => let '(text, rest) := take_block inner in (s +:+ text, rest)
  | _ :: inner => take_block inner
  end.

Definition code_block_next (check_error_codes : bool) (default_edition : Edition)
    (playground : option Playground) (inner : list Event) : outcome (option Event * list Event) :=
  match inner with
  | [] => mret (None, [])
  | Start (CodeBlock kind) :: inner =>
      let d := match kind with
        | Fenced lang => parse unicode_alphanumeric lang check_error_codes false
        | Indented => all_false
        end in
      if negb (rust d) then mret (Some (Start (CodeBlock kind)), inner)
      else
        let edition := default default_edition (lang_edition d) in
        let '(origtext, inner) := take_block inner in
        button ← playground_button playground origtext edition;
        let s := nl +:+ highlight (shown_text origtext) (block_class d) button (block_tooltip d edition) in
        mret (Some (Html s), inner)
  | e :: inner => mret (Some e, inner)
  end.
Definition run_code_blocks (check_error_codes : bool) (default_edition : Edition)
    (playground : option Playground) (events : list Event) : outcome (list Event * list Event) :=
  collect (code_block_next check_error_codes default_edition playground) (length events + 1) events.

(** ** The plain text of a summary: [ParserWrapper] *)
Definition wrapper_step (is_in : Z) (e : Event) : Z * string :=
  let '(ret, d) := match e with
    | Start Paragraph | Start (Heading _) => (EmptyString, 1%Z)
    | Code code => ("`" +:+ code +:+ "`", 0%Z)
    | Text s => (if (0 <? is_in)%Z then s else EmptyString, 0%Z)
    | End Paragraph | End (Heading _) => (EmptyString, (-1)%Z)
    | _ => (EmptyString, 0%Z)
    end in
  (if (0 <? d)%Z || ((d <? 0)%Z && (0 <? is_in)%Z) then (is_in + d)%Z else is_in, ret).
Definition plain_summary_line (events : list Event) : string :=
  (foldl (fun '(is_in, s) e => let '(is_in, t) := wrapper_step is_in e in (is_in, s +:+ t))
     (0%Z, EmptyString) events).2.

(** ** The renderings *)

(** The iterators are lazy, each with a state of its own: the events go through them one
    after the other. *)
Definition Markdown_to_string `{HashOrder} (parser : string -> list Event) (md : string)
    (links : list (string * string)) (ids : IdMap) (codes : bool) (edition : Edition)
    (playground : option Playground) : outcome (string * IdMap) :=
  if String.eqb md EmptyString then mret (EmptyString, ids)
  else
    h ← run_headings (mk_HeadingLinks (parser md) None [] ids);
    c ← run_code_blocks codes edition playground (LinkReplacer links h.1);
    f ← run_footnotes c.1;
    mret (push_html f.1, hl_ids h.2).

Definition MarkdownWithToc_to_string `{HashOrder} (parser : string -> list Event) (md : string)
    (ids : IdMap) (codes : bool) (edition : Edition) (playground : option Playground)
    : outcome (string * IdMap) :=
  h ← run_headings (mk_HeadingLinks (parser md) (Some TocBuilder_new) [] ids);
  c ← run_code_blocks codes edition playground h.1;
  f ← run_footnotes c.1;
  toc ← unwrap (hl_toc h.2);
  mret ("<nav id=" +:+ dquote +:+ "TOC" +:+ dquote +:+ ">" +:+ print (into_toc toc) +:+ "</nav>"
    +:+ push_html f.1, hl_ids h.2).

(** Inline HTML becomes text. *)
Definition MarkdownHtml_to_string `{HashOrder} (parser : string -> list Event) (md : string)
    (ids : IdMap) (codes : bool) (edition : Edition) (playground : option Playground)
    : outcome (string * IdMap) :=
  if String.eqb md EmptyString then mret (EmptyString, ids)
  else
    let events := List.map (fun e => match e with Html text => Text text | _ => e end) (parser md) in
    h ← run_headings (mk_HeadingLinks events None [] ids);
    c ← run_code_blocks codes edition playground h.1;
    f ← run_footnotes c.1;
    mret (push_html f.1, hl_ids h.2).

Definition MarkdownSummaryLine_to_string (parser : string -> list Event) (md : string)
    (links : list (string * string)) : outcome string :=
  if String.eqb md EmptyString then mret EmptyString
  else
    s ← run_summary (parser md);
    mret (push_html (LinkReplacer links s.1)).
End events.
Arguments Tag : clear implicits.
Arguments Event : clear implicits.
