(* ===== verification/MdCorrect.v ===== *)
(** What the iterators over Markdown events yield: headings with the anchors and numbers of
    the table of contents, and footnotes in the order of their first mention. *)

From Stdlib Require Import Sorting.Sorted.
From S2P Require Import Prelude RustStd Toc IdMap LangString MdEvents.

(** ** Iterators *)
Section collect.
Context {X S : Type} (next : S -> outcome (option (Event X) * S)).

(** From the state [st] the iterator yields [es] and ends in [st']. *)
Inductive yields : S -> list (Event X) -> S -> Prop :=
| yields_end st st' : next st = Ret (None, st') -> yields st [] st'
| yields_next st e st1 es st' :
    next st = Ret (Some e, st1) -> yields st1 es st' -> yields st (e :: es) st'.

Lemma collect_yields st es st' : yields st es st' ->
  forall fuel, length es < fuel -> collect next fuel st = Ret (es, st').
Proof.
  induction 1 as [st st' Hn|st e st1 es st' Hn _ IH]; intros fuel Hf;
    (destruct fuel as [|fuel]; [cbn in Hf; lia|]); cbn [collect]; rewrite Hn; [done|].
  cbn [mbind outcome_bind fst snd]. cbn in Hf. by rewrite IH by lia.
Qed.

(** The other way: a result is that of an iterator that ended. *)
Lemma collect_ended fuel : forall st es st', collect next fuel st = Ret (es, st') -> yields st es st'.
Proof.
  induction fuel as [|fuel IH]; intros st es st'; [done|]. cbn [collect].
  destruct (next st) as [[[e|] st1]| |] eqn:Hn; cbn [mbind outcome_bind fst snd]; try done.
  - destruct (collect next fuel st1) as [[es1 st2]| |] eqn:Hc; cbn; try done.
    intros [= <- <-]. eapply yields_next; [exact Hn|]. by apply IH.
  - intros [= <- <-]. by apply yields_end.
Qed.
End collect.

(** ** Headings *)
Section headings.
Context {X : Type} (push_html : list (Event X) -> string) (unicode_alphanumeric : string -> bool).

#[local] Abbreviation take_heading := (take_heading (X := X) unicode_alphanumeric).
#[local] Abbreviation heading_next := (heading_next push_html unicode_alphanumeric).
#[local] Abbreviation run_headings := (run_headings push_html unicode_alphanumeric).

(** A text in pieces: its headings, and the other events. *)
Inductive Piece := Plain (e : Event X) | Section_ (l : nat) (slug : string) (body : list (Event X)).

Fixpoint pieces (fuel : nat) (events : list (Event X)) : list Piece :=
  match fuel, events with
  | S fuel, Start (Heading l) :: inner =>
      let '(slug, body, rest) := take_heading inner in
      Section_ l slug body :: pieces fuel rest
  | S fuel, e :: inner => Plain e :: pieces fuel inner
  | _, _ => []
  end.

Fixpoint slugs (ps : list Piece) : list string :=
  match ps with
  | [] => []
  | Plain _ :: ps => slugs ps
  | Section_ _ slug _ :: ps => slug :: slugs ps
  end.

(** The headings with their ids. *)
Fixpoint headings (ps : list Piece) (ids : list string) : list Toc.Heading :=
  match ps, ids with
  | Plain _ :: ps, _ => headings ps ids
  | Section_ l _ body :: ps, id :: ids => (l, push_html body, id) :: headings ps ids
  | _, _ => []
  end.

(** The pieces with the anchors and the section numbers. *)
Fixpoint anchored (ps : list Piece) (ids : list string) (secs : list (option string)) : list (Event X) :=
  match ps, ids, secs with
  | Plain e :: ps, _, _ => e :: anchored ps ids secs
  | Section_ l _ body :: ps, id :: ids, sec :: secs =>
      Html (start_tags l id) :: (match sec with Some sec => [Html (sec +:+ " ")] | None => [] end)
        ++ body ++ Html (end_tags l) :: anchored ps ids secs
  | _, _, _ => []
  end.

Definition ends_heading (e : Event X) : bool := match e with End (Heading _) => true | _ => false end.

Lemma take_heading_cons e inner : take_heading (e :: inner) =
  if ends_heading e then (EmptyString, [], inner)
  else let '(id, buf, rest) := take_heading inner in
    (slug_of unicode_alphanumeric e +:+ id, (if is_link e then buf else e :: buf), rest).
Proof. destruct e as [t|t| | | | |]; try done. by destruct t. Qed.

Lemma take_heading_length inner :
  let '(_, body, rest) := take_heading inner in length body + length rest <= length inner.
Proof.
  induction inner as [|e inner IH]; [cbn; lia|]. rewrite take_heading_cons.
  destruct (ends_heading e); [cbn; lia|]. destruct (take_heading inner) as [[id buf] rest].
  destruct (is_link e); cbn; lia.
Qed.

(** What the table makes of the headings. *)
Definition tabled (toc : option TocBuilder) (hs : list Toc.Heading) (toc' : option TocBuilder)
    (secs : list (option string)) : Prop :=
  match toc with
  | None => toc' = None /\ secs = List.map (fun _ => None) hs
  | Some b => exists b' ss, push_all hs b = Ret (b', ss) /\ toc' = Some b' /\ secs = List.map Some ss
  end.

Lemma push_all_cons h hs b : push_all (h :: hs) b =
  (r ← push b (heading_level h) h.1.2 h.2;
   rest ← push_all hs r.1;
   mret (rest.1, r.2 :: rest.2)).
Proof.
  unfold push_all. cbn [fold_loop]. destruct (push b _ _ _) as [r| |]; [|done..]. cbn [mbind outcome_bind mret outcome_ret].
  set (step := fun (h : Toc.Heading) '(b, secs) => _).
  enough (Hacc : forall hs b secs0 secs, fold_loop step hs (b, secs0 ++ secs) =
    (rest ← fold_loop step hs (b, secs); mret (rest.1, secs0 ++ rest.2))) by apply (Hacc hs r.1 [r.2] []).
  clear. induction hs as [|h hs IH]; intros b secs0 secs; cbn [fold_loop]; [done|].
  assert (Hstep : forall secs, step h (b, secs) =
    (r ← push b (heading_level h) h.1.2 h.2; mret (r.1, secs ++ [r.2]))) by done.
  rewrite !Hstep. destruct (push b _ _ _) as [r| |]; [|done..]. cbn [mbind outcome_bind mret outcome_ret].
  by rewrite <- app_assoc, IH.
Qed.

Lemma yields_buffer inner toc bs ids es st' out : out = bs ++ es ->
  yields heading_next (mk_HeadingLinks inner toc [] ids) es st' ->
  yields heading_next (mk_HeadingLinks inner toc bs ids) out st'.
Proof. intros -> Hy. induction bs as [|b bs IH]; [done|]. by eapply yields_next. Qed.

(** Headings have a level of at least 1. *)
Definition levels_ok (events : list (Event X)) : Prop := forall l, Start (Heading l) ∈ events -> 1 <= l.

Lemma take_heading_rest inner : forall e, e ∈ (take_heading inner).2 -> e ∈ inner.
Proof.
  induction inner as [|e0 inner IH]; intros e; [by intros ?%not_elem_of_nil|]. rewrite take_heading_cons.
  destruct (ends_heading e0); [by right|]. destruct (take_heading inner) as [[id buf] rest].
  intros He. right. by apply IH.
Qed.

(** The table takes one heading more. *)
Lemma tabled_cons toc l body id : 1 <= l ->
  exists toc1 sec, (match toc with
      | None => mret (None, body)
      | Some builder =>
          r ← push builder l (push_html body) id;
          mret (Some r.1, Html (r.2 +:+ " ") :: body)
      end : outcome (option TocBuilder * list (Event X)))
    = Ret (toc1, match sec with Some sec => [Html (sec +:+ " ")] | None => [] end ++ body) /\
    forall hs toc' secs, tabled toc1 hs toc' secs ->
      tabled toc ((l, push_html body, id) :: hs) toc' (sec :: secs).
Proof.
  intros Hl. destruct toc as [b|].
  - assert (Hp : exists r, push b l (push_html body) id = Ret r).
    { unfold push. destruct (Nat.leb_spec 1 l); [by eexists|lia]. }
    destruct Hp as [[b1 sec] Hp]. exists (Some b1), (Some sec). rewrite Hp. split; [done|].
    intros hs toc' secs (b' & ss & Hall & -> & ->). exists b', (sec :: ss).
    rewrite push_all_cons. cbn [fst snd heading_level]. unfold heading_level. cbn [fst snd].
    rewrite Hp. cbn [mbind outcome_bind fst snd]. by rewrite Hall.
  - exists None, None. split; [done|]. by intros hs toc' secs [-> ->].
Qed.

Lemma heading_or_not (e : Event X) : (exists l, e = Start (Heading l)) \/ forall l, e <> Start (Heading l).
Proof. destruct e as [t| | | | | |]; try by right. destruct t; try (by right). left. by eexists. Qed.

Lemma pieces_plain n e inner : (forall l, e <> Start (Heading l)) ->
  pieces (S n) (e :: inner) = Plain e :: pieces n inner.
Proof. intros He. destruct e as [t| | | | | |]; try done. destruct t; try done. by destruct (He level). Qed.

(** The iterator on a text. *)
Lemma headings_run n : forall events toc ids, length events <= n -> levels_ok events ->
  let ps := pieces n events in
  let d := derive_all ids (slugs ps) in
  exists secs toc',
    yields heading_next (mk_HeadingLinks events toc [] ids) (anchored ps d.2 secs)
      (mk_HeadingLinks [] toc' [] d.1) /\
    tabled toc (headings ps d.2) toc' secs /\
    length (anchored ps d.2 secs) <= 3 * length events.
Proof.
  induction n as [|n IH]; intros events toc ids Hn Hl.
  { destruct events; [|cbn in Hn; lia]. exists [], toc. split_and!; [by constructor| |done].
    destruct toc as [b|]; [by exists b, []|done]. }
  destruct events as [|e inner].
  { exists [], toc. split_and!; [by constructor| |done]. destruct toc as [b|]; [by exists b, []|done]. }
  cbn in Hn. assert (He : (exists l, e = Start (Heading l)) \/ forall l, e <> Start (Heading l)).
  { destruct e as [t| | | | | |]; try by right. destruct t; try (by right). left. by eexists. }
  destruct He as [[l ->]|He].
  - cbn [pieces]. pose proof (take_heading_length inner) as Hlen. pose proof (take_heading_rest inner) as Hrest.
    destruct (take_heading inner) as [[slug body] rest] eqn:Ht. cbn [snd] in Hrest.
    cbn [slugs derive_all]. destruct (derive ids slug) as [ids1 id] eqn:Hd. cbn [fst snd].
    destruct (tabled_cons toc l body id) as (toc1 & sec & Hpush & Htab); [apply Hl, list_elem_of_here|].
    destruct (IH rest toc1 ids1) as (secs & toc' & Hy & Ht' & Hlen'); [lia| |].
    { intros l' Hl'. apply Hl, list_elem_of_further. by apply Hrest. }
    exists (sec :: secs), toc'. split_and!.
    + cbn [anchored]. eapply yields_next.
      { unfold MdEvents.heading_next. cbn [hl_buf hl_inner hl_toc hl_ids]. rewrite Ht, Hd, Hpush. done. }
      eapply yields_buffer; [|exact Hy]. by rewrite <- !app_assoc.
    + by apply Htab.
    + cbn [anchored length]. rewrite !length_app. cbn [length]. destruct sec; cbn [length]; lia.
  - rewrite pieces_plain by done. destruct (IH inner toc ids) as (secs & toc' & Hy & Ht' & Hlen'); [lia| |].
    { intros l' Hl'. by apply Hl, list_elem_of_further. }
    exists secs, toc'. split_and!; [|done|cbn in *; lia].
    eapply yields_next; [|exact Hy]. destruct e as [t| | | | | |]; try done. destruct t; try done. by destruct (He level).
Qed.
Lemma headings_run_table events ids : levels_ok events ->
  let ps := pieces (length events) events in
  let d := derive_all ids (slugs ps) in
  exists secs b, run_headings (mk_HeadingLinks events (Some TocBuilder_new) [] ids)
      = Ret (anchored ps d.2 (List.map Some secs), mk_HeadingLinks [] (Some b) [] d.1) /\
    push_all (headings ps d.2) TocBuilder_new = Ret (b, secs).
Proof.
  intros Hl. destruct (headings_run (length events) events (Some TocBuilder_new) ids) as
    (secs & toc' & Hy & (b & ss & Hall & -> & ->) & Hlen); [done|done|].
  exists ss, b. split; [|done]. eapply collect_yields; [exact Hy|].
  unfold heading_fuel. cbn [hl_inner hl_buf length]. lia.
Qed.

Lemma derive_all_length cs : forall ids, length (derive_all ids cs).2 = length cs.
Proof. induction cs as [|c cs IH]; intros ids; [done|]. cbn. by rewrite IH. Qed.

Lemma headings_ids ps : forall ids, length ids = length (slugs ps) -> (headings ps ids).*2 = ids.
Proof.
  induction ps as [|p ps IH]; intros ids Hlen; cbn in *; [by destruct ids|].
  destruct p; [by apply IH|]. destruct ids as [|id ids]; [done|]. cbn in *. f_equal. apply IH. lia.
Qed.

Lemma pieces_levels events n : levels_ok events -> length events <= n ->
  forall ids, Forall (fun h => 1 <= heading_level h) (headings (pieces n events) ids).
Proof.
  revert events. induction n as [|n IH]; intros events Hl Hn ids; [constructor|].
  destruct events as [|e inner]; [constructor|]. cbn in Hn. destruct (heading_or_not e) as [[l ->]|He].
  - cbn [pieces]. pose proof (take_heading_length inner) as Hlen. pose proof (take_heading_rest inner) as Hrest.
    destruct (take_heading inner) as [[slug body] rest]. destruct ids as [|id ids]; [constructor|].
    constructor; [apply Hl, list_elem_of_here|]. apply IH; [|lia].
    intros l' Hl'. by apply Hl, list_elem_of_further, Hrest.
  - rewrite pieces_plain by done. apply IH; [|lia]. intros l' Hl'. by apply Hl, list_elem_of_further.
Qed.

End headings.

(** ** Properties *)

(** C27: headings and the table of contents. On a text whose headings have a level of 1 and
    more, [HeadingLinks] with a builder never panics. Every heading becomes a section header
    with an anchor, its own events without links, and its section number in front of it; the
    other events stay as they are and where they are. The numbers and the table are those of
    the outline of the headings, in which the headings below one are those that follow it up
    to the next one that is not of a greater level. The numbers strictly increase in the
    order of the text, and a number has as many parts as its heading has levels. The ids of
    the table are the anchors, in the order of the text. When no heading has the text of a derived id, the anchors are all different,
    and different from the ids of the templates. *)
Theorem headings_are_anchored_and_listed {X} (push_html : list (Event X) -> string)
    (unicode_alphanumeric : string -> bool) (events : list (Event X)) (Hl : levels_ok events) :
  let ps := pieces unicode_alphanumeric (length events) events in
  let d := derive_all IdMap_new (slugs ps) in
  let hs := headings push_html ps d.2 in
  let o := outline (length hs) [] [] hs in
  (exists b, run_headings push_html unicode_alphanumeric (mk_HeadingLinks events (Some TocBuilder_new) [] IdMap_new)
      = Ret (anchored ps d.2 (List.map (fun x => Some (show (numbered_as x))) (listing o)),
             mk_HeadingLinks [] (Some b) [] d.1) /\
    into_toc b = List.map entry_of o) /\
  List.map numbered_heading (listing o) = hs /\ hs.*2 = d.2 /\
  StronglySorted number_lt (List.map numbered_as (listing o)) /\
  Forall2 (fun n h => length n = heading_level h) (List.map numbered_as (listing o)) hs /\
  (Forall plain (slugs ps) -> NoDup d.2 /\ forall id, id ∈ d.2 -> id ∉ template_ids).
Proof.
  intros ps d hs o.
  destruct (headings_run_table push_html unicode_alphanumeric events IdMap_new Hl) as (secs & b & Hr & Hp).
  fold ps d in Hr, Hp. fold hs in Hp.
  destruct (push_all_builds hs) as (Ht & Hlist & Hsorted & Hparts); [by apply pieces_levels|].
  rewrite Hp in Ht. destruct Ht as [Htoc Hsecs]. cbn [fst snd] in Htoc, Hsecs. split_and!.
  - exists b. split; [|exact Htoc]. rewrite Hr, Hsecs, map_map. done.
  - exact Hlist.
  - apply headings_ids. unfold d. by rewrite derive_all_length.
  - exact Hsorted.
  - exact Hparts.
  - intros Hc. destruct init_ok as [Hok Hdom].
    destruct (derive_all_ok (slugs ps) IdMap_new Hc Hok) as (_ & Hnd & Hfresh & _). split; [exact Hnd|].
    intros id Hid%Hfresh Htmpl%Hdom. cbn [map_ IdMap_new] in Hid. rewrite Hid in Htmpl. by destruct Htmpl.
Qed.

(** Three headings, one of them with the title of another one, and one with a link. *)
Definition headed_text : list (Event unit) :=
  [Start (Heading 1); Text "Search Me"; End (Heading 1); Text "a";
   Start (Heading 2); Start (Link tt "u" ""); Code "Use"; End (Link tt "u" ""); End (Heading 2);
   Start (Heading 2); Text "search-Me"; End (Heading 2)].
Definition show_headings (es : list (Event unit)) : string :=
  foldr String.append EmptyString (List.map (fun e => match e with Text t | Code t => t | _ => EmptyString end) es).

Lemma headed_text_ok : levels_ok headed_text.
Proof.
  intros l Hin. repeat (apply elem_of_cons in Hin as [Hin|Hin]; [first [discriminate Hin|injection Hin as ->; lia]|]).
  by apply elem_of_nil in Hin.
Qed.

Lemma headings_are_anchored_and_listed_witness :
  let d := derive_all IdMap_new ["search-me"; "use"; "search-me"] in
  d.2 = ["search-me"; "use"; "search-me-1"] /\ NoDup d.2 /\
  (exists b, run_headings show_headings (fun _ => false)
      (mk_HeadingLinks headed_text (Some TocBuilder_new) [] IdMap_new)
    = Ret ([Html (start_tags 1 "search-me"); Html "1 "; Text "Search Me"; Html (end_tags 1); Text "a";
        Html (start_tags 2 "use"); Html "1.1 "; Code "Use"; Html (end_tags 2);
        Html (start_tags 2 "search-me-1"); Html "1.2 "; Text "search-Me"; Html (end_tags 2)],
        mk_HeadingLinks [] (Some b) [] d.1)).
Proof.
  pose proof (headings_are_anchored_and_listed show_headings (fun _ => false) headed_text headed_text_ok) as Hc.
  cbv zeta in Hc. destruct Hc as ((b & Hr & _) & _ & _ & _ & _ & Hd).
  assert (Hs : slugs (pieces (fun _ => false) (length headed_text) headed_text) = ["search-me"; "use"; "search-me"])
    by (vm_compute; reflexivity).
  rewrite Hs in Hd. intros d. split; [|split].
  - vm_compute. reflexivity.
  - apply Hd. repeat (constructor; [by apply plain_check|]). constructor.
  - exists b. rewrite Hr. vm_compute. reflexivity.
Defined.
