(* ===== verification/MdRender.v ===== *)
(** The renderings of a Markdown text. Footnotes are numbered from 1 in the order of their
    first mention, each listed once behind the text, under the number that its references
    show; a summary is the first block; every rendering ends without panic. *)

From Stdlib Require Import Sorting.Sorted.
From stdpp Require Import sorting.
From S2P Require Import Prelude RustStd Toc IdMap LangString DocTest MdEvents MdCorrect.

Section footnotes.
Context {X : Type} (push_html : list (Event X) -> string).

(** ** The notes of a text *)

(** A name with the content of its definition. *)
Abbreviation Note := (string * list (Event X))%type.

(** A text in pieces. *)
Inductive FnPiece := Other (e : Event X) | Reference (name : string) | Def (name : string) (content : list (Event X)).

Fixpoint fn_pieces (fuel : nat) (events : list (Event X)) : list FnPiece :=
  match fuel, events with
  | S fuel, FootnoteReference name :: inner => Reference name :: fn_pieces fuel inner
  | S fuel, Start (FootnoteDefinition name) :: inner =>
      let '(content, rest) := take_definition inner in Def name content :: fn_pieces fuel rest
  | S fuel, e :: inner => Other e :: fn_pieces fuel inner
  | _, _ => []
  end.

(** A name gets its place at the first mention. *)
Definition mention (name : string) (ns : list Note) : list Note :=
  if decide (name ∈ ns.*1) then ns else ns ++ [(name, [])].
(** The number of a name, from [k] on. *)
Fixpoint place (k : nat) (name : string) (ns : list Note) : nat :=
  match ns with
  | [] => k
  | n :: ns => if decide (n.1 = name) then k else place (S k) name ns
  end.
(** The last definition of a name counts. *)
Fixpoint defined (name : string) (content : list (Event X)) (ns : list Note) : list Note :=
  match ns with
  | [] => []
  | n :: ns => if decide (n.1 = name) then (name, content) :: ns else n :: defined name content ns
  end.

(** The text with its references, and its notes. *)
Fixpoint noted (ps : list FnPiece) (ns : list Note) : list (Event X) * list Note :=
  match ps with
  | [] => ([], ns)
  | Other e :: ps => let r := noted ps ns in (e :: r.1, r.2)
  | Reference name :: ps =>
      let ns := mention name ns in
      let r := noted ps ns in
      (Html (reference_html (Z.of_nat (place 1 name ns))) :: r.1, r.2)
  | Def name content :: ps => noted ps (defined name content (mention name ns))
  end.

(** ** The map of the notes *)
Fixpoint numbered (k : nat) (ns : list Note) : list (string * (list (Event X) * Z)) :=
  match ns with
  | [] => []
  | n :: ns => (n.1, (n.2, Z.of_nat k)) :: numbered (S k) ns
  end.
Definition note_map (k : nat) (ns : list Note) : gmap string (list (Event X) * Z) :=
  list_to_map (numbered k ns).

Lemma note_map_cons k n ns : note_map k (n :: ns) = <[n.1 := (n.2, Z.of_nat k)]> (note_map (S k) ns).
Proof. done. Qed.

Lemma numbered_fst ns : forall k, (numbered k ns).*1 = ns.*1.
Proof. induction ns as [|n ns IH]; intros k; [done|]. cbn. by rewrite IH. Qed.

Lemma numbered_snoc ns n : forall k,
  numbered k (ns ++ [n]) = numbered k ns ++ [(n.1, (n.2, Z.of_nat (k + length ns)))].
Proof.
  induction ns as [|n0 ns IH]; intros k; cbn; [by rewrite Nat.add_0_r|]. by rewrite IH, Nat.add_succ_r.
Qed.

Lemma note_map_size ns k : NoDup ns.*1 -> size (note_map k ns) = length ns.
Proof.
  intros Hnd. unfold note_map. rewrite <- length_map_to_list, map_to_list_to_map by by rewrite numbered_fst.
  rewrite <- (length_fmap fst), numbered_fst. apply length_fmap.
Qed.

Lemma note_map_out ns name k : name ∉ ns.*1 -> note_map k ns !! name = None.
Proof. intros Hn. apply not_elem_of_list_to_map_1. by rewrite numbered_fst. Qed.

Lemma note_map_in ns name : forall k, name ∈ ns.*1 ->
  exists content, note_map k ns !! name = Some (content, Z.of_nat (place k name ns)).
Proof.
  induction ns as [|n ns IH]; intros k Hn; [by apply elem_of_nil in Hn|].
  rewrite note_map_cons. cbn [place].
  destruct (decide (n.1 = name)) as [->|Hne].
  - exists n.2. by rewrite lookup_insert_eq.
  - rewrite lookup_insert_ne by done. apply IH.
    cbn [fmap list_fmap] in Hn. apply elem_of_cons in Hn as [Hn|Hn]; [by destruct Hne|done].
Qed.

Lemma note_map_defined ns name content : forall k, name ∈ ns.*1 ->
  <[name := (content, Z.of_nat (place k name ns))]> (note_map k ns) = note_map k (defined name content ns).
Proof.
  induction ns as [|n ns IH]; intros k Hn; [by apply elem_of_nil in Hn|].
  rewrite note_map_cons. cbn [place defined].
  destruct (decide (n.1 = name)) as [->|Hne].
  - by rewrite note_map_cons, insert_insert_eq.
  - rewrite note_map_cons, insert_insert_ne by done. f_equal. apply IH.
    cbn [fmap list_fmap] in Hn. apply elem_of_cons in Hn as [Hn|Hn]; [by destruct Hne|done].
Qed.

Lemma defined_fst name content ns : (defined name content ns).*1 = ns.*1.
Proof. induction ns as [|n ns IH]; [done|]. cbn. destruct (decide (n.1 = name)) as [<-|]; [done|]. cbn. by rewrite IH. Qed.

Lemma defined_length name content ns : length (defined name content ns) = length ns.
Proof. by rewrite <- (length_fmap fst), defined_fst, length_fmap. Qed.

Lemma mention_in name ns : name ∈ (mention name ns).*1.
Proof.
  unfold mention. destruct (decide (name ∈ ns.*1)); [done|]. rewrite fmap_app. apply elem_of_app. right.
  apply list_elem_of_here.
Qed.

Lemma mention_NoDup name ns : NoDup ns.*1 -> NoDup (mention name ns).*1.
Proof.
  intros Hnd. unfold mention. destruct (decide (name ∈ ns.*1)) as [|Hn]; [done|]. rewrite fmap_app.
  apply NoDup_app. split_and!; [done| |apply NoDup_singleton].
  intros x Hx Hx'%list_elem_of_singleton. by subst.
Qed.

Lemma noted_grows ps : forall ns, length ns <= length (noted ps ns).2.
Proof.
  induction ps as [|p ps IH]; intros ns; [done|].
  assert (Hm : forall name, length ns <= length (mention name ns)).
  { intros name. unfold mention. destruct (decide _); [done|]. rewrite length_app. lia. }
  destruct p as [e|name|name content]; cbn; [apply IH|etrans; [apply Hm|apply IH]|].
  etrans; [apply Hm|]. rewrite <- (defined_length name content). apply IH.
Qed.

(** [get_entry] numbers a new name. *)
Lemma get_entry_mention ns name : NoDup ns.*1 -> (Z.of_nat (length (mention name ns)) < 2 ^ 16)%Z ->
  exists content, get_entry (note_map 1 ns) name =
    (note_map 1 (mention name ns), (content, Z.of_nat (place 1 name (mention name ns)))).
Proof.
  intros Hnd Hlt. unfold get_entry. destruct (decide (name ∈ ns.*1)) as [Hn|Hn].
  - destruct (note_map_in ns name 1 Hn) as [content Hl]. exists content.
    unfold mention. by rewrite decide_True, Hl by done.
  - destruct (note_map_in _ name 1 (mention_in name ns)) as [content Hl]. exists content.
    rewrite note_map_out by done. rewrite note_map_size by done.
    assert (Hm : note_map 1 (mention name ns) = <[name := ([], Z.of_nat (length ns + 1) mod 2 ^ 16)%Z]> (note_map 1 ns)).
    { unfold mention in Hlt |- *. rewrite decide_False in Hlt by done. rewrite decide_False by done. rewrite length_app in Hlt. cbn in Hlt.
      unfold note_map. rewrite numbered_snoc. cbn [fst snd].
      rewrite list_to_map_snoc by by rewrite numbered_fst.
      rewrite Z.mod_small by lia. by rewrite Nat.add_comm. }
    rewrite Hm in Hl. rewrite lookup_insert_eq in Hl. injection Hl as Hc Hl. by rewrite Hm, <- Hc, <- Hl.
Qed.

(** ** The list of the notes *)
#[local] Abbreviation Entry := (list (Event X) * Z)%type.
Definition before (x y : Entry) : Prop := (x.2 <= y.2)%Z.

Lemma insert_note_perm (x : Entry) v : insert_note x v ≡ₚ x :: v.
Proof.
  induction v as [|y v IH]; [done|]. cbn. destruct (x.2 <=? y.2)%Z; [done|].
  etrans; [by apply Permutation_skip|]. apply Permutation_swap.
Qed.

Lemma sort_notes_perm (v : list Entry) : sort_notes v ≡ₚ v.
Proof. induction v as [|x v IH]; [done|]. cbn. rewrite insert_note_perm. by apply Permutation_skip. Qed.

Lemma insert_note_sorted x v : StronglySorted before v -> StronglySorted before (insert_note x v).
Proof.
  induction 1 as [|y v Hv IH Hy]; cbn; [repeat constructor|]. destruct (Z.leb_spec x.2 y.2) as [Hle|Hlt].
  - constructor; [by constructor|]. constructor; [done|]. eapply Forall_impl; [exact Hy|]. unfold before. lia.
  - constructor; [done|]. rewrite insert_note_perm. constructor; [unfold before; lia|done].
Qed.

Lemma sort_notes_sorted v : StronglySorted before (sort_notes v).
Proof. induction v as [|x v IH]; [constructor|]. by apply insert_note_sorted. Qed.

Lemma numbered_from ns : forall k x, x ∈ (numbered k ns).*2 -> (Z.of_nat k <= x.2)%Z.
Proof.
  induction ns as [|n ns IH]; intros k x Hx; [by apply elem_of_nil in Hx|].
  cbn [numbered fmap list_fmap] in Hx. apply elem_of_cons in Hx as [->|Hx]; [done|]. apply IH in Hx. lia.
Qed.

Lemma numbered_sorted ns : forall k, StronglySorted before (numbered k ns).*2.
Proof.
  induction ns as [|n ns IH]; intros k; [constructor|]. cbn [numbered fmap list_fmap]. constructor; [apply IH|].
  apply Forall_forall. intros x Hx%numbered_from. unfold before. cbn. lia.
Qed.

Lemma numbered_unique ns : forall k x y, x ∈ (numbered k ns).*2 -> y ∈ (numbered k ns).*2 -> x.2 = y.2 -> x = y.
Proof.
  induction ns as [|n ns IH]; intros k x y Hx Hy Heq; [by apply elem_of_nil in Hx|].
  cbn [numbered fmap list_fmap] in Hx, Hy.
  apply elem_of_cons in Hx as [->|Hx]; apply elem_of_cons in Hy as [->|Hy]; [done|..].
  - apply numbered_from in Hy. cbn in Heq. lia.
  - apply numbered_from in Hx. cbn in Heq. lia.
  - by eapply IH.
Qed.

Lemma sorted_notes `{HashOrder} ns : NoDup ns.*1 ->
  sort_notes (List.map snd (map_order 15 (note_map 1 ns))) = (numbered 1 ns).*2.
Proof.
  intros Hnd. assert (Hp : sort_notes (List.map snd (map_order 15 (note_map 1 ns))) ≡ₚ (numbered 1 ns).*2).
  { rewrite sort_notes_perm. apply (fmap_Permutation snd). rewrite map_order_perm. unfold note_map.
    apply map_to_list_to_map. by rewrite numbered_fst. }
  apply (StronglySorted_unique_strong before); [|apply sort_notes_sorted|apply numbered_sorted|exact Hp].
  intros x y Hx Hy H1 H2. rewrite Hp in Hx. apply (numbered_unique ns 1); [done|done|unfold before in *; lia].
Qed.

(** ** The iterator *)
Definition notes_event (ns : list Note) : list (Event X) :=
  match ns with [] => [] | _ => [Html (notes_html push_html (numbered 1 ns).*2)] end.

Section iterator.
Context `{HashOrder}.

Lemma take_definition_length (inner : list (Event X)) : length (take_definition inner).2 <= length inner.
Proof.
  induction inner as [|e inner IH]; [done|].
  assert (Hgo : length (let '(content, rest) := take_definition inner in (e :: content, rest)).2 <= S (length inner)).
  { destruct (take_definition inner) as [content rest]. cbn in *. lia. }
  destruct e as [t|t| | | | |]; try exact Hgo. destruct t; try exact Hgo. cbn. lia.
Qed.

Lemma loop_fuel n1 : forall n2 self, length (fn_inner self) < n1 -> length (fn_inner self) < n2 ->
  footnotes_loop push_html n1 self = footnotes_loop push_html n2 self.
Proof.
  induction n1 as [|n1 IH]; intros n2 [inner m] H1 H2; cbn in H1, H2; [lia|].
  destruct n2 as [|n2]; [lia|]. destruct inner as [|e inner]; [done|]. cbn in H1, H2.
  destruct e as [t| | | | | |]; try done. destruct t; try done. cbn [footnotes_loop fn_inner footnotes].
  pose proof (take_definition_length inner) as Hlen. destruct (take_definition inner) as [content rest].
  destruct (get_entry m name) as [m' entry]. cbn in Hlen. apply IH; cbn; lia.
Qed.

Lemma yields_same {S} (next : S -> outcome (option (Event X) * S)) st1 st2 es st' :
  next st1 = next st2 -> yields next st2 es st' -> yields next st1 es st'.
Proof.
  intros Heq Hy. inversion Hy as [? ? Hn|? ? ? ? ? Hn Hy']; subst; rewrite <- Heq in Hn;
    [by constructor|by eapply yields_next].
Qed.

Lemma footnotes_at_end ns : NoDup ns.*1 ->
  yields (footnotes_next push_html) (mk_Footnotes [] (note_map 1 ns)) (notes_event ns) (mk_Footnotes [] ∅).
Proof.
  intros Hnd. destruct ns as [|n ns]; [by constructor|].
  apply (yields_next _ _ _ (mk_Footnotes [] ∅)); [|by constructor]. unfold footnotes_next. cbn [fn_inner length Nat.add footnotes_loop footnotes].
  rewrite bool_decide_eq_false_2.
  - by rewrite sorted_notes by done.
  - intros He. apply (f_equal size) in He. rewrite note_map_size in He by done. by rewrite map_size_empty in He.
Qed.

Lemma noted_bound b ns (ps : list FnPiece) : (Z.of_nat (length (noted ps ns).2) < b)%Z ->
  (Z.of_nat (length ns) < b)%Z.
Proof. pose proof (noted_grows ps ns). lia. Qed.

(** What the iterator makes of a text, from the notes [ns] on. *)
Definition footnotes_goal (n : nat) (events : list (Event X)) (ns : list Note) : Prop :=
  let r := noted (fn_pieces n events) ns in
  yields (footnotes_next push_html) (mk_Footnotes events (note_map 1 ns)) (r.1 ++ notes_event r.2)
    (mk_Footnotes [] ∅) /\
  NoDup r.2.*1 /\ length r.1 <= length events.

Lemma footnotes_run n : forall events ns, length events <= n -> NoDup ns.*1 ->
  (Z.of_nat (length (noted (fn_pieces n events) ns).2) < 2 ^ 16)%Z -> footnotes_goal n events ns.
Proof.
  induction n as [|n IH]; intros events ns Hn Hnd Hlt.
  { unfold footnotes_goal. destruct events; [|cbn in Hn; lia]. cbn. split_and!; [by apply footnotes_at_end|done|done]. }
  destruct events as [|e inner]; [unfold footnotes_goal; cbn; split_and!; [by apply footnotes_at_end|done|done]|]. cbn in Hn.
  assert (Hother : fn_pieces (S n) (e :: inner) = Other e :: fn_pieces n inner ->
    footnotes_next push_html (mk_Footnotes (e :: inner) (note_map 1 ns))
      = Ret (Some e, mk_Footnotes inner (note_map 1 ns)) -> footnotes_goal (S n) (e :: inner) ns).
  { intros Hp Hnext. unfold footnotes_goal. rewrite Hp in Hlt |- *. cbn [noted fst snd] in Hlt |- *.
    destruct (IH inner ns) as (Hy & Hnd' & Hlen); [lia|done|done|].
    split_and!; [|done|cbn; lia]. by eapply yields_next. }
  destruct e as [t| | | | |name|]; try (by apply Hother).
  - destruct t; try (by apply Hother). clear Hother. unfold footnotes_goal. cbn [fn_pieces] in Hlt |- *.
    pose proof (take_definition_length inner) as Hlen0.
    destruct (take_definition inner) as [content rest] eqn:Ht. cbn [snd] in Hlen0. cbn [noted] in Hlt |- *.
    destruct (get_entry_mention ns name Hnd) as [c0 Hg].
    { apply noted_bound in Hlt. by rewrite defined_length in Hlt. }
    destruct (IH rest (defined name content (mention name ns))) as (Hy & Hnd' & Hlen); [lia| |done|].
    { rewrite defined_fst. by apply mention_NoDup. }
    split_and!; [|done|cbn; lia]. eapply yields_same; [|exact Hy].
    unfold footnotes_next. cbn [fn_inner length Nat.add footnotes_loop footnotes]. rewrite Ht, Hg. cbn [snd].
    rewrite note_map_defined by apply mention_in. apply loop_fuel; cbn; lia.
  - clear Hother. unfold footnotes_goal. cbn [fn_pieces noted fst snd] in Hlt |- *.
    destruct (get_entry_mention ns name Hnd) as [c0 Hg]; [by eapply noted_bound|].
    destruct (IH inner (mention name ns)) as (Hy & Hnd' & Hlen); [lia|by apply mention_NoDup|done|].
    split_and!; [|done|cbn; lia]. eapply yields_next; [|exact Hy].
    unfold footnotes_next. cbn [fn_inner length Nat.add footnotes_loop footnotes]. by rewrite Hg.
Qed.
End iterator.
End footnotes.

(** ** Properties *)

(** C28: the footnotes of a page. A text that mentions fewer than 65536 names is passed on
    with each reference as a link to the number of its name, and without the definitions;
    the number is the place of the name in the order of the first mentions. Behind the text
    comes one list, if there are notes at all, with each name once, in the order of the
    numbers whatever the order of the hash map is, and with the content that was defined
    last. *)
Theorem footnotes_are_numbered_and_listed `{HashOrder} {X} (push_html : list (Event X) -> string)
    (events : list (Event X)) :
  let r := noted (fn_pieces (length events) events) [] in
  (Z.of_nat (length r.2) < 2 ^ 16)%Z ->
  run_footnotes push_html events = Ret (r.1 ++ notes_event push_html r.2, mk_Footnotes [] ∅) /\
  NoDup r.2.*1.
Proof.
  intros r Hlt. destruct (footnotes_run push_html (length events) events []) as (Hy & Hnd & Hlen);
    [done|constructor|done|].
  split; [|done]. eapply collect_yields; [exact Hy|].
  rewrite length_app. assert (Hl : length (notes_event push_html r.2) <= 1) by (unfold notes_event; destruct r.2; cbn; lia).
  fold r in Hlen |- *. lia.
Qed.

(** A reference, a definition that mentions another note, its definition and a repetition. *)
Definition noted_text : list (Event unit) :=
  [Text "a"; FootnoteReference "one"; Start (FootnoteDefinition "two"); Text "second";
   End (FootnoteDefinition "two"); FootnoteReference "two"; FootnoteReference "one";
   Start (FootnoteDefinition "one"); FootnoteReference "three"; End (FootnoteDefinition "one")].
Definition show_texts (es : list (Event unit)) : string :=
  foldr String.append EmptyString (List.map (fun e => match e with Text t => t | _ => "?" end) es).

Lemma footnotes_are_numbered_and_listed_witness :
  run_footnotes show_texts noted_text = Ret
    ([Text "a"; Html (reference_html 1); Html (reference_html 2); Html (reference_html 1);
      Html (notes_html show_texts [([FootnoteReference "three"], 1%Z); ([Text "second"], 2%Z)])],
     mk_Footnotes [] ∅).
Proof. apply (footnotes_are_numbered_and_listed show_texts noted_text). vm_compute. reflexivity. Defined.

(** A reference inside of a definition stays as it is: it is neither numbered nor listed. *)
Lemma references_in_definitions_are_not_numbered `{HashOrder} :
  run_footnotes show_texts noted_text = Ret
    ([Text "a"; Html (reference_html 1); Html (reference_html 2); Html (reference_html 1);
      Html (notes_html show_texts [([FootnoteReference "three"], 1%Z); ([Text "second"], 2%Z)])],
     mk_Footnotes [] ∅).
Proof.
  destruct (footnotes_run show_texts (length noted_text) noted_text []) as (Hy & _ & _); [done|constructor|done|].
  eapply collect_yields; [exact Hy|]. vm_compute. lia.
Qed.


(** ** Iterators that end *)
Section ends.
Context {X S : Type} (next : S -> outcome (option (Event X) * S)) (measure : S -> nat).

(** Each item takes something from the measure. *)
Definition consumes : Prop := forall st, exists o st', next st = Ret (o, st') /\
  (o <> None -> measure st' < measure st).

Lemma consumes_yields n : consumes -> forall st, measure st <= n ->
  exists es st', yields next st es st' /\ length es <= measure st.
Proof.
  intros Hc. induction n as [|n IH]; intros st Hn; destruct (Hc st) as ([e|] & st1 & Hnext & Hm);
    try (exists [], st1; split; [by constructor|cbn; lia]); specialize (Hm ltac:(done)); [lia|].
  destruct (IH st1) as (es & st' & Hy & Hlen); [lia|].
  exists (e :: es), st'. split; [by eapply yields_next|cbn; lia].
Qed.
End ends.

Section render.
Context `{HashOrder} {X : Type}.
Context (push_html : list (Event X) -> string) (unicode_alphanumeric : string -> bool).
Context (highlight : string -> string -> option string -> option (string * string) -> string).
Context (rust_parser : Edition -> string -> option Parsed).
Context (codes : bool) (edition : Edition) (playground : option Playground).

#[local] Abbreviation code_block_next :=
  (code_block_next (X := X) unicode_alphanumeric highlight rust_parser codes edition playground).
#[local] Abbreviation footnotes_next := (footnotes_next push_html).

Lemma take_block_length (inner : list (Event X)) : length (take_block inner).2 <= length inner.
Proof.
  induction inner as [|e inner IH]; [done|].
  destruct e as [t|t|s| | | |]; cbn; try lia; [destruct t; cbn; lia|].
  destruct (take_block inner) as [text rest]. cbn in *. lia.
Qed.

Lemma playground_button_returns text e : exists button, playground_button rust_parser playground text e = Ret button.
Proof.
  unfold playground_button. destruct playground as [p|]; [|by eexists].
  destruct (String.eqb _ _); [by eexists|].
  destruct (make_test_returns rust_parser (tested_text text) (playground_crate p) false TestOptions_default e) as [r ->].
  by eexists.
Qed.

Lemma code_block_consumes : consumes code_block_next length.
Proof.
  intros inner. destruct inner as [|e inner]; [by exists None, []|].
  destruct e as [t| | | | | |]; try (by do 2 eexists; split; [done|cbn; lia]).
  destruct t; try (by do 2 eexists; split; [done|cbn; lia]). cbn [MdEvents.code_block_next].
  destruct (negb _); [by do 2 eexists; split; [done|cbn; lia]|].
  pose proof (take_block_length inner). destruct (take_block inner) as [text rest].
  match goal with |- context [playground_button _ _ _ ?e] => destruct (playground_button_returns text e) as [button ->] end.
  do 2 eexists. split; [done|]. cbn in *. lia.
Qed.

(** A text behind which a list of notes may come. *)
Definition notes_measure (self : Footnotes (X := X)) : nat :=
  length (fn_inner self) + if bool_decide (fn_inner self = [] /\ footnotes self = ∅) then 0 else 1.

Lemma notes_measure_bounds self : length (fn_inner self) <= notes_measure self <= length (fn_inner self) + 1.
Proof. unfold notes_measure. case_bool_decide; lia. Qed.

Lemma notes_measure_inner (e : Event X) inner notes : notes_measure (mk_Footnotes (e :: inner) notes) = S (length inner) + 1.
Proof. unfold notes_measure. cbn [fn_inner footnotes]. rewrite bool_decide_eq_false_2 by by intros [? _]. done. Qed.

Lemma footnotes_loop_consumes n : forall self, length (fn_inner self) < n ->
  exists o st', footnotes_loop push_html n self = Ret (o, st') /\
    (o <> None -> notes_measure st' < notes_measure self).
Proof.
  induction n as [|n IH]; intros [inner notes] Hn; cbn [fn_inner] in Hn; [lia|].
  destruct inner as [|e inner].
  { cbn [footnotes_loop fn_inner footnotes]. case_bool_decide as Hnotes; do 2 eexists; (split; [done|]); [done|].
    intros _. unfold notes_measure. cbn [fn_inner footnotes length].
    rewrite bool_decide_eq_true_2, bool_decide_eq_false_2 by tauto. lia. }
  cbn [length] in Hn. pose proof (notes_measure_inner e inner notes) as Hm.
  pose proof (fun notes => notes_measure_bounds (mk_Footnotes inner notes)) as Hb. cbn [fn_inner] in Hb.
  assert (Hout : forall e' notes', footnotes_loop push_html (S n) (mk_Footnotes (e :: inner) notes)
      = Ret (Some e', mk_Footnotes inner notes') -> exists o st',
    footnotes_loop push_html (S n) (mk_Footnotes (e :: inner) notes) = Ret (o, st') /\
    (o <> None -> notes_measure st' < notes_measure (mk_Footnotes (e :: inner) notes))).
  { intros e' notes' Hr. do 2 eexists. split; [exact Hr|]. intros _. rewrite Hm. specialize (Hb notes'). lia. }
  destruct e as [t| | | | |name|]; try by eapply Hout.
  - destruct t; try by eapply Hout.
    cbn [footnotes_loop fn_inner footnotes]. pose proof (take_definition_length inner) as Hlen.
    destruct (take_definition inner) as [content rest]. destruct (get_entry notes name) as [notes' entry].
    cbn [snd] in Hlen. destruct (IH (mk_Footnotes rest (<[name:=(content, entry.2)]> notes'))) as (o & st' & Hr & Ho);
      [cbn [fn_inner]; lia|]. exists o, st'. split; [exact Hr|]. intros Hne. rewrite Hm.
    specialize (Ho Hne). pose proof (notes_measure_bounds (mk_Footnotes rest (<[name:=(content, entry.2)]> notes'))) as Hr'.
    cbn [fn_inner] in Hr'. lia.
  - destruct (get_entry notes name) as [notes' entry] eqn:Hg. eapply (Hout _ notes').
    cbn [footnotes_loop fn_inner footnotes]. by rewrite Hg.
Qed.

Lemma footnotes_consumes : consumes footnotes_next notes_measure.
Proof. intros self. apply footnotes_loop_consumes. lia. Qed.

(** The stages behind the headings. *)
Lemma code_blocks_run (events : list (Event X)) : exists es st',
  yields code_block_next events es st' /\
  run_code_blocks unicode_alphanumeric highlight rust_parser codes edition playground events = Ret (es, st').
Proof.
  destruct (consumes_yields _ _ (length events) code_block_consumes events) as (es & st' & Hy & Hlen); [done|].
  exists es, st'. split; [done|]. apply collect_yields; [done|lia].
Qed.

Lemma footnotes_run_ends (events : list (Event X)) : exists es st',
  yields footnotes_next (mk_Footnotes events ∅) es st' /\
  run_footnotes push_html events = Ret (es, st').
Proof.
  pose proof (notes_measure_bounds (mk_Footnotes events ∅)) as Hm. cbn [fn_inner] in Hm.
  destruct (consumes_yields _ _ _ footnotes_consumes (mk_Footnotes events ∅) (le_n _)) as (es & st' & Hy & Hlen).
  exists es, st'. split; [done|]. apply collect_yields; [done|lia].
Qed.

(** A whole rendering behind the headings. *)
Lemma rest_renders (events : list (Event X)) : exists f st1 st2 c,
  run_code_blocks unicode_alphanumeric highlight rust_parser codes edition playground events = Ret (c, st1) /\
  run_footnotes push_html c = Ret (f, st2) /\
  yields code_block_next events c st1 /\ yields footnotes_next (mk_Footnotes c ∅) f st2.
Proof.
  destruct (code_blocks_run events) as (c & st1 & Hc & Hrun). destruct (footnotes_run_ends c) as (f & st2 & Hf & Hrunf).
  by exists f, st1, st2, c.
Qed.

(** The headings without a table. *)
Lemma headings_run_plain events ids : levels_ok events ->
  exists h st, run_headings push_html unicode_alphanumeric (mk_HeadingLinks events None [] ids) = Ret (h, st) /\
    hl_ids st = (derive_all ids (slugs (pieces unicode_alphanumeric (length events) events))).1.
Proof.
  intros Hl. destruct (headings_run push_html unicode_alphanumeric (length events) events None ids)
    as (secs & toc' & Hy & _ & Hlen); [done|done|].
  do 2 eexists. split.
  - eapply collect_yields; [exact Hy|]. unfold heading_fuel. cbn [hl_inner hl_buf length]. lia.
  - done.
Qed.

(** ** The summary *)

(** Events whose tags are closed, without code blocks. *)
Definition code_tag (t : Tag X) : bool := match t with CodeBlock _ => true | _ => false end.
Definition is_tag (e : Event X) : bool := match e with Start _ | End _ => true | _ => false end.
Inductive balanced : list (Event X) -> Prop :=
| balanced_nil : balanced []
| balanced_leaf e es : is_tag e = false -> balanced es -> balanced (e :: es)
| balanced_block t t' body es : code_tag t = false -> code_tag t' = false ->
    balanced body -> balanced es -> balanced (Start t :: body ++ End t' :: es).

(** Tags that a summary may not have become paragraphs. *)
Definition summary_event (e : Event X) : Event X :=
  match e with
  | Start t => if check_if_allowed_tag t then e else Start Paragraph
  | End t => if check_if_allowed_tag t then e else End Paragraph
  | _ => e
  end.

#[local] Abbreviation summary_next := (summary_next (X := X)).

Lemma summary_start t inner started d : code_tag t = false -> started && (d =? 0)%Z = false ->
  summary_next (mk_SummaryLine (Start t :: inner) started d)
    = Ret (Some (summary_event (Start t)), mk_SummaryLine inner true ((d + 1) mod 2 ^ 32)%Z).
Proof. intros Ht Hd. unfold MdEvents.summary_next. cbn [sl_started sl_depth sl_inner]. rewrite Hd. by destruct t. Qed.

Lemma summary_end t inner d : code_tag t = false -> (d <> 0)%Z ->
  summary_next (mk_SummaryLine (End t :: inner) true d)
    = Ret (Some (summary_event (End t)), mk_SummaryLine inner true ((d - 1) mod 2 ^ 32)%Z).
Proof.
  intros Ht Hd%Z.eqb_neq. unfold MdEvents.summary_next. cbn [sl_started sl_depth sl_inner]. rewrite Hd. by destruct t.
Qed.

Lemma summary_leaf e inner d : is_tag e = false -> (d <> 0)%Z ->
  summary_next (mk_SummaryLine (e :: inner) true d) = Ret (Some e, mk_SummaryLine inner true d).
Proof.
  intros Ht Hd%Z.eqb_neq. unfold MdEvents.summary_next. cbn [sl_started sl_depth sl_inner]. rewrite Hd. by destruct e.
Qed.

(** Inside of the first block the summary goes on. *)
Lemma summary_balanced body : balanced body -> forall tail d es st',
  (1 <= d /\ d + Z.of_nat (length body) < 2 ^ 32)%Z ->
  yields summary_next (mk_SummaryLine tail true d) es st' ->
  yields summary_next (mk_SummaryLine (body ++ tail) true d) (List.map summary_event body ++ es) st'.
Proof.
  induction 1 as [|e body He Hb IH|t t' body1 body2 Ht Ht' _ IH1 _ IH2]; intros tail d es st' Hd Hy; [done|..].
  - cbn [length] in Hd. cbn [app List.map]. replace (summary_event e) with e by by destruct e.
    eapply yields_next; [apply summary_leaf; [done|lia]|]. apply IH; [lia|done].
  - cbn [length app List.map] in *. rewrite length_app in Hd. cbn [length] in Hd.
    eapply yields_next; [apply summary_start; [done|]; apply andb_false_iff; right; apply Z.eqb_neq; lia|].
    rewrite Z.mod_small by lia. rewrite map_app, <- !app_assoc. apply IH1; [lia|]. cbn [app List.map].
    eapply yields_next; [apply summary_end; [done|lia]|].
    rewrite Z.mod_small by lia. replace (d + 1 - 1)%Z with d by lia. apply IH2; [lia|done].
Qed.

Lemma summary_consumes : consumes summary_next (fun st => length (sl_inner st)).
Proof.
  intros [inner started d]. unfold MdEvents.summary_next. cbn [sl_inner sl_started sl_depth].
  destruct (started && (d =? 0)%Z); [by do 2 eexists|]. destruct inner as [|e inner]; [by do 2 eexists|].
  destruct e as [t|t| | | | |]; try (destruct t); (do 2 eexists; split; [done|]); cbn; lia.
Qed.

Lemma summary_runs (events : list (Event X)) : exists es st', run_summary events = Ret (es, st').
Proof.
  destruct (consumes_yields _ _ (length events) summary_consumes (mk_SummaryLine events false 0)) as (es & st' & Hy & Hlen);
    [done|]. exists es, st'. apply collect_yields; [done|cbn in Hlen; lia].
Qed.

(** [MarkdownHtml] keeps the headings. *)
Definition html_as_text (events : list (Event X)) : list (Event X) :=
  List.map (fun e => match e with Html text => Text text | _ => e end) events.
Lemma levels_ok_texts events : levels_ok events -> levels_ok (html_as_text events).
Proof.
  intros Hl l (e & He & Hin)%list_elem_of_fmap. apply Hl. by destruct e; simplify_eq.
Qed.

Lemma no_links (events : list (Event X)) : LinkReplacer [] events = events.
Proof.
  unfold LinkReplacer. rewrite <- (map_id events) at 2. apply map_ext. intros e.
  destruct e as [t| | | | | |]; try done. by destruct t.
Qed.

(** The events [f] that a rendering writes out: those of the three iterators one behind the
    other, each up to its end, with the ids that are taken on the way. *)
Definition staged (links : list (string * string)) (self : HeadingLinks) (f : list (Event X))
    (ids : IdMap) : Prop :=
  exists h st c st1 st2,
    yields (heading_next push_html unicode_alphanumeric) self h st /\ hl_ids st = ids /\
    yields code_block_next (LinkReplacer links h) c st1 /\
    yields footnotes_next (mk_Footnotes c ∅) f st2.

(** The stages behind headings that were run. *)
Lemma rest_staged links self h st ids :
  run_headings push_html unicode_alphanumeric self = Ret (h, st) -> hl_ids st = ids ->
  exists f c st1 st2,
    run_code_blocks unicode_alphanumeric highlight rust_parser codes edition playground (LinkReplacer links h)
      = Ret (c, st1) /\
    run_footnotes push_html c = Ret (f, st2) /\ staged links self f ids.
Proof.
  intros Hh Hids. destruct (rest_renders (LinkReplacer links h)) as (f & st1 & st2 & c & Hc & Hf & Hyc & Hyf).
  exists f, c, st1, st2. split; [done|]. split; [done|]. exists h, st, c, st1, st2.
  split; [by eapply collect_ended|done].
Qed.
End render.

(** ** Properties *)

(** C30: every rendering of a text whose headings have a level of 1 and more ends, without
    panic. The events that are written out are those that the iterators hand over one behind
    the other, each up to its end: headings, replaced links, code blocks and footnotes, or the
    summary line. The renderings with and without a table of contents, and the one in which
    inline HTML becomes text, take from the map exactly the ids of the headings of the text, in
    their order; the summary has no map. The rendering with a table begins with the list of the
    outline of the headings, with those ids. An empty text gives nothing and takes no id. *)
Theorem every_rendering_ends `{HashOrder} {X} (push_html : list (Event X) -> string)
    (unicode_alphanumeric : string -> bool)
    (highlight : string -> string -> option string -> option (string * string) -> string)
    (rust_parser : Edition -> string -> option Parsed)
    (codes : bool) (edition : Edition) (playground : option Playground)
    (parser : string -> list (Event X)) (md : string) (links : list (string * string)) (ids : IdMap)
    (Hl : levels_ok (parser md)) :
  let taken events := derive_all ids (slugs (pieces unicode_alphanumeric (length events) events)) in
  let staged := staged push_html unicode_alphanumeric highlight rust_parser codes edition playground in
  let d := taken (parser md) in
  let hs := headings push_html (pieces unicode_alphanumeric (length (parser md)) (parser md)) d.2 in
  let texts := html_as_text (parser md) in
  (exists f, staged links (mk_HeadingLinks (parser md) None [] ids) f d.1 /\
    Markdown_to_string push_html unicode_alphanumeric highlight rust_parser parser md links ids codes
      edition playground
    = Ret (if String.eqb md EmptyString then (EmptyString, ids) else (push_html f, d.1))) /\
  (exists f, staged [] (mk_HeadingLinks (parser md) (Some TocBuilder_new) [] ids) f d.1 /\
    MarkdownWithToc_to_string push_html unicode_alphanumeric highlight rust_parser parser md ids codes
      edition playground
    = Ret ("<nav id=" +:+ dquote +:+ "TOC" +:+ dquote +:+ ">"
        +:+ print (List.map entry_of (outline (length hs) [] [] hs)) +:+ "</nav>" +:+ push_html f, d.1)) /\
  (exists f, staged [] (mk_HeadingLinks texts None [] ids) f (taken texts).1 /\
    MarkdownHtml_to_string push_html unicode_alphanumeric highlight rust_parser parser md ids codes
      edition playground
    = Ret (if String.eqb md EmptyString then (EmptyString, ids) else (push_html f, (taken texts).1))) /\
  (exists es st, yields (summary_next (X := X)) (mk_SummaryLine (parser md) false 0) es st /\
    MarkdownSummaryLine_to_string push_html parser md links
    = Ret (if String.eqb md EmptyString then EmptyString else push_html (LinkReplacer links es))).
Proof.
  intros taken staged' d hs texts. split_and!.
  - destruct (headings_run_plain push_html unicode_alphanumeric (parser md) ids Hl) as (h & st & Hh & Hids).
    destruct (rest_staged push_html unicode_alphanumeric highlight rust_parser codes edition playground
      links _ h st d.1 Hh Hids) as (f & c & st1 & st2 & Hc & Hf & Hst).
    exists f. split; [exact Hst|]. unfold Markdown_to_string. destruct (String.eqb md EmptyString); [done|].
    rewrite Hh. cbn [mbind outcome_bind fst snd]. rewrite Hc. cbn [mbind outcome_bind fst snd].
    rewrite Hf. cbn [mbind outcome_bind fst snd]. by rewrite Hids.
  - destruct (headings_run_table push_html unicode_alphanumeric (parser md) ids Hl) as (secs & b & Hh & Hp).
    destruct (rest_staged push_html unicode_alphanumeric highlight rust_parser codes edition playground
      [] _ _ _ d.1 Hh eq_refl) as (f & c & st1 & st2 & Hc & Hf & Hst). rewrite no_links in Hc.
    exists f. split; [exact Hst|]. unfold MarkdownWithToc_to_string. rewrite Hh.
    cbn [mbind outcome_bind fst snd]. rewrite Hc. cbn [mbind outcome_bind fst snd].
    rewrite Hf. cbn [mbind outcome_bind fst snd hl_toc hl_ids unwrap].
    destruct (push_all_builds hs) as (Ht & _); [by apply pieces_levels|].
    change (push_all hs TocBuilder_new = Ret (b, secs)) in Hp. rewrite Hp in Ht. destruct Ht as [Htoc _].
    cbn [fst] in Htoc. cbn. by rewrite Htoc.
  - destruct (headings_run_plain push_html unicode_alphanumeric texts ids (levels_ok_texts _ Hl)) as (h & st & Hh & Hids).
    destruct (rest_staged push_html unicode_alphanumeric highlight rust_parser codes edition playground
      [] _ h st (taken texts).1 Hh Hids) as (f & c & st1 & st2 & Hc & Hf & Hst). rewrite no_links in Hc.
    exists f. split; [exact Hst|]. unfold MarkdownHtml_to_string. destruct (String.eqb md EmptyString); [done|].
    fold (html_as_text (parser md)). fold texts. rewrite Hh. cbn [mbind outcome_bind fst snd].
    rewrite Hc. cbn [mbind outcome_bind fst snd]. rewrite Hf. cbn [mbind outcome_bind fst snd]. by rewrite Hids.
  - destruct (summary_runs (parser md)) as (es & st & Hr). exists es, st.
    split; [by eapply collect_ended|]. unfold MarkdownSummaryLine_to_string.
    destruct (String.eqb md EmptyString); [done|]. by rewrite Hr.
Qed.

(** The text with three headings. *)
Lemma every_rendering_ends_witness :
  let toc := [mk_TocEntry 1 "1" "Search Me" "search-me"
    [mk_TocEntry 2 "1.1" "Use" "use" []; mk_TocEntry 2 "1.2" "search-Me" "search-me-1" []]] in
  exists s ids, MarkdownWithToc_to_string show_headings (fun _ => false) (fun s _ _ _ => s) (fun _ _ => None)
      (fun _ => headed_text) "" IdMap_new false Edition2015 None
    = Ret ("<nav id=" +:+ dquote +:+ "TOC" +:+ dquote +:+ ">" +:+ print toc +:+ "</nav>" +:+ s, ids).
Proof.
  pose proof (every_rendering_ends show_headings (fun _ => false) (fun s _ _ _ => s) (fun _ _ => None)
    false Edition2015 None (fun _ => headed_text) "" [] IdMap_new headed_text_ok) as Hc.
  cbv zeta in Hc. destruct Hc as (_ & (s & _ & Hs) & _). intros toc. do 2 eexists. rewrite Hs.
  match goal with |- context [print (List.map entry_of ?o)] => replace (List.map entry_of o) with toc end;
    [reflexivity|vm_compute; reflexivity].
Defined.

(** The summary of a text is its first block. From a text that begins with a block
    without code blocks, whose tags are closed, [SummaryLine] takes that block up to its end,
    with tags that are not allowed in a summary replaced by paragraphs, and nothing of what
    follows. *)
Lemma summary_is_the_first_block {X} (t t' : Tag X) (body rest : list (Event X))
    (Ht : code_tag t = false) (Ht' : code_tag t' = false) (Hb : balanced body)
    (Hlt : (Z.of_nat (length body) < 2 ^ 32 - 1)%Z) :
  run_summary (Start t :: body ++ End t' :: rest)
    = Ret (List.map summary_event (Start t :: body ++ [End t']), mk_SummaryLine rest true 0).
Proof.
  assert (Hy : yields summary_next (mk_SummaryLine (Start t :: body ++ End t' :: rest) false 0)
      (List.map summary_event (Start t :: body ++ [End t'])) (mk_SummaryLine rest true 0)).
  { cbn [List.map]. rewrite map_app. eapply yields_next; [by apply summary_start|].
    apply summary_balanced; [done|change ((0 + 1) mod 2 ^ 32)%Z with 1%Z; lia|].
    change ((0 + 1) mod 2 ^ 32)%Z with 1%Z. eapply yields_next; [by apply summary_end|]. by apply yields_end. }
  eapply collect_yields; [exact Hy|]. rewrite length_map. cbn [length]. rewrite !length_app. cbn. lia.
Qed.

(** A heading with emphasis, and a paragraph behind it. *)
Lemma summary_is_the_first_block_witness :
  run_summary (X := unit) [Start (Heading 1); Text "a"; Start Emphasis; Code "b"; End Emphasis; End (Heading 1);
      Start Paragraph; Text "c"; End Paragraph]
    = Ret ([Start Paragraph; Text "a"; Start Emphasis; Code "b"; End Emphasis; End Paragraph],
        mk_SummaryLine [Start Paragraph; Text "c"; End Paragraph] true 0).
Proof.
  apply (summary_is_the_first_block (Heading 1) (Heading 1) [Text "a"; Start Emphasis; Code "b"; End Emphasis]);
    [done|done| |vm_compute; done].
  apply balanced_leaf; [done|]. apply (balanced_block Emphasis Emphasis [Code "b"] []); [done|done| |constructor].
  by apply balanced_leaf; [|constructor].
Defined.
