(* ===== verification/MetaItems.v ===== *)
(** The attributes of the syntax tree ([librustc_ast/ast.rs], [librustc_ast/attr/mod.rs]) as
    rustdoc reads them: meta items, their names, values and lists. *)

From S2P Require Import Prelude RustStd.

(** [LitKind], without the styles and suffixes of literals. *)
Module LitKind.
Inductive LitKind :=
| Str (value : string)
| ByteStr (bytes : list Z)
| Byte (b : Z)
| Char (c : Z)
| Int (n : N)
| Float (value : string)
| Bool (b : bool)
| Err (value : string).

Definition is_str (l : LitKind) : bool := match l with Str _ => true | _ => false end.
End LitKind.
Abbreviation LitKind := LitKind.LitKind.

(** The lists of a meta item, over the type [M] of the meta items in them. *)
Section lists.
Context (M : Type).

Inductive NestedMetaItem_ := MetaItem_ (m : M) | Literal (lit : LitKind).
Inductive MetaItemKind_ := Word | MetaList (items : list NestedMetaItem_) | NameValue (lit : LitKind).
End lists.
Arguments MetaItem_ {M}. Arguments Literal {M}.
Arguments Word {M}. Arguments MetaList {M}. Arguments NameValue {M}.

(** A path is the list of the names of its segments. *)
Inductive MetaItem := mk_MetaItem (path : list string) (kind : MetaItemKind_ MetaItem).

Abbreviation NestedMetaItem := (NestedMetaItem_ MetaItem).
Abbreviation MetaItemKind := (MetaItemKind_ MetaItem).

Definition mi_path (m : MetaItem) : list string := match m with mk_MetaItem p _ => p end.
Definition mi_kind (m : MetaItem) : MetaItemKind := match m with mk_MetaItem _ k => k end.

(** [MetaItemKind::from_mac_args] is the parser's: a normal attribute carries its result. *)
Inductive AttrKind := Normal (path : list string) (meta : option MetaItemKind) | DocComment (s : string).
Inductive AttrStyle := Outer | Inner.
Record Attribute := mk_Attribute { attr_kind : AttrKind; attr_style : AttrStyle }.

(** ** [impl MetaItem] *)

(** [self.path == name]. *)
Definition path_is (path : list string) (name : string) : bool := bool_decide (path = [name]).

Definition path_ident (path : list string) : option string :=
  match path with [name] => Some name | _ => None end.

(** The name of [Ident::invalid()] is empty. *)
Definition ident (m : MetaItem) : option string := path_ident (mi_path m).
Definition mi_name_or_empty (m : MetaItem) : string := default EmptyString (ident m).

Definition kind_value_str (k : MetaItemKind) : option string :=
  match k with NameValue (LitKind.Str s) => Some s | _ => None end.
Definition mi_value_str (m : MetaItem) : option string := kind_value_str (mi_kind m).

Definition kind_list (k : MetaItemKind) : option (list NestedMetaItem) :=
  match k with MetaList l => Some l | _ => None end.
Definition mi_list (m : MetaItem) : option (list NestedMetaItem) := kind_list (mi_kind m).

Definition mi_is_word (m : MetaItem) : bool :=
  match mi_kind m with Word => true | _ => false end.
Definition mi_check_name (m : MetaItem) (name : string) : bool := path_is (mi_path m) name.

(** ** [impl NestedMetaItem] *)
Definition meta_item (n : NestedMetaItem) : option MetaItem :=
  match n with MetaItem_ m => Some m | Literal _ => None end.
Definition is_meta_item (n : NestedMetaItem) : bool :=
  match n with MetaItem_ _ => true | Literal _ => false end.

Definition check_name (n : NestedMetaItem) (name : string) : bool :=
  match meta_item n with Some m => mi_check_name m name | None => false end.
Definition nested_ident (n : NestedMetaItem) : option string := meta_item n ≫= ident.
Definition name_or_empty (n : NestedMetaItem) : string := default EmptyString (nested_ident n).
Definition value_str (n : NestedMetaItem) : option string := meta_item n ≫= mi_value_str.
Definition nested_list (n : NestedMetaItem) : option (list NestedMetaItem) :=
  meta_item n ≫= mi_list.
Definition is_word (n : NestedMetaItem) : bool :=
  match meta_item n with Some m => mi_is_word m | None => false end.
Definition is_value_str (n : NestedMetaItem) : bool := bool_decide (is_Some (value_str n)).

(** ** [impl Attribute] *)
Definition has_name (a : Attribute) (name : string) : bool :=
  match attr_kind a with Normal path _ => path_is path name | DocComment _ => false end.

(** [check_name]; that it marks the attribute as used is not modelled. *)
Definition attr_check_name (a : Attribute) (name : string) : bool := has_name a name.

Definition attr_list (a : Attribute) : option (list NestedMetaItem) :=
  match attr_kind a with
  | Normal _ meta => meta ≫= kind_list
  | DocComment _ => None
  end.

Definition is_doc_comment (a : Attribute) : bool :=
  match attr_kind a with Normal _ _ => false | DocComment _ => true end.

Definition doc_str (a : Attribute) : option string :=
  match attr_kind a with
  | DocComment s => Some s
  | Normal path meta => if path_is path "doc" then meta ≫= kind_value_str else None
  end.

Definition attr_meta (a : Attribute) : option MetaItem :=
  match attr_kind a with
  | Normal path meta => mk_MetaItem path <$> meta
  | DocComment _ => None
  end.

(** [attrs.lists(name)]: the nested items of the attributes [name], in order
    ([ListAttributesIter], [clean/types.rs]). *)
Definition attr_lists (attrs : list Attribute) (name : string) : list NestedMetaItem :=
  attrs ≫= fun attr =>
    match attr_list attr with
    | Some list => if attr_check_name attr name then list else []
    | None => []
    end.

(** [attr::mk_name_value_item_str] and [mk_word_item]. *)
Definition mk_name_value_item_str (name value : string) : MetaItem :=
  mk_MetaItem [name] (NameValue (LitKind.Str value)).
Definition mk_word_item (name : string) : MetaItem := mk_MetaItem [name] Word.

(** ** Induction *)

(** The meta items in the list of a meta item. *)
Definition mi_children (m : MetaItem) : list MetaItem := omap meta_item (default [] (mi_list m)).

Lemma meta_item_ind (P : MetaItem -> Prop) :
  (forall m, (forall c, c ∈ mi_children m -> P c) -> P m) -> forall m, P m.
Proof.
  intros Hstep. fix IH 1. intros [path kind]. apply Hstep, Forall_forall.
  unfold mi_children, mi_list. cbn. destruct kind as [|l|lit]; cbn; [constructor| |constructor].
  induction l as [|[m|lit] l IHl]; cbn; [constructor| |exact IHl].
  constructor; [apply IH|exact IHl].
Qed.
