(* ===== verification/Cfg.v ===== *)
(** Configuration predicates ([clean/cfg.rs]): [#[doc(cfg(...))]] attributes, their parsing,
    their conjunction and disjunction, and their rendering ([html/escape.rs]); and the
    evaluation of [cfg] predicates by the compiler ([librustc_attr/builtin.rs]). *)

From S2P Require Import Prelude RustStd MetaItems.

(** ** [html::escape::Escape] *)

Definition squote : Ascii.ascii := Ascii.ascii_of_nat 39.

(** The texts of the characters that are escaped. *)
Definition escaped_char (ch : Ascii.ascii) : option string :=
  let n := Ascii.nat_of_ascii ch in
  if n =? 62 then Some "&gt;"
  else if n =? 60 then Some "&lt;"
  else if n =? 38 then Some "&amp;"
  else if n =? 39 then Some "&#39;"
  else if n =? 34 then Some "&quot;"
  else None.

(** The loop over the bytes: what was written, and where the next piece starts. *)
Definition escape_step (s : string) (e : nat * Ascii.ascii) (st : string * nat)
    : outcome (string * nat) :=
  let '(i, ch) := e in
  let '(out, last) := st in
  match escaped_char ch with
  | Some text =>
      piece ← str_slice s last i;
      mret (out +:+ piece +:+ text, i + 1)
  | None => mret st
  end.

Definition Escape (s : string) : outcome string :=
  st ← fold_loop (escape_step s) (imap pair (String.list_ascii_of_string s)) (EmptyString, 0);
  let '(out, last) := (st : string * nat) in
  if last <? String.length s then
    piece ← str_slice_from s last;
    mret (out +:+ piece)
  else mret out.

Module Cfg.
(** ** The data *)

Inductive Cfg :=
| True_
| False_
| Cfg_ (name : string) (value : option string)
| Not (child : Cfg)
| Any (sub_cfgs : list Cfg)
| All (sub_cfgs : list Cfg).

(** [#[derive(PartialEq)]]. *)
#[export] Instance eq_dec : EqDecision Cfg.
Proof.
  unfold EqDecision, RelDecision. fix IH 1. intros [| |n v|c|l|l] [| |n' v'|c'|l'|l'];
    try (right; discriminate); try (left; reflexivity).
  - refine (cast_if_and (decide (n = n')) (decide (v = v'))); congruence.
  - refine (cast_if (IH c c')); congruence.
  - refine (cast_if (@list_eq_dec _ IH l l')); congruence.
  - refine (cast_if (@list_eq_dec _ IH l l')); congruence.
Defined.

(** ** The operators *)

(** [!cfg]. *)
Definition not (self : Cfg) : Cfg :=
  match self with
  | False_ => True_
  | True_ => False_
  | Not cfg => cfg
  | s => Not s
  end.

(** The elements of [b] that are not in [a], pushed one by one. *)
Definition push_new (a : list Cfg) (c : Cfg) : list Cfg :=
  if bool_decide (c ∈ a) then a else a ++ [c].

(** [self &= other]. *)
Definition bitand_assign (self other : Cfg) : Cfg :=
  match self, other with
  | False_, _ | _, True_ => self
  | _, False_ => False_
  | True_, b => b
  | All a, All b => All (foldl push_new a b)
  | All a, b => All (push_new a b)
  | b, All a => All (push_new a b)
  | s, b => if bool_decide (s <> b) then All [s; b] else s
  end.
Definition bitand (self other : Cfg) : Cfg := bitand_assign self other.

(** [self |= other]. *)
Definition bitor_assign (self other : Cfg) : Cfg :=
  match self, other with
  | True_, _ | _, False_ => self
  | _, True_ => True_
  | False_, b => b
  | Any a, Any b => Any (foldl push_new a b)
  | Any a, b => Any (push_new a b)
  | b, Any a => Any (push_new a b)
  | s, b => if bool_decide (s <> b) then Any [s; b] else s
  end.
Definition bitor (self other : Cfg) : Cfg := bitor_assign self other.

(** ** Parsing

    An error is its message; the spans are left out. *)

(** [|x, y| Ok(op(x?, y?))]. *)
Definition both (op : Cfg -> Cfg -> Cfg) (x y : result string Cfg) : result string Cfg :=
  x ← x; y ← y; mret (op x y).

Fixpoint parse (cfg : MetaItem) : result string Cfg :=
  let parse_nested nested_cfg :=
    match nested_cfg with
    | MetaItem_ cfg => parse cfg
    | Literal _ => Err "unexpected literal"
    end in
  match cfg with
  | mk_MetaItem path kind =>
      match path_ident path with
      | None => Err "expected a single identifier"
      | Some name =>
          match kind with
          | Word => Ok (Cfg_ name None)
          | NameValue (LitKind.Str value) => Ok (Cfg_ name (Some value))
          | NameValue _ => Err "value of cfg option should be a string literal"
          | MetaList items =>
              let sub_cfgs := List.map parse_nested items in
              if bool_decide (name = "all") then
                foldl (both bitand) (Ok True_) sub_cfgs
              else if bool_decide (name = "any") then
                foldl (both bitor) (Ok False_) sub_cfgs
              else if bool_decide (name = "not") then
                match sub_cfgs with
                | [sub_cfg] => x ← sub_cfg; mret (not x)
                | _ => Err "expected 1 cfg-pattern"
                end
              else Err "invalid predicate"
          end
      end
  end.

Definition parse_nested (nested_cfg : NestedMetaItem) : result string Cfg :=
  match nested_cfg with
  | MetaItem_ cfg => parse cfg
  | Literal _ => Err "unexpected literal"
  end.

(** ** Evaluation

    [config] is the set of the options of the session. *)
Section matches.
Context (config : gset (string * option string)).

Fixpoint matches (self : Cfg) : bool :=
  match self with
  | False_ => false
  | True_ => true
  | Not child => negb (matches child)
  | All sub_cfgs => forallb matches sub_cfgs
  | Any sub_cfgs => existsb matches sub_cfgs
  | Cfg_ name value => bool_decide ((name, value) ∈ config)
  end.
End matches.

Definition is_simple (self : Cfg) : bool :=
  match self with
  | False_ | True_ | Cfg_ _ _ | Not _ => true
  | All _ | Any _ => false
  end.
Definition is_all (self : Cfg) : bool :=
  match self with
  | False_ | True_ | Cfg_ _ _ | Not _ | All _ => true
  | Any _ => false
  end.

(** ** Rendering *)

Definition lookup_name (table : list (string * string)) (name : string) : string :=
  match List.find (fun e => bool_decide (e.1 = name)) table with
  | Some e => e.2
  | None => EmptyString
  end.

Definition words : list (string * string) :=
  [("unix", "Unix"); ("windows", "Windows"); ("debug_assertions", "debug-assertions enabled")].
Definition target_os : list (string * string) :=
  [("android", "Android"); ("dragonfly", "DragonFly BSD"); ("emscripten", "Emscripten");
   ("freebsd", "FreeBSD"); ("fuchsia", "Fuchsia"); ("haiku", "Haiku"); ("hermit", "HermitCore");
   ("illumos", "illumos"); ("ios", "iOS"); ("l4re", "L4Re"); ("linux", "Linux");
   ("macos", "macOS"); ("netbsd", "NetBSD"); ("openbsd", "OpenBSD"); ("redox", "Redox");
   ("solaris", "Solaris"); ("windows", "Windows")].
Definition target_arch : list (string * string) :=
  [("aarch64", "AArch64"); ("arm", "ARM"); ("asmjs", "JavaScript"); ("mips", "MIPS");
   ("mips64", "MIPS-64"); ("msp430", "MSP430"); ("powerpc", "PowerPC");
   ("powerpc64", "PowerPC-64"); ("s390x", "s390x"); ("sparc64", "SPARC64");
   ("wasm32", "WebAssembly"); ("x86", "x86"); ("x86_64", "x86-64")].
Definition target_vendor : list (string * string) :=
  [("apple", "Apple"); ("pc", "PC"); ("rumprun", "Rumprun"); ("sun", "Sun");
   ("fortanix", "Fortanix")].
Definition target_env : list (string * string) :=
  [("gnu", "GNU"); ("msvc", "MSVC"); ("musl", "musl"); ("newlib", "Newlib");
   ("uclibc", "uClibc"); ("sgx", "SGX")].

Definition human_readable (n : string) (value : option string) : string :=
  match value with
  | None => lookup_name words n
  | Some v =>
      if bool_decide (n = "target_os") then lookup_name target_os v
      else if bool_decide (n = "target_arch") then lookup_name target_arch v
      else if bool_decide (n = "target_vendor") then lookup_name target_vendor v
      else if bool_decide (n = "target_env") then lookup_name target_env v
      else EmptyString
  end.

(** The options that are written as they are. *)
Definition written_as_is (short : bool) (n v : string) : option string :=
  if bool_decide (n = "target_endian") then Some (v +:+ "-endian")
  else if bool_decide (n = "target_pointer_width") then Some (v +:+ "-bit")
  else if bool_decide (n = "target_feature") then
    Some (if short then "<code>" +:+ v +:+ "</code>"
          else "target feature <code>" +:+ v +:+ "</code>")
  else None.

(** The arm [Cfg::Cfg(name, value)]. *)
Definition html_option (short : bool) (n : string) (value : option string) : outcome string :=
  match value ≫= written_as_is short n with
  | Some text => mret text
  | None =>
      if negb (bool_decide (human_readable n value = EmptyString)) then
        mret (human_readable n value)
      else
        name ← Escape n;
        match value with
        | Some v =>
            val ← Escape v;
            mret ("<code>" +:+ name +:+ "=" +:+ dquote +:+ val +:+ dquote +:+ "</code>")
        | None => mret ("<code>" +:+ name +:+ "</code>")
        end
  end.

Definition write_with_opt_paren (has_paren : bool) (obj : string) : string :=
  (if has_paren then "(" else EmptyString) +:+ obj +:+ (if has_paren then ")" else EmptyString).

(** The loop over [sub_cfgs.iter().enumerate()]: the texts of the elements, behind [first]
    or a separator. *)
Definition write_list (first separator : string) (texts : list string) : string :=
  foldr String.append EmptyString
    (imap (fun i text => (if i =? 0 then first else separator) +:+ text) texts).

(** [impl Display for Html]. *)
Fixpoint Html (short : bool) (self : Cfg) : outcome string :=
  match self with
  | Not child =>
      match child with
      | Any sub_cfgs =>
          texts ← map_loop (fun sub_cfg =>
            obj ← Html short sub_cfg;
            mret (write_with_opt_paren (negb (is_all sub_cfg)) obj)) sub_cfgs;
          mret (write_list "neither "
                  (if forallb is_simple sub_cfgs then " nor " else ", nor ") texts)
      | Cfg_ n value => text ← html_option short n value; mret ("non-" +:+ text)
      | _ => text ← Html short child; mret ("not (" +:+ text +:+ ")")
      end
  | Any sub_cfgs =>
      texts ← map_loop (fun sub_cfg =>
        obj ← Html short sub_cfg;
        mret (write_with_opt_paren (negb (is_all sub_cfg)) obj)) sub_cfgs;
      mret (write_list EmptyString (if forallb is_simple sub_cfgs then " or " else ", or ") texts)
  | All sub_cfgs =>
      texts ← map_loop (fun sub_cfg =>
        obj ← Html short sub_cfg;
        mret (write_with_opt_paren (negb (is_simple sub_cfg)) obj)) sub_cfgs;
      mret (write_list EmptyString " and " texts)
  | True_ => mret "everywhere"
  | False_ => mret "nowhere"
  | Cfg_ n value => html_option short n value
  end.

Fixpoint should_capitalize_first_letter (self : Cfg) : bool :=
  match self with
  | False_ | True_ | Not _ => true
  | Any (c :: _) | All (c :: _) => should_capitalize_first_letter c
  | Any [] | All [] => false
  | Cfg_ name _ => bool_decide (name = "debug_assertions") || bool_decide (name = "target_endian")
  end.

Definition should_append_only_to_description (self : Cfg) : bool :=
  match self with
  | False_ | True_ => false
  | Any _ | All _ | Cfg_ _ _ => true
  | Not (Cfg_ _ _) => true
  | Not _ => false
  end.

Definition should_use_with_in_description (self : Cfg) : bool :=
  match self with Cfg_ name _ => bool_decide (name = "target_feature") | _ => false end.

Definition is_ascii_lowercase (c : Ascii.ascii) : bool :=
  let n := Ascii.nat_of_ascii c in (97 <=? n) && (n <=? 122).
Definition is_ascii_alphanumeric (c : Ascii.ascii) : bool :=
  let n := Ascii.nat_of_ascii c in
  is_ascii_lowercase c || ((65 <=? n) && (n <=? 90)) || ((48 <=? n) && (n <=? 57)).
Definition to_ascii_uppercase (c : Ascii.ascii) : Ascii.ascii :=
  if is_ascii_lowercase c then Ascii.ascii_of_nat (Ascii.nat_of_ascii c - 32) else c.

(** [if let Some(i) = msg.find(alphanumeric) { msg[i..i + 1].make_ascii_uppercase() }]. *)
Fixpoint capitalize (msg : string) : string :=
  match msg with
  | EmptyString => EmptyString
  | String c rest =>
      if is_ascii_alphanumeric c then String (to_ascii_uppercase c) rest
      else String c (capitalize rest)
  end.

Definition render_short_html (self : Cfg) : outcome string :=
  msg ← Html true self;
  mret (if should_capitalize_first_letter self then capitalize msg else msg).

Definition render_long_html (self : Cfg) : outcome string :=
  let on := if should_use_with_in_description self then "with" else "on" in
  text ← Html false self;
  mret ("This is supported " +:+ on +:+ " <strong>" +:+ text +:+ "</strong>"
        +:+ (if should_append_only_to_description self then " only" else EmptyString) +:+ ".").
End Cfg.
Export (hints) Cfg.
Abbreviation Cfg := Cfg.Cfg.

(** ** [librustc_attr]: [cfg_matches] and [eval_condition]

    The errors that are reported are collected as their messages. The evaluation of
    [version(...)], which compares with the version of the compiler, and the feature gates
    are arguments. *)
Section eval.
Context (config : gset (string * option string)).
Context (version : list NestedMetaItem -> bool * list string).
Context (try_gate_cfg : MetaItem -> list string).

(** A computation that reports errors. *)
Definition reported (A : Type) : Type := A * list string.
Definition report {A} (msg : string) (a : A) : reported A := (a, [msg]).

(** [iter().any(f)] and [iter().all(f)]: the evaluation stops at the first answer. *)
Fixpoint report_any {A} (f : A -> reported bool) (l : list A) : reported bool :=
  match l with
  | [] => (false, [])
  | x :: l =>
      let '(b, msgs) := f x in
      if b then (true, msgs) else let '(b, msgs') := report_any f l in (b, msgs ++ msgs')
  end.
Fixpoint report_all {A} (f : A -> reported bool) (l : list A) : reported bool :=
  match l with
  | [] => (true, [])
  | x :: l =>
      let '(b, msgs) := f x in
      if b then let '(b, msgs') := report_all f l in (b, msgs ++ msgs') else (false, msgs)
  end.

(** The closure of [cfg_matches]. *)
Definition eval_cfg (cfg : MetaItem) : reported bool :=
  let gate := try_gate_cfg cfg in
  let '(b, msgs) :=
    if negb (length (mi_path cfg) =? 1) then
      report "`cfg` predicate key must be an identifier" true
    else
      match mi_kind cfg with
      | MetaList _ => report "unexpected parentheses after `cfg` predicate key" true
      | NameValue lit =>
          if negb (LitKind.is_str lit) then
            report "literal in `cfg` predicate value must be a string" true
          else (bool_decide ((mi_name_or_empty cfg, mi_value_str cfg) ∈ config), [])
      | Word => (bool_decide ((mi_name_or_empty cfg, mi_value_str cfg) ∈ config), [])
      end in
  (b, gate ++ msgs).

Fixpoint eval_condition (cfg : MetaItem) : reported bool :=
  match cfg with
  | mk_MetaItem path (MetaList mis) =>
      let name := default EmptyString (path_ident path) in
      if bool_decide (name = "version") then
        let '(b, msgs) := version mis in (b, try_gate_cfg cfg ++ msgs)
      else if negb (forallb is_meta_item mis) then report "unsupported literal" false
      else
        let eval mi := match mi with MetaItem_ mi => eval_condition mi | Literal _ => (false, []) end in
        if bool_decide (name = "any") then report_any eval mis
        else if bool_decide (name = "all") then report_all eval mis
        else if bool_decide (name = "not") then
          match mis with
          | [mi] => let '(b, msgs) := eval mi in (negb b, msgs)
          | _ => report "expected 1 cfg-pattern" false
          end
        else report "invalid predicate" false
  | _ => eval_cfg cfg
  end.

Definition cfg_matches (cfg : MetaItem) : reported bool := eval_condition cfg.
End eval.
