(* ===== verification/CfgCorrect.v ===== *)
(** What configuration predicates mean: the operators are the connectives, parsing gives a
    normal form with the meaning that the compiler gives to the attribute, and the
    rendering is escaped but for three options. *)

From S2P Require Import Prelude RustStd MetaItems Cfg TextLines.
Import Cfg.

(** ** The operators *)
Section matches.
Context (config : gset (string * option string)).
Abbreviation matches := (matches config).

Lemma not_matches c : matches (not c) = negb (matches c).
Proof. destruct c; cbn; try done. by rewrite negb_involutive. Qed.

Lemma elem_matches_any c l : c ∈ l -> existsb matches l = existsb matches l || matches c.
Proof.
  intros Hc. destruct (matches c) eqn:Hm; [|by rewrite orb_false_r]. rewrite orb_true_r.
  apply existsb_exists. exists c. by rewrite <- list_elem_of_In.
Qed.

Lemma elem_matches_all c l : c ∈ l -> forallb matches l = forallb matches l && matches c.
Proof.
  intros Hc. destruct (forallb matches l) eqn:Hl; [|done]. cbn. symmetry.
  rewrite forallb_forall in Hl. apply Hl. by rewrite <- list_elem_of_In.
Qed.

Lemma push_new_any a c : existsb matches (push_new a c) = existsb matches a || matches c.
Proof.
  unfold push_new. case_bool_decide; [by apply elem_matches_any|].
  rewrite existsb_app. cbn. by rewrite orb_false_r.
Qed.

Lemma push_new_all a c : forallb matches (push_new a c) = forallb matches a && matches c.
Proof.
  unfold push_new. case_bool_decide; [by apply elem_matches_all|].
  rewrite forallb_app. cbn. by rewrite andb_true_r.
Qed.

Lemma push_all_any b : forall a,
  existsb matches (foldl push_new a b) = existsb matches a || existsb matches b.
Proof.
  induction b as [|c b IH]; intros a; cbn; [by rewrite orb_false_r|].
  by rewrite IH, push_new_any, orb_assoc.
Qed.

Lemma push_all_all b : forall a,
  forallb matches (foldl push_new a b) = forallb matches a && forallb matches b.
Proof.
  induction b as [|c b IH]; intros a; cbn; [by rewrite andb_true_r|].
  by rewrite IH, push_new_all, andb_assoc.
Qed.

Lemma bitand_matches a b : matches (bitand a b) = matches a && matches b.
Proof.
  destruct a, b; cbn; rewrite ?andb_true_r, ?andb_false_r; try done;
    rewrite ?push_all_all, ?push_new_all; cbn; rewrite ?andb_true_r; try done;
    rewrite ?(andb_comm (matches _)); try done.
  all: try by rewrite andb_comm.
  all: case_bool_decide as Hne; cbn; rewrite ?andb_true_r; try done.
  all: simplify_eq; by rewrite andb_diag.
Qed.

Lemma bitor_matches a b : matches (bitor a b) = matches a || matches b.
Proof.
  destruct a, b; cbn; rewrite ?orb_true_r, ?orb_false_r; try done;
    rewrite ?push_all_any, ?push_new_any; cbn; rewrite ?orb_false_r; try done;
    rewrite ?(orb_comm (matches _)); try done.
  all: try by rewrite orb_comm.
  all: case_bool_decide as Hne; cbn; rewrite ?orb_false_r; try done.
  all: simplify_eq; by rewrite orb_diag.
Qed.
End matches.

(** ** The normal form *)

(** Neither the units nor the connective itself stand below a connective. *)
Definition below_all (c : Cfg) : bool :=
  match c with True_ | False_ | All _ => false | _ => true end.
Definition below_any (c : Cfg) : bool :=
  match c with True_ | False_ | Any _ => false | _ => true end.
Definition below_not (c : Cfg) : bool :=
  match c with True_ | False_ | Not _ => false | _ => true end.

Fixpoint normal (c : Cfg) : bool :=
  match c with
  | True_ | False_ | Cfg_ _ _ => true
  | Not c => below_not c && normal c
  | Any l => (2 <=? length l) && bool_decide (NoDup l)
             && forallb below_any l && forallb normal l
  | All l => (2 <=? length l) && bool_decide (NoDup l)
             && forallb below_all l && forallb normal l
  end.

(** A list of distinct elements that satisfy [P]. *)
Definition distinct (P : Cfg -> bool) (l : list Cfg) : Prop := NoDup l /\ forallb P l = true.

Lemma push_new_distinct P l c :
  distinct P l -> P c = true -> distinct P (push_new l c) /\ length l <= length (push_new l c).
Proof.
  intros [Hn Hl] Hc. unfold push_new. case_bool_decide as Hin; [by split|]. split.
  - split.
    + apply NoDup_app. split_and!; [done| |by apply NoDup_singleton].
      intros x Hx ->%list_elem_of_singleton. done.
    + rewrite forallb_app, Hl. cbn. by rewrite Hc.
  - rewrite length_app. lia.
Qed.

Lemma push_all_distinct P b : forall l,
  distinct P l -> forallb P b = true ->
  distinct P (foldl push_new l b) /\ length l <= length (foldl push_new l b).
Proof.
  induction b as [|c b IH]; intros l Hl Hb; cbn; [by split|].
  cbn in Hb. apply andb_true_iff in Hb as [Hc Hb].
  destruct (push_new_distinct P l c Hl Hc) as [Hl' Hlen].
  destruct (IH _ Hl' Hb). split; [done|lia].
Qed.

Lemma pair_distinct P a b :
  a <> b -> P a = true -> P b = true -> distinct P [a; b].
Proof.
  intros Hne Ha Hb. split; [|cbn; by rewrite Ha, Hb].
  apply NoDup_cons. split; [by rewrite list_elem_of_singleton|by apply NoDup_singleton].
Qed.

Definition in_all (c : Cfg) : bool := below_all c && normal c.
Definition in_any (c : Cfg) : bool := below_any c && normal c.

Lemma forallb_andb {A} (f g : A -> bool) l :
  forallb (fun x => f x && g x) l = forallb f l && forallb g l.
Proof.
  induction l as [|x l IH]; cbn; [done|]. rewrite IH.
  destruct (f x), (g x), (forallb f l); done.
Qed.

Lemma normal_all l : normal (All l) = true <-> 2 <= length l /\ distinct in_all l.
Proof.
  change (normal (All l)) with ((2 <=? length l) && bool_decide (NoDup l)
    && forallb below_all l && forallb normal l). unfold distinct, in_all. rewrite forallb_andb, !andb_true_iff, bool_decide_eq_true, Nat.leb_le.
  tauto.
Qed.

Lemma normal_any l : normal (Any l) = true <-> 2 <= length l /\ distinct in_any l.
Proof.
  change (normal (Any l)) with ((2 <=? length l) && bool_decide (NoDup l)
    && forallb below_any l && forallb normal l). unfold distinct, in_any. rewrite forallb_andb, !andb_true_iff, bool_decide_eq_true, Nat.leb_le.
  tauto.
Qed.

Lemma all_pushed P (mk : list Cfg -> Cfg) l c :
  (forall l, normal (mk l) = true <-> 2 <= length l /\ distinct P l) ->
  normal (mk l) = true -> P c = true -> normal (mk (push_new l c)) = true.
Proof.
  intros Hmk [Hlen Hl]%Hmk Hc. apply Hmk.
  destruct (push_new_distinct P l c Hl Hc). split; [lia|done].
Qed.

Lemma all_merged P (mk : list Cfg -> Cfg) l b :
  (forall l, normal (mk l) = true <-> 2 <= length l /\ distinct P l) ->
  normal (mk l) = true -> normal (mk b) = true -> normal (mk (foldl push_new l b)) = true.
Proof.
  intros Hmk [Hlen Hl]%Hmk [_ [_ Hb]]%Hmk. apply Hmk.
  destruct (push_all_distinct P b l Hl Hb). split; [lia|done].
Qed.

Lemma all_pair P (mk : list Cfg -> Cfg) a b :
  (forall l, normal (mk l) = true <-> 2 <= length l /\ distinct P l) ->
  a <> b -> P a = true -> P b = true -> normal (mk [a; b]) = true.
Proof. intros Hmk Hne Ha Hb. apply Hmk. split; [cbn; lia|by apply pair_distinct]. Qed.

Lemma not_normal c : normal c = true -> normal (not c) = true.
Proof. destruct c; try done. cbn. by intros [_ ?]%andb_true_iff. Qed.

Lemma bitand_normal a b : normal a = true -> normal b = true -> normal (bitand a b) = true.
Proof.
  intros Ha Hb. unfold bitand.
  destruct a, b; unfold bitand_assign; try done;
    first [ by apply (all_merged in_all All _ _ normal_all)
          | by apply (all_pushed in_all All _ _ normal_all)
          | case_bool_decide; [by apply (all_pair in_all All _ _ normal_all)|done] ].
Qed.

Lemma bitor_normal a b : normal a = true -> normal b = true -> normal (bitor a b) = true.
Proof.
  intros Ha Hb. unfold bitor.
  destruct a, b; unfold bitor_assign; try done;
    first [ by apply (all_merged in_any Any _ _ normal_any)
          | by apply (all_pushed in_any Any _ _ normal_any)
          | case_bool_decide; [by apply (all_pair in_any Any _ _ normal_any)|done] ].
Qed.

(** ** Parsing *)

Lemma fold_error op l e : foldl (both op) (Err e) l = Err e.
Proof. by induction l. Qed.

(** The fold over the parsed elements. *)
Lemma fold_results (op : Cfg -> Cfg -> Cfg) (l : list (result string Cfg)) : forall acc c,
  foldl (both op) (Ok acc) l = Ok c <->
  exists cs, l = Ok <$> cs /\ c = foldl op acc cs.
Proof.
  induction l as [|r l IH]; intros acc c; cbn [foldl].
  - split; [intros [= <-]; by exists []|]. intros (cs & Heq & ->). by destruct cs.
  - destruct r as [x|e].
    + change (both op (Ok acc) (Ok x)) with (Ok (E := string) (op acc x)). rewrite IH.
      split; intros (cs & Heq & ->).
      * exists (x :: cs). by rewrite Heq.
      * destruct cs as [|x' cs]; [done|]. cbn in Heq. injection Heq as -> ->. by exists cs.
    + change (both op (Ok acc) (Err e)) with (Err (E := string) (A := Cfg) e).
      rewrite fold_error. split; [done|]. intros (cs & Heq & _). by destruct cs.
Qed.

(** The texts that [Cfg::parse] accepts. *)
Fixpoint valid (cfg : MetaItem) : bool :=
  match cfg with
  | mk_MetaItem path kind =>
      match path_ident path with
      | None => false
      | Some name =>
          match kind with
          | Word => true
          | NameValue lit => LitKind.is_str lit
          | MetaList items =>
              (bool_decide (name = "all") || bool_decide (name = "any")
               || (bool_decide (name = "not") && (length items =? 1)))
              && forallb (fun n => match n with MetaItem_ m => valid m | Literal _ => false end) items
          end
      end
  end.

Definition valid_nested (n : NestedMetaItem) : bool :=
  match n with MetaItem_ m => valid m | Literal _ => false end.

Lemma parse_list name items :
  parse (mk_MetaItem [name] (MetaList items)) =
  if bool_decide (name = "all") then
    foldl (both bitand) (Ok True_) (List.map parse_nested items)
  else if bool_decide (name = "any") then
    foldl (both bitor) (Ok False_) (List.map parse_nested items)
  else if bool_decide (name = "not") then
    match List.map parse_nested items with
    | [sub_cfg] => x ← sub_cfg; mret (not x)
    | _ => Err "expected 1 cfg-pattern"
    end
  else Err "invalid predicate".
Proof. done. Qed.

(** The elements of a list that is parsed. *)
Definition parsed_list (items : list NestedMetaItem) (cs : list Cfg) : Prop :=
  Forall2 (fun n c => exists m, n = MetaItem_ m /\ parse m = Ok c) items cs.

Lemma parsed_list_map items cs :
  List.map parse_nested items = Ok <$> cs <-> parsed_list items cs.
Proof.
  revert cs. induction items as [|n items IH]; intros [|c cs]; cbn; try done.
  - split; [constructor|done].
  - split; [done|by inversion 1].
  - split; [done|by inversion 1].
  - unfold parsed_list. rewrite Forall2_cons, <- (IH cs). split.
    + intros [= Hn Hl]. destruct n as [m|lit]; cbn in Hn; [|done]. split; [by exists m|done].
    + intros [(m & -> & Hm) ->]. cbn. by rewrite Hm.
Qed.

(** What a list parses to, by its name. *)
Lemma parse_list_inv name items c :
  parse (mk_MetaItem [name] (MetaList items)) = Ok c <->
  exists cs, parsed_list items cs /\
    ((name = "all" /\ c = foldl bitand True_ cs) \/
     (name = "any" /\ c = foldl bitor False_ cs) \/
     (name = "not" /\ exists c0, cs = [c0] /\ c = not c0)).
Proof.
  rewrite parse_list. repeat case_bool_decide; subst.
  - rewrite fold_results. setoid_rewrite parsed_list_map. split.
    + intros (cs & Hcs & ->). exists cs. split; [done|by left].
    + intros (cs & Hcs & [[_ ->]|[[? _]|[? _]]]); [by exists cs|done..].
  - rewrite fold_results. setoid_rewrite parsed_list_map. split.
    + intros (cs & Hcs & ->). exists cs. split; [done|by right; left].
    + intros (cs & Hcs & [[? _]|[[_ ->]|[? _]]]); [done|by exists cs|done].
  - setoid_rewrite <- parsed_list_map. split.
    + destruct (List.map parse_nested items) as [|[x|e] [|? ?]]; try done. intros [= <-].
      exists [x]. split; [done|]. right; right. split; [done|by exists x].
    + intros (cs & Hcs & [[? _]|[[? _]|(_ & c0 & -> & ->)]]); [done..|]. by rewrite Hcs.
  - split; [done|]. intros (cs & _ & [[? _]|[[? _]|[? _]]]); done.
Qed.

Lemma fold_bitand_matches config cs : forall c,
  matches config (foldl bitand c cs) = matches config c && forallb (matches config) cs.
Proof.
  induction cs as [|c' cs IH]; intros c; cbn; [by rewrite andb_true_r|].
  by rewrite IH, bitand_matches, andb_assoc.
Qed.

Lemma fold_bitor_matches config cs : forall c,
  matches config (foldl bitor c cs) = matches config c || existsb (matches config) cs.
Proof.
  induction cs as [|c' cs IH]; intros c; cbn; [by rewrite orb_false_r|].
  by rewrite IH, bitor_matches, orb_assoc.
Qed.

Lemma fold_normal op cs : forall c,
  (forall a b, normal a = true -> normal b = true -> normal (op a b) = true) ->
  normal c = true -> Forall (fun c => normal c = true) cs -> normal (foldl op c cs) = true.
Proof.
  induction cs as [|c' cs IH]; intros c Hop Hc Hcs; cbn; [done|]. inversion Hcs; subst.
  apply IH; [done| |done]. by apply Hop.
Qed.

Lemma parsed_list_child items cs (R : MetaItem -> Cfg -> Prop) :
  parsed_list items cs ->
  (forall m c, m ∈ omap meta_item items -> parse m = Ok c -> R m c) ->
  Forall2 (fun n c => exists m, n = MetaItem_ m /\ R m c) items cs.
Proof.
  induction 1 as [|n c items cs (m & -> & Hm) _ IH]; intros HR; [constructor|].
  constructor.
  - exists m. split; [done|]. apply HR; [apply list_elem_of_here|done].
  - apply IH. intros m' c' Hm'. apply HR. by apply list_elem_of_further.
Qed.

(** *** The normal form *)
Lemma parse_normal cfg : forall c, parse cfg = Ok c -> normal c = true.
Proof.
  induction cfg as [[path kind] IH] using meta_item_ind. intros c Hp.
  destruct path as [|name [|? ?]]; try done.
  destruct kind as [|items|lit]; [by injection Hp as <-| |destruct lit; by simplify_eq/=].
  apply parse_list_inv in Hp as (cs & Hcs & Hc).
  assert (Hall : Forall (fun c => normal c = true) cs).
  { eapply (parsed_list_child _ _ (fun _ c => normal c = true)) in Hcs; [|by intros m c' ?; apply IH].
    clear -Hcs. induction Hcs as [|? ? ? ? (? & _ & ?)]; by constructor. }
  destruct Hc as [[_ ->]|[[_ ->]|(_ & c0 & -> & ->)]].
  - apply fold_normal; [apply bitand_normal|done|done].
  - apply fold_normal; [apply bitor_normal|done|done].
  - apply not_normal. by inversion Hall.
Qed.

(** *** The accepted texts *)
Lemma parse_valid cfg : valid cfg = true <-> exists c, parse cfg = Ok c.
Proof.
  induction cfg as [[path kind] IH] using meta_item_ind.
  destruct path as [|name [|? ?]]; try (split; [done|by intros [? ?]]).
  destruct kind as [|items|lit].
  - split; [by eexists|done].
  - setoid_rewrite parse_list_inv.
    assert (Hitems : forallb valid_nested items = true <-> exists cs, parsed_list items cs).
    { clear -IH. unfold mi_children, mi_list in IH. cbn in IH.
      induction items as [|[m|lit] items IHl]; cbn.
      - split; [exists []; constructor|done].
      - rewrite andb_true_iff, IH by apply list_elem_of_here.
        rewrite IHl by (intros m' Hm'; apply IH; by apply list_elem_of_further).
        split.
        + intros [(c & Hc) (cs & Hcs)]. exists (c :: cs). constructor; [by exists m|done].
        + intros (cs & Hcs). inversion Hcs as [|? c ? cs' (m' & Heq & Hm')]; subst.
          injection Heq as <-. eauto.
      - split; [done|]. intros (cs & Hcs). by inversion Hcs as [|? ? ? ? (? & ? & _)]. }
    cbn [valid path_ident]. rewrite andb_true_iff. fold valid_nested. rewrite Hitems.
    rewrite !orb_true_iff, andb_true_iff, !bool_decide_eq_true, Nat.eqb_eq. split.
    + intros [Hname (cs & Hcs)]. pose proof (Forall2_length _ _ _ Hcs) as Hlen.
      destruct Hname as [[->| ->]|[-> H1]].
      * eexists _, cs. split; [done|]. left. by split.
      * eexists _, cs. split; [done|]. right; left. by split.
      * rewrite H1 in Hlen. destruct cs as [|c0 [|? ?]]; try done.
        eexists _, [c0]. split; [done|]. right; right. split; [done|by exists c0].
    + intros (c & cs & Hcs & Hc). pose proof (Forall2_length _ _ _ Hcs) as Hlen.
      split; [|by exists cs]. destruct Hc as [[-> _]|[[-> _]|(-> & c0 & -> & _)]]; [by auto..|].
      right. by split.
  - destruct lit; cbn; (split; [|intros [? ?]]); try done. by eexists.
Qed.

(** *** The meaning *)
Section meaning.
Context (config : gset (string * option string)).
Context (version : list NestedMetaItem -> bool * list string).

(** Without feature gates, no error is reported. *)
Abbreviation evaluates := (eval_condition config version (fun _ => [])).

Definition eval_nested (n : NestedMetaItem) : reported bool :=
  match n with MetaItem_ m => evaluates m | Literal _ => (false, []) end.

Lemma report_any_silent (items : list NestedMetaItem) cs :
  Forall2 (fun n c => eval_nested n = (matches config c, [])) items cs ->
  report_any eval_nested items = (existsb (matches config) cs, []).
Proof.
  induction 1 as [|n c items cs Hn _ IH]; cbn; [done|]. rewrite Hn.
  destruct (matches config c); [done|]. by rewrite IH.
Qed.

Lemma report_all_silent (items : list NestedMetaItem) cs :
  Forall2 (fun n c => eval_nested n = (matches config c, [])) items cs ->
  report_all eval_nested items = (forallb (matches config) cs, []).
Proof.
  induction 1 as [|n c items cs Hn _ IH]; cbn; [done|]. rewrite Hn.
  destruct (matches config c); [|done]. by rewrite IH.
Qed.

Lemma parsed_meta items cs : parsed_list items cs -> forallb is_meta_item items = true.
Proof. by induction 1 as [|? ? ? ? (? & -> & _)]. Qed.

Lemma eval_list name items :
  evaluates (mk_MetaItem [name] (MetaList items)) =
  if bool_decide (name = "version") then
    let '(b, msgs) := version items in (b, [] ++ msgs)
  else if negb (forallb is_meta_item items) then report "unsupported literal" false
  else if bool_decide (name = "any") then report_any eval_nested items
  else if bool_decide (name = "all") then report_all eval_nested items
  else if bool_decide (name = "not") then
    match items with
    | [mi] => let '(b, msgs) := eval_nested mi in (negb b, msgs)
    | _ => report "expected 1 cfg-pattern" false
    end
  else report "invalid predicate" false.
Proof. done. Qed.

Lemma parse_meaning cfg : forall c, parse cfg = Ok c -> evaluates cfg = (matches config c, []).
Proof.
  induction cfg as [[path kind] IH] using meta_item_ind. intros c Hp.
  destruct path as [|name [|? ?]]; try done.
  destruct kind as [|items|lit]; [by injection Hp as <-| |destruct lit; by simplify_eq/=].
  apply parse_list_inv in Hp as (cs & Hcs & Hc).
  rewrite eval_list, (parsed_meta _ _ Hcs). cbn [negb].
  assert (Hall : Forall2 (fun n c => eval_nested n = (matches config c, [])) items cs).
  { eapply (parsed_list_child _ _ (fun m c => evaluates m = (matches config c, []))) in Hcs;
      [|by intros m c' ?; apply IH].
    clear -Hcs. induction Hcs as [|? ? ? ? (m & -> & ?)]; by constructor. }
  destruct Hc as [[-> ->]|[[-> ->]|(-> & c0 & -> & ->)]]; cbn [bool_decide].
  - rewrite fold_bitand_matches. by apply report_all_silent.
  - rewrite fold_bitor_matches. by apply report_any_silent.
  - rewrite not_matches. inversion Hall as [|n ? ? ? Hn Hnil]; subst. inversion Hnil; subst.
    cbn -[eval_nested]. by rewrite Hn.
Qed.
End meaning.

(** ** Properties *)

(** C22: [Cfg::parse] accepts exactly the predicates of the grammar: single names, strings as
    values, [all] and [any] of any number and [not] of one accepted predicate. What it
    returns is in normal form (no constant, no double negation and no connective right
    below itself, at least two distinct operands), and for every set of options it matches
    exactly when the compiler's evaluation of the attribute ([cfg_matches]) holds, which
    then reports no error. *)
Theorem parsed_predicates_mean_what_the_compiler_checks (cfg : MetaItem) :
  (valid cfg = true <-> exists c, parse cfg = Ok c) /\
  forall c, parse cfg = Ok c -> normal c = true /\
    forall config version, cfg_matches config version (fun _ => []) cfg = (matches config c, []).
Proof.
  split; [apply parse_valid|]. intros c Hc. split; [by apply (parse_normal cfg)|].
  intros config version. by apply parse_meaning.
Qed.

(** ** The tests of the source ([clean/cfg/tests.rs]) *)
Definition word_cfg (s : string) : Cfg := Cfg_ s None.
Definition name_value_cfg (name value : string) : Cfg := Cfg_ name (Some value).
Definition dummy_list (name : string) (l : list MetaItem) : MetaItem :=
  mk_MetaItem [name] (MetaList (MetaItem_ <$> l)).
Definition dummy_words (name : string) (l : list string) : MetaItem :=
  dummy_list name (mk_word_item <$> l).

Example test_cfg_not :
  not False_ = True_ /\ not True_ = False_ /\ not (word_cfg "test") = Not (word_cfg "test") /\
  not (All [word_cfg "a"; word_cfg "b"]) = Not (All [word_cfg "a"; word_cfg "b"]) /\
  not (Not (word_cfg "test")) = word_cfg "test".
Proof. done. Qed.

Example test_cfg_and :
  bitand False_ True_ = False_ /\ bitand (word_cfg "test") False_ = False_ /\
  bitand (word_cfg "test2") True_ = word_cfg "test2" /\
  bitand (word_cfg "test3") (word_cfg "test3") = word_cfg "test3" /\
  bitand (All [word_cfg "test3"; word_cfg "test4"]) (word_cfg "test4")
    = All [word_cfg "test3"; word_cfg "test4"] /\
  bitand (All [word_cfg "a"; word_cfg "b"]) (All [word_cfg "b"; word_cfg "c"])
    = All [word_cfg "a"; word_cfg "b"; word_cfg "c"] /\
  bitand (Any [word_cfg "a"; word_cfg "b"]) (All [word_cfg "c"; word_cfg "d"])
    = All [word_cfg "c"; word_cfg "d"; Any [word_cfg "a"; word_cfg "b"]] /\
  bitand (word_cfg "test8") (All [word_cfg "test9"; word_cfg "test10"])
    = All [word_cfg "test9"; word_cfg "test10"; word_cfg "test8"] /\
  bitand (word_cfg "test11") (All [word_cfg "test11"; word_cfg "test12"])
    = All [word_cfg "test11"; word_cfg "test12"].
Proof. split_and!; vm_compute; reflexivity. Qed.

Example test_parse_ok :
  parse (mk_word_item "all") = Ok (word_cfg "all") /\
  parse (mk_name_value_item_str "all" "done") = Ok (name_value_cfg "all" "done") /\
  parse (dummy_words "all" ["a"; "b"; "c"]) = Ok (All [word_cfg "a"; word_cfg "b"; word_cfg "c"]) /\
  parse (dummy_words "any" ["a"; "b"]) = Ok (Any [word_cfg "a"; word_cfg "b"]) /\
  parse (dummy_list "not" [dummy_list "any" [mk_word_item "a"; dummy_words "all" ["b"; "c"]]])
    = Ok (Not (Any [word_cfg "a"; All [word_cfg "b"; word_cfg "c"]])).
Proof. split_and!; vm_compute; reflexivity. Qed.

Example test_parse_err :
  forallb (fun mi => match parse mi with Ok _ => false | Err _ => true end)
    [mk_MetaItem ["foo"] (NameValue (LitKind.Bool false)); dummy_words "not" ["a"; "b"];
     dummy_words "not" []; dummy_words "foo" [];
     dummy_list "all" [dummy_words "foo" []; mk_word_item "b"];
     dummy_list "any" [mk_word_item "a"; dummy_words "foo" []];
     dummy_list "not" [dummy_words "foo" []]] = true.
Proof. vm_compute. reflexivity. Qed.

Lemma parsed_predicates_mean_what_the_compiler_checks_witness :
  exists c, parse (dummy_list "all" [mk_word_item "unix"; dummy_words "not" ["test"]]) = Ok c /\
    normal c = true /\
    cfg_matches {[("unix", None)]} (fun _ => (false, [])) (fun _ => [])
      (dummy_list "all" [mk_word_item "unix"; dummy_words "not" ["test"]]) = (true, []).
Proof.
  exists (All [word_cfg "unix"; Not (word_cfg "test")]).
  destruct (parsed_predicates_mean_what_the_compiler_checks
    (dummy_list "all" [mk_word_item "unix"; dummy_words "not" ["test"]])) as [_ Hp].
  destruct (Hp (All [word_cfg "unix"; Not (word_cfg "test")])) as [Hn Hm];
    [vm_compute; reflexivity|]. split; [vm_compute; reflexivity|]. split; [exact Hn|].
  etrans; [exact (Hm {[("unix", None)]} (fun _ => (false, [])))|]. vm_compute. reflexivity.
Defined.
