(* ===== verification/CfgHtml.v ===== *)
(** The rendering of configuration predicates: the escaped text stands for the original and
    holds no markup; the only markup of a rendering are its [code] elements, unless one of
    the options that are written unescaped occurs. *)

From S2P Require Import Prelude RustStd TextLines MetaItems Cfg.
Import Cfg.

(** ** Escaping *)

(** The reference: each character by itself. *)
Fixpoint escape_text (s : string) : string :=
  match s with
  | EmptyString => EmptyString
  | String c s =>
      match escaped_char c with Some text => text +:+ escape_text s | None => String c (escape_text s) end
  end.

Lemma escaped_ascii c text : escaped_char c = Some text -> is_ascii c.
Proof.
  unfold escaped_char, is_ascii. cbn zeta. intros He. apply Nat.nle_gt. intros Hn.
  repeat match type of He with
  | context [?a =? ?b] => destruct (Nat.eqb_spec a b); [lia|]
  end. done.
Qed.

(** The end of [Escape]. *)
Definition escape_end (s : string) (st : string * nat) : outcome string :=
  let '(out, last) := st in
  if last <? String.length s then
    piece ← str_slice_from s last;
    mret (out +:+ piece)
  else mret out.

Lemma escape_loop s (Hs : str_utf8 s) t : forall done pend out,
  s = done +:+ pend +:+ t -> inside_char (pend +:+ t) = false ->
  (st ← fold_loop (escape_step s)
          (imap (fun j c => (String.length done + String.length pend + j, c))
             (String.list_ascii_of_string t)) (out, String.length done);
   escape_end s st) = Ret (out +:+ pend +:+ escape_text t).
Proof.
  induction t as [|c t IH]; intros done pend out Heq Hin.
  - cbn [String.list_ascii_of_string imap fold_loop escape_text].
    rewrite str_app_nil_r in *. subst s. unfold escape_end.
    cbn [mbind outcome_bind mret outcome_ret]. rewrite str_length_app.
    destruct (Nat.ltb_spec (String.length done) (String.length done + String.length pend)).
    + by rewrite str_slice_from_app.
    + destruct pend; [by rewrite str_app_nil_r|cbn in *; lia].
  - cbn [String.list_ascii_of_string imap fold_loop escape_text].
    cbn [escape_step]. rewrite Nat.add_0_r. destruct (escaped_char c) as [text|] eqn:Hc.
    + pose proof (escaped_ascii _ _ Hc) as Hascii.
      assert (Hcin : inside_char (String c t) = false).
      { unfold inside_char. by rewrite (proj2 (Nat.leb_gt _ _) Hascii). }
      rewrite Heq at 1. rewrite str_slice_app by done. cbn [mbind outcome_bind mret outcome_ret].
      assert (Hsplit : s = (done +:+ pend +:+ String c EmptyString) +:+ EmptyString +:+ t).
      { rewrite Heq. by rewrite <- !str_app_assoc. }
      specialize (IH (done +:+ pend +:+ String c EmptyString) EmptyString (out +:+ pend +:+ text) Hsplit).
      rewrite !str_length_app in IH. cbn [String.length] in IH. rewrite <- !str_app_assoc in IH.
      cbn [String.append] in IH. rewrite <- IH.
      * replace (String.length done + String.length pend + 1)
          with (String.length done + (String.length pend + 1)) by lia.
        f_equal. f_equal. apply imap_ext. intros j x _. cbn. f_equal. lia.
      * apply utf8_not_inside. rewrite Heq in Hs.
        apply (str_utf8_before (done +:+ pend) c t Hascii). by rewrite <- str_app_assoc.
    + cbn [mbind outcome_bind mret outcome_ret].
      assert (Hsplit : s = done +:+ (pend +:+ String c EmptyString) +:+ t).
      { rewrite Heq. by rewrite <- !str_app_assoc. }
      specialize (IH done (pend +:+ String c EmptyString) out Hsplit).
      rewrite <- !str_app_assoc in IH. cbn [String.append] in IH. rewrite <- (IH Hin).
      f_equal. f_equal. apply imap_ext. intros j x _. cbn. rewrite str_length_app. cbn. f_equal. lia.
Qed.

Lemma escape_returns s : str_utf8 s -> Escape s = Ret (escape_text s).
Proof.
  intros Hs. apply (escape_loop s Hs s EmptyString EmptyString EmptyString eq_refl).
  by apply utf8_not_inside.
Qed.

(** The characters that are escaped, with their texts. *)
Definition escapes : list (Ascii.ascii * string) :=
  List.map (fun e => (Ascii.ascii_of_nat e.1, e.2))
    [(62, "&gt;"); (60, "&lt;"); (38, "&amp;"); (39, "&#39;"); (34, "&quot;")].

Lemma escaped_in c text : escaped_char c = Some text -> (c, text) ∈ escapes.
Proof.
  unfold escaped_char. cbn zeta. intros He.
  assert (Hc : forall n, Ascii.nat_of_ascii c = n -> c = Ascii.ascii_of_nat n).
  { intros n <-. by rewrite Ascii.ascii_nat_embedding. }
  repeat match type of He with
  | context [?a =? ?b] => destruct (Nat.eqb_spec a b) as [->%Hc|_];
      [injection He as <-; apply (bool_decide_unpack _); vm_compute; exact I|]
  end. done.
Qed.

(** The same text back: no two texts are escaped to the same. *)
Lemma escape_text_inj s : forall t, escape_text s = escape_text t -> s = t.
Proof.
  assert (Hamp : forall c text u v, (c, text) ∈ escapes -> forall d, escaped_char d = None ->
    text +:+ u <> String d v).
  { intros c text u v Hin d Hd Heq.
    repeat (apply elem_of_cons in Hin as [[= -> ->]|Hin]; [injection Heq as <- _; discriminate Hd|]).
    by apply not_elem_of_nil in Hin. }
  assert (Hboth : forall c text d text' u v, (c, text) ∈ escapes -> (d, text') ∈ escapes ->
    text +:+ u = text' +:+ v -> c = d /\ u = v).
  { intros c text d text' u v Hin Hin' Heq.
    repeat (apply elem_of_cons in Hin as [[= -> ->]|Hin]; [
      repeat (apply elem_of_cons in Hin' as [[= -> ->]|Hin']; [
        first [discriminate Heq|injection Heq as ->; by split]|]);
      by apply not_elem_of_nil in Hin'|]).
    by apply not_elem_of_nil in Hin. }
  induction s as [|c s IH]; intros [|d t]; cbn [escape_text]; try done.
  - destruct (escaped_char d) as [text|] eqn:Hd; [|done]. intros Heq.
    apply escaped_in in Hd. exfalso.
    repeat (apply elem_of_cons in Hd as [[= -> ->]|Hd]; [done|]). by apply not_elem_of_nil in Hd.
  - destruct (escaped_char c) as [text|] eqn:Hc; [|done]. intros Heq.
    apply escaped_in in Hc. exfalso.
    repeat (apply elem_of_cons in Hc as [[= -> ->]|Hc]; [done|]). by apply not_elem_of_nil in Hc.
  - destruct (escaped_char c) as [text|] eqn:Hc, (escaped_char d) as [text'|] eqn:Hd; intros Heq.
    + destruct (Hboth c text d text' _ _ (escaped_in _ _ Hc) (escaped_in _ _ Hd) Heq) as [-> Hs].
      f_equal. by apply IH.
    + by apply (Hamp c text _ _ (escaped_in _ _ Hc) d Hd) in Heq.
    + symmetry in Heq. by apply (Hamp d text' _ _ (escaped_in _ _ Hd) c Hc) in Heq.
    + injection Heq as -> Hs. f_equal. by apply IH.
Qed.

(** ** Markup *)

(** A text without tags, and without quotes when it is escaped. *)
Fixpoint no_char (p : nat -> bool) (s : string) : bool :=
  match s with
  | EmptyString => true
  | String c s => negb (p (Ascii.nat_of_ascii c)) && no_char p s
  end.
Definition plain : string -> bool := no_char (fun n => (n =? 60) || (n =? 62)).
Definition inert : string -> bool :=
  no_char (fun n => (n =? 60) || (n =? 62) || (n =? 34) || (n =? 39)).

Lemma no_char_app p s t : no_char p (s +:+ t) = no_char p s && no_char p t.
Proof. induction s as [|c s IH]; [done|]. cbn. by rewrite IH, andb_assoc. Qed.

Lemma inert_plain s : inert s = true -> plain s = true.
Proof.
  induction s as [|c s IH]; [done|]. unfold inert, plain in *. cbn.
  rewrite !andb_true_iff, !negb_true_iff, !orb_false_iff. tauto.
Qed.

Lemma escape_inert s : inert (escape_text s) = true.
Proof.
  induction s as [|c s IH]; [done|]. cbn [escape_text]. destruct (escaped_char c) as [text|] eqn:Hc.
  - unfold inert. rewrite no_char_app. change (inert text && inert (escape_text s) = true).
    rewrite IH, andb_true_r. apply escaped_in in Hc.
    repeat (apply elem_of_cons in Hc as [[= -> ->]|Hc]; [done|]). by apply not_elem_of_nil in Hc.
  - unfold inert in *. cbn [no_char]. rewrite IH, andb_true_r. unfold escaped_char in Hc. cbn zeta in Hc.
    repeat match type of Hc with
    | context [?a =? ?b] => destruct (Nat.eqb_spec a b); [discriminate Hc|]
    end. done.
Qed.

(** A text whose only markup are [code] elements. *)
Inductive markup : string -> Prop :=
| markup_nil : markup EmptyString
| markup_plain s t : plain s = true -> markup t -> markup (s +:+ t)
| markup_code s t : plain s = true -> markup t -> markup ("<code>" +:+ s +:+ "</code>" +:+ t).

Lemma markup_app s t : markup s -> markup t -> markup (s +:+ t).
Proof.
  intros Hs Ht. induction Hs as [|s u Hu _ IH|s u Hu _ IH]; [done|..].
  - rewrite <- str_app_assoc. by constructor.
  - assert (Heq : ("<code>" +:+ s +:+ "</code>" +:+ u) +:+ t =
      "<code>" +:+ s +:+ "</code>" +:+ (u +:+ t)) by (by rewrite <- !str_app_assoc).
    rewrite Heq. by constructor.
Qed.

Lemma plain_markup s : plain s = true -> markup s.
Proof.
  intros Hs. rewrite <- (str_app_nil_r s). constructor; [done|constructor].
Qed.

Lemma code_markup s : plain s = true -> markup ("<code>" +:+ s +:+ "</code>").
Proof.
  intros Hs. pose proof (markup_code s EmptyString Hs markup_nil) as Hm.
  by rewrite str_app_nil_r in Hm.
Qed.

Lemma paren_markup b s : markup s -> markup (write_with_opt_paren b s).
Proof.
  intros Hs. unfold write_with_opt_paren. destruct b; [|by rewrite str_app_nil_r].
  apply markup_app; [by apply plain_markup|]. apply markup_app; [done|by apply plain_markup].
Qed.

Lemma list_markup first separator texts :
  plain first = true -> plain separator = true -> Forall markup texts ->
  markup (write_list first separator texts).
Proof.
  intros Hf Hs Ht. unfold write_list.
  assert (Hgen : forall g : nat -> string, (forall i, plain (g i) = true) ->
    markup (foldr String.append EmptyString (imap (fun i text => g i +:+ text) texts))).
  { induction Ht as [|text texts Htext _ IH]; intros g Hg; cbn; [constructor|].
    rewrite <- str_app_assoc. constructor; [apply Hg|]. apply markup_app; [done|].
    apply (IH (fun i => g (S i))). intros i. apply Hg. }
  apply Hgen. intros i. by destruct (i =? 0).
Qed.

(** The tables hold plain texts. *)
Lemma lookup_name_plain table n :
  forallb (fun e : string * string => plain e.2) table = true -> plain (lookup_name table n) = true.
Proof.
  rewrite forallb_forall. intros Ht. unfold lookup_name.
  destruct (List.find _ table) as [e|] eqn:Hf; [|done]. apply Ht, (find_some _ _ Hf).
Qed.

Lemma human_readable_plain n v : plain (human_readable n v) = true.
Proof.
  unfold human_readable. destruct v as [v|]; [|apply lookup_name_plain; reflexivity].
  repeat case_bool_decide; try done; apply lookup_name_plain; reflexivity.
Qed.

(** The options of a predicate: UTF-8 texts, as those of the source are, and none of those
    that are written as they are. *)
Definition option_ok (short : bool) (n : string) (value : option string) : Prop :=
  str_utf8 n /\ (forall v, value = Some v -> str_utf8 v /\ written_as_is short n v = None).

Fixpoint options (c : Cfg) : list (string * option string) :=
  match c with
  | True_ | False_ => []
  | Cfg_ n v => [(n, v)]
  | Not c => options c
  | Any l | All l => l ≫= options
  end.

Definition options_ok (short : bool) (c : Cfg) : Prop :=
  Forall (fun o => option_ok short o.1 o.2) (options c).

Lemma options_ok_list short l :
  Forall (fun o => option_ok short o.1 o.2) (l ≫= options) -> Forall (options_ok short) l.
Proof.
  induction l as [|c l IH]; [constructor|]. cbn. intros [Hc Hl]%Forall_app. constructor; auto.
Qed.

Lemma html_option_markup short n v :
  option_ok short n v -> returns (html_option short n v) markup.
Proof.
  intros [Hn Hv]. unfold html_option.
  assert (v ≫= written_as_is short n = None) as ->.
  { destruct v as [v|]; [|done]. by destruct (Hv v eq_refl). }
  case_bool_decide; cbn [negb]; [|apply returns_ret, plain_markup, human_readable_plain].
  rewrite (escape_returns n Hn). cbn [mbind outcome_bind].
  assert (Hen : plain (escape_text n) = true) by apply inert_plain, escape_inert.
  destruct v as [v|]; [|apply returns_ret; by apply code_markup].
  destruct (Hv v eq_refl) as [Hu _]. rewrite (escape_returns v Hu). cbn [mbind outcome_bind].
  apply returns_ret.
  assert (Hev : plain (escape_text v) = true) by apply inert_plain, escape_inert.
  assert (Heq : forall a b c d e f g : string, a +:+ b +:+ c +:+ d +:+ e +:+ f +:+ g =
    a +:+ (b +:+ c +:+ d +:+ e +:+ f) +:+ g) by (intros; by rewrite <- !str_app_assoc).
  rewrite Heq. apply code_markup. unfold plain in *. by rewrite !no_char_app, Hen, Hev.
Qed.

(** The predicates right below a predicate. *)
Definition sub_cfgs (c : Cfg) : list Cfg :=
  match c with Not c => [c] | Any l | All l => l | _ => [] end.

Lemma cfg_ind (P : Cfg -> Prop) :
  (forall c, Forall (fun d => P d /\ Forall P (sub_cfgs d)) (sub_cfgs c) -> P c) -> forall c, P c.
Proof.
  intros Hstep c. enough (P c /\ Forall P (sub_cfgs c)) by tauto. revert c. fix IH 1. intros c.
  assert (Hsub : Forall (fun d => P d /\ Forall P (sub_cfgs d)) (sub_cfgs c)).
  { destruct c as [| |n v|c|l|l]; cbn; try constructor; [exact (IH c)|constructor|..].
    - induction l as [|d l IHl]; constructor; [exact (IH d)|exact IHl].
    - induction l as [|d l IHl]; constructor; [exact (IH d)|exact IHl]. }
  split; [by apply Hstep|]. eapply Forall_impl; [exact Hsub|]. by intros d [? _].
Qed.

Lemma html_markup short c : options_ok short c -> returns (Html short c) markup.
Proof.
  induction c as [c IH] using cfg_ind. intros Hc.
  assert (Hlist : forall paren first separator l,
    Forall (fun d => options_ok short d -> returns (Html short d) markup) l ->
    Forall (options_ok short) l -> plain first = true -> plain separator = true ->
    returns (texts ← map_loop (fun d => obj ← Html short d;
               mret (write_with_opt_paren (paren d) obj)) l;
             mret (write_list first separator texts)) markup).
  { intros paren first separator l Hl Hok Hf Hs. rewrite Forall_forall in Hl, Hok.
    eapply returns_bind.
    - apply (map_loop_returns _ (fun _ t => markup t)). intros d Hd.
      eapply returns_bind; [by apply Hl, Hok|]. intros t Ht. by apply returns_ret, paren_markup.
    - intros texts Ht. apply returns_ret, list_markup; [done..|].
      clear -Ht. induction Ht; by constructor. }
  assert (Hsub : forall l, Forall (fun d => (options_ok short d -> returns (Html short d) markup) /\
      Forall (fun e => options_ok short e -> returns (Html short e) markup) (sub_cfgs d)) l ->
    Forall (fun d => options_ok short d -> returns (Html short d) markup) l).
  { intros l Hl. eapply Forall_impl; [exact Hl|]. by intros d [? _]. }
  destruct c as [| |n v|c|l|l]; cbn [Html]; try by apply returns_ret, plain_markup.
  - apply html_option_markup. by inversion Hc.
  - cbn in IH. apply Forall_cons in IH as [[IHc IHs] _].
    assert (Hpre : forall a b, plain a = true -> plain b = true -> forall o : outcome string,
      returns o markup -> returns (t ← o; mret (a +:+ t +:+ b)) markup).
    { intros a b Ha Hb o Ho. eapply returns_bind; [exact Ho|]. intros t Ht.
      apply returns_ret. constructor; [done|]. apply markup_app; [done|by apply plain_markup]. }
    destruct c as [| |n v|c|l|l].
    + apply (Hpre "not (" ")"); [done..|]. by apply IHc.
    + apply (Hpre "not (" ")"); [done..|]. by apply IHc.
    + eapply returns_bind; [apply html_option_markup; by inversion Hc|]. intros t Ht.
      apply returns_ret. by constructor.
    + apply (Hpre "not (" ")"); [done..|]. by apply IHc.
    + apply (Hlist (fun d => negb (is_all d))); [exact IHs|by apply options_ok_list|done|].
      by destruct (forallb is_simple l).
    + apply (Hpre "not (" ")"); [done..|]. by apply IHc.
  - apply (Hlist (fun d => negb (is_all d))); [by apply Hsub|by apply options_ok_list|done|].
    by destruct (forallb is_simple l).
  - apply (Hlist (fun d => negb (is_simple d))); [by apply Hsub|by apply options_ok_list|done|done].
Qed.

(** ** Properties *)

(** C34: the texts of names and values are escaped so that no tag or quote is left and
    different texts stay different; for a predicate whose options are valid UTF-8 and none
    of those that are written unescaped ([target_endian], [target_pointer_width],
    [target_feature] with a value), the rendering never panics, and its only markup are
    [code] elements around plain text. *)
Theorem renderings_hold_no_foreign_markup (short : bool) (c : Cfg) (Hc : options_ok short c) :
  returns (Html short c) markup /\
  Forall (fun o => returns (Escape o.1) (fun t => inert t = true /\
    forall s, str_utf8 s -> Escape s = Ret t -> s = o.1)) (options c).
Proof.
  split; [by apply html_markup|]. eapply Forall_impl; [exact Hc|]. intros [n v] [Hn _].
  cbn [fst]. rewrite (escape_returns n Hn). split; [apply escape_inert|].
  intros s Hs Heq. rewrite (escape_returns s Hs) in Heq. injection Heq. apply escape_text_inj.
Qed.

Lemma renderings_hold_no_foreign_markup_witness :
  Html true (Not (Cfg_ "a<b" (Some "x"))) =
    Ret ("non-<code>a&lt;b=" +:+ dquote +:+ "x" +:+ dquote +:+ "</code>") /\
  returns (Html true (Not (Cfg_ "a<b" (Some "x")))) markup.
Proof.
  split; [vm_compute; reflexivity|].
  apply (renderings_hold_no_foreign_markup true (Not (Cfg_ "a<b" (Some "x")))).
  constructor; [|constructor]. split; [reflexivity|]. intros v [= <-]. split; reflexivity.
Defined.

(** The value of [target_feature] is written as it is. *)
Lemma feature_names_are_not_escaped short v :
  exists before after,
    Html short (Cfg_ "target_feature" (Some v)) = Ret (before +:+ v +:+ after).
Proof. destruct short; by eexists _, _. Qed.

(** ** The tests of the source ([clean/cfg/tests.rs]) *)
Abbreviation word := (fun s => Cfg_ s None).
Abbreviation name_value := (fun n v => Cfg_ n (Some v)).

Example test_render_short_html :
  render_short_html (word "unix") = Ret "Unix" /\
  render_short_html (name_value "target_os" "macos") = Ret "macOS" /\
  render_short_html (name_value "target_pointer_width" "16") = Ret "16-bit" /\
  render_short_html (name_value "target_endian" "little") = Ret "Little-endian" /\
  render_short_html (not (word "windows")) = Ret "Non-Windows" /\
  render_short_html (bitand (bitand (word "unix") (word "windows")) (word "debug_assertions"))
    = Ret "Unix and Windows and debug-assertions enabled" /\
  render_short_html (not (bitor (bitor (word "unix") (word "windows")) (word "debug_assertions")))
    = Ret "Neither Unix nor Windows nor debug-assertions enabled" /\
  render_short_html (bitor (bitand (word "unix") (name_value "target_arch" "x86_64"))
      (bitand (word "windows") (name_value "target_pointer_width" "64")))
    = Ret "Unix and x86-64, or Windows and 64-bit" /\
  render_short_html (bitand (bitor (word "debug_assertions") (word "windows")) (word "unix"))
    = Ret "(Debug-assertions enabled or Windows) and Unix" /\
  render_short_html (name_value "target_feature" "sse2") = Ret "<code>sse2</code>".
Proof. split_and!; vm_compute; reflexivity. Qed.

Example test_render_long_html :
  render_long_html (word "unix") = Ret "This is supported on <strong>Unix</strong> only." /\
  render_long_html (not (word "windows")) =
    Ret "This is supported on <strong>non-Windows</strong> only." /\
  render_long_html (not (bitor (word "unix") (word "windows"))) =
    Ret "This is supported on <strong>neither Unix nor Windows</strong>." /\
  render_long_html (not (bitand (word "unix") (word "windows"))) =
    Ret "This is supported on <strong>not (Unix and Windows)</strong>." /\
  render_long_html (name_value "target_feature" "sse2") =
    Ret "This is supported with <strong>target feature <code>sse2</code></strong> only.".
Proof. split_and!; vm_compute; reflexivity. Qed.
