(* ===== verification/Highlight.v ===== *)
(** Highlighted source text ([html/highlight.rs]): the tokens of the lexer are put into spans
    of classes. A reference says which spans a list of tokens gets; the classifier, with its
    token of lookahead and its flags, makes the same calls to every writer. *)

From S2P Require Import Prelude RustStd TextLines Cfg CfgHtml.

(** ** Tokens ([librustc_ast/token.rs]) *)

Inductive BinOpToken := Plus | Minus | Star | Slash | Percent | Caret | And | Or | Shl | Shr.
Inductive DelimToken := Paren | Bracket | Brace | NoDelim.
Inductive LitKind :=
| Bool | Byte | Char | Integer | Float | Str | StrRaw (n : N) | ByteStr | ByteStrRaw (n : N) | Err.

Record Lit := mk_Lit { lit_kind : LitKind; lit_symbol : string; lit_suffix : option string }.

(** The fragments that are looked into, and the others. *)
Inductive Nonterminal := NtIdent (name : string) (is_raw : bool) | NtLifetime (name : string) | NtOther.

Inductive TokenKind :=
| Eq | Lt | Le | EqEq | Ne | Ge | Gt | AndAnd | OrOr | Not | Tilde
| BinOp (op : BinOpToken) | BinOpEq (op : BinOpToken)
| At | Dot | DotDot | DotDotDot | DotDotEq | Comma | Semi | Colon | ModSep | RArrow | LArrow
| FatArrow | Pound | Dollar | Question | SingleQuote
| OpenDelim (delim : DelimToken) | CloseDelim (delim : DelimToken)
| Literal (lit : Lit)
| Ident (name : string) (is_raw : bool)
| Lifetime (name : string)
| Interpolated (nt : Nonterminal)
| DocComment (name : string)
| Whitespace | Comment | Shebang (s : string) | Unknown (s : string)
| Eof.

#[export] Instance BinOpToken_eq_dec : EqDecision BinOpToken.
Proof. solve_decision. Defined.
#[export] Instance DelimToken_eq_dec : EqDecision DelimToken.
Proof. solve_decision. Defined.
#[export] Instance LitKind_eq_dec : EqDecision LitKind.
Proof. solve_decision. Defined.
#[export] Instance Lit_eq_dec : EqDecision Lit.
Proof. solve_decision. Defined.
#[export] Instance Nonterminal_eq_dec : EqDecision Nonterminal.
Proof. solve_decision. Defined.
#[export] Instance TokenKind_eq_dec : EqDecision TokenKind.
Proof. solve_decision. Defined.

(** A token with the text of its span. *)
Record Token := mk_Token { kind : TokenKind; snippet : string }.

(** [Token::ident] behind [uninterpolate]: the name and whether it is raw. *)
Definition uninterpolate (k : TokenKind) : TokenKind :=
  match k with
  | Interpolated (NtIdent name is_raw) => Ident name is_raw
  | Interpolated (NtLifetime name) => Lifetime name
  | k => k
  end.
Definition ident (k : TokenKind) : option (string * bool) :=
  match uninterpolate k with Ident name is_raw => Some (name, is_raw) | _ => None end.
Definition is_ident (k : TokenKind) : bool := bool_decide (is_Some (ident k)).

(** ** Keywords ([librustc_span/symbol.rs]) *)

(** The keywords in the order of their symbols; every other symbol is greater. *)
Definition Keywords : list string :=
  [""; "{{root}}"; "$crate"; "_";
   "as"; "break"; "const"; "continue"; "crate"; "else"; "enum"; "extern"; "false"; "fn"; "for";
   "if"; "impl"; "in"; "let"; "loop"; "match"; "mod"; "move"; "mut"; "pub"; "ref"; "return";
   "self"; "Self"; "static"; "struct"; "super"; "trait"; "true"; "type"; "unsafe"; "use"; "where";
   "while";
   "abstract"; "become"; "box"; "do"; "final"; "macro"; "override"; "priv"; "typeof"; "unsized";
   "virtual"; "yield";
   "async"; "await"; "dyn"; "try";
   "'_"; "'static";
   "auto"; "catch"; "default"; "macro_rules"; "raw"; "union"].

Fixpoint symbol_index (name : string) (table : list string) : nat :=
  match table with
  | [] => 0
  | kw :: table => if String.eqb name kw then 0 else S (symbol_index name table)
  end.
Definition symbol (name : string) : nat := symbol_index name Keywords.

Definition is_used_keyword_2018 (name : string) : bool :=
  (symbol "async" <=? symbol name) && (symbol name <=? symbol "dyn").
Definition is_unused_keyword_2018 (name : string) : bool := symbol name =? symbol "try".
Definition is_special (name : string) : bool := symbol name <=? symbol "_".
Definition is_used_keyword (rust_2018 : bool) (name : string) : bool :=
  ((symbol "as" <=? symbol name) && (symbol name <=? symbol "while"))
  || (is_used_keyword_2018 name && rust_2018).
Definition is_unused_keyword (rust_2018 : bool) (name : string) : bool :=
  ((symbol "abstract" <=? symbol name) && (symbol name <=? symbol "yield"))
  || (is_unused_keyword_2018 name && rust_2018).
Definition is_reserved (rust_2018 : bool) (name : string) : bool :=
  is_special name || is_used_keyword rust_2018 name || is_unused_keyword rust_2018 name.

Definition is_non_raw_ident_where (pred : string -> bool) (k : TokenKind) : bool :=
  match ident k with Some (name, false) => pred name | _ => false end.
Definition is_reserved_ident (rust_2018 : bool) : TokenKind -> bool :=
  is_non_raw_ident_where (is_reserved rust_2018).

(** ** The lexer

    The tokens that [StringReader::next_token] hands over for a text: at the end it hands
    over [Eof] again and again; on some errors it raises a fatal error. *)
Inductive Lexer := LexEnd | LexFatal | LexToken (t : Token) (rest : Lexer).

(** ** Results *)

Inductive HighlightError := LexError | IoError.

(** [FatalErrorRaised]: unwinding up to [catch_fatal_errors]; [Panics]: any other panic. *)
Inductive Hl (A : Type) : Type := Done (a : A) | Error (e : HighlightError) | FatalErrorRaised | Panics.
Arguments Done {A} a.
Arguments Error {A} e.
Arguments FatalErrorRaised {A}.
Arguments Panics {A}.

#[export] Instance Hl_ret : MRet Hl := fun A a => Done a.
#[export] Instance Hl_bind : MBind Hl := fun A B f x =>
  match x with
  | Done a => f a
  | Error e => Error e
  | FatalErrorRaised => FatalErrorRaised
  | Panics => Panics
  end.

(** A computation that can only panic, and the result of writing. *)
Definition running {A} (o : outcome A) : Hl A := match o with Ret a => Done a | _ => Panics end.
Definition io {A} (o : option A) : Hl A := match o with Some a => Done a | None => Error IoError end.

(** ** Classes and writers *)

Inductive Class_ :=
| None_ | Comment_ | DocComment_ | Attribute | KeyWord | RefKeyWord | Self_ | Op | Macro
| MacroNonTerminal | String_ | Number | Bool_ | Ident_ | Lifetime_ | PreludeTy | PreludeVal
| QuestionMark.

#[export] Instance Class_eq_dec : EqDecision Class_.
Proof. solve_decision. Defined.

Definition rustdoc_class (klass : Class_) : string :=
  match klass with
  | None_ => ""
  | Comment_ => "comment"
  | DocComment_ => "doccomment"
  | Attribute => "attribute"
  | KeyWord => "kw"
  | RefKeyWord => "kw-2"
  | Self_ => "self"
  | Op => "op"
  | Macro => "macro"
  | MacroNonTerminal => "macro-nonterminal"
  | String_ => "string"
  | Number => "number"
  | Bool_ => "bool-val"
  | Ident_ => "ident"
  | Lifetime_ => "lifetime"
  | PreludeTy => "prelude-ty"
  | PreludeVal => "prelude-val"
  | QuestionMark => "question-mark"
  end.

(** The trait [Writer]; [None]: writing failed. *)
Class Writer (W : Type) := {
  enter_span : Class_ -> W -> option W;
  exit_span : W -> option W;
  string_ : string -> Class_ -> W -> option W
}.

(** [impl Writer for U: Write], for a vector: writing to it does not fail. *)
Definition open_tag (klass : Class_) : string :=
  "<span class=" +:+ dquote +:+ rustdoc_class klass +:+ dquote +:+ ">".

#[export] Instance buffer_writer : Writer string := {
  enter_span klass w := Some (w +:+ open_tag klass);
  exit_span w := Some (w +:+ "</span>");
  string_ text klass w :=
    match klass with
    | None_ => Some (w +:+ text)
    | klass => Some (w +:+ open_tag klass +:+ text +:+ "</span>")
    end
}.

(** ** [Classifier] *)

Section classifier.
(** Whether the edition of the text is 2018 or later, which decides on some keywords. *)
Context (rust_2018 : bool).

Record Classifier := mk_Classifier {
  lexer : Lexer;
  peek_token : option Token;
  in_attribute : bool;
  in_macro : bool;
  in_macro_nonterminal : bool
}.

Definition Classifier_new (l : Lexer) : Classifier := mk_Classifier l None false false false.

Definition set_peek (l : Lexer) (t : option Token) (c : Classifier) : Classifier :=
  mk_Classifier l t (in_attribute c) (in_macro c) (in_macro_nonterminal c).
Definition set_in_attribute (b : bool) (c : Classifier) : Classifier :=
  mk_Classifier (lexer c) (peek_token c) b (in_macro c) (in_macro_nonterminal c).
Definition set_in_macro (b : bool) (c : Classifier) : Classifier :=
  mk_Classifier (lexer c) (peek_token c) (in_attribute c) b (in_macro_nonterminal c).
Definition set_in_macro_nonterminal (b : bool) (c : Classifier) : Classifier :=
  mk_Classifier (lexer c) (peek_token c) (in_attribute c) (in_macro c) b.

Definition eof_token : Token := mk_Token Eof EmptyString.

(** The next token of the lexer, unless it is an unknown one. *)
Definition next_token (l : Lexer) : Hl (Token * Lexer) :=
  match l with
  | LexEnd => Done (eof_token, LexEnd)
  | LexFatal => FatalErrorRaised
  | LexToken t rest => match kind t with Unknown _ => Error LexError | _ => Done (t, rest) end
  end.

Definition try_next_token (c : Classifier) : Hl (Token * Classifier) :=
  match peek_token c with
  | Some token => mret (token, set_peek (lexer c) None c)
  | None =>
      r ← next_token (lexer c);
      let '(token, l) := (r : Token * Lexer) in
      mret (token, set_peek l None c)
  end.

Definition peek (c : Classifier) : Hl (TokenKind * Classifier) :=
  match peek_token c with
  | Some token => mret (kind token, c)
  | None =>
      r ← next_token (lexer c);
      let '(token, l) := (r : Token * Lexer) in
      mret (kind token, set_peek l (Some token) c)
  end.

(** The result of the match over the token: a class for its text, or all done. *)
Inductive classified W := Simple (klass : Class_) (c : Classifier) | Written (c : Classifier) (w : W).
Arguments Simple {W} klass c.
Arguments Written {W} c w.

Section writing.
Context `{Writer W}.

(** The class of a literal. *)
Definition literal_class (k : LitKind) : Hl Class_ :=
  match k with
  | Byte | Char | Err | ByteStr | ByteStrRaw _ | Str | StrRaw _ => mret String_
  | Integer | Float => mret Number
  | Bool => Panics
  end.

(** The classes of the names that do not depend on what is around them. *)
Definition name_class (name : string) (is_raw : bool) : option Class_ :=
  if negb is_raw && (String.eqb name "ref" || String.eqb name "mut") then Some RefKeyWord
  else if String.eqb name "self" || String.eqb name "Self" then Some Self_
  else if negb is_raw && (String.eqb name "false" || String.eqb name "true") then Some Bool_
  else if String.eqb name "Option" || String.eqb name "Result" then Some PreludeTy
  else if String.eqb name "Some" || String.eqb name "None" || String.eqb name "Ok" || String.eqb name "Err"
    then Some PreludeVal
  else if is_reserved_ident rust_2018 (Ident name is_raw) then Some KeyWord
  else None.

Definition classify (c : Classifier) (out : W) (token : Token) : Hl (classified W) :=
  match kind token with
  | Shebang s =>
      text ← running (Escape s);
      out ← io (string_ text None_ out);
      mret (Written c out)
  | Whitespace | Unknown _ => mret (Simple None_ c)
  | Comment => mret (Simple Comment_ c)
  | DocComment _ => mret (Simple DocComment_ c)
  | BinOp (And | Star) =>
      r ← peek c;
      let '(next, c) := (r : TokenKind * Classifier) in
      mret (Simple (if bool_decide (next <> Whitespace) then RefKeyWord else Op) c)
  | Not => mret (if in_macro c then Simple Macro (set_in_macro false c) else Simple Op c)
  | Eq | Lt | Le | EqEq | Ne | Ge | Gt | AndAnd | OrOr | BinOp _ | RArrow | BinOpEq _ | FatArrow =>
      mret (Simple Op c)
  | Dot | DotDot | DotDotDot | DotDotEq | Comma | Semi | Colon | ModSep | LArrow | OpenDelim _
  | CloseDelim (Brace | Paren | NoDelim) => mret (Simple None_ c)
  | Question => mret (Simple QuestionMark c)
  | Dollar =>
      r ← peek c;
      let '(next, c) := (r : TokenKind * Classifier) in
      mret (if is_ident next then Simple MacroNonTerminal (set_in_macro_nonterminal true c)
            else Simple None_ c)
  | Pound =>
      r ← peek c;
      let '(next, c) := (r : TokenKind * Classifier) in
      if bool_decide (next = Not) then
        r ← try_next_token c;
        let '(_, c) := (r : Token * Classifier) in
        r ← peek c;
        let '(next, c) := (r : TokenKind * Classifier) in
        r ← (if bool_decide (next = OpenDelim Bracket) then
               out ← io (enter_span Attribute out);
               mret (set_in_attribute true c, out)
             else mret (c, out));
        let '(c, out) := (r : Classifier * W) in
        out ← io (string_ "#" None_ out);
        out ← io (string_ "!" None_ out);
        mret (Written c out)
      else
        r ← peek c;
        let '(next, c) := (r : TokenKind * Classifier) in
        r ← (if bool_decide (next = OpenDelim Bracket) then
               out ← io (enter_span Attribute out);
               mret (set_in_attribute true c, out)
             else mret (c, out));
        let '(c, out) := (r : Classifier * W) in
        out ← io (string_ "#" None_ out);
        mret (Written c out)
  | CloseDelim Bracket =>
      if in_attribute c then
        let c := set_in_attribute false c in
        out ← io (string_ "]" None_ out);
        out ← io (exit_span out);
        mret (Written c out)
      else mret (Simple None_ c)
  | Literal lit =>
      klass ← literal_class (lit_kind lit);
      mret (Simple klass c)
  | Ident name is_raw =>
      match name_class name is_raw with
      | Some klass => mret (Simple klass c)
      | None =>
          if in_macro_nonterminal c then mret (Simple MacroNonTerminal (set_in_macro_nonterminal false c))
          else
            r ← peek c;
            let '(next, c) := (r : TokenKind * Classifier) in
            mret (if bool_decide (next = Not) then Simple Macro (set_in_macro true c) else Simple Ident_ c)
      end
  | Lifetime _ => mret (Simple Lifetime_ c)
  | Eof | Interpolated _ | Tilde | At | SingleQuote => mret (Simple None_ c)
  end.

Definition write_token (c : Classifier) (out : W) (token : Token) : Hl (Classifier * W) :=
  r ← classify c out token;
  match (r : classified W) with
  | Written c out => mret (c, out)
  | Simple klass c =>
      text ← running (Escape (snippet token));
      out ← io (string_ text klass out);
      mret (c, out)
  end.

(** [fuel] bounds the number of tokens that are taken in the loop. *)
Fixpoint write_source_loop (fuel : nat) (c : Classifier) (out : W) : Hl (Classifier * W) :=
  match fuel with
  | O => Panics
  | S fuel =>
      r ← try_next_token c;
      let '(next, c) := (r : Token * Classifier) in
      if bool_decide (kind next = Eof) then mret (c, out)
      else
        r ← write_token c out next;
        let '(c, out) := (r : Classifier * W) in
        write_source_loop fuel c out
  end.

Fixpoint lexer_length (l : Lexer) : nat :=
  match l with LexToken _ rest => S (lexer_length rest) | _ => 0 end.
Definition write_source (l : Lexer) (out : W) : Hl (Classifier * W) :=
  write_source_loop (lexer_length l + 1) (Classifier_new l) out.
End writing.

(** ** [render_with_highlighting] *)

(** The lexer on the text of a source file. *)
Context (StringReader_new : string -> Lexer).

Definition write_header (class : option string) : string :=
  "<div class=" +:+ dquote +:+ "example-wrap" +:+ dquote +:+ "><pre class=" +:+ dquote +:+ "rust "
    +:+ default EmptyString class +:+ dquote +:+ ">" +:+ nl.
Definition write_footer (playground_button : option string) : string :=
  "</pre>" +:+ default EmptyString playground_button +:+ "</div>" +:+ nl.
Definition write_tooltip (tooltip : option (string * string)) : string :=
  match tooltip with
  | Some (tooltip, class) =>
      "<div class='information'><div class='tooltip " +:+ class +:+ "'>ⓘ<span class='tooltiptext'>"
        +:+ tooltip +:+ "</span></div></div>"
  | None => EmptyString
  end.

(** [SourceMap::new_source_file] of a fresh map, up to the normalised text; a text of 4 GB
    raises a fatal error that nothing catches here. *)
Definition new_source_file (src : string) : outcome string :=
  if (N.of_nat (String.length src) + 1 <? 2 ^ 32)%N then
    r ← SourceFile.normalize_src src 0;
    let '(src, _) := (r : string * list SourceFile.NormalizedPos) in
    if (N.of_nat (String.length src) <? 2 ^ 32)%N then mret src else Panicked
  else Panicked.

(** [catch_fatal_errors] around the classifier: [Err] for errors and fatal errors alike. *)
Definition highlight_result (src : string) : outcome (option string) :=
  match write_source (StringReader_new src) EmptyString with
  | Done (_, highlighted_source) => mret (Some highlighted_source)
  | Error _ | FatalErrorRaised => mret None
  | Panics => Panicked
  end.

Definition render_with_highlighting (src : string) (class playground_button : option string)
    (tooltip : option (string * string)) : outcome string :=
  let out := write_tooltip tooltip in
  sf ← new_source_file src;
  result ← highlight_result sf;
  match (result : option string) with
  | Some highlighted_source =>
      mret (out +:+ write_header class +:+ highlighted_source +:+ write_footer playground_button)
  | None =>
      text ← Escape src;
      mret (out +:+ "<pre><code>" +:+ text +:+ "</code></pre>")
  end.
End classifier.
Arguments Simple {W} klass c.
Arguments Written {W} c w.

(** ** The reference *)

Inductive Call := Enter (klass : Class_) | Exit | Text (text : string) (klass : Class_).

Definition play_call {W} `{Writer W} (call : Call) (w : W) : option W :=
  match call with
  | Enter klass => enter_span klass w
  | Exit => exit_span w
  | Text text klass => string_ text klass w
  end.
Fixpoint play {W} `{Writer W} (calls : list Call) (w : W) : option W :=
  match calls with
  | [] => Some w
  | call :: calls => w ← play_call call w; play calls w
  end.

(** The tokens up to the end, or up to the first that cannot be lexed. *)
Inductive Ending := Finished | LexFailed | Fatal.

#[export] Instance Ending_eq_dec : EqDecision Ending.
Proof. solve_decision. Defined.

Fixpoint tokens (l : Lexer) : list Token * Ending :=
  match l with
  | LexEnd => ([], Finished)
  | LexFatal => ([], Fatal)
  | LexToken t rest =>
      match kind t with
      | Unknown _ => ([], LexFailed)
      | Eof => ([], Finished)
      | _ => let '(ts, e) := tokens rest in (t :: ts, e)
      end
  end.

(** What follows; [None] when it cannot be lexed. *)
Definition lookahead (ts : list Token) (e : Ending) : option TokenKind :=
  match ts, e with
  | t :: _, _ => Some (kind t)
  | [], Finished => Some Eof
  | [], _ => None
  end.

(** The class of a token that has the same one everywhere. *)
Definition plain_class (k : TokenKind) : Class_ :=
  match k with
  | Comment => Comment_
  | DocComment _ => DocComment_
  | Not | Eq | Lt | Le | EqEq | Ne | Ge | Gt | AndAnd | OrOr | BinOp _ | RArrow | BinOpEq _
  | FatArrow => Op
  | Question => QuestionMark
  | Literal lit => match lit_kind lit with Integer | Float => Number | _ => String_ end
  | Lifetime _ => Lifetime_
  | _ => None_
  end.

Definition opens_attribute (next : TokenKind) : bool := bool_decide (next = OpenDelim Bracket).
Definition enter_attribute (next : TokenKind) : list Call :=
  if opens_attribute next then [Enter Attribute] else [].

Section reference.
Context (rust_2018 : bool).

(** The calls for a list of tokens: [attr]: inside an attribute; [dollar]: the next name that
    is no keyword is the one behind a [$]. Nothing is written for a token that needs a look
    at one that cannot be lexed. *)
Fixpoint spans (e : Ending) (attr dollar : bool) (ts : list Token) : list Call :=
  match ts with
  | [] => []
  | t :: ts1 =>
      let text := Text (escape_text (snippet t)) in
      match kind t with
      | Shebang s => Text (escape_text s) None_ :: spans e attr dollar ts1
      | BinOp (And | Star) =>
          match lookahead ts1 e with
          | None => []
          | Some next =>
              text (if bool_decide (next = Whitespace) then Op else RefKeyWord)
                :: spans e attr dollar ts1
          end
      | Dollar =>
          match lookahead ts1 e with
          | None => []
          | Some next =>
              text (if is_ident next then MacroNonTerminal else None_)
                :: spans e attr (is_ident next || dollar) ts1
          end
      | Pound =>
          match lookahead ts1 e with
          | None => []
          | Some next =>
              match ts1 with
              | (mk_Token Not _) :: ts2 =>
                  match lookahead ts2 e with
                  | None => []
                  | Some next =>
                      enter_attribute next ++ Text "#" None_ :: Text "!" None_
                        :: spans e (opens_attribute next || attr) dollar ts2
                  end
              | _ =>
                  enter_attribute next ++ Text "#" None_
                    :: spans e (opens_attribute next || attr) dollar ts1
              end
          end
      | CloseDelim Bracket =>
          if attr then Text "]" None_ :: Exit :: spans e false dollar ts1
          else text None_ :: spans e attr dollar ts1
      | Ident name is_raw =>
          match name_class rust_2018 name is_raw with
          | Some klass => text klass :: spans e attr dollar ts1
          | None =>
              if dollar then text MacroNonTerminal :: spans e attr false ts1
              else
                match lookahead ts1 e with
                | None => []
                | Some _ =>
                    match ts1 with
                    | (mk_Token Not bang) :: ts2 =>
                        text Macro :: Text (escape_text bang) Macro :: spans e attr dollar ts2
                    | _ => text Ident_ :: spans e attr dollar ts1
                    end
                end
          end
      | k => text (plain_class k) :: spans e attr dollar ts1
      end
  end.

(** What the lexer makes of a token: its text is UTF-8; the punctuation is written as it is;
    a shebang is the text behind its [#!]; there are no literals of kind [Bool]. *)
Definition token_ok (t : Token) : Prop :=
  str_utf8 (snippet t) /\
  match kind t with
  | Shebang s => snippet t = "#!" +:+ s /\ str_utf8 s
  | Pound => snippet t = "#"
  | Not => snippet t = "!"
  | CloseDelim Bracket => snippet t = "]"
  | Literal lit => lit_kind lit <> Bool
  | _ => True
  end.

(** ** The classifier makes the calls of the reference *)

(** What a classifier has not yet taken. *)
Definition remaining (c : Classifier) : list Token * Ending :=
  match peek_token c with
  | Some t => if bool_decide (kind t = Eof) then ([], Finished)
              else let '(ts, e) := tokens (lexer c) in (t :: ts, e)
  | None => tokens (lexer c)
  end.

Definition flags (c : Classifier) : bool * bool * bool :=
  (in_attribute c, in_macro c, in_macro_nonterminal c).

(** How it ends when the next token cannot be had. *)
Definition failed {A} (e : Ending) : Hl A :=
  match e with LexFailed => Error LexError | _ => FatalErrorRaised end.

Lemma next_token_tokens l :
  match tokens l with
  | (t :: ts, e) => exists l', next_token l = Done (t, l') /\ tokens l' = (ts, e) /\ kind t <> Eof
  | ([], Finished) => exists t l', next_token l = Done (t, l') /\ kind t = Eof
  | ([], e) => next_token l = failed e
  end.
Proof.
  destruct l as [| |t l]; cbn [tokens next_token]; [by eauto|done|].
  destruct (kind t) eqn:Hk; try done; try (by eauto);
    (destruct (tokens l) as [ts e] eqn:Hl; exists l; by rewrite Hk).
Qed.

Lemma try_next_remaining c :
  match remaining c with
  | (t :: ts, e) => exists c', try_next_token c = Done (t, c') /\ remaining c' = (ts, e) /\
      flags c' = flags c /\ kind t <> Eof
  | ([], Finished) => exists t c', try_next_token c = Done (t, c') /\ kind t = Eof
  | ([], e) => try_next_token c = failed e
  end.
Proof.
  unfold remaining, try_next_token. destruct (peek_token c) as [t|] eqn:Hp.
  - case_bool_decide as Hk; [by eauto|]. destruct (tokens (lexer c)) as [ts e] eqn:Ht. eauto 6.
  - pose proof (next_token_tokens (lexer c)) as Hn. destruct (tokens (lexer c)) as [[|t ts] e].
    + destruct e; [destruct Hn as (t & l & -> & Hk)|rewrite Hn..]; cbn; [by eauto|done..].
    + destruct Hn as (l & -> & Hl & Hk). cbn. eauto 6.
Qed.

Lemma peek_remaining c :
  match lookahead (remaining c).1 (remaining c).2 with
  | Some k => exists c', peek c = Done (k, c') /\ remaining c' = remaining c /\ flags c' = flags c
  | None => peek c = failed (remaining c).2
  end.
Proof.
  unfold remaining, peek. destruct (peek_token c) as [t|] eqn:Hp.
  - case_bool_decide as Hk; cbn [fst snd lookahead].
    + rewrite <- Hk. exists c. rewrite Hp, bool_decide_true by done. done.
    + destruct (tokens (lexer c)) as [ts e] eqn:Ht. cbn. exists c.
      by rewrite Hp, bool_decide_false, Ht by done.
  - pose proof (next_token_tokens (lexer c)) as Hn. destruct (tokens (lexer c)) as [[|t ts] e]; cbn.
    + destruct e; [destruct Hn as (t & l & -> & Hk)|rewrite Hn..]; cbn; [|done..].
      rewrite <- Hk. eexists. split; [done|]. cbn. by rewrite bool_decide_true.
    + destruct Hn as (l & -> & Hl & Hk). cbn. eexists. split; [done|]. cbn.
      by rewrite bool_decide_false, Hl.
Qed.

(** The result of a run whose calls were played. *)
Definition finishes {W} (e : Ending) (w : option W) (r : Hl (Classifier * W)) : Prop :=
  match w with
  | None => r = Error IoError
  | Some w => match e with Finished => exists c, r = Done (c, w) | _ => r = failed e end
  end.

Section run.
Context `{Writer W}.
Implicit Types (w : W) (calls : list Call).

#[local] Abbreviation write_source_loop := (write_source_loop rust_2018).
#[local] Abbreviation write_token := (write_token rust_2018).
#[local] Abbreviation classify := (classify rust_2018).

Lemma finishes_call e call calls w (k : W -> Hl (Classifier * W)) :
  (forall w', finishes e (play calls w') (k w')) ->
  finishes e (play (call :: calls) w) (out ← io (play_call call w); k out).
Proof. intros Hk. cbn [play]. destruct (play_call call w) as [w'|]; [apply Hk|done]. Qed.

Lemma finishes_failed e ts w : lookahead ts e = None -> finishes e (Some w) (failed e).
Proof. by destruct ts, e. Qed.

Lemma failed_bind {A B} e (f : A -> Hl B) : failed e ≫= f = failed e.
Proof. by destruct e. Qed.

Lemma loop_step fuel c t ts e w calls :
  remaining c = (t :: ts, e) ->
  (forall c', remaining c' = (ts, e) -> flags c' = flags c ->
     finishes e (play calls w)
       (r ← write_token c' w t;
        let '(c, out) := (r : Classifier * W) in write_source_loop fuel c out)) ->
  finishes e (play calls w) (write_source_loop (S fuel) c w).
Proof.
  intros Hc Hstep. pose proof (try_next_remaining c) as Hn. rewrite Hc in Hn.
  destruct Hn as (c' & Hnext & Hc' & Hf & Hk). cbn [Highlight.write_source_loop]. rewrite Hnext.
  cbn [mbind Hl_bind]. rewrite bool_decide_false by done. by apply Hstep.
Qed.

Lemma simple_step c c' w t klass calls e (k : Classifier * W -> Hl (Classifier * W)) :
  str_utf8 (snippet t) -> classify c w t = Done (Simple klass c') ->
  (forall w', finishes e (play calls w') (k (c', w'))) ->
  finishes e (play (Text (escape_text (snippet t)) klass :: calls) w) (r ← write_token c w t; k r).
Proof.
  intros Hu Hc Hk. unfold Highlight.write_token. rewrite Hc. cbn [mbind Hl_bind].
  rewrite escape_returns by done. cbn [mbind Hl_bind running].
  apply (finishes_call e (Text (escape_text (snippet t)) klass) calls w) in Hk.
  cbn [play_call] in Hk. destruct (string_ (escape_text (snippet t)) klass w); exact Hk.
Qed.

Lemma failed_step c t ts e w (k : Classifier * W -> Hl (Classifier * W)) :
  lookahead ts e = None -> classify c w t = failed e ->
  finishes e (Some w) (r ← write_token c w t; k r).
Proof.
  intros Hl Hc. unfold Highlight.write_token. rewrite Hc, !failed_bind. by eapply finishes_failed.
Qed.

(** The loop on what is left, when no name of a macro is pending. *)
Definition follows (fuel : nat) : Prop := forall c w ts e attr dollar,
  remaining c = (ts, e) -> flags c = (attr, false, dollar) -> Forall token_ok ts ->
  length ts < fuel ->
  finishes e (play (spans e attr dollar ts) w) (write_source_loop fuel c w).

#[local] Abbreviation step fuel r :=
  (let '(c, out) := (r : Classifier * W) in write_source_loop fuel c out) (only parsing).

Tactic Notation "look" hyp(c) hyp(Hc) ident(next) ident(c1) ident(Hl) ident(Hp) ident(Hc1) ident(Hf1) :=
  pose proof (peek_remaining c) as Hp; rewrite Hc in Hp; cbn [fst snd] in Hp;
  destruct (lookahead _ _) as [next|] eqn:Hl; [destruct Hp as (c1 & Hp & Hc1 & Hf1)|].

Lemma unfold_flags c attr macro dollar : flags c = (attr, macro, dollar) ->
  in_attribute c = attr /\ in_macro c = macro /\ in_macro_nonterminal c = dollar.
Proof. by intros [= -> -> ->]. Qed.

Lemma ref_step fuel c t ts e w attr dollar op : follows fuel ->
  remaining c = (ts, e) -> flags c = (attr, false, dollar) -> token_ok t -> Forall token_ok ts ->
  length ts < fuel -> kind t = BinOp op -> op = And \/ op = Star ->
  finishes e (play (spans e attr dollar (t :: ts)) w) (r ← write_token c w t; step fuel r).
Proof.
  intros Hfol Hc Hf [Ht _] Hts Hfuel Hk Hop. cbn [spans]. rewrite Hk.
  assert (Hcl : classify c w t = r ← peek c; let '(next, c) := (r : TokenKind * Classifier) in
    mret (Simple (if bool_decide (next <> Whitespace) then RefKeyWord else Op) c)).
  { unfold Highlight.classify. rewrite Hk. by destruct Hop as [-> | ->]. }
  look c Hc next c1 Hl Hp Hc1 Hf1.
  - assert (Hgoal : finishes e (play (Text (escape_text (snippet t))
        (if bool_decide (next = Whitespace) then Op else RefKeyWord) :: spans e attr dollar ts) w)
        (r ← write_token c w t; step fuel r)).
    { eapply simple_step; [done| |].
      - rewrite Hcl, Hp. cbn. case_bool_decide as Ha; case_bool_decide as Hb; done.
      - intros w'. apply Hfol; congruence. }
    by destruct Hop as [-> | ->].
  - rewrite Hp in Hcl. rewrite failed_bind in Hcl.
    destruct Hop as [-> | ->]; by eapply failed_step.
Qed.

Lemma dollar_step fuel c t ts e w attr dollar : follows fuel ->
  remaining c = (ts, e) -> flags c = (attr, false, dollar) -> token_ok t -> Forall token_ok ts ->
  length ts < fuel -> kind t = Dollar ->
  finishes e (play (spans e attr dollar (t :: ts)) w) (r ← write_token c w t; step fuel r).
Proof.
  intros Hfol Hc Hf [Ht _] Hts Hfuel Hk. cbn [spans]. rewrite Hk.
  assert (Hcl : classify c w t = r ← peek c; let '(next, c) := (r : TokenKind * Classifier) in
    mret (if is_ident next then Simple MacroNonTerminal (set_in_macro_nonterminal true c)
          else Simple None_ c)).
  { unfold Highlight.classify. by rewrite Hk. }
  look c Hc next c1 Hl Hp Hc1 Hf1.
  - eapply simple_step with (c' := if is_ident next then set_in_macro_nonterminal true c1 else c1).
    + done.
    + rewrite Hcl, Hp. cbn. by destruct (is_ident next).
    + intros w'. rewrite Hf in Hf1. apply unfold_flags in Hf1 as (Ha & Hm & Hd).
      apply Hfol; [by destruct (is_ident next)| |done..].
      destruct (is_ident next); unfold flags; cbn; congruence.
  - rewrite Hp, failed_bind in Hcl. by eapply failed_step.
Qed.

Lemma play_app pre calls w : play (pre ++ calls) w = play pre w ≫= play calls.
Proof.
  revert w. induction pre as [|call pre IH]; intros w; [done|]. cbn [play app].
  destruct (play_call call w) as [w'|]; [apply IH|done].
Qed.

(** A token that is written by the match itself. *)
Lemma written_step c c' w t pre calls e (k : Classifier * W -> Hl (Classifier * W)) :
  classify c w t = (out ← io (play pre w); mret (Written c' out)) ->
  (forall w', finishes e (play calls w') (k (c', w'))) ->
  finishes e (play (pre ++ calls) w) (r ← write_token c w t; k r).
Proof.
  intros Hc Hk. unfold Highlight.write_token. rewrite Hc, play_app.
  destruct (play pre w) as [w'|]; [apply Hk|done].
Qed.

(** The calls of the match, one by one. *)
Ltac play_calls :=
  cbn [play play_call mbind option_bind Hl_bind mret Hl_ret io app];
  repeat (match goal with
    | |- context [string_ ?t ?k ?w] => destruct (string_ t k w)
    | |- context [enter_span ?k ?w] => destruct (enter_span k w)
    | |- context [exit_span ?w] => destruct (exit_span w)
    end; cbn [mbind option_bind Hl_bind mret Hl_ret io]);
  try reflexivity.

Lemma bracket_step fuel c t ts e w attr dollar : follows fuel ->
  remaining c = (ts, e) -> flags c = (attr, false, dollar) -> token_ok t -> Forall token_ok ts ->
  length ts < fuel -> kind t = CloseDelim Bracket ->
  finishes e (play (spans e attr dollar (t :: ts)) w) (r ← write_token c w t; step fuel r).
Proof.
  intros Hfol Hc Hf [Ht _] Hts Hfuel Hk. cbn [spans]. rewrite Hk. pose proof Hf as Hf'.
  apply unfold_flags in Hf' as (Ha & Hm & Hd). destruct attr.
  - apply (written_step c (set_in_attribute false c) w t [Text "]" None_; Exit]).
    + unfold Highlight.classify. rewrite Hk, Ha. play_calls.
    + intros w'. apply Hfol; try done. unfold flags. cbn. congruence.
  - apply (simple_step c c); [done| |].
    + unfold Highlight.classify. by rewrite Hk, Ha.
    + intros w'. by apply Hfol.
Qed.

Lemma shebang_step fuel c t ts e w attr dollar s : follows fuel ->
  remaining c = (ts, e) -> flags c = (attr, false, dollar) -> token_ok t -> Forall token_ok ts ->
  length ts < fuel -> kind t = Shebang s ->
  finishes e (play (spans e attr dollar (t :: ts)) w) (r ← write_token c w t; step fuel r).
Proof.
  intros Hfol Hc Hf [Ht Hs] Hts Hfuel Hk. cbn [spans]. rewrite Hk in *. destruct Hs as [_ Hs].
  apply (written_step c c w t [Text (escape_text s) None_]).
  - unfold Highlight.classify. rewrite Hk, escape_returns by done. cbn [running mbind Hl_bind].
    play_calls.
  - intros w'. by apply Hfol.
Qed.

(** The end of the match over [#]: the span of an attribute is opened when a bracket follows. *)
Lemma opening_step c c1 w t next pre calls e (k : Classifier * W -> Hl (Classifier * W)) :
  classify c w t =
    (r ← (if bool_decide (next = OpenDelim Bracket) then
            out ← io (enter_span Attribute w);
            mret (set_in_attribute true c1, out)
          else mret (c1, w));
     let '(c, out) := (r : Classifier * W) in
     out ← io (play pre out);
     mret (Written c out)) ->
  (forall w', finishes e (play calls w')
     (k (set_in_attribute (opens_attribute next || in_attribute c1) c1, w'))) ->
  finishes e (play (enter_attribute next ++ pre ++ calls) w) (r ← write_token c w t; k r).
Proof.
  intros Hc Hk. rewrite app_assoc. unfold enter_attribute, opens_attribute in *.
  apply (written_step c (set_in_attribute (bool_decide (next = OpenDelim Bracket) || in_attribute c1) c1));
    [|done]. rewrite Hc. case_bool_decide as Hn; cbn [app orb].
  - cbn [play play_call mbind option_bind]. by destruct (enter_span Attribute w).
  - cbn [mbind Hl_bind mret Hl_ret]. by destruct c1.
Qed.

Lemma pound_step fuel c t ts e w attr dollar : (forall n, n <= fuel -> follows n) ->
  remaining c = (ts, e) -> flags c = (attr, false, dollar) -> token_ok t -> Forall token_ok ts ->
  length ts < fuel -> kind t = Pound ->
  finishes e (play (spans e attr dollar (t :: ts)) w) (r ← write_token c w t; step fuel r).
Proof.
  intros Hfol Hc Hf [Ht _] Hts Hfuel Hk. cbn [spans]. rewrite Hk.
  look c Hc next c1 Hl Hp Hc1 Hf1.
  2: { eapply failed_step; [done|]. unfold Highlight.classify. by rewrite Hk, Hp, failed_bind. }
  rewrite Hf in Hf1. destruct (decide (next = Not)) as [->|Hnot].
  - destruct ts as [|[k bang] ts2]; [by destruct e|]. injection Hl as ->.
    apply Forall_cons in Hts as [Hbang Hts].
    pose proof (try_next_remaining c1) as Hn. rewrite Hc1 in Hn.
    destruct Hn as (c2 & Hn & Hc2 & Hf2 & _). rewrite Hf1 in Hf2.
    assert (Hcl : classify c w t =
      r ← peek c2;
      let '(next, c) := (r : TokenKind * Classifier) in
      r ← (if bool_decide (next = OpenDelim Bracket) then
             out ← io (enter_span Attribute w);
             mret (set_in_attribute true c, out)
           else mret (c, w));
      let '(c, out) := (r : Classifier * W) in
      out ← io (string_ "#" None_ out);
      out ← io (string_ "!" None_ out);
      mret (Written c out)).
    { unfold Highlight.classify. rewrite Hk, Hp. cbn. by rewrite Hn. }
    look c2 Hc2 next c3 Hl3 Hp3 Hc3 Hf3.
    2: { rewrite Hp3, failed_bind in Hcl. by eapply failed_step. }
    rewrite Hf2 in Hf3. apply unfold_flags in Hf3 as (Ha & Hm & Hd).
    apply (opening_step c c3 w t next [Text "#" None_; Text "!" None_]).
    + rewrite Hcl, Hp3. cbn [mbind Hl_bind]. case_bool_decide; play_calls.
    + intros w'. rewrite Ha. apply (Hfol fuel); try done; [|cbn in Hfuel; lia].
      unfold flags. cbn. congruence.
  - assert (Hspans : match ts with
      | (mk_Token Not _) :: ts2 =>
          match lookahead ts2 e with
          | None => []
          | Some next =>
              enter_attribute next ++ Text "#" None_ :: Text "!" None_
                :: spans e (opens_attribute next || attr) dollar ts2
          end
      | _ =>
          enter_attribute next ++ Text "#" None_
            :: spans e (opens_attribute next || attr) dollar ts
      end = enter_attribute next ++ [Text "#" None_] ++ spans e (opens_attribute next || attr) dollar ts).
    { destruct ts as [|[k x] ts2]; [done|]. injection Hl as ->. by destruct next. }
    rewrite Hspans. pose proof Hf1 as Hf1'. apply unfold_flags in Hf1' as (Ha & Hm & Hd).
    pose proof (peek_remaining c1) as Hp2. rewrite Hc1 in Hp2. cbn [fst snd] in Hp2. rewrite Hl in Hp2.
    destruct Hp2 as (c2 & Hp2 & Hc2 & Hf2). rewrite Hf1 in Hf2.
    apply unfold_flags in Hf2 as (Ha2 & Hm2 & Hd2).
    apply (opening_step c c2).
    + unfold Highlight.classify. rewrite Hk, Hp. cbn [mbind Hl_bind].
      rewrite bool_decide_false by done. rewrite Hp2. cbn [mbind Hl_bind].
      case_bool_decide; play_calls.
    + intros w'. rewrite Ha2. apply (Hfol fuel); try done.
      unfold flags. cbn. congruence.
Qed.

(** A name before [!]: the next round of the loop takes the [!] as part of the macro. *)
Lemma bang_step fuel c bang ts e w attr : (forall n, n <= fuel -> follows n) ->
  remaining c = (mk_Token Not bang :: ts, e) -> flags c = (attr, true, false) ->
  str_utf8 bang -> Forall token_ok ts -> S (length ts) < fuel ->
  finishes e (play (Text (escape_text bang) Macro :: spans e attr false ts) w)
    (write_source_loop fuel c w).
Proof.
  intros Hfol Hc Hf Hb Hts Hfuel. destruct fuel as [|fuel]; [lia|].
  apply (loop_step _ _ _ _ _ _ _ Hc). intros c' Hc' Hf'. rewrite Hf in Hf'.
  apply unfold_flags in Hf' as (Ha & Hm & Hd).
  apply (simple_step c' (set_in_macro false c') w (mk_Token Not bang) Macro); [done| |].
  - unfold Highlight.classify. cbn [kind]. by rewrite Hm.
  - intros w'. apply (Hfol fuel); try done; try lia. unfold flags. cbn. congruence.
Qed.

Lemma ident_step fuel c t ts e w attr dollar name is_raw : (forall n, n <= fuel -> follows n) ->
  remaining c = (ts, e) -> flags c = (attr, false, dollar) -> token_ok t -> Forall token_ok ts ->
  length ts < fuel -> kind t = Ident name is_raw ->
  finishes e (play (spans e attr dollar (t :: ts)) w) (r ← write_token c w t; step fuel r).
Proof.
  intros Hfol Hc Hf [Ht _] Hts Hfuel Hk. cbn [spans]. rewrite Hk.
  pose proof Hf as Hf'. apply unfold_flags in Hf' as (Ha & Hm & Hd).
  destruct (name_class rust_2018 name is_raw) as [klass|] eqn:Hclass.
  { apply (simple_step c c); [done| |].
    - unfold Highlight.classify. by rewrite Hk, Hclass.
    - intros w'. by apply (Hfol fuel). }
  destruct dollar.
  { apply (simple_step c (set_in_macro_nonterminal false c)); [done| |].
    - unfold Highlight.classify. by rewrite Hk, Hclass, Hd.
    - intros w'. apply (Hfol fuel); try done. unfold flags. cbn. congruence. }
  look c Hc next c1 Hl Hp Hc1 Hf1.
  2: { eapply failed_step; [done|]. unfold Highlight.classify.
       by rewrite Hk, Hclass, Hd, Hp, failed_bind. }
  rewrite Hf in Hf1. destruct (decide (next = Not)) as [->|Hnot].
  - destruct ts as [|[k bang] ts2]; [by destruct e|]. injection Hl as ->.
    apply Forall_cons in Hts as [Hbang Hts].
    apply unfold_flags in Hf1 as (Ha1 & Hm1 & Hd1).
    apply (simple_step c (set_in_macro true c1)); [done| |].
    + unfold Highlight.classify. rewrite Hk, Hclass, Hd, Hp. cbn. by rewrite bool_decide_true.
    + intros w'. apply bang_step; try done; [|apply Hbang].
      unfold flags. cbn. congruence.
  - assert (Hspans : match ts with
      | (mk_Token Not bang) :: ts2 =>
          Text (escape_text (snippet t)) Macro :: Text (escape_text bang) Macro
            :: spans e attr false ts2
      | _ => Text (escape_text (snippet t)) Ident_ :: spans e attr false ts
      end = Text (escape_text (snippet t)) Ident_ :: spans e attr false ts).
    { destruct ts as [|[k x] ts2]; [done|]. injection Hl as ->. by destruct next. }
    rewrite Hspans. apply (simple_step c c1); [done| |].
    + unfold Highlight.classify. rewrite Hk, Hclass, Hd, Hp. cbn. by rewrite bool_decide_false.
    + intros w'. by apply (Hfol fuel).
Qed.

(** Every other token is a span of its own. *)
Lemma plain_step fuel c t ts e w attr dollar : follows fuel ->
  remaining c = (ts, e) -> flags c = (attr, false, dollar) -> token_ok t -> Forall token_ok ts ->
  length ts < fuel ->
  spans e attr dollar (t :: ts) =
    Text (escape_text (snippet t)) (plain_class (kind t)) :: spans e attr dollar ts ->
  classify c w t = Done (Simple (plain_class (kind t)) c) ->
  finishes e (play (spans e attr dollar (t :: ts)) w) (r ← write_token c w t; step fuel r).
Proof.
  intros Hfol Hc Hf [Ht _] Hts Hfuel -> Hcl. apply (simple_step c c); [done..|].
  intros w'. by apply Hfol.
Qed.

Lemma loop_follows fuel : follows fuel.
Proof.
  induction fuel as [fuel IH] using lt_wf_ind. intros c w ts e attr dollar Hc Hf Hts Hfuel.
  destruct fuel as [|fuel]; [lia|].
  assert (Hfol : forall n, n <= fuel -> follows n) by (intros n Hn; apply IH; lia). clear IH.
  destruct ts as [|t ts].
  { pose proof (try_next_remaining c) as Hn. rewrite Hc in Hn. cbn [spans play finishes].
    cbn [Highlight.write_source_loop]. destruct e; [destruct Hn as (t & c' & -> & Hk)|rewrite Hn..];
      cbn; [|done..]. rewrite bool_decide_true by done. by eexists. }
  apply Forall_cons in Hts as [Ht Hts]. cbn [length] in Hfuel.
  apply (loop_step _ _ _ _ _ _ _ Hc). intros c' Hc' Hf'. rewrite Hf in Hf'.
  assert (Hlt : length ts < fuel) by lia. pose proof (Hfol fuel (le_n _)) as Hf0.
  pose proof Hf' as Hf''. apply unfold_flags in Hf'' as (Ha & Hm & Hd).
  destruct (kind t) as [| | | | | | | | | | |op| | | | | | | | | | | | | | | | | | |delim|lit|name is_raw
    | | | | | |s| |] eqn:Hk.
  all: try (by eapply pound_step); try (by eapply dollar_step); try (by eapply shebang_step);
    try (by eapply ident_step).
  all: try (apply plain_step; try done; [cbn [spans]; rewrite Hk; reflexivity
    |unfold Highlight.classify; rewrite Hk; try rewrite Hm; reflexivity]).
  - destruct op; try (eapply ref_step; try done; tauto);
      (apply plain_step; try done; [cbn [spans]; rewrite Hk; reflexivity
      |unfold Highlight.classify; rewrite Hk; reflexivity]).
  - destruct delim; try (by eapply bracket_step);
      (apply plain_step; try done; [cbn [spans]; rewrite Hk; reflexivity
      |unfold Highlight.classify; rewrite Hk; reflexivity]).
  - apply plain_step; try done; [cbn [spans]; rewrite Hk; reflexivity|].
    unfold Highlight.classify. rewrite Hk. destruct Ht as [_ Ht]. rewrite Hk in Ht.
    unfold plain_class. by destruct (lit_kind lit).
Qed.

Lemma write_source_calls l w ts e : tokens l = (ts, e) -> Forall token_ok ts ->
  finishes e (play (spans e false false ts) w) (write_source rust_2018 l w).
Proof.
  intros Hl Hts. apply loop_follows; try done.
  assert (Hlen : forall l, length (tokens l).1 <= lexer_length l).
  { clear. induction l as [| |t l IH]; [done..|]. cbn. destruct (tokens l) as [ts e]. cbn in IH.
    destruct (kind t); cbn; lia. }
  specialize (Hlen l). rewrite Hl in Hlen. cbn in Hlen. lia.
Qed.
End run.
End reference.

(** ** The text of the calls *)

Fixpoint text_of (calls : list Call) : string :=
  match calls with
  | [] => EmptyString
  | Text text _ :: calls => text +:+ text_of calls
  | _ :: calls => text_of calls
  end.

(** The spans that are open at the end; [None]: more are closed than were opened. *)
Fixpoint nesting (depth : nat) (calls : list Call) : option nat :=
  match calls with
  | [] => Some depth
  | Enter _ :: calls => nesting (S depth) calls
  | Exit :: calls => match depth with O => None | S depth => nesting depth calls end
  | Text _ _ :: calls => nesting depth calls
  end.

(** What a buffer holds after the calls. *)
Fixpoint html_of (calls : list Call) : string :=
  match calls with
  | [] => EmptyString
  | Enter klass :: calls => open_tag klass +:+ html_of calls
  | Exit :: calls => "</span>" +:+ html_of calls
  | Text text None_ :: calls => text +:+ html_of calls
  | Text text klass :: calls => open_tag klass +:+ text +:+ "</span>" +:+ html_of calls
  end.

(** A text without its tags. *)
Fixpoint untag (inside : bool) (s : string) : string :=
  match s with
  | EmptyString => EmptyString
  | String c s =>
      let n := Ascii.nat_of_ascii c in
      if inside then untag (negb (n =? 62)) s
      else if n =? 60 then untag true s
      else String c (untag false s)
  end.

Lemma play_buffer calls : forall w : string, play calls w = Some (w +:+ html_of calls).
Proof.
  induction calls as [|call calls IH]; intros w; cbn [play html_of]; [by rewrite str_app_nil_r|].
  destruct call as [klass| |text klass]; cbn [play_call];
    [..|destruct klass]; cbn [enter_span exit_span string_ buffer_writer mbind option_bind];
    rewrite IH; by rewrite <- ?str_app_assoc.
Qed.

Lemma untag_plain a b : plain a = true -> untag false (a +:+ b) = a +:+ untag false b.
Proof.
  induction a as [|c a IH]; [done|]. unfold plain in *. cbn.
  intros [Hc Ha]%andb_true_iff. apply negb_true_iff, orb_false_iff in Hc as [-> _].
  by rewrite (IH Ha).
Qed.

Lemma untag_open klass b : untag false (open_tag klass +:+ b) = untag false b.
Proof. by destruct klass. Qed.

(** Texts without markup. *)
Definition plain_call (call : Call) : Prop :=
  match call with Text text _ => plain text = true | _ => True end.

Lemma untag_calls calls : Forall plain_call calls -> untag false (html_of calls) = text_of calls.
Proof.
  induction 1 as [|call calls Hc _ IH]; [done|]. destruct call as [klass| |text klass]; cbn [html_of text_of].
  - by rewrite untag_open.
  - exact IH.
  - assert (Htag : untag false (open_tag klass +:+ text +:+ "</span>" +:+ html_of calls)
      = text +:+ text_of calls) by (by rewrite untag_open, untag_plain, <- IH).
    destruct klass; try exact Htag. by rewrite untag_plain, IH.
Qed.

Lemma escape_text_app s t : escape_text (s +:+ t) = escape_text s +:+ escape_text t.
Proof.
  induction s as [|c s IH]; [done|]. cbn. destruct (escaped_char c); cbn; rewrite IH; [|done].
  by rewrite str_app_assoc.
Qed.

(** The text that is shown for a token. *)
Definition shown (t : Token) : string :=
  match kind t with Shebang s => s | _ => snippet t end.
Definition concat_str (v : list string) : string := foldr String.append EmptyString v.

(** Induction on a list by one or two elements. *)
Lemma list_ind_two {A} (P : list A -> Prop) :
  (forall l, (forall k, length k < length l -> P k) -> P l) -> forall l, P l.
Proof. intros Hstep l. induction l as [l IH] using (induction_ltof1 _ length). by apply Hstep. Qed.

Section text.
Context (rust_2018 : bool).
#[local] Abbreviation spans := (spans rust_2018).

(** A property of the calls of every token. *)
Lemma spans_cases (Q : bool -> bool -> list Token -> list Call -> Prop) e :
  (forall attr dollar, Q attr dollar [] []) ->
  (forall attr dollar ts, e <> Finished -> ts <> [] -> Q attr dollar ts []) ->
  (forall attr dollar dollar' t ts klass calls, kind t <> Pound -> (forall s, kind t <> Shebang s) ->
     Q attr dollar' ts calls ->
     Q attr dollar (t :: ts) (Text (escape_text (snippet t)) klass :: calls)) ->
  (forall attr dollar t s ts calls, kind t = Shebang s -> Q attr dollar ts calls ->
     Q attr dollar (t :: ts) (Text (escape_text s) None_ :: calls)) ->
  (forall dollar t ts calls, kind t = CloseDelim Bracket -> Q false dollar ts calls ->
     Q true dollar (t :: ts) (Text "]" None_ :: Exit :: calls)) ->
  (forall attr dollar t ts calls (next : bool), kind t = Pound -> Q (next || attr) dollar ts calls ->
     Q attr dollar (t :: ts) ((if next then [Enter Attribute] else []) ++ Text "#" None_ :: calls)) ->
  (forall attr dollar t bang ts calls (next : bool), kind t = Pound -> Q (next || attr) dollar ts calls ->
     Q attr dollar (t :: mk_Token Not bang :: ts)
       ((if next then [Enter Attribute] else []) ++ Text "#" None_ :: Text "!" None_ :: calls)) ->
  (forall attr dollar t bang ts calls, kind t <> Pound -> (forall s, kind t <> Shebang s) ->
     Q attr dollar ts calls ->
     Q attr dollar (t :: mk_Token Not bang :: ts)
       (Text (escape_text (snippet t)) Macro :: Text (escape_text bang) Macro :: calls)) ->
  forall ts attr dollar, Q attr dollar ts (spans e attr dollar ts).
Proof.
  intros Hnil Hstop Htext Hshebang Hclose Hpound Hpound2 Hmacro ts.
  induction ts as [ts IH] using list_ind_two. intros attr dollar.
  destruct ts as [|t ts]; [apply Hnil|].
  assert (Hts : forall attr dollar, Q attr dollar ts (spans e attr dollar ts)) by (intros; apply IH; cbn; lia).
  assert (Hnone : forall ts', lookahead ts' e = None -> e <> Finished).
  { by intros [|? ?]; destruct e. }
  cbn [Highlight.spans].
  destruct (kind t) as [| | | | | | | | | | |op| | | | | | | | | | | | | | | | | | |delim|lit|name is_raw
    | | | | | |s| |] eqn:Hk.
  all: try (apply (Htext _ _ dollar); [by rewrite Hk..|apply Hts]).
  - destruct op; try (apply (Htext _ _ dollar); [by rewrite Hk..|apply Hts]);
      (destruct (lookahead ts e) eqn:Hl; [apply (Htext _ _ dollar); [by rewrite Hk..|apply Hts]
      |apply Hstop; [by eapply Hnone|done]]).
  - destruct (lookahead ts e) as [next|] eqn:Hl; [|apply Hstop; [by eapply Hnone|done]].
    assert (Hone : Q attr dollar (t :: ts)
      (enter_attribute next ++ Text "#" None_ :: spans e (opens_attribute next || attr) dollar ts)).
    { apply Hpound; [done|apply Hts]. }
    destruct ts as [|[k bang] ts2]; [done|]. destruct k; try done.
    destruct (lookahead ts2 e) as [next2|] eqn:Hl2; [|apply Hstop; [by eapply Hnone|done]].
    apply Hpound2; [done|]. apply IH. cbn. lia.
  - destruct (lookahead ts e) as [next|] eqn:Hl; [|apply Hstop; [by eapply Hnone|done]].
    apply (Htext _ _ (is_ident next || dollar)); [by rewrite Hk..|apply Hts].
  - destruct delim; try (apply (Htext _ _ dollar); [by rewrite Hk..|apply Hts]).
    destruct attr; [by apply Hclose|]. apply (Htext _ _ dollar); [by rewrite Hk..|apply Hts].
  - destruct (name_class rust_2018 name is_raw).
    { apply (Htext _ _ dollar); [by rewrite Hk..|apply Hts]. }
    destruct dollar; [apply (Htext _ _ false); [by rewrite Hk..|apply Hts]|].
    destruct (lookahead ts e) as [next|] eqn:Hl; [|apply Hstop; [by eapply Hnone|done]].
    assert (Hone : Q attr false (t :: ts)
      (Text (escape_text (snippet t)) Ident_ :: spans e attr false ts)).
    { apply (Htext _ _ false); [by rewrite Hk..|apply Hts]. }
    destruct ts as [|[k bang] ts2]; [done|]. destruct k; try done.
    apply Hmacro; [by rewrite Hk..|]. apply IH. cbn. lia.
  - by apply Hshebang.
Qed.

Lemma spans_text ts attr dollar : Forall token_ok ts ->
  text_of (spans Finished attr dollar ts) = escape_text (concat_str (shown <$> ts)).
Proof.
  assert (Hsnip : forall t, (forall s, kind t <> Shebang s) -> shown t = snippet t).
  { intros t Ht. unfold shown. destruct (kind t); try done. by destruct (Ht s). }
  assert (Hfixed : forall t text, token_ok t -> (token_ok t -> snippet t = text) ->
    (forall s, kind t <> Shebang s) -> shown t = text).
  { intros t text Ht Htext Hs. rewrite Hsnip by done. by apply Htext. }
  revert attr dollar. pattern ts. apply list_ind_two. clear ts. intros ts _ attr dollar.
  revert ts attr dollar. apply (spans_cases
    (fun _ _ ts calls => Forall token_ok ts -> text_of calls = escape_text (concat_str (shown <$> ts)))).
  - done.
  - done.
  - intros _ _ _ t ts klass calls _ Hs IH [Ht Hts]%Forall_cons. cbn [text_of fmap list_fmap].
    change (concat_str (shown t :: (shown <$> ts))) with (shown t +:+ concat_str (shown <$> ts)).
    by rewrite escape_text_app, <- (IH Hts), Hsnip.
  - intros _ _ t s ts calls Hk IH [Ht Hts]%Forall_cons. cbn [text_of fmap list_fmap].
    change (concat_str (shown t :: (shown <$> ts))) with (shown t +:+ concat_str (shown <$> ts)).
    rewrite escape_text_app, <- (IH Hts). unfold shown. by rewrite Hk.
  - intros _ t ts calls Hk IH [Ht Hts]%Forall_cons. cbn [text_of fmap list_fmap].
    change (concat_str (shown t :: (shown <$> ts))) with (shown t +:+ concat_str (shown <$> ts)).
    destruct Ht as [_ Ht]. rewrite Hk in Ht. rewrite Hsnip, Ht by (by rewrite Hk).
    by rewrite escape_text_app, <- (IH Hts).
  - intros _ _ t ts calls next Hk IH [[_ Ht] Hts]%Forall_cons. rewrite Hk in Ht.
    change (concat_str (shown <$> t :: ts)) with (shown t +:+ concat_str (shown <$> ts)).
    rewrite escape_text_app, <- (IH Hts), Hsnip, Ht by (by rewrite Hk). by destruct next.
  - intros _ _ t bang ts calls next Hk IH [[_ Ht] [[_ Hb] Hts]%Forall_cons]%Forall_cons. rewrite Hk in Ht.
    cbn in Hb. subst bang.
    change (concat_str (shown <$> t :: mk_Token Not "!" :: ts))
      with (shown t +:+ "!" +:+ concat_str (shown <$> ts)).
    rewrite !escape_text_app, <- (IH Hts), Hsnip, Ht by (by rewrite Hk). by destruct next.
  - intros _ _ t bang ts calls _ Hs IH [Ht [[_ Hb] Hts]%Forall_cons]%Forall_cons.
    change (concat_str (shown <$> t :: mk_Token Not bang :: ts))
      with (shown t +:+ bang +:+ concat_str (shown <$> ts)).
    cbn [text_of]. by rewrite !escape_text_app, <- (IH Hts), Hsnip.
Qed.

Lemma spans_nesting e ts attr dollar depth : (attr = true -> 1 <= depth) ->
  is_Some (nesting depth (spans e attr dollar ts)).
Proof.
  revert depth. apply (spans_cases (fun attr _ _ calls =>
    forall depth, (attr = true -> 1 <= depth) -> is_Some (nesting depth calls))).
  - by eauto.
  - by eauto.
  - intros a _ _ t ts' klass calls _ _ IH depth Hd. by apply IH.
  - intros a _ t s ts' calls _ IH depth Hd. by apply IH.
  - intros _ t ts' calls _ IH [|depth] Hd; [specialize (Hd eq_refl); lia|]. by apply IH.
  - intros a _ t ts' calls next _ IH depth Hd. destruct next; cbn; apply IH; [lia|done].
  - intros a _ t bang ts' calls next _ IH depth Hd. destruct next; cbn; apply IH; [lia|done].
  - intros a _ t bang ts' calls _ _ IH depth Hd. by apply IH.
Qed.

Lemma spans_plain e ts attr dollar : Forall plain_call (spans e attr dollar ts).
Proof.
  assert (Hesc : forall s, plain (escape_text s) = true) by (intros s; apply inert_plain, escape_inert).
  apply (spans_cases (fun _ _ _ calls => Forall plain_call calls)).
  - by constructor.
  - by constructor.
  - intros _ _ _ t ts' klass calls _ _ IH. apply Forall_cons. split; [apply Hesc|exact IH].
  - intros _ _ t s ts' calls _ IH. apply Forall_cons. split; [apply Hesc|exact IH].
  - intros _ t ts' calls _ IH. by repeat apply Forall_cons_2.
  - intros _ _ t ts' calls next _ IH. destruct next; by repeat apply Forall_cons_2.
  - intros _ _ t bang ts' calls next _ IH. destruct next; by repeat apply Forall_cons_2.
  - intros _ _ t bang ts' calls _ _ IH. apply Forall_cons. split; [apply Hesc|].
    apply Forall_cons. split; [apply Hesc|exact IH].
Qed.
End text.

(** ** What the lexer promises *)

Definition is_shebang (t : Token) : bool := match kind t with Shebang _ => true | _ => false end.

(** The texts of the tokens make up the text; only the first one is a shebang. *)
Definition lexes (s : string) (l : Lexer) : Prop :=
  let '(ts, e) := tokens l in
  Forall token_ok ts /\ Forall (fun t => is_shebang t = false) (tail ts) /\
  (e = Finished -> concat_str (snippet <$> ts) = s).

(** The text without the [#!] of a shebang. *)
Definition without_shebang (ts : list Token) (s : string) : string :=
  if existsb is_shebang ts then str_drop 2 s else s.

Lemma shown_text ts : Forall token_ok ts -> Forall (fun t => is_shebang t = false) (tail ts) ->
  concat_str (shown <$> ts) = without_shebang ts (concat_str (snippet <$> ts)).
Proof.
  intros Hok Hone. unfold without_shebang.
  assert (Hno : forall v, Forall (fun t => is_shebang t = false) v ->
    shown <$> v = snippet <$> v /\ existsb is_shebang v = false).
  { induction 1 as [|t v Ht _ [IH1 IH2]]; [done|]. cbn. rewrite IH1, IH2, Ht. split; [|done].
    f_equal. unfold is_shebang in Ht. unfold shown. by destruct (kind t). }
  destruct ts as [|t ts]; [done|]. cbn [tail] in Hone. destruct (Hno ts Hone) as [Hs He].
  cbn [existsb fmap list_fmap]. rewrite Hs, He, orb_false_r.
  change (shown t +:+ concat_str (snippet <$> ts) =
    if is_shebang t then str_drop 2 (snippet t +:+ concat_str (snippet <$> ts))
    else snippet t +:+ concat_str (snippet <$> ts)).
  apply Forall_cons in Hok as [[_ Ht] _]. unfold is_shebang, shown.
  destruct (kind t); try done. destruct Ht as [-> _]. rewrite <- str_app_assoc.
  symmetry. apply (str_drop_app "#!").
Qed.

(** ** Properties *)

Lemma new_source_file_text src : (N.of_nat (String.length src) + 1 < 2 ^ 32)%N ->
  new_source_file src = Ret (SourceFile.normal_text src).
Proof.
  intros Hlen. unfold new_source_file. rewrite (proj2 (N.ltb_lt _ _) Hlen).
  rewrite SourceFile.normalize_src_reference by lia. cbn [mbind outcome_bind].
  pose proof (SourceFile.normal_text_length src).
  rewrite (proj2 (N.ltb_lt _ _)) by lia. done.
Qed.

(** C35: for a lexer that cuts the text of the source file (without byte order mark, with the
    line ends of Unix, both made in place) into tokens, the classifier, with its token of
    lookahead and its flags, makes exactly the calls of the reference to every writer and
    stops when one of them fails or when a token cannot be lexed; no span is closed that was
    not opened; and a source of less than 4 GB is always rendered: highlighted, so that the
    rendering without its tags is the escaped text of the file but for the [#!] of a shebang,
    or, exactly when it cannot be lexed to the end, escaped as it is. *)
Theorem highlighting_keeps_the_text (rust_2018 : bool) (StringReader_new : string -> Lexer)
    (src : string) (class playground_button : option string) (tooltip : option (string * string))
    (Hsrc : str_utf8 src) (Hlen : (N.of_nat (String.length src) + 1 < 2 ^ 32)%N)
    (Hlexer : lexes (SourceFile.normal_text src) (StringReader_new (SourceFile.normal_text src))) :
  let l := StringReader_new (SourceFile.normal_text src) in
  let '(ts, e) := tokens l in
  let calls := spans rust_2018 e false false ts in
  (forall (W : Type) (HW : Writer W) (w : W),
     finishes e (play calls w) (write_source rust_2018 l w)) /\
  is_Some (nesting 0 calls) /\
  render_with_highlighting rust_2018 StringReader_new src class playground_button tooltip =
    Ret (write_tooltip tooltip +:+
         if decide (e = Finished)
         then write_header class +:+ html_of calls +:+ write_footer playground_button
         else "<pre><code>" +:+ escape_text src +:+ "</code></pre>") /\
  (e = Finished -> untag false (html_of calls) =
     escape_text (without_shebang ts (SourceFile.normal_text src))).
Proof.
  cbn zeta. unfold lexes in Hlexer.
  destruct (tokens (StringReader_new (SourceFile.normal_text src))) as [ts e] eqn:Hts.
  destruct Hlexer as (Hok & Hone & Htext).
  pose proof (write_source_calls rust_2018 _ EmptyString ts e Hts Hok) as Hbuf.
  split; [intros W HW w; by apply write_source_calls|]. split; [by apply spans_nesting|]. split.
  - unfold render_with_highlighting. rewrite new_source_file_text by done. cbn [mbind outcome_bind].
    unfold highlight_result. rewrite play_buffer in Hbuf. cbn [String.append finishes] in Hbuf.
    destruct e; [destruct Hbuf as [c ->]|rewrite Hbuf..]; cbn [failed mbind outcome_bind mret outcome_ret];
      [done|by rewrite escape_returns..].
  - intros ->. rewrite untag_calls by apply spans_plain. rewrite spans_text by done.
    by rewrite shown_text, Htext.
Qed.

(** A text with a byte order mark, a line end of Windows and an attribute. *)
Definition sample_text : string :=
  SourceFile.bom +:+ "#[a]f!(<)" +:+ String (Ascii.ascii_of_nat 13) nl.
Definition sample_tokens : list Token :=
  [mk_Token Pound "#"; mk_Token (OpenDelim Bracket) "["; mk_Token (Ident "a" false) "a";
   mk_Token (CloseDelim Bracket) "]"; mk_Token (Ident "f" false) "f"; mk_Token Not "!";
   mk_Token (OpenDelim Paren) "("; mk_Token Lt "<"; mk_Token (CloseDelim Paren) ")";
   mk_Token Whitespace nl].
Definition sample_lexer (s : string) : Lexer := foldr LexToken LexEnd sample_tokens.

Lemma sample_lexes : lexes (SourceFile.normal_text sample_text) (sample_lexer EmptyString).
Proof.
  split; [|split; [|done]].
  - repeat (apply Forall_cons; split; [by split|]). constructor.
  - by repeat (apply Forall_cons; split; [done|]).
Defined.

Lemma highlighting_keeps_the_text_witness :
  untag false (html_of (spans true Finished false false sample_tokens)) = "#[a]f!(&lt;)" +:+ nl /\
  render_with_highlighting true sample_lexer sample_text None None None =
    Ret (write_tooltip None +:+ (write_header None +:+
      html_of (spans true Finished false false sample_tokens) +:+ write_footer None)).
Proof.
  assert (Hsrc : str_utf8 sample_text) by (vm_compute; reflexivity).
  assert (Hlen : (N.of_nat (String.length sample_text) + 1 < 2 ^ 32)%N) by (vm_compute; reflexivity).
  destruct (highlighting_keeps_the_text true sample_lexer sample_text None None None Hsrc Hlen sample_lexes)
    as (_ & _ & Hrender & Htext).
  split; [|exact Hrender]. etrans; [exact (Htext eq_refl)|]. vm_compute. reflexivity.
Defined.

(** The [#!] of a shebang is lost. *)
Lemma shebang_is_shown_without_its_mark :
  render_with_highlighting true
    (fun s => LexToken (mk_Token (Shebang "/bin/x") "#!/bin/x") LexEnd) "#!/bin/x" None None None =
  Ret (write_header None +:+ "/bin/x" +:+ write_footer None).
Proof. vm_compute. reflexivity. Qed.

(** An attribute in an attribute: two spans are opened and one is closed. *)
Lemma nested_attributes_leave_a_span_open :
  let open := [mk_Token Pound "#"; mk_Token (OpenDelim Bracket) "["] in
  nesting 0 (spans true Finished false false
    (open ++ open ++ [mk_Token (CloseDelim Bracket) "]"; mk_Token (CloseDelim Bracket) "]"])) = Some 1.
Proof. reflexivity. Qed.

(** Behind [$crate] the next name that is no keyword is taken for the one of a fragment. *)
Lemma dollar_crate_colours_the_next_name :
  spans true Finished false false
    [mk_Token Dollar "$"; mk_Token (Ident "crate" false) "crate"; mk_Token ModSep "::";
     mk_Token (Ident "f" false) "f"] =
  [Text "$" MacroNonTerminal; Text "crate" KeyWord; Text "::" None_; Text "f" MacroNonTerminal].
Proof. vm_compute. reflexivity. Qed.
