(* ===== verification/DocComments.v ===== *)
(** The text of a doc comment ([strip_doc_comment_decoration],
    [librustc_ast/util/comments.rs]): the delimiters, the lines of stars and the column of
    stars at the left are taken off. *)

From S2P Require Import Prelude RustStd TextLines.

(** ** The code *)

Definition star : Ascii.ascii := Ascii.ascii_of_nat 42.
Definition is_star (c : Ascii.ascii) : bool := Ascii.nat_of_ascii c =? 42.

(** [s.chars().all(|c| c == '*')], and [s.chars().skip(1)]. *)
Fixpoint all_chars (p : Ascii.ascii -> bool) (s : string) : bool :=
  match s with EmptyString => true | String c s => p c && all_chars p s end.
Definition all_stars : string -> bool := all_chars is_star.
Fixpoint skip_continuation (s : string) : string :=
  match s with
  | String c s' => if inside_char s then skip_continuation s' else s
  | EmptyString => s
  end.
Definition skip_char (s : string) : string :=
  match s with String _ s => skip_continuation s | EmptyString => s end.

(** [lines[k].trim().is_empty()] for a valid index. *)
Definition blank_at (lines : list string) (k : nat) : bool :=
  match lines !! k with Some l => all_whitespace l | None => false end.

(** The loops [while i < j && ..]: [n] is [j - i]. *)
Fixpoint skip_blank (n : nat) (lines : list string) (i : nat) : nat :=
  match n with
  | S n => if blank_at lines i then skip_blank n lines (i + 1) else i
  | O => i
  end.
Fixpoint drop_blank (n : nat) (lines : list string) (j : nat) : nat :=
  match n with
  | S n => if blank_at lines (j - 1) then drop_blank n lines (j - 1) else j
  | O => j
  end.

Definition vertical_trim (lines : list string) : list string :=
  let j := length lines in
  let i := match lines with l :: _ => if all_stars l then 1 else 0 | [] => 0 end in
  let i := skip_blank (j - i) lines i in
  let j := if (i <? j) && match lines !! (j - 1) with
                          | Some l => all_stars (skip_char l) | None => false end
           then j - 1 else j in
  let j := drop_blank (j - i) lines j in
  take (j - i) (drop i lines).

(** The state of [horizontal_trim]: [i], where [None] is [usize::MAX], above every index;
    [can_trim]; and whether no star was seen ([first]). *)
Record TrimState := mk_TrimState { trim_i : option nat; can_trim : bool; first : bool }.

Definition above (j : nat) (i : option nat) : bool :=
  match i with Some i => i <? j | None => false end.
Definition reaches (i : option nat) (len : nat) : bool :=
  match i with Some i => len <=? i | None => true end.
Definition is_margin (c : Ascii.ascii) : bool :=
  let n := Ascii.nat_of_ascii c in (n =? 42) || (n =? 32) || (n =? 9).

(** The loop over the characters of a line: up to the first one that is no margin they are
    single bytes. *)
Fixpoint trim_line (j : nat) (line : string) (st : TrimState) : TrimState :=
  match line with
  | EmptyString => st
  | String c rest =>
      if above j (trim_i st) || negb (is_margin c)
      then mk_TrimState (trim_i st) false (first st)
      else if is_star c then
        if first st then mk_TrimState (Some j) (can_trim st) false
        else if bool_decide (trim_i st <> Some j)
             then mk_TrimState (trim_i st) false (first st) else st
      else trim_line (j + 1) rest st
  end.

(** The loop over the lines, with its [break]. *)
Fixpoint trim_lines (lines : list string) (st : TrimState) : TrimState :=
  match lines with
  | [] => st
  | line :: lines =>
      let st := trim_line 0 line st in
      let st := if reaches (trim_i st) (String.length line)
                then mk_TrimState (trim_i st) false (first st) else st in
      if can_trim st then trim_lines lines st else st
  end.

Definition horizontal_trim (lines : list string) : outcome (list string) :=
  let st := trim_lines lines (mk_TrimState None true true) in
  if can_trim st then
    map_loop (fun line =>
      match trim_i st with
      | Some i => str_slice_from line (i + 1)
      | None => Panicked
      end) lines
  else mret lines.

Definition ONELINERS : list string := ["///!"; "///"; "//!"; "//"].

Definition strip_doc_comment_decoration (comment : string) : outcome string :=
  match List.find (starts_with comment) ONELINERS with
  | Some prefix => str_slice_from comment (String.length prefix)
  | None =>
      if starts_with comment "/*" then
        body ← str_slice comment 3 (String.length comment - 2);
        ls ← horizontal_trim (vertical_trim (lines body));
        mret (join nl ls)
      else Panicked
  end.

(** ** What is taken off *)

(** A line that can be dropped: blank, or stars behind its first character. *)
Definition droppable (l : string) : bool := all_whitespace l || all_stars l || all_stars (skip_char l).

Lemma skip_blank_spec lines n : forall i, i + n <= length lines ->
  i <= skip_blank n lines i <= i + n /\
  Forall (fun l => all_whitespace l = true) (take (skip_blank n lines i - i) (drop i lines)).
Proof.
  induction n as [|n IH]; intros i Hn; cbn [skip_blank].
  { split; [lia|]. rewrite Nat.sub_diag. constructor. }
  unfold blank_at. destruct (lines !! i) as [l|] eqn:Hl; [|apply lookup_ge_None in Hl; lia].
  destruct (all_whitespace l) eqn:Hw; [|split; [lia|rewrite Nat.sub_diag; constructor]].
  destruct (IH (i + 1)) as [Hle Hall]; [lia|]. split; [lia|].
  rewrite (drop_S lines l i Hl). replace (S i) with (i + 1) by lia.
  replace (skip_blank n lines (i + 1) - i) with (S (skip_blank n lines (i + 1) - (i + 1))) by lia.
  cbn [take]. by constructor.
Qed.

Lemma drop_blank_spec lines n : forall j, n <= j -> j <= length lines ->
  j - n <= drop_blank n lines j <= j /\
  Forall (fun l => all_whitespace l = true)
    (take (j - drop_blank n lines j) (drop (drop_blank n lines j) lines)).
Proof.
  induction n as [|n IH]; intros j Hn Hj; cbn [drop_blank].
  { split; [lia|]. rewrite Nat.sub_diag. constructor. }
  unfold blank_at. destruct (lines !! (j - 1)) as [l|] eqn:Hl; [|apply lookup_ge_None in Hl; lia].
  destruct (all_whitespace l) eqn:Hw; [|split; [lia|rewrite Nat.sub_diag; constructor]].
  destruct (IH (j - 1)) as [Hle Hall]; [lia..|]. split; [lia|].
  set (k := drop_blank n lines (j - 1)) in *.
  assert (Htake : take (j - k) (drop k lines) = take (j - 1 - k) (drop k lines) ++ [l]).
  { replace (j - k) with (S (j - 1 - k)) by lia. apply take_S_r.
    rewrite lookup_drop. by replace (k + (j - 1 - k)) with (j - 1) by lia. }
  rewrite Htake, Forall_app. split; [done|by constructor].
Qed.

Lemma vertical_trim_spec lines :
  exists pre post, lines = pre ++ vertical_trim lines ++ post /\
    Forall (fun l => droppable l = true) pre /\ Forall (fun l => droppable l = true) post.
Proof.
  unfold vertical_trim.
  set (i0 := match lines with l :: _ => if all_stars l then 1 else 0 | [] => 0 end).
  assert (Hi0 : i0 <= length lines /\ Forall (fun l => droppable l = true) (take i0 lines)).
  { unfold i0. destruct lines as [|l ls]; [by split|]. destruct (all_stars l) eqn:Hl; cbn; [|split; [lia|constructor]].
    split; [lia|]. constructor; [|constructor]. unfold droppable. by rewrite Hl, orb_true_r. }
  destruct Hi0 as [Hi0 Hpre0].
  destruct (skip_blank_spec lines (length lines - i0) i0) as [Hi Hblank]; [lia|].
  set (i := skip_blank (length lines - i0) lines i0) in *.
  set (j0 := if _ : bool then length lines - 1 else length lines).
  assert (Hj0 : i <= j0 <= length lines /\ Forall (fun l => droppable l = true) (drop j0 lines)).
  { unfold j0. destruct (i <? length lines) eqn:Hlt; cbn [andb];
      [apply Nat.ltb_lt in Hlt|split; [lia|by rewrite drop_all]].
    destruct (lines !! (length lines - 1)) as [l|] eqn:Hl; [|split; [lia|by rewrite drop_all]].
    destruct (all_stars (skip_char l)) eqn:Hs; [|split; [lia|by rewrite drop_all]].
    split; [lia|]. rewrite (drop_S _ _ _ Hl), drop_ge by lia. constructor; [|constructor].
    unfold droppable. by rewrite Hs, !orb_true_r. }
  destruct Hj0 as [Hj0 Hpost0].
  destruct (drop_blank_spec lines (j0 - i) j0) as [Hj Hblank2]; [lia..|].
  set (j := drop_blank (j0 - i) lines j0) in *.
  assert (Hw : forall ls, Forall (fun l => all_whitespace l = true) ls ->
    Forall (fun l => droppable l = true) ls).
  { intros ls Hls. eapply Forall_impl; [exact Hls|]. intros l Hl. unfold droppable. by rewrite Hl. }
  exists (take i lines), (drop j lines). split_and!.
  - rewrite <- (take_drop i lines) at 1. f_equal.
    rewrite <- (take_drop (j - i) (drop i lines)) at 1. f_equal. rewrite drop_drop.
    by replace (i + (j - i)) with j by lia.
  - rewrite <- (take_drop i0 lines). rewrite take_app_ge by (rewrite length_take; lia).
    rewrite length_take, (Nat.min_l i0) by lia. apply Forall_app. split; [done|by apply Hw].
  - rewrite <- (take_drop (j0 - j) (drop j lines)). apply Forall_app. split; [by apply Hw|].
    rewrite drop_drop. by replace (j + (j0 - j)) with j0 by lia.
Qed.

(** A character of the margin that is no star. *)
Definition is_gap (c : Ascii.ascii) : bool := is_margin c && negb (is_star c).

(** The margin of [l] ends at [i]: with a star, or with the line. *)
Definition fits (i : nat) (l : string) : Prop :=
  exists gap c rest, l = gap +:+ String c rest /\ String.length gap = i /\
    all_chars is_gap gap = true /\ is_margin c = true /\ (is_star c = true \/ rest = EmptyString).

Definition trim_ok (st : TrimState) : Prop := first st = bool_decide (trim_i st = None).

Lemma all_chars_snoc p s c : all_chars p (s +:+ String c EmptyString) = all_chars p s && p c.
Proof. induction s as [|d s IH]; cbn; [by rewrite andb_true_r|]. by rewrite IH, andb_assoc. Qed.

Lemma trim_line_spec rest : forall pre st,
  trim_ok st -> all_chars is_gap pre = true ->
  (forall i, trim_i st = Some i -> String.length pre <= i + 1) ->
  can_trim (trim_line (String.length pre) rest st) = true ->
  let st' := trim_line (String.length pre) rest st in
  trim_ok st' /\
  ((exists k, trim_i st' = Some k /\ (trim_i st = None \/ trim_i st = Some k) /\
      fits k (pre +:+ rest)) \/
   (st' = st /\ all_chars is_gap (pre +:+ rest) = true /\
    forall i, trim_i st = Some i -> String.length (pre +:+ rest) <= i + 1)).
Proof.
  induction rest as [|c rest IH]; intros pre st Hst Hpre Hi Hcan; cbn [trim_line] in *.
  { split; [done|]. right. by rewrite str_app_nil_r. }
  destruct (above _ _ || _) eqn:Habove; [done|]. apply orb_false_iff in Habove as [Habove Hm].
  apply negb_false_iff in Hm. destruct (is_star c) eqn:Hc.
  - assert (Hfits : fits (String.length pre) (pre +:+ String c rest)).
    { exists pre, c, rest. split_and!; try done. by left. }
    unfold trim_ok in Hst. destruct (first st) eqn:Hf.
    + split; [done|]. left. exists (String.length pre). split_and!; [done| |done].
      left. symmetry in Hst. by apply bool_decide_eq_true in Hst.
    + case_bool_decide as Heq; [done|].
      split; [by unfold trim_ok; rewrite Hf|]. left. exists (String.length pre). auto.
  - specialize (IH (pre +:+ String c EmptyString) st Hst). rewrite all_chars_snoc, Hpre in IH.
    rewrite str_length_app in IH. cbn [String.length] in IH. rewrite <- str_app_assoc in IH.
    cbn [String.append] in IH. apply IH; [|intros i Hti|done].
    + unfold is_gap. by rewrite Hm, Hc.
    + rewrite Hti in Habove. cbn in Habove. apply Nat.ltb_ge in Habove. lia.
Qed.

Lemma all_gaps_fit i l : all_chars is_gap l = true -> String.length l = i + 1 -> fits i l.
Proof.
  intros Hl Hlen.
  assert (Hsnoc : exists gap c, l = gap +:+ String c EmptyString).
  { clear -Hlen. revert i Hlen. induction l as [|c l IH]; intros i Hlen; [cbn in Hlen; lia|].
    destruct l as [|d l]; [by exists EmptyString, c|].
    destruct (IH (i - 1)) as (gap & e & ->); [cbn in *; lia|]. by exists (String c gap), e. }
  destruct Hsnoc as (gap & c & ->). rewrite all_chars_snoc in Hl.
  apply andb_true_iff in Hl as [Hg Hc]. rewrite str_length_app in Hlen. cbn in Hlen.
  unfold is_gap in Hc. apply andb_true_iff in Hc as [Hc _].
  exists gap, c, EmptyString. split_and!; [done|lia|done|done|by right].
Qed.

Lemma trim_lines_spec ls : forall st,
  trim_ok st -> can_trim st = true -> can_trim (trim_lines ls st) = true ->
  (ls = [] /\ trim_lines ls st = st) \/
  exists i, trim_i (trim_lines ls st) = Some i /\ (trim_i st = None \/ trim_i st = Some i) /\
    Forall (fits i) ls.
Proof.
  induction ls as [|l ls IH]; intros st Hst Hcan Htrim; [by left|right].
  cbn [trim_lines] in *. set (st1 := trim_line 0 l st) in *.
  destruct (reaches (trim_i st1) (String.length l)) eqn:Hr; [done|].
  destruct (can_trim st1) eqn:Hcan1; [|congruence].
  destruct (trim_line_spec l EmptyString st Hst eq_refl) as [Hst1 Hcase];
    [intros i _; cbn; lia|exact Hcan1|]. cbn [String.length String.append] in Hst1, Hcase.
  fold st1 in Hst1, Hcase.
  assert (Hfit : exists k, trim_i st1 = Some k /\ (trim_i st = None \/ trim_i st = Some k) /\ fits k l).
  { destruct Hcase as [?|(Heq & Hgap & Hlen)]; [done|]. rewrite Heq in *.
    destruct (trim_i st) as [k|] eqn:Hk; [|done]. exists k. split_and!; [done|by right|].
    cbn in Hr. apply Nat.leb_gt in Hr. apply all_gaps_fit; [done|]. specialize (Hlen k eq_refl). lia. }
  destruct Hfit as (k & Hk & Hsame & Hfit).
  destruct (IH st1 Hst1 Hcan1 Htrim) as [[-> Heq]|(i & Hi & [Hn|Hs] & Hall)]; [|congruence|].
  - exists k. rewrite Heq. split_and!; [done|done|by constructor].
  - exists i. assert (i = k) as -> by congruence. split_and!; [done|done|by constructor].
Qed.

(** [l'] is [l] without its first [n] characters, which are of the margin. *)
Definition without_margin (n : nat) (l l' : string) : Prop :=
  exists margin, l = margin +:+ l' /\ String.length margin = n /\ all_chars is_margin margin = true.

Lemma all_chars_app p s t : all_chars p (s +:+ t) = all_chars p s && all_chars p t.
Proof. induction s as [|c s IH]; [done|]. cbn. by rewrite IH, andb_assoc. Qed.

Lemma margin_ascii c : is_margin c = true -> is_ascii c.
Proof. unfold is_margin, is_ascii. rewrite !orb_true_iff, !Nat.eqb_eq. lia. Qed.

Lemma margin_utf8 m l : all_chars is_margin m = true -> str_utf8 (m +:+ l) -> str_utf8 l.
Proof.
  induction m as [|c m IH]; [done|]. cbn. intros [Hc Hm]%andb_true_iff Hl. apply IH; [done|].
  by apply (str_utf8_cons c); [apply margin_ascii|].
Qed.

Lemma fits_slice i l : str_utf8 l -> fits i l ->
  returns (str_slice_from l (i + 1)) (without_margin (i + 1) l).
Proof.
  intros Hl (gap & c & rest & -> & <- & Hgap & Hc & _).
  assert (Hm : all_chars is_margin (gap +:+ String c EmptyString) = true).
  { rewrite all_chars_snoc, Hc, andb_true_r. clear -Hgap. induction gap as [|d gap IH]; [done|].
    cbn in *. apply andb_true_iff in Hgap as [[Hd _]%andb_true_iff Hg]. by rewrite Hd, IH. }
  assert (Heq : gap +:+ String c rest = (gap +:+ String c EmptyString) +:+ rest)
    by (by rewrite <- str_app_assoc).
  rewrite Heq in *.
  replace (String.length gap + 1) with (String.length (gap +:+ String c EmptyString))
    by (by rewrite str_length_app).
  rewrite str_slice_from_app by (by apply utf8_not_inside, (margin_utf8 _ _ Hm)).
  exists (gap +:+ String c EmptyString). done.
Qed.

Lemma horizontal_trim_spec ls :
  Forall str_utf8 ls ->
  returns (horizontal_trim ls) (fun ls' => ls' = ls \/ exists n, Forall2 (without_margin n) ls ls').
Proof.
  intros Hls. unfold horizontal_trim.
  destruct (can_trim _) eqn:Hcan; [|apply returns_ret; by left].
  destruct (trim_lines_spec ls (mk_TrimState None true true)) as [[-> Heq]|(i & Hi & _ & Hall)];
    [done..| |].
  - cbn. apply returns_ret. by left.
  - rewrite Hi. eapply returns_mono.
    + apply (map_loop_returns _ (without_margin (i + 1))). intros l Hl.
      rewrite Forall_forall in Hls, Hall. by apply fits_slice; auto.
    + intros ls' Hls'. right. by exists (i + 1).
Qed.

(** What is left of the lines of a block comment. *)
Definition stripped_lines (ls ls' : list string) : Prop :=
  exists pre mid post, ls = pre ++ mid ++ post /\
    Forall (fun l => droppable l = true) pre /\ Forall (fun l => droppable l = true) post /\
    (ls' = mid \/ exists n, Forall2 (without_margin n) mid ls').

Lemma block_comment_returns opening body :
  String.length opening = 3 -> starts_with opening "/*" = true -> str_utf8 body ->
  returns (strip_doc_comment_decoration (opening +:+ body +:+ "*/"))
    (fun t => exists ls', t = join nl ls' /\ stripped_lines (lines body) ls').
Proof.
  intros Hlen Hop Hbody. apply starts_with_spec in Hop as [t ->].
  destruct t as [|c [|? ?]]; cbn in Hlen; try lia.
  assert (Hfind : List.find (starts_with (("/*" +:+ String c EmptyString) +:+ body +:+ "*/")) ONELINERS
    = None) by done.
  unfold strip_doc_comment_decoration. rewrite Hfind.
  assert (Hstart : starts_with (("/*" +:+ String c EmptyString) +:+ body +:+ "*/") "/*" = true).
  { apply starts_with_spec. by eexists. }
  rewrite Hstart.
  replace (String.length (("/*" +:+ String c EmptyString) +:+ body +:+ "*/") - 2)
    with (String.length ("/*" +:+ String c EmptyString) + String.length body)
    by (rewrite !str_length_app; cbn; lia).
  assert (Hslice : str_slice (("/*" +:+ String c EmptyString) +:+ body +:+ "*/") 3
    (String.length ("/*" +:+ String c EmptyString) + String.length body) = Ret body).
  { apply (str_slice_app ("/*" +:+ String c EmptyString)); [|done].
    by apply utf8_not_inside, str_utf8_app. }
  rewrite Hslice. cbn [mbind outcome_bind].
  destruct (vertical_trim_spec (lines body)) as (pre & post & Heq & Hpre & Hpost).
  pose proof (lines_utf8 body Hbody) as Hutf. rewrite Heq, !Forall_app in Hutf.
  eapply returns_bind; [apply horizontal_trim_spec; tauto|]. intros ls' Hls'.
  apply returns_ret. exists ls'. split; [done|].
  exists pre, (vertical_trim (lines body)), post. split_and!; try done.
Qed.

Lemma line_comment_returns opening text :
  opening ∈ ["///"; "//!"] -> starts_with (opening +:+ text) "///!" = false -> str_utf8 text ->
  strip_doc_comment_decoration (opening +:+ text) = Ret text.
Proof.
  intros Hop Hno Htext. unfold strip_doc_comment_decoration.
  assert (Hfind : List.find (starts_with (opening +:+ text)) ONELINERS = Some opening).
  { unfold ONELINERS. cbn [List.find]. rewrite Hno.
    apply elem_of_cons in Hop as [->|Hop%list_elem_of_singleton]; [|subst opening];
      by rewrite ?starts_with_app. }
  rewrite Hfind. by apply str_slice_from_app, utf8_not_inside.
Qed.

(** ** Properties *)

(** The text of a line comment is what stands behind its slashes. On the text of a block
    comment the function never panics; what it returns are consecutive lines of the
    comment, either as they are or all without the same number of characters at the left;
    the lines that it drops before and after them are blank or rows of stars, and the
    characters that it takes off are blanks, tabs and stars. *)
Lemma decoration_is_taken_off (opening text : string) (Htext : str_utf8 text) :
  (opening ∈ ["///"; "//!"] -> starts_with (opening +:+ text) "///!" = false ->
   strip_doc_comment_decoration (opening +:+ text) = Ret text) /\
  (opening ∈ ["/**"; "/*!"] ->
   returns (strip_doc_comment_decoration (opening +:+ text +:+ "*/"))
     (fun t => exists ls, t = join nl ls /\ stripped_lines (lines text) ls)).
Proof.
  split.
  - intros Hop Hno. by apply line_comment_returns.
  - intros Hop. repeat (apply elem_of_cons in Hop as [->|Hop]; [by apply block_comment_returns|]).
    by apply not_elem_of_nil in Hop.
Qed.

(** The tests of [comments/tests.rs]. *)
Definition block (ls : list string) : string := join nl ls.

Example test_block_doc_comment_1 :
  strip_doc_comment_decoration (block ["/**"; " * Test "; " **  Test"; " *   Test"; "*/"])
    = Ret (block [" Test "; "*  Test"; "   Test"]).
Proof. vm_compute. reflexivity. Qed.
Example test_block_doc_comment_2 :
  strip_doc_comment_decoration (block ["/**"; " * Test"; " *  Test"; "*/"])
    = Ret (block [" Test"; "  Test"]).
Proof. vm_compute. reflexivity. Qed.
Example test_block_doc_comment_3 :
  strip_doc_comment_decoration (block ["/**"; " let a: *i32;"; " *a = 5;"; "*/"])
    = Ret (block [" let a: *i32;"; " *a = 5;"]).
Proof. vm_compute. reflexivity. Qed.
Example test_block_doc_comment_4 :
  strip_doc_comment_decoration (block ["/*******************"; " test"; " *********************/"])
    = Ret " test".
Proof. vm_compute. reflexivity. Qed.
Example test_line_doc_comment :
  List.map strip_doc_comment_decoration ["/// test"; "///! test"; "// test"; "///test"; "///!test"; "//test"]
    = [Ret " test"; Ret " test"; Ret " test"; Ret "test"; Ret "test"; Ret "test"].
Proof. vm_compute. reflexivity. Qed.

Lemma decoration_is_taken_off_witness :
  returns (strip_doc_comment_decoration ("/**" +:+ block [EmptyString; " * a"; " *   b"; " "] +:+ "*/"))
    (fun t => t = block [" a"; "   b"] /\
       exists ls, t = join nl ls /\
         stripped_lines (lines (block [EmptyString; " * a"; " *   b"; " "])) ls).
Proof.
  apply returns_and; [vm_compute; reflexivity|].
  destruct (decoration_is_taken_off "/**" (block [EmptyString; " * a"; " *   b"; " "]) eq_refl)
    as [_ Hblock]. apply Hblock, list_elem_of_here.
Defined.
