(* ===== verification/CleanTypes.v ===== *)
(** The cleaned types of rustdoc ([clean/types.rs]) that the generator reads: the
    type tree with its paths and generic arguments, and the operations on it; and their
    names: item kinds ([html/item_type.rs]), the map from definition ids to full names
    ([FullNameMap] of [fuzz_target/impl_util.rs]) and the printed name of a type ([_type_name]
    of [fuzz_target/api_util.rs]). *)

From S2P Require Import Prelude RustStd.

(** ** Identifiers and values that are only copied and compared

    The generator compares these values and never looks inside them: a token
    stands for the value, equal tokens for equal values. *)
Record DefId := mk_DefId { did_krate : N; did_index : N }.
Record Res := mk_Res { res_token : N }.
Record Attributes := mk_Attributes { attributes_token : N }.
Record Abi := mk_Abi { abi_token : N }.
Record SyntheticTyParamKind := mk_SyntheticTyParamKind { synthetic_token : N }.

Inductive Mutability := Mut | Not.
Inductive Unsafety := Unsafe | Normal.
Inductive TraitBoundModifier := TBM_None | TBM_Maybe | TBM_MaybeConst.
Record Lifetime := mk_Lifetime { lifetime_name : string }.

#[export] Instance DefId_eq_dec : EqDecision DefId.
Proof. solve_decision. Defined.
#[export] Instance Res_eq_dec : EqDecision Res.
Proof. solve_decision. Defined.
#[export] Instance Attributes_eq_dec : EqDecision Attributes.
Proof. solve_decision. Defined.
#[export] Instance Abi_eq_dec : EqDecision Abi.
Proof. solve_decision. Defined.
#[export] Instance SyntheticTyParamKind_eq_dec : EqDecision SyntheticTyParamKind.
Proof. solve_decision. Defined.
#[export] Instance Mutability_eq_dec : EqDecision Mutability.
Proof. solve_decision. Defined.
#[export] Instance Unsafety_eq_dec : EqDecision Unsafety.
Proof. solve_decision. Defined.
#[export] Instance TraitBoundModifier_eq_dec : EqDecision TraitBoundModifier.
Proof. solve_decision. Defined.
#[export] Instance Lifetime_eq_dec : EqDecision Lifetime.
Proof. solve_decision. Defined.
#[export] Instance DefId_countable : Countable DefId.
Proof.
  apply (inj_countable' (fun d => (did_krate d, did_index d))
    (fun p => mk_DefId p.1 p.2)). by intros [].
Defined.

(** ** Primitive types *)
Module PrimitiveType.
Inductive PrimitiveType :=
| Isize | I8 | I16 | I32 | I64 | I128
| Usize | U8 | U16 | U32 | U64 | U128
| F32 | F64 | Char | Bool | Str
| Slice | Array | Tuple | Unit | RawPointer | Reference | Fn | Never.

#[export] Instance eq_dec : EqDecision PrimitiveType.
Proof. solve_decision. Defined.

Definition as_str (p : PrimitiveType) : string :=
  match p with
  | Isize => "isize"
  | I8 => "i8"
  | I16 => "i16"
  | I32 => "i32"
  | I64 => "i64"
  | I128 => "i128"
  | Usize => "usize"
  | U8 => "u8"
  | U16 => "u16"
  | U32 => "u32"
  | U64 => "u64"
  | U128 => "u128"
  | F32 => "f32"
  | F64 => "f64"
  | Str => "str"
  | Bool => "bool"
  | Char => "char"
  | Array => "array"
  | Slice => "slice"
  | Tuple => "tuple"
  | Unit => "unit"
  | RawPointer => "pointer"
  | Reference => "reference"
  | Fn => "fn"
  | Never => "never"
  end.

Definition from_str (s : string) : option PrimitiveType :=
  if decide (s = "isize") then Some Isize
  else if decide (s = "i8") then Some I8
  else if decide (s = "i16") then Some I16
  else if decide (s = "i32") then Some I32
  else if decide (s = "i64") then Some I64
  else if decide (s = "i128") then Some I128
  else if decide (s = "usize") then Some Usize
  else if decide (s = "u8") then Some U8
  else if decide (s = "u16") then Some U16
  else if decide (s = "u32") then Some U32
  else if decide (s = "u64") then Some U64
  else if decide (s = "u128") then Some U128
  else if decide (s = "bool") then Some Bool
  else if decide (s = "char") then Some Char
  else if decide (s = "str") then Some Str
  else if decide (s = "f32") then Some F32
  else if decide (s = "f64") then Some F64
  else if decide (s = "array") then Some Array
  else if decide (s = "slice") then Some Slice
  else if decide (s = "tuple") then Some Tuple
  else if decide (s = "unit") then Some Unit
  else if decide (s = "pointer") then Some RawPointer
  else if decide (s = "reference") then Some Reference
  else if decide (s = "fn") then Some Fn
  else if decide (s = "never") then Some Never
  else None.

Lemma from_str_as_str p : from_str (as_str p) = Some p.
Proof. by destruct p. Qed.

(** The source hashes primitive types as keys of [primitive_locations]. *)
#[export] Instance countable : Countable PrimitiveType.
Proof. exact (inj_countable as_str from_str from_str_as_str). Defined.
End PrimitiveType.
Export (hints) PrimitiveType.
Abbreviation PrimitiveType := PrimitiveType.PrimitiveType.

(** ** The type tree *)

Inductive Type_ :=
| ResolvedPath (path : Path) (param_names : option (list GenericBound)) (did : DefId)
    (is_generic : bool)
| Generic (s : string)
| Primitive (p : PrimitiveType)
| BareFunction (b : BareFunctionDecl)
| Tuple (types : list Type_)
| Slice (type_ : Type_)
| Array (type_ : Type_) (len : string)
| Never
| RawPointer (mutability : Mutability) (type_ : Type_)
| BorrowedRef (lifetime : option Lifetime) (mutability : Mutability) (type_ : Type_)
| QPath (name : string) (self_type : Type_) (trait_ : Type_)
| Infer
| ImplTrait (bounds : list GenericBound)
with Path := mk_Path (global : bool) (res : Res) (segments : list PathSegment)
with PathSegment := mk_PathSegment (name : string) (args : GenericArgs)
with GenericArgs :=
| AngleBracketed (args : list GenericArg) (bindings : list TypeBinding)
| Parenthesized (inputs : list Type_) (output : option Type_)
with GenericArg :=
| GenericArg_Lifetime (l : Lifetime)
| GenericArg_Type (t : Type_)
| GenericArg_Const (c : Constant)
with Constant :=
  mk_Constant (type_ : Type_) (expr : string) (value : option string) (is_literal : bool)
with GenericBound :=
| TraitBound (p : PolyTrait) (m : TraitBoundModifier)
| Outlives (l : Lifetime)
with PolyTrait := mk_PolyTrait (trait_ : Type_) (generic_params : list GenericParamDef)
with GenericParamDef := mk_GenericParamDef (name : string) (kind : GenericParamDefKind)
with GenericParamDefKind :=
| ParamLifetime
| ParamType (did : DefId) (bounds : list GenericBound) (default : option Type_)
    (synthetic : option SyntheticTyParamKind)
| ParamConst (did : DefId) (ty : Type_)
with TypeBinding := mk_TypeBinding (name : string) (kind : TypeBindingKind)
with TypeBindingKind :=
| Equality (ty : Type_)
| Constraint_ (bounds : list GenericBound)
with BareFunctionDecl :=
  mk_BareFunctionDecl (unsafety : Unsafety) (generic_params : list GenericParamDef)
    (decl : FnDecl) (abi : Abi)
with FnDecl :=
  mk_FnDecl (inputs : Arguments_) (output : FnRetTy) (c_variadic : bool) (attrs : Attributes)
with Arguments_ := mk_Arguments (values : list Argument)
with Argument := mk_Argument (type_ : Type_) (name : string)
with FnRetTy := Return_ (ty : Type_) | DefaultReturn.

(** [#[derive(PartialEq, Eq)]] on the type tree: by mutual recursion. *)
Definition option_dec {A} (f : forall x y : A, {x = y} + {x <> y}) (x y : option A)
    : {x = y} + {x <> y}.
Proof. decide equality. Defined.

Definition list_dec {A} (f : forall x y : A, {x = y} + {x <> y})
    : forall x y : list A, {x = y} + {x <> y}.
Proof. fix IH 1. decide equality. Defined.

#[local] Ltac derive_eq :=
  decide equality;
  first
    [ solve [exact (decide (_ = _))]
    | apply list_dec; solve [eauto 2]
    | apply option_dec; solve [eauto 2 | apply list_dec; eauto 2] ].

Fixpoint Type_eq_dec (x y : Type_) {struct x} : {x = y} + {x <> y}
with Path_eq_dec (x y : Path) {struct x} : {x = y} + {x <> y}
with PathSegment_eq_dec (x y : PathSegment) {struct x} : {x = y} + {x <> y}
with GenericArgs_eq_dec (x y : GenericArgs) {struct x} : {x = y} + {x <> y}
with GenericArg_eq_dec (x y : GenericArg) {struct x} : {x = y} + {x <> y}
with Constant_eq_dec (x y : Constant) {struct x} : {x = y} + {x <> y}
with GenericBound_eq_dec (x y : GenericBound) {struct x} : {x = y} + {x <> y}
with PolyTrait_eq_dec (x y : PolyTrait) {struct x} : {x = y} + {x <> y}
with GenericParamDef_eq_dec (x y : GenericParamDef) {struct x} : {x = y} + {x <> y}
with GenericParamDefKind_eq_dec (x y : GenericParamDefKind) {struct x} : {x = y} + {x <> y}
with TypeBinding_eq_dec (x y : TypeBinding) {struct x} : {x = y} + {x <> y}
with TypeBindingKind_eq_dec (x y : TypeBindingKind) {struct x} : {x = y} + {x <> y}
with BareFunctionDecl_eq_dec (x y : BareFunctionDecl) {struct x} : {x = y} + {x <> y}
with FnDecl_eq_dec (x y : FnDecl) {struct x} : {x = y} + {x <> y}
with Arguments_eq_dec (x y : Arguments_) {struct x} : {x = y} + {x <> y}
with Argument_eq_dec (x y : Argument) {struct x} : {x = y} + {x <> y}
with FnRetTy_eq_dec (x y : FnRetTy) {struct x} : {x = y} + {x <> y}.
Proof. all: derive_eq. Defined.

#[export] Instance Type_eq_decision : EqDecision Type_ := Type_eq_dec.
#[export] Instance Path_eq_decision : EqDecision Path := Path_eq_dec.
#[export] Instance PathSegment_eq_decision : EqDecision PathSegment := PathSegment_eq_dec.
#[export] Instance GenericArgs_eq_decision : EqDecision GenericArgs := GenericArgs_eq_dec.
#[export] Instance GenericArg_eq_decision : EqDecision GenericArg := GenericArg_eq_dec.

(** [Path] and [PathSegment] are structs. *)
Definition path_segments (p : Path) : list PathSegment :=
  match p with mk_Path _ _ segments => segments end.
Definition segment_args (s : PathSegment) : GenericArgs :=
  match s with mk_PathSegment _ args => args end.

(** The generics of a function and the visibility of an item. *)
Inductive WherePredicate :=
| BoundPredicate (ty : Type_) (bounds : list GenericBound)
| RegionPredicate (lifetime : Lifetime) (bounds : list GenericBound)
| EqPredicate (lhs rhs : Type_).

Record Generics := mk_Generics {
  generics_params : list GenericParamDef;
  generics_where_predicates : list WherePredicate
}.

Module Visibility.
Inductive Visibility :=
| Public
| Inherited
| Crate
| Restricted (did : DefId) (path : Path).

#[export] Instance eq_dec : EqDecision Visibility.
Proof. solve_decision. Defined.
End Visibility.
Export (hints) Visibility.
Abbreviation Visibility := Visibility.Visibility.

(** ** Operations of [impl Type] *)

Definition is_self_type (t : Type_) : bool :=
  match t with
  | Generic name => bool_decide (name = "Self")
  | _ => false
  end.

Definition is_generic (t : Type_) : bool :=
  match t with
  | ResolvedPath _ _ _ is_generic => is_generic
  | _ => false
  end.

Definition is_full_generic (t : Type_) : bool :=
  match t with
  | Generic _ => true
  | _ => false
  end.

(** [Type::def_id]: [cache] is the map [primitive_locations] of the thread's
    render cache. *)
Section def_id.
Variable cache : gmap PrimitiveType DefId.

Definition primitive_def_id (p : PrimitiveType) : option DefId := cache !! p.

Fixpoint def_id (t : Type_) : option DefId :=
  match t with
  | ResolvedPath _ _ did _ => Some did
  | Primitive p => primitive_def_id p
  | BorrowedRef _ _ (Generic _) => primitive_def_id PrimitiveType.Reference
  | BorrowedRef _ _ type_ => def_id type_
  | Tuple tys =>
      if bool_decide (tys = []) then primitive_def_id PrimitiveType.Unit
      else primitive_def_id PrimitiveType.Tuple
  | BareFunction _ => primitive_def_id PrimitiveType.Fn
  | Never => primitive_def_id PrimitiveType.Never
  | Slice _ => primitive_def_id PrimitiveType.Slice
  | Array _ _ => primitive_def_id PrimitiveType.Array
  | RawPointer _ _ => primitive_def_id PrimitiveType.RawPointer
  | QPath _ self_type _ => def_id self_type
  | _ => None
  end.
End def_id.

(** ** Size and induction

    The immediate component types of a type: those the recursive functions of the
    generator visit. *)
Definition arg_types (a : GenericArg) : list Type_ :=
  match a with GenericArg_Type t => [t] | _ => [] end.

Definition args_types (g : GenericArgs) : list Type_ :=
  match g with
  | AngleBracketed args _ => args ≫= arg_types
  | Parenthesized inputs output => inputs ++ option_list output
  end.

Definition path_types (p : Path) : list Type_ :=
  path_segments p ≫= fun seg => args_types (segment_args seg).

Definition type_children (t : Type_) : list Type_ :=
  match t with
  | ResolvedPath path _ _ _ => path_types path
  | Tuple types => types
  | Slice t | Array t _ | RawPointer _ t | BorrowedRef _ _ t => [t]
  | QPath _ self_type trait_ => [self_type; trait_]
  | _ => []
  end.

Fixpoint type_size (t : Type_) : nat :=
  S match t with
    | ResolvedPath (mk_Path _ _ segments) _ _ _ =>
        sum_list_with (fun seg =>
          match seg with
          | mk_PathSegment _ (AngleBracketed args _) =>
              sum_list_with (fun a =>
                match a with GenericArg_Type t => type_size t | _ => 0 end) args
          | mk_PathSegment _ (Parenthesized inputs output) =>
              sum_list_with type_size inputs
              + match output with Some t => type_size t | None => 0 end
          end) segments
    | Tuple types => sum_list_with type_size types
    | Slice t | Array t _ | RawPointer _ t | BorrowedRef _ _ t => type_size t
    | QPath _ self_type trait_ => type_size self_type + type_size trait_
    | _ => 0
    end.

Lemma sum_list_with_bind {A B} (f : B -> nat) (g : A -> list B) l :
  sum_list_with f (l ≫= g) = sum_list_with (fun x => sum_list_with f (g x)) l.
Proof. induction l; csimpl; [done|]. rewrite sum_list_with_app. lia. Qed.

Lemma type_size_children t : type_size t = S (sum_list_with type_size (type_children t)).
Proof.
  destruct t as [[? ? segments] ? ? ?| | | | | | | | | | | |]; try (simpl; lia).
  cbn. unfold path_types. rewrite sum_list_with_bind. f_equal. cbn [path_segments].
  induction segments as [|[? [args ?|inputs output]] segments IH]; [done| |].
  - cbn. rewrite sum_list_with_bind, IH. f_equal.
    induction args as [|[] args IHa]; cbn; lia.
  - cbn. rewrite sum_list_with_app, IH. destruct output; cbn; lia.
Qed.

Lemma type_size_pos t : 0 < type_size t.
Proof. rewrite type_size_children. lia. Qed.

Lemma sum_list_with_elem {A} (f : A -> nat) x l : x ∈ l -> f x <= sum_list_with f l.
Proof. induction 1; simpl; lia. Qed.

Lemma child_size s t : s ∈ type_children t -> type_size s < type_size t.
Proof.
  intros H. rewrite (type_size_children t).
  apply (sum_list_with_elem type_size) in H. lia.
Qed.

(** Induction on component types. *)
Lemma type_children_ind (P : Type_ -> Prop) :
  (forall t, (forall s, s ∈ type_children t -> P s) -> P t) -> forall t, P t.
Proof.
  intros Hstep t. induction t as [t IH] using (induction_ltof1 _ type_size).
  apply Hstep. intros s Hs. apply IH. by apply child_size.
Qed.

Lemma elem_of_path_types t p :
  t ∈ path_types p <->
  exists seg, seg ∈ path_segments p /\ t ∈ args_types (segment_args seg).
Proof. unfold path_types. rewrite list_elem_of_bind. naive_solver. Qed.

Create HintDb clean discriminated.
#[export] Hint Resolve child_size type_size_pos : clean.


Module ItemType.
Inductive ItemType :=
| Module_ | ExternCrate | Import_ | Struct | Enum | Function_ | Typedef | Static
| Trait | Impl | TyMethod | Method | StructField | Variant | Macro | Primitive_
| AssocType | Constant_ | AssocConst | Union_ | ForeignType | Keyword | OpaqueTy
| ProcAttribute | ProcDerive | TraitAlias.

#[export] Instance eq_dec : EqDecision ItemType.
Proof. solve_decision. Defined.
End ItemType.
Export (hints) ItemType.
Abbreviation ItemType := ItemType.ItemType.

(** ** [FullNameMap] *)
Record FullNameMap := mk_FullNameMap { fnm_map : gmap DefId (string * ItemType) }.

Definition FullNameMap_new : FullNameMap := {| fnm_map := ∅ |}.

Definition push_mapping (m : FullNameMap) (def_id : DefId) (full_name : string)
    (item_type : ItemType) : FullNameMap :=
  {| fnm_map := <[def_id := (full_name, item_type)]> (fnm_map m) |}.

Definition _get_full_name (m : FullNameMap) (def_id : DefId) : option string :=
  match fnm_map m !! def_id with
  | None => None
  | Some (full_name, _) => Some full_name
  end.

Lemma get_full_name_push_eq m d s k : _get_full_name (push_mapping m d s k) d = Some s.
Proof. unfold _get_full_name, push_mapping. cbn. by rewrite lookup_insert_eq. Qed.

Lemma get_full_name_push_ne m d d' s k :
  d <> d' -> _get_full_name (push_mapping m d s k) d' = _get_full_name m d'.
Proof. intros Hne. unfold _get_full_name, push_mapping. cbn. by rewrite lookup_insert_ne. Qed.

(** ** The name of a type *)
Section type_name.
Variable cache : gmap PrimitiveType DefId.
Variable full_name_map : FullNameMap.

Fixpoint _type_name (type_ : Type_) : string :=
  match
    match def_id cache type_ with
    | Some def_id => _get_full_name full_name_map def_id
    | None => None
    end
  with
  | Some full_name => full_name
  | None =>
      match type_ with
      | Primitive primitive_type => PrimitiveType.as_str primitive_type
      | Generic generic => generic
      | BorrowedRef _ _ inner_type => "&" +:+ _type_name inner_type
      | Tuple inner_types => "(" +:+ join " ," (List.map _type_name inner_types) +:+ ")"
      | _ => "Currently not supported"
      end
  end.
End type_name.

#[export] Hint Rewrite get_full_name_push_eq : rust_str.
