(* ===== verification/CleanItems.v ===== *)
(** The cleaned items of rustdoc ([clean/types.rs]): the item tree of a crate with its
    containers, the attributes the passes read, and the kinds of items
    ([html/item_type.rs]). *)

From S2P Require Import Prelude RustStd MetaItems Cfg CleanTypes.

(** ** Attributes *)
Inductive DocFragment :=
| SugaredDoc (line : nat) (s : string)
| RawDoc (line : nat) (s : string)
| Include (line : nat) (filename s : string).

Definition doc_fragment_str (f : DocFragment) : string :=
  match f with SugaredDoc _ s | RawDoc _ s | Include _ _ s => s end.

(** [clean::Attributes] of an item, without the span and the links. *)
Record ItemAttributes := mk_ItemAttributes {
  doc_strings : list DocFragment;
  other_attrs : list Attribute;
  cfg : option Cfg;
  inner_docs : bool
}.

(** [attrs.lists(name)]. *)
Definition lists (attrs : ItemAttributes) (name : string) : list NestedMetaItem :=
  attr_lists (other_attrs attrs) name.

Definition has_word (l : list NestedMetaItem) (word : string) : bool :=
  existsb (fun attr => is_word attr && check_name attr word) l.

Definition doc_value (attrs : ItemAttributes) : option string :=
  doc_fragment_str <$> head (doc_strings attrs).

(** A set: the order of the attributes is lost. *)
Definition get_doc_aliases (attrs : ItemAttributes) : gset string :=
  list_to_set
    (List.filter (fun v => negb (bool_decide (v = EmptyString)))
      (omap (fun a => (fun s => str_replace s dquote EmptyString) <$> value_str a)
        (List.filter (fun a => check_name a "alias") (lists attrs "doc")))).

(** ** Kinds of types *)
Module TypeKind.
Inductive TypeKind :=
| Enum | Function | Module_ | Const | Static | Struct | Union | Trait | Typedef | Foreign
| Macro | Attr | Derive | TraitAlias.

(** [ItemType::from]. *)
Definition to_item_type (kind : TypeKind) : ItemType :=
  match kind with
  | Struct => ItemType.Struct
  | Union => ItemType.Union_
  | Enum => ItemType.Enum
  | Function => ItemType.Function_
  | Trait => ItemType.Trait
  | Module_ => ItemType.Module_
  | Static => ItemType.Static
  | Const => ItemType.Constant_
  | Typedef => ItemType.Typedef
  | Foreign => ItemType.ForeignType
  | Macro => ItemType.Macro
  | Attr => ItemType.ProcAttribute
  | Derive => ItemType.ProcDerive
  | TraitAlias => ItemType.TraitAlias
  end.
End TypeKind.
Abbreviation TypeKind := TypeKind.TypeKind.

(** ** The data of an item

    [Function], [Method] and [TyMethod]; of the header only the unsafety is read. *)
Record Function := mk_Function {
  fn_decl : FnDecl;
  fn_generics : Generics;
  fn_unsafety : Unsafety;
  all_types : list (Type_ * TypeKind);
  ret_types : list (Type_ * TypeKind)
}.

Inductive StructType := PlainStruct | TupleStruct | UnitStruct.
Inductive ImplPolarity := Positive | Negative.
Inductive MacroKind := Bang | Attr | Derive.

Record ImportSource := mk_ImportSource { import_path : Path; import_did : option DefId }.
Inductive Import := Simple (s : string) (source : ImportSource) | Glob (source : ImportSource).

Record Typedef := mk_Typedef {
  typedef_type : Type_;
  typedef_generics : Generics;
  typedef_item_type : option Type_
}.
Record OpaqueTy := mk_OpaqueTy { opaque_bounds : list GenericBound; opaque_generics : Generics }.
Record Static := mk_Static {
  static_type : Type_;
  static_mutability : Mutability;
  static_expr : string
}.
Record TraitAlias := mk_TraitAlias { alias_generics : Generics; alias_bounds : list GenericBound }.
Record Macro := mk_Macro { macro_source : string; imported_from : option string }.
Record ProcMacro := mk_ProcMacro { macro_kind : MacroKind; helpers : list string }.

(** The containers, over the type [I] of the items in them. *)
Section containers.
Context (I : Type).

Record Module_ := mk_Module { module_items_ : list I; is_crate : bool }.

Record Struct := mk_Struct {
  struct_type : StructType;
  struct_generics : Generics;
  struct_fields : list I;
  struct_fields_stripped : bool
}.

Record Union := mk_Union {
  union_type : StructType;
  union_generics : Generics;
  union_fields : list I;
  union_fields_stripped : bool
}.

Record Enum := mk_Enum {
  enum_variants : list I;
  enum_generics : Generics;
  enum_variants_stripped : bool
}.

Record VariantStruct := mk_VariantStruct {
  variant_struct_type : StructType;
  variant_fields : list I;
  variant_fields_stripped : bool
}.

Inductive VariantKind :=
| CLike
| TupleVariant (types : list Type_)
| StructVariant (s : VariantStruct).

Record Trait := mk_Trait {
  trait_auto : bool;
  trait_unsafety : Unsafety;
  trait_items : list I;
  trait_generics : Generics;
  trait_bounds : list GenericBound;
  trait_is_auto : bool
}.

Record Impl := mk_Impl {
  impl_unsafety : Unsafety;
  impl_generics : Generics;
  provided_trait_methods : gset string;
  trait_ : option Type_;
  for_ : Type_;
  items : list I;
  polarity : option ImplPolarity;
  synthetic : bool;
  blanket_impl : option Type_
}.

Inductive ItemEnum :=
| ExternCrateItem (name : string) (src : option string)
| ImportItem (i : Import)
| StructItem (s : Struct)
| UnionItem (u : Union)
| EnumItem (e : Enum)
| FunctionItem (f : Function)
| ModuleItem (m : Module_)
| TypedefItem (t : Typedef) (is_associated : bool)
| OpaqueTyItem (t : OpaqueTy) (is_associated : bool)
| StaticItem (s : Static)
| ConstantItem (c : Constant)
| TraitItem (t : Trait)
| TraitAliasItem (t : TraitAlias)
| ImplItem (i : Impl)
| TyMethodItem (m : Function)
| MethodItem (m : Function)
| StructFieldItem (t : Type_)
| VariantItem (v : VariantKind)
| ForeignFunctionItem (f : Function)
| ForeignStaticItem (s : Static)
| ForeignTypeItem
| MacroItem (m : Macro)
| ProcMacroItem (m : ProcMacro)
| PrimitiveItem (p : PrimitiveType)
| AssocConstItem (t : Type_) (default : option string)
| AssocTypeItem (bounds : list GenericBound) (default : option Type_)
| StrippedItem (item : ItemEnum)
| KeywordItem (s : string).
End containers.
Arguments mk_Module {I}. Arguments module_items_ {I}. Arguments is_crate {I}.
Arguments mk_Struct {I}. Arguments struct_type {I}. Arguments struct_generics {I}.
Arguments struct_fields {I}. Arguments struct_fields_stripped {I}.
Arguments mk_Union {I}. Arguments union_type {I}. Arguments union_generics {I}.
Arguments union_fields {I}. Arguments union_fields_stripped {I}.
Arguments mk_Enum {I}. Arguments enum_variants {I}. Arguments enum_generics {I}.
Arguments enum_variants_stripped {I}.
Arguments mk_VariantStruct {I}. Arguments variant_struct_type {I}.
Arguments variant_fields {I}. Arguments variant_fields_stripped {I}.
Arguments CLike {I}. Arguments TupleVariant {I}. Arguments StructVariant {I}.
Arguments mk_Trait {I}. Arguments trait_auto {I}. Arguments trait_unsafety {I}.
Arguments trait_items {I}. Arguments trait_generics {I}. Arguments trait_bounds {I}.
Arguments trait_is_auto {I}.
Arguments mk_Impl {I}. Arguments impl_unsafety {I}. Arguments impl_generics {I}.
Arguments provided_trait_methods {I}. Arguments trait_ {I}. Arguments for_ {I}.
Arguments items {I}. Arguments polarity {I}. Arguments synthetic {I}.
Arguments blanket_impl {I}.
Arguments ExternCrateItem {I}. Arguments ImportItem {I}. Arguments StructItem {I}.
Arguments UnionItem {I}. Arguments EnumItem {I}. Arguments FunctionItem {I}.
Arguments ModuleItem {I}. Arguments TypedefItem {I}. Arguments OpaqueTyItem {I}.
Arguments StaticItem {I}. Arguments ConstantItem {I}. Arguments TraitItem {I}.
Arguments TraitAliasItem {I}. Arguments ImplItem {I}. Arguments TyMethodItem {I}.
Arguments MethodItem {I}. Arguments StructFieldItem {I}. Arguments VariantItem {I}.
Arguments ForeignFunctionItem {I}. Arguments ForeignStaticItem {I}.
Arguments ForeignTypeItem {I}. Arguments MacroItem {I}. Arguments ProcMacroItem {I}.
Arguments PrimitiveItem {I}. Arguments AssocConstItem {I}. Arguments AssocTypeItem {I}.
Arguments StrippedItem {I}. Arguments KeywordItem {I}.

(** [FileName] ([librustc_span/lib.rs]). *)
Inductive RealFileName := Named (path : string) | Devirtualized (local_path virtual_name : string).
Inductive FileName :=
| Real (name : RealFileName)
| QuoteExpansion (hash : N)
| Anon (hash : N)
| MacroExpansion (hash : N)
| ProcMacroSourceCode (hash : N)
| CfgSpec (hash : N)
| CliCrateAttr (hash : N)
| CustomFile (name : string)
| DocTest (path : string) (line : Z)
| InlineAsm (hash : N).

#[export] Instance RealFileName_eq_dec : EqDecision RealFileName.
Proof. solve_decision. Defined.
#[export] Instance FileName_eq_dec : EqDecision FileName.
Proof. solve_decision. Defined.
#[export] Program Instance RealFileName_countable : Countable RealFileName :=
  inj_countable' (fun n => match n with Named p => inl p | Devirtualized p v => inr (p, v) end)
    (fun x => match x with inl p => Named p | inr (p, v) => Devirtualized p v end) _.
Next Obligation. by intros []. Qed.
#[export] Instance FileName_countable : Countable FileName.
Proof.
  refine (inj_countable' (fun n => match n with
    | Real n => inl n
    | CustomFile s => inr (inl (s, None))
    | DocTest p l => inr (inl (p, Some l))
    | QuoteExpansion h => inr (inr (0%nat, h)) | Anon h => inr (inr (1, h))
    | MacroExpansion h => inr (inr (2, h)) | ProcMacroSourceCode h => inr (inr (3, h))
    | CfgSpec h => inr (inr (4, h)) | CliCrateAttr h => inr (inr (5, h))
    | InlineAsm h => inr (inr (6, h)) end)
    (fun x => match x with
    | inl n => Real n
    | inr (inl (s, None)) => CustomFile s
    | inr (inl (p, Some l)) => DocTest p l
    | inr (inr (0%nat, h)) => QuoteExpansion h | inr (inr (1, h)) => Anon h
    | inr (inr (2, h)) => MacroExpansion h | inr (inr (3, h)) => ProcMacroSourceCode h
    | inr (inr (4, h)) => CfgSpec h | inr (inr (5, h)) => CliCrateAttr h
    | inr (inr (_, h)) => InlineAsm h end) _).
  by intros [].
Defined.

(** [RealFileName::local_path]. *)
Definition local_path (n : RealFileName) : string :=
  match n with Named p | Devirtualized p _ => p end.

(** [Display] for [FileName]. *)
Definition file_name_to_string (n : FileName) : string :=
  match n with
  | Real n => local_path n
  | QuoteExpansion _ => "<quote expansion>"
  | MacroExpansion _ => "<macro expansion>"
  | Anon _ => "<anon>"
  | ProcMacroSourceCode _ => "<proc-macro source code>"
  | CfgSpec _ => "<cfgspec>"
  | CliCrateAttr _ => "<crate attribute>"
  | CustomFile s => "<" +:+ s +:+ ">"
  | DocTest path _ => path
  | InlineAsm _ => "<inline asm>"
  end.

(** The source of an item, without the lines and columns, which are not read. *)
Record Span := mk_Span { filename : FileName; cnum : N }.

(** The stability and the deprecation are not read. *)
Inductive Item := mk_Item {
  item_name : option string;
  item_attrs : ItemAttributes;
  item_inner : ItemEnum Item;
  item_visibility : Visibility;
  item_def_id : DefId;
  item_source : Span
}.

(** ** Operations on items *)

(** [ItemType::from]; a doubly stripped item is unreachable. *)
Definition inner_type (e : ItemEnum Item) : outcome ItemType :=
  match e with
  | ModuleItem _ => mret ItemType.Module_
  | ExternCrateItem _ _ => mret ItemType.ExternCrate
  | ImportItem _ => mret ItemType.Import_
  | StructItem _ => mret ItemType.Struct
  | UnionItem _ => mret ItemType.Union_
  | EnumItem _ => mret ItemType.Enum
  | FunctionItem _ => mret ItemType.Function_
  | TypedefItem _ _ => mret ItemType.Typedef
  | OpaqueTyItem _ _ => mret ItemType.OpaqueTy
  | StaticItem _ => mret ItemType.Static
  | ConstantItem _ => mret ItemType.Constant_
  | TraitItem _ => mret ItemType.Trait
  | ImplItem _ => mret ItemType.Impl
  | TyMethodItem _ => mret ItemType.TyMethod
  | MethodItem _ => mret ItemType.Method
  | StructFieldItem _ => mret ItemType.StructField
  | VariantItem _ => mret ItemType.Variant
  | ForeignFunctionItem _ => mret ItemType.Function_
  | ForeignStaticItem _ => mret ItemType.Static
  | MacroItem _ => mret ItemType.Macro
  | PrimitiveItem _ => mret ItemType.Primitive_
  | AssocConstItem _ _ => mret ItemType.AssocConst
  | AssocTypeItem _ _ => mret ItemType.AssocType
  | ForeignTypeItem => mret ItemType.ForeignType
  | KeywordItem _ => mret ItemType.Keyword
  | TraitAliasItem _ => mret ItemType.TraitAlias
  | ProcMacroItem mac =>
      match macro_kind mac with
      | Bang => mret ItemType.Macro
      | Attr => mret ItemType.ProcAttribute
      | Derive => mret ItemType.ProcDerive
      end
  | StrippedItem _ => Panicked
  end.

Definition item_type (item : Item) : outcome ItemType :=
  match item_inner item with
  | StrippedItem e => inner_type e
  | e => inner_type e
  end.

Definition is_mod (item : Item) : outcome bool :=
  kind ← item_type item; mret (bool_decide (kind = ItemType.Module_)).

Definition is_stripped (item : Item) : bool :=
  match item_inner item with StrippedItem _ => true | _ => false end.

Definition with_inner_enum (item : Item) (e : ItemEnum Item) : Item :=
  {| item_name := item_name item; item_attrs := item_attrs item; item_inner := e;
     item_visibility := item_visibility item; item_def_id := item_def_id item;
     item_source := item_source item |}.

(** [DefId::is_local] ([LOCAL_CRATE] is the crate number 0) and [CRATE_DEF_INDEX]. *)
Definition is_local (d : DefId) : bool := N.eqb (did_krate d) 0.
Definition CRATE_DEF_INDEX : N := 0.

(** ** Operations on types that the passes and the cache use *)

Definition primitive_type (t : Type_) : option PrimitiveType :=
  match t with
  | Primitive p | BorrowedRef _ _ (Primitive p) => Some p
  | Slice _ | BorrowedRef _ _ (Slice _) => Some PrimitiveType.Slice
  | Array _ _ | BorrowedRef _ _ (Array _ _) => Some PrimitiveType.Array
  | Tuple tys => if bool_decide (tys = []) then Some PrimitiveType.Unit
                 else Some PrimitiveType.Tuple
  | RawPointer _ _ => Some PrimitiveType.RawPointer
  | BorrowedRef _ _ (Generic _) => Some PrimitiveType.Reference
  | BareFunction _ => Some PrimitiveType.Fn
  | Never => Some PrimitiveType.Never
  | _ => None
  end.

Definition generics (t : Type_) : option (list Type_) :=
  match t with
  | ResolvedPath path _ _ _ =>
      seg ← last (path_segments path);
      match segment_args seg with
      | AngleBracketed args _ =>
          Some (omap (fun arg => match arg with GenericArg_Type ty => Some ty | _ => None end)
                 args)
      | Parenthesized _ _ => None
      end
  | _ => None
  end.

(** ** Crates *)
Record ExternalCrate := mk_ExternalCrate {
  extern_name : string;
  extern_attrs : ItemAttributes;
  extern_primitives : list (DefId * PrimitiveType)
}.

(** [clean::Crate]; the [collapsed] flag is not read. *)
Record Crate := mk_Crate {
  krate_name : string;
  krate_version : option string;
  krate_src : FileName;
  krate_module : option Item;
  krate_externs : list (N * ExternalCrate);
  krate_primitives : list (DefId * PrimitiveType);
  external_traits : gmap DefId (Trait Item);
  masked_crates : gset N
}.

(** ** The members of an item, and its size *)
Section members.
Context {I : Type}.

Fixpoint members (e : ItemEnum I) : list I :=
  match e with
  | ModuleItem m => module_items_ m
  | StructItem s => struct_fields s
  | UnionItem u => union_fields u
  | EnumItem e => enum_variants e
  | TraitItem t => trait_items t
  | ImplItem i => items i
  | VariantItem (StructVariant s) => variant_fields s
  | StrippedItem e => members e
  | _ => []
  end.

Fixpoint enum_size (size : I -> nat) (e : ItemEnum I) : nat :=
  match e with
  | ModuleItem m => sum_list_with size (module_items_ m)
  | StructItem s => sum_list_with size (struct_fields s)
  | UnionItem u => sum_list_with size (union_fields u)
  | EnumItem e => sum_list_with size (enum_variants e)
  | TraitItem t => sum_list_with size (trait_items t)
  | ImplItem i => sum_list_with size (items i)
  | VariantItem v =>
      match v with StructVariant s => sum_list_with size (variant_fields s) | _ => 0 end
  | StrippedItem e => enum_size size e
  | _ => 0
  end.

Lemma enum_size_members size e : enum_size size e = sum_list_with size (members e).
Proof. induction e; try done. by destruct v. Qed.
End members.

Fixpoint item_size (i : Item) : nat :=
  match i with mk_Item _ _ e _ _ _ => S (enum_size item_size e) end.

Lemma item_size_members i :
  item_size i = S (sum_list_with item_size (members (item_inner i))).
Proof. destruct i. cbn. by rewrite enum_size_members. Qed.

Lemma item_size_pos item : 0 < item_size item.
Proof. rewrite item_size_members. lia. Qed.

Lemma member_size child item :
  child ∈ members (item_inner item) -> item_size child < item_size item.
Proof.
  intros Hin. rewrite (item_size_members item).
  apply (sum_list_with_elem item_size) in Hin. lia.
Qed.

Lemma item_members_ind (P : Item -> Prop) :
  (forall i, (forall c, c ∈ members (item_inner i) -> P c) -> P i) -> forall i, P i.
Proof.
  intros Hstep i. induction i as [i IH] using (induction_ltof1 _ item_size).
  apply Hstep. intros c Hc. by apply IH, member_size.
Qed.
