(* ===== verification/DocAttributes.v ===== *)
(** The attributes of an item as rustdoc reads them ([Attributes::from_ast],
    [clean/types.rs]): the fragments of the documentation, the configuration that the item
    needs, and the other attributes. *)

From S2P Require Import Prelude RustStd TextLines MetaItems Cfg CfgCorrect DocComments.
From S2P Require Import CleanTypes CleanItems.

(** ** The code *)

Definition single {A} (l : list A) : option A := match l with [x] => Some x | _ => None end.

(** [Attributes::extract_cfg]. *)
Definition extract_cfg (mi : MetaItem) : option MetaItem :=
  nmis ← mi_list mi;
  nmi ← single nmis;
  cfg_mi ← meta_item nmi;
  if mi_check_name cfg_mi "cfg" then
    cfg_nmis ← mi_list cfg_mi;
    cfg_nmi ← single cfg_nmis;
    meta_item cfg_nmi
  else None.

(** The loop over the list of [include(..)]: the last name and the last contents. *)
Definition include_step (st : option string * option string) (it : NestedMetaItem)
    : option string * option string :=
  let '(filename, contents) := st in
  if check_name it "file" then
    match value_str it with Some name => (Some name, contents) | None => st end
  else if check_name it "contents" then
    match value_str it with Some docs => (filename, Some docs) | None => st end
  else st.

(** [Attributes::extract_include]: the first [include] decides. *)
Definition extract_include (mi : MetaItem) : option (string * string) :=
  list ← mi_list mi;
  meta ← List.find (fun meta => check_name meta "include") list;
  list ← nested_list meta;
  match foldl include_step (None, None) list with
  | (Some filename, Some contents) => Some (filename, contents)
  | _ => None
  end.

(** [Attributes::check_doc_attributes]: the errors that are reported. *)
Definition check_doc_attributes (mi : MetaItem) : list string :=
  default [] (mi_list mi) ≫= fun meta =>
    if check_name meta "alias"
       && (negb (is_value_str meta) || bool_decide (default EmptyString (value_str meta) = EmptyString))
    then ["doc alias attribute expects a string: #[doc(alias = "
          +:+ dquote +:+ "0" +:+ dquote +:+ ")]"]
    else [].

(** The state of [Attributes::from_ast], with the errors that were reported. *)
Record Read := mk_Read {
  rd_doc_strings : list DocFragment;
  rd_doc_line : nat;
  rd_cfg : Cfg;
  rd_other_attrs : list Attribute;
  rd_errors : list string
}.

(** A fragment is pushed, and its lines are counted. *)
Definition push_fragment (st : Read) (mk_fragment : nat -> DocFragment) (text : string) : Read :=
  mk_Read (rd_doc_strings st ++ [mk_fragment (rd_doc_line st)])
    (rd_doc_line st + length (lines text)) (rd_cfg st) (rd_other_attrs st) (rd_errors st).

(** The closure of [filter_map], for an attribute without a documentation text. *)
Definition read_doc (attr : Attribute) (st : Read) : Read :=
  if attr_check_name attr "doc" then
    match attr_meta attr with
    | Some mi =>
        let st := mk_Read (rd_doc_strings st) (rd_doc_line st) (rd_cfg st) (rd_other_attrs st)
                    (rd_errors st ++ check_doc_attributes mi) in
        match extract_cfg mi with
        | Some cfg_mi =>
            match Cfg.parse cfg_mi with
            | Ok new_cfg =>
                mk_Read (rd_doc_strings st) (rd_doc_line st) (Cfg.bitand_assign (rd_cfg st) new_cfg)
                  (rd_other_attrs st) (rd_errors st)
            | Err msg =>
                mk_Read (rd_doc_strings st) (rd_doc_line st) (rd_cfg st) (rd_other_attrs st)
                  (rd_errors st ++ [msg])
            end
        | None =>
            match extract_include mi with
            | Some (filename, contents) =>
                push_fragment st (fun line => Include line filename contents) contents
            | None => st
            end
        end
    | None => st
    end
  else st.

Definition read_step (attr : Attribute) (st : Read) : outcome Read :=
  match doc_str attr with
  | Some value =>
      if is_doc_comment attr then
        value ← strip_doc_comment_decoration value;
        mret (push_fragment st (fun line => SugaredDoc line value) value)
      else mret (push_fragment st (fun line => RawDoc line value) value)
  | None =>
      let st := read_doc attr st in
      mret (mk_Read (rd_doc_strings st) (rd_doc_line st) (rd_cfg st)
              (rd_other_attrs st ++ [attr]) (rd_errors st))
  end.

(** The loop over [attrs.lists(sym::target_feature)]. *)
Definition target_feature_step (cfg : Cfg) (attr : NestedMetaItem) : Cfg :=
  if check_name attr "enable" then
    match value_str attr with
    | Some feat =>
        match Cfg.parse (mk_name_value_item_str "target_feature" feat) with
        | Ok feat_cfg => Cfg.bitand_assign cfg feat_cfg
        | Err _ => cfg
        end
    | None => cfg
    end
  else cfg.

Definition from_ast (attrs : list Attribute) : outcome (ItemAttributes * list string) :=
  st ← fold_loop read_step attrs (mk_Read [] 0 Cfg.True_ [] []);
  let cfg := foldl target_feature_step (rd_cfg st) (attr_lists attrs "target_feature") in
  let inner_docs :=
    match List.find (fun a => bool_decide (is_Some (doc_str a))) attrs with
    | Some a => match attr_style a with Inner => true | Outer => false end
    | None => true
    end in
  mret (mk_ItemAttributes (rd_doc_strings st) (rd_other_attrs st)
          (if decide (cfg = Cfg.True_) then None else Some cfg) inner_docs,
        rd_errors st).

(** [has_doc_flag]. *)
Definition has_doc_flag (self : ItemAttributes) (flag : string) : bool :=
  existsb (fun attr =>
    attr_check_name attr "doc"
    && match attr_list attr with
       | Some items => existsb (fun it => mi_check_name it flag) (omap meta_item items)
       | None => false
       end) (other_attrs self).

(** ** What is read *)

(** The configurations that the attributes ask for. *)
Definition doc_cfg (attr : Attribute) : option Cfg :=
  match doc_str attr with
  | Some _ => None
  | None =>
      if attr_check_name attr "doc" then
        mi ← attr_meta attr;
        cfg_mi ← extract_cfg mi;
        match Cfg.parse cfg_mi with Ok c => Some c | Err _ => None end
      else None
  end.

Definition feature_cfg (attr : NestedMetaItem) : option Cfg :=
  if check_name attr "enable" then
    (fun feat => Cfg.Cfg_ "target_feature" (Some feat)) <$> value_str attr
  else None.

Definition asked_cfgs (attrs : list Attribute) : list Cfg :=
  omap doc_cfg attrs ++ omap feature_cfg (attr_lists attrs "target_feature").

(** The text of a fragment that an attribute gives rise to, and its kind. *)
Inductive fragment_of (attr : Attribute) (line : nat) : DocFragment -> Prop :=
| fragment_comment value text :
    doc_str attr = Some value -> is_doc_comment attr = true ->
    strip_doc_comment_decoration value = Ret text -> fragment_of attr line (SugaredDoc line text)
| fragment_attribute value :
    doc_str attr = Some value -> is_doc_comment attr = false ->
    fragment_of attr line (RawDoc line value)
| fragment_include mi filename contents :
    doc_str attr = None -> attr_check_name attr "doc" = true -> attr_meta attr = Some mi ->
    extract_cfg mi = None -> extract_include mi = Some (filename, contents) ->
    fragment_of attr line (Include line filename contents).

(** The fragments of the attributes, in order, each with the number of lines that were counted
    for those before it. *)
Inductive fragments (line : nat) : list Attribute -> list DocFragment -> nat -> Prop :=
| fragments_nil : fragments line [] [] line
| fragments_some attrs attr ds f last :
    fragments line attrs ds last -> fragment_of attr last f ->
    fragments line (attrs ++ [attr]) (ds ++ [f]) (last + length (lines (doc_fragment_str f)))
| fragments_none attrs attr ds last :
    fragments line attrs ds last -> (forall f, ~ fragment_of attr last f) ->
    fragments line (attrs ++ [attr]) ds last.

Definition undocumented (a : Attribute) : bool := bool_decide (doc_str a = None).

Lemma filter_undocumented a :
  List.filter undocumented [a] = match doc_str a with Some _ => [] | None => [a] end.
Proof. cbn [List.filter]. unfold undocumented. by destruct (doc_str a). Qed.

Lemma doc_cfg_text a value : doc_str a = Some value -> doc_cfg a = None.
Proof. intros Hs. unfold doc_cfg. by rewrite Hs. Qed.

Record read_ok (attrs : list Attribute) (st : Read) : Prop := {
  ro_docs : fragments 0 attrs (rd_doc_strings st) (rd_doc_line st);
  ro_other : rd_other_attrs st = List.filter undocumented attrs;
  ro_cfg : rd_cfg st = foldl Cfg.bitand Cfg.True_ (omap doc_cfg attrs)
}.

Lemma doc_comment_str a : is_doc_comment a = true -> is_Some (doc_str a).
Proof. unfold is_doc_comment, doc_str. destruct (attr_kind a); [done|by eexists]. Qed.

Lemma read_ok_nil : read_ok [] (mk_Read [] 0 Cfg.True_ [] []).
Proof. split; [constructor|done|done]. Qed.

Lemma read_doc_other attr st : rd_other_attrs (read_doc attr st) = rd_other_attrs st.
Proof.
  unfold read_doc. destruct (attr_check_name _ _); [|done]. destruct (attr_meta attr); [|done].
  destruct (extract_cfg _); [by destruct (Cfg.parse _)|]. by destruct (extract_include _) as [[? ?]|].
Qed.

Lemma read_doc_cfg attr st :
  doc_str attr = None -> rd_cfg (read_doc attr st) = foldl Cfg.bitand (rd_cfg st) (option_list (doc_cfg attr)).
Proof.
  intros Hn. unfold read_doc, doc_cfg. rewrite Hn. destruct (attr_check_name _ _); [|done].
  destruct (attr_meta attr) as [mi|]; [|done]. cbn [mbind option_bind].
  destruct (extract_cfg mi) as [cfg_mi|]; cbn [mbind option_bind]; [by destruct (Cfg.parse cfg_mi)|].
  by destruct (extract_include mi) as [[? ?]|].
Qed.

Lemma read_doc_fragments attr attrs st :
  doc_str attr = None -> fragments 0 attrs (rd_doc_strings st) (rd_doc_line st) ->
  fragments 0 (attrs ++ [attr]) (rd_doc_strings (read_doc attr st)) (rd_doc_line (read_doc attr st)).
Proof.
  intros Hn Hf.
  assert (Hnone : (forall mi filename contents, attr_check_name attr "doc" = true ->
      attr_meta attr = Some mi -> extract_cfg mi = None ->
      extract_include mi <> Some (filename, contents)) ->
    fragments 0 (attrs ++ [attr]) (rd_doc_strings st) (rd_doc_line st)).
  { intros Hno. apply fragments_none; [done|]. intros f Hof.
    inversion Hof; [congruence|congruence|]. by eapply Hno. }
  unfold read_doc. destruct (attr_check_name attr "doc") eqn:Hdoc; [|by apply Hnone].
  destruct (attr_meta attr) as [mi|] eqn:Hmi; [|by apply Hnone].
  destruct (extract_cfg mi) as [cfg_mi|] eqn:Hcfg.
  - destruct (Cfg.parse cfg_mi); apply Hnone; congruence.
  - destruct (extract_include mi) as [[filename contents]|] eqn:Hinc.
    + apply (fragments_some 0 attrs attr _ (Include _ filename contents)); [done|].
      by eapply fragment_include.
    + apply Hnone. congruence.
Qed.

Lemma omap_snoc {A B} (f : A -> option B) l x : omap f (l ++ [x]) = omap f l ++ option_list (f x).
Proof. induction l as [|y l IH]; cbn; [by destruct (f x)|]. rewrite IH. by destruct (f y). Qed.

(** A doc comment of the lexer has a text. *)
Definition comment_ok (a : Attribute) : Prop :=
  forall s, attr_kind a = DocComment s -> exists t, strip_doc_comment_decoration s = Ret t.

Lemma read_step_returns attrs attr st :
  comment_ok attr -> read_ok attrs st -> returns (read_step attr st) (read_ok (attrs ++ [attr])).
Proof.
  intros Hok [Hd Ho Hc]. unfold read_step.
  assert (Hsome : forall value f text, doc_str attr = Some value -> fragment_of attr (rd_doc_line st) (f (rd_doc_line st)) ->
    doc_fragment_str (f (rd_doc_line st)) = text -> read_ok (attrs ++ [attr]) (push_fragment st f text)).
  { intros value f text Hs Hf <-. split; cbn.
    - by apply fragments_some.
    - by rewrite List.filter_app, Ho, filter_undocumented, Hs, app_nil_r.
    - rewrite omap_snoc, Hc, (doc_cfg_text attr value Hs). cbn. by rewrite app_nil_r. }
  destruct (doc_str attr) as [value|] eqn:Hs.
  - destruct (is_doc_comment attr) eqn:Hcom; [|apply returns_ret; by eapply Hsome; [|eapply fragment_attribute|]].
    assert (Hkind : attr_kind attr = DocComment value).
    { unfold is_doc_comment, doc_str in *. destruct (attr_kind attr); [done|congruence]. }
    destruct (Hok value Hkind) as [t Ht]. rewrite Ht. cbn [mbind outcome_bind].
    apply returns_ret. by eapply Hsome; [|eapply fragment_comment|].
  - apply returns_ret. split; cbn.
    + by apply read_doc_fragments.
    + by rewrite read_doc_other, List.filter_app, Ho, filter_undocumented, Hs.
    + rewrite read_doc_cfg, omap_snoc, foldl_app, Hc by done. done.
Qed.

Lemma target_features_cfg l : forall c,
  foldl target_feature_step c l = foldl Cfg.bitand c (omap feature_cfg l).
Proof.
  induction l as [|attr l IH]; intros c; cbn [foldl omap list_omap]; [done|]. rewrite IH.
  unfold target_feature_step, feature_cfg. destruct (check_name attr "enable"); [|done].
  by destruct (value_str attr).
Qed.

Lemma from_ast_returns attrs :
  Forall comment_ok attrs ->
  returns (from_ast attrs) (fun r => exists last,
    fragments 0 attrs (doc_strings r.1) last /\
    other_attrs r.1 = List.filter undocumented attrs /\
    default Cfg.True_ (cfg r.1) = foldl Cfg.bitand Cfg.True_ (asked_cfgs attrs) /\
    cfg r.1 <> Some Cfg.True_).
Proof.
  intros Hok. unfold from_ast. eapply returns_bind.
  - apply (fold_loop_returns _ read_ok); [apply read_ok_nil|]. intros pre attr post st -> Hst.
    apply read_step_returns; [|done]. rewrite Forall_app, Forall_cons in Hok. tauto.
  - intros st [Hd Ho Hc]. apply returns_ret. cbn. exists (rd_doc_line st).
    split_and!; [done|done|..].
    + rewrite target_features_cfg, Hc. unfold asked_cfgs. rewrite foldl_app. by case_decide.
    + case_decide; congruence.
Qed.

(** ** The numbers of the fragments *)

Definition doc_fragment_line (f : DocFragment) : nat :=
  match f with SugaredDoc line _ | RawDoc line _ | Include line _ _ => line end.

(** The line of the complete documentation, the texts of the fragments on lines of their own,
    on which the fragment [i] starts, counted from 0: the number of lines in front of it. *)
Definition line_in_doc (ds : list DocFragment) (i : nat) : nat :=
  match take i ds with
  | [] => 0
  | before => length (split_str (join nl (doc_fragment_str <$> before)) nl)
  end.

(** The last line of a fragment is not empty. *)
Definition ended (f : DocFragment) : Prop := last (split_str (doc_fragment_str f) nl) <> Some EmptyString.

(** The lines that [from_ast] counts for a fragment, and those that it has. *)
Definition counted (f : DocFragment) : nat := length (lines (doc_fragment_str f)).
Definition height (f : DocFragment) : nat := length (split_str (doc_fragment_str f) nl).

Lemma counted_height f : counted f <= height f /\ (ended f <-> counted f = height f).
Proof.
  unfold counted, height, ended, lines, split_terminator. rewrite length_fmap.
  pose proof (split_nl_nonempty (doc_fragment_str f)) as Hne. case_bool_decide as Hlast.
  - rewrite length_take. destruct (split_str _ _) as [|l ls]; [done|]. cbn [length].
    split; [lia|]. split; [done|lia].
  - done.
Qed.

Lemma height_sum ds : ds <> [] ->
  length (split_str (join nl (doc_fragment_str <$> ds)) nl) = sum_list_with height ds.
Proof.
  induction ds as [|d ds IH]; [done|]. intros _. cbn [fmap list_fmap sum_list_with].
  destruct (decide (ds = [])) as [->|Hds]; [cbn [fmap list_fmap join sum_list_with]; by rewrite Nat.add_0_r|].
  rewrite join_cons by by destruct ds. rewrite split_nl_app, length_app, IH by done. done.
Qed.

Lemma counted_sum ds : sum_list_with counted ds <= sum_list_with height ds /\
  (Forall ended ds <-> sum_list_with counted ds = sum_list_with height ds).
Proof.
  induction ds as [|d ds [Hle Hiff]]; [by split|]. cbn [sum_list_with]. rewrite Forall_cons, Hiff.
  destruct (counted_height d) as [Hd ->]. split; lia.
Qed.

Lemma fragments_lines attrs ds last : fragments 0 attrs ds last ->
  last = sum_list_with counted ds /\
  forall i f, ds !! i = Some f -> doc_fragment_line f = sum_list_with counted (take i ds).
Proof.
  intros Hf. induction Hf as [|attrs attr ds f last _ [-> IH] Hof|attrs attr ds last _ IH _]; [done| |done].
  rewrite sum_list_with_app. cbn [sum_list_with]. split; [fold (counted f); lia|].
  intros i g [Hi|[-> <-]]%lookup_snoc_Some.
  - destruct Hi as [Hlt Hi]. rewrite take_app_le by lia. by apply IH.
  - rewrite take_app_length. by inversion Hof.
Qed.

(** The number of a fragment is at most its line, and is its line exactly when the fragments in
    front of it end with lines that are not empty. *)
Definition numbered (ds : list DocFragment) : Prop :=
  forall i f, ds !! i = Some f -> doc_fragment_line f <= line_in_doc ds i /\
    (Forall ended (take i ds) <-> doc_fragment_line f = line_in_doc ds i).

Lemma fragments_numbered attrs ds last : fragments 0 attrs ds last -> numbered ds.
Proof.
  intros [_ Hf]%fragments_lines i f Hi. rewrite (Hf i f Hi). unfold line_in_doc.
  destruct (take i ds) as [|d before] eqn:Ht; [by split|].
  rewrite height_sum by done. apply counted_sum.
Qed.

(** ** Properties *)

(** C26: when every doc comment can be stripped of its delimiters, reading the attributes of
    an item never panics. The documentation consists of one fragment for each doc comment,
    [doc] attribute with a text and included file, in order. The number of a fragment is never
    greater than the line of the complete documentation on which it starts, and is that line
    exactly when no fragment in front of it is empty or ends with an empty line: of an empty
    last line [from_ast] counts nothing. The other attributes are kept in order; and the
    configuration of the item is there unless it is always true, is in normal form, and holds
    exactly when all [doc(cfg(..))] that can be parsed and all enabled target features hold. *)
Theorem attributes_are_read (attrs : list Attribute) (Hok : Forall comment_ok attrs) :
  returns (from_ast attrs) (fun r => exists last,
    fragments 0 attrs (doc_strings r.1) last /\
    numbered (doc_strings r.1) /\
    other_attrs r.1 = List.filter undocumented attrs /\
    cfg r.1 <> Some Cfg.True_ /\
    normal (default Cfg.True_ (cfg r.1)) = true /\
    forall config, Cfg.matches config (default Cfg.True_ (cfg r.1)) =
      forallb (Cfg.matches config) (asked_cfgs attrs)).
Proof.
  eapply returns_mono; [by apply from_ast_returns|].
  intros r (last & Hd & Ho & Hc & Hne). exists last. split; [done|].
  split; [by eapply fragments_numbered|]. split_and!; [done..| |].
  - rewrite Hc. apply fold_normal; [apply bitand_normal|done|]. unfold asked_cfgs.
    apply Forall_app. split; apply Forall_forall; intros c Hin;
      apply list_elem_of_omap in Hin as (x & _ & Hx).
    + unfold doc_cfg in Hx. destruct (doc_str x); [done|]. destruct (attr_check_name x "doc"); [|done].
      destruct (attr_meta x) as [mi|]; [|done]. cbn in Hx.
      destruct (extract_cfg mi) as [cfg_mi|]; [|done]. cbn in Hx.
      destruct (Cfg.parse cfg_mi) as [c'|e] eqn:Hp; [|done]. injection Hx as <-. by eapply parse_normal.
    + unfold feature_cfg in Hx. destruct (check_name x "enable"); [|done].
      destruct (value_str x); [|done]. by injection Hx as <-.
  - intros config. by rewrite Hc, fold_bitand_matches.
Qed.

(** An item with two comments, a text of its own, a configuration and a target feature. *)
Definition sample_attributes : list Attribute :=
  [mk_Attribute (DocComment "/// one") Outer;
   mk_Attribute (DocComment (block ["/** two"; " * three"; " */"])) Outer;
   mk_Attribute (MetaItems.Normal ["doc"] (Some (MetaList [MetaItem_ (dummy_words "cfg" ["unix"])]))) Outer;
   mk_Attribute (MetaItems.Normal ["target_feature"]
     (Some (MetaList [MetaItem_ (mk_name_value_item_str "enable" "sse2")]))) Outer;
   mk_Attribute (MetaItems.Normal ["doc"] (Some (NameValue (LitKind.Str "four")))) Outer].

Lemma attributes_are_read_witness :
  exists r, from_ast sample_attributes = Ret r /\
    doc_strings r.1 = [SugaredDoc 0 " one"; SugaredDoc 1 (block [" two"; " * three"]); RawDoc 3 "four"] /\
    cfg r.1 = Some (Cfg.All [Cfg.Cfg_ "unix" None; Cfg.Cfg_ "target_feature" (Some "sse2")]) /\
    length (other_attrs r.1) = 2 /\
    exists last, fragments 0 sample_attributes (doc_strings r.1) last.
Proof.
  assert (Hok : Forall comment_ok sample_attributes).
  { unfold sample_attributes. repeat constructor; intros s Hs; try discriminate Hs;
      injection Hs as <-; eexists; vm_compute; reflexivity. }
  pose proof (attributes_are_read sample_attributes Hok) as Hr.
  assert (Hcomp : (fun r : ItemAttributes * list string =>
      (doc_strings r.1, cfg r.1, length (other_attrs r.1))) <$> from_ast sample_attributes =
    Ret ([SugaredDoc 0 " one"; SugaredDoc 1 (block [" two"; " * three"]); RawDoc 3 "four"],
         Some (Cfg.All [Cfg.Cfg_ "unix" None; Cfg.Cfg_ "target_feature" (Some "sse2")]), 2))
    by (vm_compute; reflexivity).
  destruct (from_ast sample_attributes) as [r| |]; [|destruct Hr|destruct Hr].
  exists r. cbn in Hcomp. injection Hcomp as Hd Hc Hl.
  destruct Hr as (last & Hf & _). split_and!; [done..|by exists last].
Defined.

(** Behind an empty line of a comment the numbers are too small: the third line has number 1. *)
Lemma empty_comment_lines_are_not_counted :
  (fun r => doc_strings r.1) <$> from_ast
    [mk_Attribute (DocComment "///a") Outer; mk_Attribute (DocComment "///") Outer;
     mk_Attribute (DocComment "///b") Outer] =
  Ret [SugaredDoc 0 "a"; SugaredDoc 1 ""; SugaredDoc 1 "b"] /\
  line_in_doc [SugaredDoc 0 "a"; SugaredDoc 1 ""; SugaredDoc 1 "b"] 2 = 2.
Proof. split; vm_compute; reflexivity. Qed.
