(* ===== verification/DocFold.v ===== *)
(** The folds over the items of a crate ([fold.rs]): [StripItem] and the trait
    [DocFolder], with the default methods it gives to every folder. A folder is an
    instance of a class; what all folders guarantee is proved against the class. *)

From S2P Require Import Prelude RustStd CleanTypes CleanItems.

(** ** [StripItem] *)

Definition strip (i : Item) : option Item :=
  match item_inner i with
  | StrippedItem _ => Some i
  | e => Some (with_inner_enum i (StrippedItem e))
  end.

(** ** The methods that are not overridden

    [fold_item] is the method of the folder; [F] is the type of the folder itself, which
    the methods mutate. *)
Section fold.
Context {F : Type} (fold_item : Item -> F -> outcome (option Item * F)).

(** [items.into_iter().filter_map(|x| self.fold_item(x)).collect()]. *)
Fixpoint fold_items (l : list Item) (self : F) : outcome (list Item * F) :=
  match l with
  | [] => mret ([], self)
  | x :: l =>
      r ← fold_item x self;
      rest ← fold_items l r.2;
      mret (option_list r.1 ++ rest.1, rest.2)
  end.

(** [stripped |= num_fields != fields.len() || fields.iter().any(|f| f.is_stripped())]. *)
Definition stripped_flag (stripped : bool) (before after : list Item) : bool :=
  stripped || (negb (length before =? length after) || existsb is_stripped after).

Definition fold_mod (m : Module_ Item) (self : F) : outcome (Module_ Item * F) :=
  r ← fold_items (module_items_ m) self;
  mret (mk_Module r.1 (is_crate m), r.2).

Definition fold_inner_recur (inner : ItemEnum Item) (self : F) : outcome (ItemEnum Item * F) :=
  match inner with
  | StrippedItem _ => Panicked
  | ModuleItem i => r ← fold_mod i self; mret (ModuleItem r.1, r.2)
  | StructItem i =>
      r ← fold_items (struct_fields i) self;
      mret (StructItem (mk_Struct (struct_type i) (struct_generics i) r.1
              (stripped_flag (struct_fields_stripped i) (struct_fields i) r.1)), r.2)
  | UnionItem i =>
      r ← fold_items (union_fields i) self;
      mret (UnionItem (mk_Union (union_type i) (union_generics i) r.1
              (stripped_flag (union_fields_stripped i) (union_fields i) r.1)), r.2)
  | EnumItem i =>
      r ← fold_items (enum_variants i) self;
      mret (EnumItem (mk_Enum r.1 (enum_generics i)
              (stripped_flag (enum_variants_stripped i) (enum_variants i) r.1)), r.2)
  | TraitItem i =>
      r ← fold_items (trait_items i) self;
      mret (TraitItem (mk_Trait (trait_auto i) (trait_unsafety i) r.1 (trait_generics i)
              (trait_bounds i) (trait_is_auto i)), r.2)
  | ImplItem i =>
      r ← fold_items (items i) self;
      mret (ImplItem (mk_Impl (impl_unsafety i) (impl_generics i) (provided_trait_methods i)
              (trait_ i) (for_ i) r.1 (polarity i) (synthetic i) (blanket_impl i)), r.2)
  | VariantItem (StructVariant j) =>
      r ← fold_items (variant_fields j) self;
      mret (VariantItem (StructVariant (mk_VariantStruct (variant_struct_type j) r.1
              (stripped_flag (variant_fields_stripped j) (variant_fields j) r.1))), r.2)
  | x => mret (x, self)
  end.

Definition fold_item_recur (item : Item) (self : F) : outcome (option Item * F) :=
  r ← match item_inner item with
      | StrippedItem i => r ← fold_inner_recur i self; mret (StrippedItem r.1, r.2)
      | inner => fold_inner_recur inner self
      end;
  mret (Some (with_inner_enum item r.1), r.2).
End fold.

(** ** The trait

    [override recur i] is the body of [fold_item] on [i]; [recur] is
    [self.fold_item_recur], which a folder only calls on the item itself, or on the item
    with other attributes. *)
Class DocFolder (F : Type) := {
  override : (Item -> F -> outcome (option Item * F)) -> Item -> F ->
    outcome (option Item * F);
  override_local : forall r1 r2 i s,
    (forall j s, item_inner j = item_inner i -> r1 j s = r2 j s) ->
    override r1 i s = override r2 i s
}.

Section folder.
Context {F : Type} `{DocFolder F}.

(** [fold_item], with the size of the item as fuel. *)
Definition fold_item (i : Item) (self : F) : outcome (option Item * F) :=
  fixm (fun p => item_size p.1)
    (fun rec p => override (fold_item_recur (fun i s => rec (i, s))) p.1 p.2)
    Panicked (i, self).

(** [krate.external_traits] is a hash map. *)
Definition fold_trait (entry : DefId * Trait Item) (st : gmap DefId (Trait Item) * F)
    : outcome (gmap DefId (Trait Item) * F) :=
  let '(k, v) := entry in
  r ← fold_items fold_item (trait_items v) st.2;
  let v := mk_Trait (trait_auto v) (trait_unsafety v) r.1 (trait_generics v)
             (trait_bounds v) (trait_is_auto v) in
  mret (<[k := v]> st.1, r.2).

Definition fold_crate `{HashOrder} (c : Crate) (self : F) : outcome (Crate * F) :=
  r ← match krate_module c with
      | None => mret (None, self)
      | Some module => fold_item module self
      end;
  t ← fold_loop fold_trait (map_order 11 (external_traits c)) (∅, r.2);
  mret ({| krate_name := krate_name c; krate_version := krate_version c;
           krate_src := krate_src c;
           krate_module := r.1; krate_externs := krate_externs c;
           krate_primitives := krate_primitives c; external_traits := t.1;
           masked_crates := masked_crates c |}, t.2).

(** ** The equation of [fold_item] *)

Lemma fold_items_ext (f g : Item -> F -> outcome (option Item * F)) l :
  (forall i s, i ∈ l -> f i s = g i s) -> forall s, fold_items f l s = fold_items g l s.
Proof.
  induction l as [|x l IH]; intros Hfg s; [done|]. cbn [fold_items].
  rewrite Hfg by set_solver. destruct (g x s) as [[r s']| |]; cbn; [|done..].
  rewrite IH; [done|]. intros i s0 Hi. apply Hfg. set_solver.
Qed.

Lemma fold_inner_recur_ext (f g : Item -> F -> outcome (option Item * F)) e :
  (forall i s, i ∈ members e -> f i s = g i s) ->
  forall s, fold_inner_recur f e s = fold_inner_recur g e s.
Proof.
  intros Hfg s. destruct e as [| | | | | |m| | | | | | | | | |t|v| | | | | | | | | |];
    cbn in *; unfold fold_mod; try done; try by rewrite (fold_items_ext f g).
  destruct v; cbn in *; [done|done|by rewrite (fold_items_ext f g)].
Qed.

Lemma fold_item_recur_ext (f g : Item -> F -> outcome (option Item * F)) i :
  (forall c s, c ∈ members (item_inner i) -> f c s = g c s) ->
  forall s, fold_item_recur f i s = fold_item_recur g i s.
Proof.
  intros Hfg s. unfold fold_item_recur.
  destruct (item_inner i); rewrite ?(fold_inner_recur_ext f g) by done; done.
Qed.

Lemma fold_item_unfold i s :
  fold_item i s = override (fold_item_recur fold_item) i s.
Proof.
  unfold fold_item at 1. rewrite fixm_unfold; [done|].
  intros f g [j s0] Hfg. apply override_local. intros k s1 Hk. cbn [fst].
  apply fold_item_recur_ext. intros c s2 Hc. apply Hfg. rewrite Hk in Hc. by apply member_size.
Qed.
End folder.
