(* ===== verification/Pruning.v ===== *)
(** What every fold of rustdoc guarantees: the tree it returns is the given one with items
    removed or wrapped as stripped, and nothing else changed. *)

From S2P Require Import Prelude RustStd CleanTypes CleanItems DocFold.

(** ** Shapes

    The data of an item without its members. *)
Definition shape (e : ItemEnum Item) : ItemEnum Item :=
  let fix go e :=
    match e with
    | ModuleItem m => ModuleItem (mk_Module [] (is_crate m))
    | StructItem s => StructItem (mk_Struct (struct_type s) (struct_generics s) [] false)
    | UnionItem u => UnionItem (mk_Union (union_type u) (union_generics u) [] false)
    | EnumItem e => EnumItem (mk_Enum [] (enum_generics e) false)
    | TraitItem t => TraitItem (mk_Trait (trait_auto t) (trait_unsafety t) [] (trait_generics t)
                       (trait_bounds t) (trait_is_auto t))
    | ImplItem i => ImplItem (mk_Impl (impl_unsafety i) (impl_generics i)
                      (provided_trait_methods i) (trait_ i) (for_ i) [] (polarity i)
                      (synthetic i) (blanket_impl i))
    | VariantItem (StructVariant s) =>
        VariantItem (StructVariant (mk_VariantStruct (variant_struct_type s) [] false))
    | StrippedItem e => StrippedItem (go e)
    | e => e
    end in go e.

(** The variant with the members [l], as the folds build it. *)
Definition rebuild (e : ItemEnum Item) (l : list Item) : ItemEnum Item :=
  match e with
  | ModuleItem m => ModuleItem (mk_Module l (is_crate m))
  | StructItem s => StructItem (mk_Struct (struct_type s) (struct_generics s) l
      (stripped_flag (struct_fields_stripped s) (struct_fields s) l))
  | UnionItem u => UnionItem (mk_Union (union_type u) (union_generics u) l
      (stripped_flag (union_fields_stripped u) (union_fields u) l))
  | EnumItem e => EnumItem (mk_Enum l (enum_generics e)
      (stripped_flag (enum_variants_stripped e) (enum_variants e) l))
  | TraitItem t => TraitItem (mk_Trait (trait_auto t) (trait_unsafety t) l (trait_generics t)
      (trait_bounds t) (trait_is_auto t))
  | ImplItem i => ImplItem (mk_Impl (impl_unsafety i) (impl_generics i)
      (provided_trait_methods i) (trait_ i) (for_ i) l (polarity i) (synthetic i)
      (blanket_impl i))
  | VariantItem (StructVariant s) => VariantItem (StructVariant
      (mk_VariantStruct (variant_struct_type s) l
        (stripped_flag (variant_fields_stripped s) (variant_fields s) l)))
  | e => e
  end.

Definition stripped_enum (e : ItemEnum Item) : bool :=
  match e with StrippedItem _ => true | _ => false end.

(** What the strippers of rustdoc wrap instead of dropping it. *)
Definition strippable (e : ItemEnum Item) : bool :=
  match e with StructFieldItem _ | ModuleItem _ => true | _ => false end.

Lemma shape_strippable e : strippable (shape e) = strippable e.
Proof. destruct e; try done. by destruct v. Qed.

Lemma strippable_bare e : strippable e = true -> stripped_enum e = false.
Proof. by destruct e. Qed.

Lemma shape_stripped e : stripped_enum (shape e) = stripped_enum e.
Proof. destruct e; try done. by destruct v. Qed.

Lemma shape_rebuild e l : shape (rebuild e l) = shape e.
Proof. destruct e; try done. by destruct v. Qed.

Lemma members_rebuild e l :
  stripped_enum e = false -> (members e = [] -> l = []) -> members (rebuild e l) = l.
Proof.
  intros He Hl. destruct e; try done; try (symmetry; by apply Hl).
  destruct v; try done; symmetry; by apply Hl.
Qed.

Section fold.
Context {F : Type} (f : Item -> F -> outcome (option Item * F)).

Lemma fold_inner_members e s :
  stripped_enum e = false ->
  fold_inner_recur f e s = (r ← fold_items f (members e) s; mret (rebuild e r.1, r.2)).
Proof.
  intros He. destruct e; try done; cbn; unfold fold_mod.
  - by destruct (fold_items f _ s) as [[]| |].
  - by destruct v.
Qed.
End fold.

(** ** Sublists with related elements *)
Inductive kept {A} (R : A -> A -> Prop) : list A -> list A -> Prop :=
| kept_nil : kept R [] []
| kept_drop x l' l : kept R l' l -> kept R l' (x :: l)
| kept_keep x' x l' l : R x' x -> kept R l' l -> kept R (x' :: l') (x :: l).

Lemma kept_nil_inv {A} (R : A -> A -> Prop) l' : kept R l' [] -> l' = [].
Proof. by inversion 1. Qed.

Lemma kept_elem {A} (R : A -> A -> Prop) l' l x' :
  kept R l' l -> x' ∈ l' -> exists x, x ∈ l /\ R x' x.
Proof.
  induction 1 as [|y l' l _ IH|y' y l' l Hy _ IH]; intros Hx.
  - by apply not_elem_of_nil in Hx.
  - destruct (IH Hx) as (x & ? & ?). exists x. set_solver.
  - apply elem_of_cons in Hx as [->|Hx]; [exists y; set_solver|].
    destruct (IH Hx) as (x & ? & ?). exists x. set_solver.
Qed.

Lemma kept_mono {A} (R S : A -> A -> Prop) l' l :
  (forall x' x, x ∈ l -> R x' x -> S x' x) -> kept R l' l -> kept S l' l.
Proof.
  intros HRS. induction 1 as [|x l' l _ IH|x' x l' l Hx _ IH]; [constructor|..].
  - apply kept_drop, IH. set_solver.
  - apply kept_keep; [apply HRS; [set_solver|done]|]. apply IH. set_solver.
Qed.

Lemma kept_trans {A} (R S T : A -> A -> Prop) l1 l2 l3 :
  (forall x y z, z ∈ l3 -> R x y -> S y z -> T x z) ->
  kept R l1 l2 -> kept S l2 l3 -> kept T l1 l3.
Proof.
  intros HT H12 H23. revert l1 H12.
  induction H23 as [|z l2 l3 _ IH|y z l2 l3 Hyz _ IH]; intros l1 H12.
  - apply kept_nil_inv in H12 as ->. constructor.
  - apply kept_drop, IH; [|done]. intros x y w Hw. apply HT. set_solver.
  - assert (IH' : forall l1, kept R l1 l2 -> kept T l1 l3).
    { apply IH. intros x y' w Hw. apply HT. set_solver. }
    inversion H12 as [|? ? ? Hk|x ? l1' ? Hxy Hk]; subst.
    + apply kept_drop. by apply IH'.
    + apply kept_keep; [|by apply IH']. eapply HT; [set_solver|done..].
Qed.

Lemma kept_refl {A} (R : A -> A -> Prop) l : (forall x, x ∈ l -> R x x) -> kept R l l.
Proof.
  induction l as [|x l IH]; intros HR; [constructor|].
  apply kept_keep; [apply HR; set_solver|]. apply IH. set_solver.
Qed.

Lemma kept_length {A} (R : A -> A -> Prop) l' l : kept R l' l -> length l' <= length l.
Proof. induction 1; cbn; lia. Qed.

(** ** Pruned items *)

(** Everything of an item but its variant. *)
Definition same_header (i' i : Item) : Prop :=
  item_name i' = item_name i /\ item_attrs i' = item_attrs i /\
  item_visibility i' = item_visibility i /\ item_def_id i' = item_def_id i /\
  item_source i' = item_source i.

#[export] Instance same_header_equivalence : Equivalence same_header.
Proof.
  unfold same_header. split.
  - intros i. done.
  - intros i j (? & ? & ? & ? & ?). done.
  - intros i j k (? & ? & ? & ? & ?) (? & ? & ? & ? & ?). split_and!; congruence.
Qed.

(** The same, with another documentation. *)
Definition same_but_docs (i' i : Item) : Prop :=
  item_name i' = item_name i /\ other_attrs (item_attrs i') = other_attrs (item_attrs i) /\
  item_visibility i' = item_visibility i /\ item_def_id i' = item_def_id i /\
  item_source i' = item_source i.

#[export] Instance same_but_docs_equivalence : Equivalence same_but_docs.
Proof.
  unfold same_but_docs. split.
  - intros i. done.
  - intros i j (? & ? & ? & ? & ?). done.
  - intros i j k (? & ? & ? & ? & ?) (? & ? & ? & ? & ?). split_and!; congruence.
Qed.

(** What the two relations have in common. *)
Class Header (header : Item -> Item -> Prop) :=
  header_same i' i : header i' i -> same_but_docs i' i.
#[export] Instance same_header_header : Header same_header.
Proof. intros i' i (? & Ha & ? & ? & ?). split_and!; [done|by rewrite Ha|done..]. Qed.
#[export] Instance same_but_docs_header : Header same_but_docs.
Proof. by intros i' i. Qed.

(** [i'] is [i] without some of the items below it; if [wrap], it and items below it may
    have become stripped; [header] relates what else the items have. *)
Inductive pruned_by (header : Item -> Item -> Prop) (wrap : bool) : Item -> Item -> Prop :=
| pruned_item i' i :
    header i' i ->
    shape (item_inner i') = shape (item_inner i) \/
      wrap = true /\ strippable (item_inner i) = true /\
      shape (item_inner i') = StrippedItem (shape (item_inner i)) ->
    kept (pruned_by header wrap) (members (item_inner i')) (members (item_inner i)) ->
    pruned_by header wrap i' i.
Abbreviation pruned := (pruned_by same_header).
Abbreviation edited := (pruned_by same_but_docs).

Lemma pruned_inv header wrap i' i :
  pruned_by header wrap i' i ->
  header i' i /\
  (shape (item_inner i') = shape (item_inner i) \/
   wrap = true /\ strippable (item_inner i) = true /\
   shape (item_inner i') = StrippedItem (shape (item_inner i))) /\
  kept (pruned_by header wrap) (members (item_inner i')) (members (item_inner i)).
Proof. by inversion 1. Qed.

Lemma pruned_but_docs header `{Header header} wrap i' i :
  pruned_by header wrap i' i -> edited wrap i' i.
Proof.
  revert i'. induction i as [i IH] using item_members_ind.
  intros i' (Hh%header_same & Hs & Hk)%pruned_inv. constructor; [done|done|].
  eapply kept_mono; [|exact Hk]. intros x' x Hx. by apply IH.
Qed.

Lemma pruned_wrap wrap i' i : pruned wrap i' i -> pruned true i' i.
Proof.
  revert i'. induction i as [i IH] using item_members_ind. intros i' (Hh & Hs & Hk)%pruned_inv.
  constructor; [done|tauto|]. eapply kept_mono; [|exact Hk]. intros x' x Hx. by apply IH.
Qed.

Lemma pruned_refl wrap i : pruned wrap i i.
Proof.
  induction i as [i IH] using item_members_ind. constructor; [done|by left|].
  by apply kept_refl.
Qed.

Lemma pruned_trans wrap i1 i2 i3 :
  pruned wrap i1 i2 -> pruned wrap i2 i3 -> pruned wrap i1 i3.
Proof.
  revert i1 i2. induction i3 as [i3 IH] using item_members_ind.
  intros i1 i2 (Hh & Hs & Hk)%pruned_inv (Hh' & Hs' & Hk')%pruned_inv. constructor.
  - by etrans.
  - destruct Hs as [Hs|(Hw & Hn & Hs)], Hs' as [Hs'|(Hw' & Hn' & Hs')].
    + left. congruence.
    + right. split_and!; [done|done|]. congruence.
    + right. rewrite <- Hs'. split_and!; [done| |done].
      by rewrite <- shape_strippable, <- Hs', shape_strippable.
    + exfalso. by rewrite <- shape_strippable, Hs' in Hn.
  - eapply kept_trans; [|exact Hk|exact Hk']. intros x y z Hz Hxy Hyz. by eapply (IH z).
Qed.

#[export] Instance pruned_preorder wrap : PreOrder (pruned wrap).
Proof. split; [exact (pruned_refl wrap)|exact (pruned_trans wrap)]. Qed.

(** ** Folds prune *)

(** [wraps]: whether the folder makes items stripped. *)
Class Pruner (F : Type) `{DocFolder F} := {
  wraps : bool;
  override_prunes : forall (recur : Item -> F -> outcome (option Item * F)) i s r s',
    (forall s r s', recur i s = Ret (r, s') -> exists i', r = Some i' /\ pruned wraps i' i /\
       is_stripped i' = is_stripped i) ->
    override recur i s = Ret (r, s') -> forall i', r = Some i' -> pruned wraps i' i
}.
Arguments wraps F {_ _}.

Lemma strip_pruned i j i' : pruned true i j -> is_stripped i = is_stripped j ->
  strippable (item_inner j) = true -> strip i = Some i' -> pruned true i' j.
Proof.
  intros (Hh & Hs & Hk)%pruned_inv Heq Hj. unfold strip.
  destruct (stripped_enum (item_inner i)) eqn:Hi.
  { intros Hi'. assert (i' = i) as -> by (destruct (item_inner i); simplify_eq; done).
    by constructor. }
  intros Hi'. assert (i' = with_inner_enum i (StrippedItem (item_inner i))) as ->
    by (destruct (item_inner i); simplify_eq; done).
  constructor; [exact Hh| |exact Hk]. right. split_and!; [done|done|].
  destruct Hs as [Hs|(_ & _ & Hs)].
  - cbn. by rewrite <- Hs.
  - rewrite <- shape_stripped, Hs in Hi. done.
Qed.

Section prunes.
Context {F : Type}.

Lemma fold_items_kept (R : Item -> Item -> Prop) (f : Item -> F -> outcome (option Item * F)) l :
  (forall c s r s', c ∈ l -> f c s = Ret (r, s') -> forall c', r = Some c' -> R c' c) ->
  forall s l' s', fold_items f l s = Ret (l', s') -> kept R l' l.
Proof.
  induction l as [|x l IH]; intros Hf s l' s' Hfold; cbn in Hfold.
  - injection Hfold as <- <-. constructor.
  - destruct (f x s) as [[r s1]| |] eqn:Hx; cbn in Hfold; try done.
    destruct (fold_items f l s1) as [[l1 s2]| |] eqn:Hl; cbn in Hfold; try done.
    injection Hfold as <- <-.
    assert (Hk : kept R l1 l).
    { eapply IH; [|exact Hl]. intros c s0 r0 s0' Hc. apply Hf. set_solver. }
    destruct r as [x'|]; cbn; [apply kept_keep|by apply kept_drop]; [|done].
    eapply Hf; [set_solver|exact Hx|done].
Qed.

Lemma fold_inner_kept (R : Item -> Item -> Prop) (f : Item -> F -> outcome (option Item * F))
    e s e' s' :
  (forall c s r s', c ∈ members e -> f c s = Ret (r, s') -> forall c', r = Some c' -> R c' c) ->
  fold_inner_recur f e s = Ret (e', s') ->
  shape e' = shape e /\ kept R (members e') (members e) /\ stripped_enum e = false.
Proof.
  intros Hf Hfold. assert (He : stripped_enum e = false) by (by destruct e).
  rewrite fold_inner_members in Hfold by done.
  destruct (fold_items f (members e) s) as [[l s1]| |] eqn:Hl; cbn in Hfold; try done.
  injection Hfold as <- <-. rewrite shape_rebuild.
  pose proof (fold_items_kept R f _ Hf _ _ _ Hl) as Hk.
  rewrite members_rebuild; [done|done|]. intros Hm. rewrite Hm in Hk. by apply kept_nil_inv in Hk.
Qed.

Lemma fold_item_recur_kept (R : Item -> Item -> Prop)
    (f : Item -> F -> outcome (option Item * F)) i s r s' :
  (forall c s r s', c ∈ members (item_inner i) -> f c s = Ret (r, s') ->
     forall c', r = Some c' -> R c' c) ->
  fold_item_recur f i s = Ret (r, s') ->
  exists i', r = Some i' /\ same_header i' i /\
    shape (item_inner i') = shape (item_inner i) /\
    kept R (members (item_inner i')) (members (item_inner i)) /\
    is_stripped i' = is_stripped i.
Proof.
  intros Hf. unfold fold_item_recur.
  destruct (match item_inner i with StrippedItem _ => _ | _ => _ end) as [[e' s1]| |] eqn:He;
    cbn; try done.
  intros [= <- <-]. exists (with_inner_enum i e'). split; [done|]. split; [done|].
  assert (Hgoal : shape e' = shape (item_inner i) /\
    kept R (members e') (members (item_inner i))).
  { destruct (stripped_enum (item_inner i)) eqn:Hs.
    - destruct (item_inner i); try done.
      match type of He with context [fold_inner_recur f ?e s] => rename e into inn end.
      destruct (fold_inner_recur f inn s) as [[e1 s2]| |] eqn:Hi; cbn in He; try done.
      injection He as <- <-.
      cbn [members] in Hf.
      destruct (fold_inner_kept R f inn _ _ _ Hf Hi) as (Hsh & Hk & _).
      split; [|done]. cbn. by f_equal.
    - assert (Hi : fold_inner_recur f (item_inner i) s = Ret (e', s1))
        by (by destruct (item_inner i)).
      by destruct (fold_inner_kept R f _ _ _ _ Hf Hi) as (Hsh & Hk & _). }
  destruct Hgoal as [Hsh Hk]. split_and!; [done|done|].
  assert (Heq : stripped_enum e' = stripped_enum (item_inner i))
    by (by rewrite <- shape_stripped, Hsh, shape_stripped).
  unfold is_stripped, stripped_enum in *. cbn. destruct e', (item_inner i); done.
Qed.

Lemma fold_item_prunes `{Pruner F} i : forall s r s',
  fold_item i s = Ret (r, s') -> forall i', r = Some i' -> pruned (wraps F) i' i.
Proof.
  induction i as [i IH] using item_members_ind. intros s r s'.
  rewrite fold_item_unfold. apply override_prunes. clear s r s'. intros s r s' Hrec.
  destruct (fold_item_recur_kept (pruned (wraps F)) _ _ _ _ _
    ltac:(intros c s0 r0 s0' Hc; apply (IH c Hc)) Hrec) as (i' & -> & Hh & Hs & Hk & Hst).
  exists i'. split_and!; [done| |done]. constructor; [done|by left|done].
Qed.

(** ** Crates *)

Definition pruned_trait (wrap : bool) (t' t : Trait Item) : Prop :=
  shape (TraitItem t') = shape (TraitItem t) /\ kept (pruned wrap) (trait_items t') (trait_items t).

Record pruned_crate (wrap : bool) (c' c : Crate) : Prop := {
  pc_name : krate_name c' = krate_name c;
  pc_version : krate_version c' = krate_version c;
  pc_externs : krate_externs c' = krate_externs c;
  pc_primitives : krate_primitives c' = krate_primitives c;
  pc_masked : masked_crates c' = masked_crates c;
  pc_module : forall m', krate_module c' = Some m' ->
    exists m, krate_module c = Some m /\ pruned wrap m' m;
  pc_traits : forall k t', external_traits c' !! k = Some t' ->
    exists t, external_traits c !! k = Some t /\ pruned_trait wrap t' t
}.

Lemma pruned_trait_trans wrap t1 t2 t3 :
  pruned_trait wrap t1 t2 -> pruned_trait wrap t2 t3 -> pruned_trait wrap t1 t3.
Proof.
  intros [Hs Hk] [Hs' Hk']. split; [congruence|].
  eapply kept_trans; [|exact Hk|exact Hk']. intros x y z _. apply pruned_trans.
Qed.

Lemma pruned_crate_wrap wrap c' c : pruned_crate wrap c' c -> pruned_crate true c' c.
Proof.
  intros []. split; try done.
  - intros m Hm. destruct (pc_module0 m Hm) as (m0 & ? & Hp). exists m0. split; [done|].
    by eapply pruned_wrap.
  - intros k t Ht. destruct (pc_traits0 k t Ht) as (t0 & ? & Hs & Hk). exists t0. split; [done|].
    split; [done|]. eapply kept_mono; [|exact Hk]. intros x' x _. apply pruned_wrap.
Qed.

#[export] Instance pruned_crate_preorder wrap : PreOrder (pruned_crate wrap).
Proof.
  split.
  - intros c. split; try done.
    + intros m' Hm. exists m'. done.
    + intros k t Ht. exists t. split; [done|]. split; [done|]. apply kept_refl. reflexivity.
  - intros c1 c2 c3 [] []. split; try congruence.
    + intros m Hm. edestruct pc_module0 as (m2 & Hm2 & H12); [done|].
      edestruct pc_module1 as (m3 & Hm3 & H23); [done|]. exists m3. split; [done|]. by etrans.
    + intros k t Ht. edestruct pc_traits0 as (t2 & Ht2 & H12); [done|].
      edestruct pc_traits1 as (t3 & Ht3 & H23); [done|]. exists t3. split; [done|].
      by eapply pruned_trait_trans.
Qed.

Lemma fold_traits_pruned `{Pruner F} (l : list (DefId * Trait Item)) : forall m s m' s',
  fold_loop fold_trait l (m, s) = Ret (m', s') ->
  forall k t', m' !! k = Some t' -> m !! k = Some t' \/
    exists t, (k, t) ∈ l /\ pruned_trait (wraps F) t' t.
Proof.
  induction l as [|[k0 t0] l IH]; intros m s m' s'; cbn [fold_loop].
  - intros [= <- <-] k t' Hk. by left.
  - destruct (fold_trait (k0, t0) (m, s)) as [[m1 s1]| |] eqn:Hft; try done.
    cbn [mbind outcome_bind]. intros Hrest k t' Hk. unfold fold_trait in Hft. cbn [snd fst] in Hft.
    destruct (fold_items fold_item (trait_items t0) s) as [[l1 s2]| |] eqn:Hl; cbn in Hft; try done.
    injection Hft as <- <-. destruct (IH _ _ _ _ Hrest k t' Hk) as [Hm|(t & Hin & Ht)].
    + destruct (decide (k0 = k)) as [->|Hne].
      * rewrite lookup_insert_eq in Hm. injection Hm as <-. right. exists t0.
        split; [set_solver|]. split; [done|]. cbn.
        eapply fold_items_kept; [|exact Hl]. intros c sa r sb _ Hc. by eapply fold_item_prunes.
      * rewrite lookup_insert_ne in Hm by done. by left.
    + right. exists t. split; [set_solver|done].
Qed.

(** Every folder that is a [Pruner] only prunes the crate. *)
Lemma fold_crate_prunes `{Pruner F} `{HashOrder} c s c' s' :
  fold_crate c s = Ret (c', s') -> pruned_crate (wraps F) c' c.
Proof.
  unfold fold_crate.
  destruct (match krate_module c with None => _ | Some _ => _ end) as [[m s1]| |] eqn:Hm;
    cbn; try done.
  destruct (fold_loop fold_trait _ _) as [[traits s2]| |] eqn:Ht; cbn; try done.
  intros [= <- <-]. split; try done; cbn.
  - intros m' ->. destruct (krate_module c) as [m0|]; [|done]. exists m0. split; [done|].
    by eapply fold_item_prunes.
  - intros k t' Hk. destruct (fold_traits_pruned _ _ _ _ _ Ht k t' Hk) as [Hn|(t & Hin & Hp)].
    + by rewrite lookup_empty in Hn.
    + exists t. by rewrite elem_of_map_order in Hin.
Qed.
End prunes.

(** ** Folds return

    A doubly stripped item is unreachable in the folds. *)
Inductive single_strip (item : Item) : Prop :=
| single_strip_item :
    (forall e, item_inner item = StrippedItem e -> stripped_enum e = false) ->
    (forall child, child ∈ members (item_inner item) -> single_strip child) ->
    single_strip item.

Lemma shape_stripped_inv e e' : shape e = StrippedItem e' ->
  exists e0, e = StrippedItem e0 /\ e' = shape e0.
Proof. destruct e; try done; [by destruct v|]. intros [= <-]. by eexists. Qed.

Lemma pruned_single header wrap i' i :
  pruned_by header wrap i' i -> (forall e, item_inner i = StrippedItem e -> stripped_enum e = false) ->
  forall e, item_inner i' = StrippedItem e -> stripped_enum e = false.
Proof.
  intros (_ & Hs & _)%pruned_inv Hi e He. rewrite He in Hs. cbn in Hs.
  destruct Hs as [Hs|(_ & Hn & Hs)].
  - symmetry in Hs. apply shape_stripped_inv in Hs as (e0 & He0 & Hs).
    change (shape e = shape e0) in Hs. rewrite <- shape_stripped, Hs, shape_stripped. by apply Hi.
  - injection Hs as Hs. change (shape e = shape (item_inner i)) in Hs.
    rewrite <- shape_stripped, Hs, shape_stripped. by apply strippable_bare.
Qed.

Lemma single_strip_pruned header wrap i' i : pruned_by header wrap i' i -> single_strip i -> single_strip i'.
Proof.
  revert i'. induction i as [i IH] using item_members_ind. intros i' Hp [Hi Hc]. constructor.
  - by apply (pruned_single _ _ _ _ Hp).
  - apply pruned_inv in Hp as (_ & _ & Hk). intros child Hin.
    destruct (kept_elem _ _ _ _ Hk Hin) as (x & Hx & Hp).
    by apply (IH x Hx); [|apply Hc].
Qed.

Section returns.
Context {F : Type} (f : Item -> F -> outcome (option Item * F)).
Context (J : list Item -> list Item -> F -> Prop).

(** The rule for the loop over the members: [J done kept s]. *)
Lemma fold_items_returns l : forall pre out s,
  J pre out s ->
  (forall l1 c l2 out s, l = l1 ++ c :: l2 -> J (pre ++ l1) out s ->
     returns (f c s) (fun r => J (pre ++ l1 ++ [c]) (out ++ option_list r.1) r.2)) ->
  returns (fold_items f l s) (fun r => J (pre ++ l) (out ++ r.1) r.2).
Proof.
  induction l as [|c l IH]; intros pre out s HJ Hstep; cbn [fold_items].
  - apply returns_ret. by rewrite !app_nil_r.
  - eapply returns_bind.
    { apply (Hstep [] c l out s); [done|]. by rewrite app_nil_r. }
    intros [r s1] H1. cbn [fst snd] in *. eapply returns_bind.
    + apply (IH (pre ++ [c]) (out ++ option_list r)); [exact H1|].
      intros l1 c' l2 out' s' -> HJ'. rewrite <- app_assoc in *.
      by apply (Hstep (c :: l1) c' l2 out' s').
    + intros [l' s2] H2. apply returns_ret. cbn [fst snd] in *.
      rewrite <- !app_assoc in H2. exact H2.
Qed.

Lemma fold_item_recur_returns i s :
  (forall e, item_inner i = StrippedItem e -> stripped_enum e = false) ->
  J [] [] s ->
  (forall l1 c l2 out s, members (item_inner i) = l1 ++ c :: l2 -> J l1 out s ->
     returns (f c s) (fun r => J (l1 ++ [c]) (out ++ option_list r.1) r.2)) ->
  returns (fold_item_recur f i s) (fun r => exists i', r.1 = Some i' /\ same_header i' i /\
    shape (item_inner i') = shape (item_inner i) /\
    J (members (item_inner i)) (members (item_inner i')) r.2).
Proof.
  intros Hi HJ Hstep.
  pose proof (fold_items_returns (members (item_inner i)) [] [] s HJ Hstep) as Hr.
  cbn [app] in Hr.
  assert (Hinner : forall e, stripped_enum e = false -> members e = members (item_inner i) ->
    returns (fold_inner_recur f e s) (fun r => shape r.1 = shape e /\
      J (members (item_inner i)) (members r.1) r.2)).
  { intros e He Hm. rewrite fold_inner_members, Hm by done.
    destruct (fold_items f (members (item_inner i)) s) as [[l s']| |] eqn:Hl; try done.
    cbn in *. split; [apply shape_rebuild|]. rewrite members_rebuild; [done..|].
    intros Hnil. rewrite <- Hm, Hnil in Hl. cbn in Hl. by injection Hl as <- _. }
  unfold fold_item_recur. eapply returns_bind with (P := fun r =>
    shape r.1 = shape (item_inner i) /\ J (members (item_inner i)) (members r.1) r.2).
  - destruct (stripped_enum (item_inner i)) eqn:Hs.
    + destruct (item_inner i) eqn:Hin; try done.
      eapply returns_bind; [apply Hinner; [by apply Hi|done]|].
      intros [e' s'] [Hsh HJ']. apply returns_ret. cbn in *. split; [by f_equal|done].
    + specialize (Hinner (item_inner i) Hs eq_refl). by destruct (item_inner i).
  - intros [e' s'] [Hsh HJ']. apply returns_ret. by exists (with_inner_enum i e').
Qed.
End returns.

(** ** The kind of an item *)

Lemma item_type_returns i :
  (forall e, item_inner i = StrippedItem e -> stripped_enum e = false) ->
  exists k, item_type i = Ret k.
Proof.
  intros Hs. unfold item_type.
  assert (Hin : forall e, stripped_enum e = false -> exists k, inner_type e = Ret k).
  { intros e He. destruct e; cbn; try (eexists; reflexivity); try discriminate He.
    destruct (macro_kind m); eexists; reflexivity. }
  destruct (item_inner i) eqn:Hi; apply Hin; try reflexivity. by apply Hs.
Qed.
