(* ===== verification/DocPasses.v ===== *)
(** The passes that rewrite the documentation of the items: [passes/collapse_docs.rs] and
    [passes/unindent_comments.rs]. *)

From S2P Require Import Prelude RustStd TextLines CleanTypes CleanItems DocFold Pruning.

(** ** [collapse_docs.rs] *)

Inductive DocFragmentKind := Sugared | Raw | Include_.
#[export] Instance DocFragmentKind_eq_dec : EqDecision DocFragmentKind.
Proof. solve_decision. Defined.

Definition kind (f : DocFragment) : DocFragmentKind :=
  match f with
  | SugaredDoc _ _ => Sugared
  | RawDoc _ _ => Raw
  | Include _ _ _ => Include_
  end.

(** The padding between segments. *)
Definition pad (f : DocFragment) : DocFragment :=
  match f with
  | SugaredDoc line doc_string => SugaredDoc line (doc_string +:+ nl)
  | RawDoc line doc_string => RawDoc line (doc_string +:+ nl)
  | _ => f
  end.

(** A fragment of the same kind goes on the text; an [Include] is unreachable. *)
Definition append (curr_frag frag : DocFragment) : outcome DocFragment :=
  match curr_frag with
  | SugaredDoc line doc_string =>
      mret (SugaredDoc line ((doc_string +:+ nl) +:+ doc_fragment_str frag))
  | RawDoc line doc_string =>
      mret (RawDoc line ((doc_string +:+ nl) +:+ doc_fragment_str frag))
  | Include _ _ _ => Panicked
  end.

(** The body of the loop over the fragments: [docs] and [last_frag]. *)
Definition collapse_step (frag : DocFragment) (st : list DocFragment * option DocFragment)
    : outcome (list DocFragment * option DocFragment) :=
  let '(docs, last_frag) := st in
  match last_frag with
  | Some curr_frag =>
      let curr_kind := kind curr_frag in
      let new_kind := kind frag in
      if bool_decide (curr_kind = Include_) || bool_decide (curr_kind <> new_kind) then
        mret (docs ++ [pad curr_frag], Some frag)
      else
        curr_frag ← append curr_frag frag;
        mret (docs, Some curr_frag)
  | None => mret (docs, Some frag)
  end.

Definition collapse (doc_strings : list DocFragment) : outcome (list DocFragment) :=
  st ← fold_loop collapse_step doc_strings ([], None);
  mret (st.1 ++ option_list st.2).

(** ** [unindent_comments.rs] *)

(** [saw_first_line], [saw_second_line] and [min_indent]. *)
Definition indent_step (st : bool * bool * N) (line : string) : bool * bool * N :=
  let '(saw_first_line, saw_second_line, min_indent) := st in
  let ignore_previous_indents :=
    saw_first_line && negb saw_second_line && negb (all_whitespace line) in
  let min_indent := if ignore_previous_indents then usize_MAX else min_indent in
  let saw_second_line := if saw_first_line then true else saw_second_line in
  if all_whitespace line then (saw_first_line, saw_second_line, min_indent)
  else (true, saw_second_line, N.min min_indent (N.of_nat (indentation line))).

Definition min_indent (lines : list string) : N :=
  (foldl indent_step (false, false, usize_MAX) lines).2.

Definition unindent_line (min_indent : N) (line : string) : outcome string :=
  if all_whitespace line then mret line
  else if (min_indent <=? N.of_nat (String.length line))%N
       then str_slice_from line (N.to_nat min_indent)
       else Panicked.

Definition unindent (s : string) : outcome string :=
  let lines := lines s in
  match lines with
  | first :: rest =>
      unindented ← map_loop (unindent_line (min_indent lines)) rest;
      mret (join nl (trim_start first :: unindented))
  | [] => mret s
  end.

Definition unindent_fragment (fragment : DocFragment) : outcome DocFragment :=
  match fragment with
  | SugaredDoc line doc_string => s ← unindent doc_string; mret (SugaredDoc line s)
  | RawDoc line doc_string => s ← unindent doc_string; mret (RawDoc line s)
  | Include line filename doc_string => s ← unindent doc_string; mret (Include line filename s)
  end.

Definition unindent_fragments (docs : list DocFragment) : outcome (list DocFragment) :=
  map_loop unindent_fragment docs.

(** ** The folders *)

(** The item with another documentation. *)
Definition with_docs (i : Item) (docs : list DocFragment) : Item :=
  {| item_name := item_name i;
     item_attrs := mk_ItemAttributes docs (other_attrs (item_attrs i)) (cfg (item_attrs i))
                    (inner_docs (item_attrs i));
     item_inner := item_inner i; item_visibility := item_visibility i;
     item_def_id := item_def_id i; item_source := item_source i |}.

Inductive Collapser := mk_Collapser.

Definition collapser_fold_item (recur : Item -> Collapser -> outcome (option Item * Collapser))
    (i : Item) (self : Collapser) : outcome (option Item * Collapser) :=
  docs ← collapse (doc_strings (item_attrs i));
  recur (with_docs i docs) self.

Inductive CommentCleaner := mk_CommentCleaner.

Definition cleaner_fold_item
    (recur : Item -> CommentCleaner -> outcome (option Item * CommentCleaner))
    (i : Item) (self : CommentCleaner) : outcome (option Item * CommentCleaner) :=
  docs ← unindent_fragments (doc_strings (item_attrs i));
  recur (with_docs i docs) self.

#[export] Program Instance Collapser_DocFolder : DocFolder Collapser := {|
  override := collapser_fold_item
|}.
Next Obligation.
  intros r1 r2 i s Hr. unfold collapser_fold_item. destruct (collapse _); [|done..]. by apply Hr.
Qed.

#[export] Program Instance CommentCleaner_DocFolder : DocFolder CommentCleaner := {|
  override := cleaner_fold_item
|}.
Next Obligation.
  intros r1 r2 i s Hr. unfold cleaner_fold_item. destruct (unindent_fragments _); [|done..].
  by apply Hr.
Qed.

(** ** The passes; [krate.collapsed] is not read *)
Section passes.
Context `{HashOrder}.

Definition collapse_docs (krate : Crate) : outcome Crate :=
  r ← fold_crate krate mk_Collapser; mret r.1.

Definition unindent_comments (krate : Crate) : outcome Crate :=
  r ← fold_crate krate mk_CommentCleaner; mret r.1.
End passes.
