(* ===== verification/CfgPass.v ===== *)
(** The pass that hands the configuration of an item down to the items in it
    ([passes/propagate_doc_cfg.rs]). *)

From S2P Require Import Prelude RustStd MetaItems Cfg CleanTypes CleanItems DocFold.

(** [item.attrs.cfg = cfg]. *)
Definition with_cfg (i : Item) (c : option Cfg) : Item :=
  {| item_name := item_name i;
     item_attrs := mk_ItemAttributes (doc_strings (item_attrs i)) (other_attrs (item_attrs i)) c
                    (inner_docs (item_attrs i));
     item_inner := item_inner i; item_visibility := item_visibility i;
     item_def_id := item_def_id i; item_source := item_source i |}.

Record CfgPropagator := mk_CfgPropagator { parent_cfg : option Cfg }.

(** The parent's configuration is cloned before it is changed ([Arc::make_mut]). *)
Definition join_cfg (parent own : option Cfg) : option Cfg :=
  match parent, own with
  | None, None => None
  | Some rc, None | None, Some rc => Some rc
  | Some a, Some b => Some (Cfg.bitand_assign a b)
  end.

Definition propagator_fold_item
    (recur : Item -> CfgPropagator -> outcome (option Item * CfgPropagator))
    (item : Item) (self : CfgPropagator) : outcome (option Item * CfgPropagator) :=
  let old_parent_cfg := parent_cfg self in
  let new_cfg := join_cfg (parent_cfg self) (cfg (item_attrs item)) in
  r ← recur (with_cfg item new_cfg) (mk_CfgPropagator new_cfg);
  mret (r.1, mk_CfgPropagator old_parent_cfg).

#[export] Program Instance CfgPropagator_DocFolder : DocFolder CfgPropagator := {|
  override := propagator_fold_item
|}.
Next Obligation.
  intros r1 r2 i s Hr. unfold propagator_fold_item. by rewrite (Hr (with_cfg i _)).
Qed.

Definition propagate_doc_cfg `{HashOrder} (cr : Crate) : outcome Crate :=
  r ← fold_crate cr (mk_CfgPropagator None); mret r.1.
