(* ===== verification/DocCoverage.v ===== *)
(** The pass that counts the items with and without documentation
    ([passes/calculate_doc_coverage.rs]). *)

From S2P Require Import Prelude RustStd MetaItems CleanTypes CleanItems DocFold.

(** ** [ItemCount] *)

Module ItemCount.
Record ItemCount := mk_ItemCount { total : nat; with_docs : nat }.

Definition no_items : ItemCount := mk_ItemCount 0 0.

Definition count_item (has_docs : bool) (self : ItemCount) : ItemCount :=
  mk_ItemCount (total self + 1) (if has_docs then with_docs self + 1 else with_docs self).

(** The percentage as a fraction: [with_docs * 100 / total]. *)
Definition percentage (self : ItemCount) : option (nat * nat) :=
  if 0 <? total self then Some (with_docs self * 100, total self) else None.

Definition add_assign (self rhs : ItemCount) : ItemCount :=
  mk_ItemCount (total self + total rhs) (with_docs self + with_docs rhs).

End ItemCount.
Import ItemCount.
Abbreviation ItemCount := ItemCount.ItemCount.

(** ** The table *)

(** [s.chars().count()] and the offset of [s.char_indices().nth(n)]. *)
Fixpoint char_count (s : string) : nat :=
  match s with
  | EmptyString => 0
  | String _ s' => (if inside_char s then 0 else 1) + char_count s'
  end.
Fixpoint char_offset (n : nat) (s : string) : option nat :=
  match s with
  | EmptyString => None
  | String _ s' =>
      if inside_char s then S <$> char_offset n s'
      else match n with O => Some 0 | S n => S <$> char_offset n s' end
  end.

Definition limit_filename_len (filename : string) : outcome string :=
  let nb_chars := char_count filename in
  if 35 <? nb_chars then
    rest ← str_slice_from filename (default 0 (char_offset (nb_chars - 32) filename));
    mret ("..." +:+ rest)
  else mret filename.

(** ** [CoverageCalculator] *)

Record CoverageCalculator := mk_CoverageCalculator { file_items : gmap FileName ItemCount }.

(** A line of the table; the widths of its columns are left out. *)
Record Row := mk_Row { row_name : string; row_count : ItemCount; row_percentage : nat * nat }.

Definition table_row (entry : FileName * ItemCount) (st : list Row * ItemCount)
    : outcome (list Row * ItemCount) :=
  let '(file, count) := entry in
  match percentage count with
  | Some p =>
      name ← limit_filename_len (file_name_to_string file);
      mret (st.1 ++ [mk_Row name count p], add_assign st.2 count)
  | None => mret st
  end.

(** The map for the JSON writer, by the texts of the file names: of two files with the same
    text the last one is kept. *)
Definition to_json `{HashOrder} (self : CoverageCalculator) : gmap string ItemCount :=
  foldl (fun m e => <[file_name_to_string e.1 := e.2]> m) ∅ (map_order 14 (file_items self)).

(** What is printed: this map, or the rows, in the order of the files, which is left open,
    with the row of the total. *)
Inductive OutputFormat := Json | Html.
Inductive Printed :=
| PrintedJson (items : gmap string ItemCount)
| PrintedTable (rows : list Row) (total : Row).

Definition print_results `{HashOrder} (output_format : option OutputFormat)
    (self : CoverageCalculator) : outcome Printed :=
  match output_format with
  | Some Json => mret (PrintedJson (to_json self))
  | _ =>
      st ← fold_loop table_row (map_order 14 (file_items self)) ([], no_items);
      mret (PrintedTable st.1 (mk_Row "Total" st.2 (default (0, 1) (percentage st.2))))
  end.

(** The arms of [fold_item] that return the item as it is, without a look below it. *)
Definition is_passed_over (i : Item) : bool :=
  negb (is_local (item_def_id i))
  || match item_inner i with
     | StrippedItem _ | ImportItem _ | ExternCrateItem _ _ => true
     | ImplItem impl_ =>
         existsb (fun a => attr_check_name a "automatically_derived") (other_attrs (item_attrs i))
         || synthetic impl_ || bool_decide (is_Some (blanket_impl impl_))
         || bool_decide (is_Some (trait_ impl_))
     | _ => false
     end.

(** [self.items.entry(filename).or_default().count_item(has_docs)]. *)
Definition count_in_file (i : Item) (self : CoverageCalculator) : CoverageCalculator :=
  let has_docs := negb (bool_decide (doc_strings (item_attrs i) = [])) in
  mk_CoverageCalculator
    (<[filename (item_source i) :=
         count_item has_docs (default no_items (file_items self !! filename (item_source i)))]>
       (file_items self)).

Definition coverage_fold_item
    (recur : Item -> CoverageCalculator -> outcome (option Item * CoverageCalculator))
    (i : Item) (self : CoverageCalculator) : outcome (option Item * CoverageCalculator) :=
  if is_passed_over i then mret (Some i, self)
  else
    match item_inner i with
    | ImplItem _ => recur i self
    | _ => recur i (count_in_file i self)
    end.

#[export] Program Instance CoverageCalculator_DocFolder : DocFolder CoverageCalculator := {|
  override := coverage_fold_item
|}.
Next Obligation.
  intros r1 r2 i s Hr. unfold coverage_fold_item. destruct (is_passed_over i); [done|].
  destruct (item_inner i) eqn:Hi; by apply Hr.
Qed.

(** The crate, and what is printed. *)
Definition calculate_doc_coverage `{HashOrder} (output_format : option OutputFormat)
    (krate : Crate) : outcome (Crate * Printed) :=
  r ← fold_crate krate (mk_CoverageCalculator ∅);
  printed ← print_results output_format r.2;
  mret (r.1, printed).
