(* ===== verification/Sources.v ===== *)
(** The pages with the source code of the crate ([html/sources.rs]): a folder that renders
    the file of each item, once. *)

From S2P Require Import Prelude RustStd TextLines FileSystem MetaItems CleanTypes.
From S2P Require Import CleanItems DocFold.

(** ** [std::path::Path] on Unix *)

Module Component.
Inductive Component := RootDir | CurDir | ParentDir | Normal (name : string).

#[export] Instance eq_dec : EqDecision Component.
Proof. solve_decision. Defined.
#[export] Instance countable : Countable Component.
Proof.
  refine (inj_countable' (fun c => match c with
    | RootDir => inl 0 | CurDir => inl 1 | ParentDir => inl 2 | Normal s => inr s end)
    (fun x => match x with
    | inl 0 => RootDir | inl 1 => CurDir | inl _ => ParentDir | inr s => Normal s end) _).
  by intros [].
Defined.
End Component.
Export (hints) Component.
Abbreviation Component := Component.Component.

(** [Path::components]: repeated separators and [.] are dropped, but for a leading [.]. *)
Definition components (p : string) : list Component :=
  let parts := split_str p "/" in
  let rooted := starts_with p "/" in
  (if rooted then [Component.RootDir] else [])
  ++ concat (imap (fun n part =>
       if String.eqb part "" then []
       else if String.eqb part "." then
         if (n =? 0) && negb rooted then [Component.CurDir] else []
       else if String.eqb part ".." then [Component.ParentDir]
       else [Component.Normal part]) parts).

(** [p.strip_prefix(base)]. *)
Fixpoint strip_prefix (p base : list Component) : option (list Component) :=
  match base, p with
  | [], _ => Some p
  | b :: base, c :: p => if decide (b = c) then strip_prefix p base else None
  | _ :: _, [] => None
  end.

(** [p.file_name()]. *)
Definition file_name (p : list Component) : option string :=
  match last p with Some (Component.Normal name) => Some name | _ => None end.

(** [clean_path]: the components that are passed to the closure. *)
Definition clean_path (src_root p : list Component) (keep_filename : bool) : list string :=
  let p := default p (strip_prefix p src_root) in
  omap (fun c => match c with
                 | Component.ParentDir => Some "up"
                 | Component.Normal c => Some c
                 | _ => None
                 end) (if keep_filename then p else take (length p - 1) p).

(** [p.parent()]. *)
Definition parent (p : list Component) : option (list Component) :=
  match last p with
  | None | Some Component.RootDir => None
  | Some _ => Some (take (length p - 1) p)
  end.

(** The directory of the root file of the crate: [src_root] in [fuzz_target_run_clean_krate]. *)
Definition src_root_of (src : FileName) : list Component :=
  match src with
  | Real p => default [] (parent (components (local_path p)))
  | _ => []
  end.

(** ** The page *)

(** The fields of [layout::Page] that depend on the file. *)
Record Page := mk_Page { page_title : string; page_root_path : string; page_description : string }.

(** The width of the line numbers: the loop on [tmp]. *)
Fixpoint digits (fuel tmp : nat) : nat :=
  match fuel with
  | O => 0
  | S fuel => if 0 <? tmp then S (digits fuel (tmp / 10)) else 0
  end.

Fixpoint spaces (n : nat) : string := match n with S n => " " +:+ spaces n | O => EmptyString end.

(** [{0:1$}] of a number: aligned to the right. *)
Definition pad (cols : nat) (text : string) : string := spaces (cols - String.length text) +:+ text.

Section pages.
(** [highlight::render_with_highlighting] and [layout::render] with the options of the run. *)
Context (render_with_highlighting : string -> string).
Context (layout_render : Page -> string -> string).

Definition print_src (s : string) : string :=
  let lines := length (lines s) in
  let cols := digits lines lines in
  let quote := String (Ascii.ascii_of_nat 34) EmptyString in
  "<pre class=" +:+ quote +:+ "line-numbers" +:+ quote +:+ ">"
    +:+ foldr String.append EmptyString
          (List.map (fun i => "<span id=" +:+ quote +:+ usize_to_string i +:+ quote +:+ ">"
             +:+ pad cols (usize_to_string i) +:+ "</span>" +:+ nl) (seq 1 lines))
    +:+ "</pre>" +:+ render_with_highlighting s.

Definition without_bom (contents : string) : string :=
  if starts_with contents SourceFile.bom then String.substring 3 (String.length contents - 3) contents
  else contents.

(** ** [SharedContext] *)

(** The fields that this phase reads or changes, and the file system. *)
Record SharedContext := mk_SharedContext {
  src_root : list Component;
  include_sources : bool;
  local_sources : gmap (list Component) string;
  created_dirs : gset path;
  scx_fs : Fs
}.

(** An operation that fails in the model of [std::fs] is an [Err]. *)
Definition io_result (o : outcome Fs) : option Fs := match o with Ret fs => Some fs | _ => None end.

Definition ensure_dir (dst : path) (self : SharedContext) : option SharedContext :=
  if decide (dst ∈ created_dirs self) then Some self
  else
    fs ← io_result (create_dir_all (scx_fs self) dst);
    Some (mk_SharedContext (src_root self) (include_sources self) (local_sources self)
            ({[dst]} ∪ created_dirs self) fs).

(** ** [SourceCollector] *)

Record SourceCollector := mk_SourceCollector { scx : SharedContext; dst : path }.

(** The contents of a file, when it can be read. The files are not among those written. *)
Context (read_to_string : string -> option string).

(** The directory of the page, the way back to the root, and the link, without the name of the
    file: the call of [clean_path] with its closure. *)
Definition page_place (self : SourceCollector) (p : string) : path * string * string :=
  foldl (fun '(cur, root_path, href) component =>
    (path_join cur component, root_path +:+ "../", href +:+ component +:+ "/"))
    (dst self, "../../", "")
    (clean_path (src_root (scx self)) (components p) false).

(** The state, and whether the result is [Ok]. *)
Definition emit_source (filename : FileName) (self : SourceCollector)
    : outcome (SourceCollector * bool) :=
  match filename with
  | Real file =>
      let p := local_path file in
      if decide (is_Some (local_sources (scx self) !! components p)) then mret (self, true)
      else
        match read_to_string p with
        | None => mret (self, false)
        | Some contents =>
            let contents := without_bom contents in
            let '(cur, root_path, href) := page_place self p in
            match ensure_dir cur (scx self) with
            | None => mret (self, false)
            | Some shared =>
                fname ← unwrap (file_name (components p));
                let fname := fname +:+ ".html" in
                let cur := path_join cur fname in
                let href := href +:+ fname in
                let page := mk_Page (fname +:+ " -- source") root_path
                  ("Source to the Rust file `" +:+ file_name_to_string filename +:+ "`.") in
                let v := layout_render page (print_src contents) in
                match io_result (write_file (scx_fs shared) cur v) with
                | None => mret (mk_SourceCollector shared (dst self), false)
                | Some fs =>
                    mret (mk_SourceCollector
                      (mk_SharedContext (src_root shared) (include_sources shared)
                         (<[components p := href]> (local_sources shared)) (created_dirs shared) fs)
                      (dst self), true)
                end
            end
        end
  | _ => mret (self, true)
  end.

Definition with_include_sources (self : SourceCollector) (b : bool) : SourceCollector :=
  mk_SourceCollector (mk_SharedContext (src_root (scx self)) b (local_sources (scx self))
    (created_dirs (scx self)) (scx_fs (scx self))) (dst self).

Definition is_real (f : FileName) : bool := match f with Real _ => true | _ => false end.

(** The part of [fold_item] before the recursion. *)
Definition collect_item (i : Item) (self : SourceCollector) : outcome SourceCollector :=
  if include_sources (scx self) && is_real (filename (item_source i)) && N.eqb (cnum (item_source i)) 0
  then
    r ← emit_source (filename (item_source i)) self;
    mret (with_include_sources r.1 r.2)
  else mret self.

Definition source_fold_item
    (recur : Item -> SourceCollector -> outcome (option Item * SourceCollector))
    (i : Item) (self : SourceCollector) : outcome (option Item * SourceCollector) :=
  self ← collect_item i self;
  recur i self.

#[local] Program Instance SourceCollector_DocFolder : DocFolder SourceCollector := {|
  override := source_fold_item
|}.
Next Obligation.
  intros r1 r2 i s Hr. unfold source_fold_item. destruct (collect_item i s); [|done..]. by apply Hr.
Qed.

(** [None]: the directory of the pages cannot be created. *)
Definition render `{HashOrder} (output : path) (shared : SharedContext) (krate : Crate)
    : outcome (option (Crate * SharedContext)) :=
  let output := path_join (path_join output "src") (krate_name krate) in
  match ensure_dir output shared with
  | None => mret None
  | Some shared =>
      r ← fold_crate krate (mk_SourceCollector shared output);
      mret (Some (r.1, scx r.2))
  end.
End pages.
