(* ===== verification/UnindentCorrect.v ===== *)
(** On which texts [unindent] returns and what it removes from them. *)

From S2P Require Import Prelude RustStd TextLines CleanTypes CleanItems DocFold.
From S2P Require Import Pruning DocPasses.

(** ** The indentation of a text *)

Lemma text_whitespace l : all_whitespace l = negb (text l).
Proof. unfold text. by rewrite negb_involutive. Qed.

Lemma indent_step_eq b1 b2 m l :
  indent_step (b1, b2, m) l =
  if text l then
    (true, b1 || b2,
     N.min (if b1 && negb b2 then usize_MAX else m) (N.of_nat (indentation l)))
  else (b1, b1 || b2, m).
Proof.
  unfold indent_step. rewrite text_whitespace.
  by destruct (text l), b1, b2.
Qed.

(** The indentation found is at most that of each line with text among [ls]. *)
Definition bounds_indents (ls : list string) (m : N) : Prop :=
  forall l, l ∈ ls -> text l = true -> (m <= N.of_nat (indentation l))%N.

Lemma bounds_nil m : bounds_indents [] m.
Proof. by intros l ?%not_elem_of_nil. Qed.

Lemma bounds_blank l ls m :
  text l = false -> bounds_indents ls m -> bounds_indents (l :: ls) m.
Proof. intros Hl Hls x [->|Hx]%elem_of_cons; [congruence|by apply Hls]. Qed.

Lemma bounds_text l ls m :
  (m <= N.of_nat (indentation l))%N -> bounds_indents ls m -> bounds_indents (l :: ls) m.
Proof. intros Hl Hls x [->|Hx]%elem_of_cons; [done|by apply Hls]. Qed.

Lemma indent_after ls : forall m,
  ((foldl indent_step (true, true, m) ls).2 <= m)%N /\
  bounds_indents ls (foldl indent_step (true, true, m) ls).2.
Proof.
  induction ls as [|l ls IH]; intros m; cbn [foldl]; [split; [done|apply bounds_nil]|].
  rewrite indent_step_eq. cbn [andb orb negb].
  destruct (text l) eqn:Hl.
  - destruct (IH (N.min m (N.of_nat (indentation l)))) as [H1 H2].
    split; [lia|]. apply bounds_text; [lia|done].
  - destruct (IH m) as [H1 H2]. split; [done|]. by apply bounds_blank.
Qed.

(** After a first line with text. *)
Lemma indent_second ls m : bounds_indents ls (foldl indent_step (true, false, m) ls).2.
Proof.
  destruct ls as [|l ls]; [apply bounds_nil|]. cbn [foldl].
  rewrite indent_step_eq. cbn [andb orb negb]. destruct (text l) eqn:Hl.
  - destruct (indent_after ls (N.min usize_MAX (N.of_nat (indentation l)))) as [H1 H2].
    apply bounds_text; [lia|done].
  - apply bounds_blank; [done|apply indent_after].
Qed.

Lemma indent_blank ls : forall b m, List.filter text ls = [] ->
  (foldl indent_step (true, b, m) ls).2 = m.
Proof.
  induction ls as [|l ls IH]; intros b m Hls; [done|]. cbn [foldl List.filter] in *.
  rewrite indent_step_eq. destruct (text l) eqn:Hl; [done|]. by apply IH.
Qed.

(** At most one line with text. *)
Lemma indent_single ls : forall m, length (List.filter text ls) <= 1 ->
  bounds_indents ls (foldl indent_step (false, false, m) ls).2.
Proof.
  induction ls as [|l ls IH]; intros m Hls; [apply bounds_nil|]. cbn [foldl List.filter] in *.
  rewrite indent_step_eq. cbn [andb orb].
  destruct (text l) eqn:Hl; cbn [length] in *; [|apply bounds_blank; auto].
  assert (Hnil : List.filter text ls = []) by (destruct (List.filter text ls); [done|cbn in Hls; lia]).
  rewrite indent_blank by done. apply bounds_text; [lia|]. intros x Hx Ht.
  assert (Hin : In x (List.filter text ls)) by (apply filter_In; by rewrite <- list_elem_of_In).
  by rewrite Hnil in Hin.
Qed.

(** Texts whose first line has text, or with one line of text. *)
Definition flat (first : bool) (n : nat) : Prop := first = true \/ n <= 1.

Lemma min_indent_bounds l ls :
  flat (text l) (length (List.filter text (l :: ls))) -> bounds_indents ls (min_indent (l :: ls)).
Proof.
  unfold min_indent. cbn [foldl List.filter]. rewrite indent_step_eq.
  cbn [andb orb]. intros Hf. destruct (text l) eqn:Hl; cbn [length] in *.
  - apply indent_second.
  - destruct Hf as [?|Hf]; [done|]. by apply indent_single.
Qed.

(** What is left of a line: the indentation [m] is cut off, white space stays. *)
Definition cut_line (m : N) (l l' : string) : Prop :=
  if text l then exists pre, l = pre +:+ l' /\ N.of_nat (String.length pre) = m /\
    N.of_nat (indentation l) = (m + N.of_nat (indentation l'))%N
  else l' = l.

Lemma str_drop_cut l : forall i, i <= indentation l ->
  exists pre, l = pre +:+ str_drop i l /\ String.length pre = i /\
    indentation l = i + indentation (str_drop i l).
Proof.
  induction l as [|c l IH]; intros [|i] Hi; cbn [str_drop indentation] in *;
    try (by exists EmptyString); try lia.
  destruct (is_indent c) eqn:Hc; [|lia]. destruct (IH i ltac:(lia)) as (pre & Hl & Hlen & Hind).
  exists (String c pre). split_and!; [simpl; by rewrite <- Hl|simpl; lia|lia].
Qed.

Lemma unindent_line_returns m l :
  str_utf8 l -> has_newline l = false -> (text l = true -> m <= N.of_nat (indentation l))%N ->
  returns (unindent_line m l) (fun l' => cut_line m l l' /\ text l' = text l /\
    has_newline l' = false /\ str_utf8 l').
Proof.
  intros Hu Hn Hm. unfold unindent_line, cut_line. rewrite text_whitespace.
  destruct (text l) eqn:Hl; cbn [negb]; [|by apply returns_ret].
  specialize (Hm eq_refl). pose proof (indentation_length l) as Hlen.
  destruct (N.leb_spec m (N.of_nat (String.length l))); [|lia].
  assert (Hi : N.to_nat m <= indentation l) by lia.
  pose proof (drop_utf8 l (N.to_nat m) Hi Hu) as Hd.
  unfold str_slice_from. rewrite (utf8_not_inside _ Hd).
  destruct (Nat.leb_spec (N.to_nat m) (String.length l)); [|lia]. cbn [andb negb].
  apply returns_ret. destruct (str_drop_cut l _ Hi) as (pre & Hpre & Hlp & Hind).
  split_and!; [|by unfold text; rewrite drop_indentation| |done].
  - exists pre. split_and!; [done|lia|lia].
  - rewrite Hpre in Hn. by apply has_newline_suffix in Hn.
Qed.

(** What [unindent] returns, line by line. *)
Definition unindented (s s' : string) : Prop :=
  match lines s with
  | first :: rest => exists rest', s' = join nl (trim_start first :: rest') /\
      Forall2 (cut_line (min_indent (lines s))) rest rest'
  | [] => s' = s
  end.

Lemma Forall2_codomain {A B} (R : A -> B -> Prop) (P : B -> Prop) l l' :
  (forall x y, R x y -> P y) -> Forall2 R l l' -> Forall P l'.
Proof. intros HP. induction 1; constructor; eauto. Qed.

Lemma Forall2_length_filter (rest rest' : list string) :
  Forall2 (fun l l' => text l' = text l) rest rest' ->
  length (List.filter text rest') = length (List.filter text rest).
Proof.
  induction 1 as [|l l' rest rest' Hl _ IH]; [done|]. cbn. rewrite Hl.
  destruct (text l); cbn; by rewrite IH.
Qed.

Lemma text_trim l : text (trim_start l) = text l.
Proof. unfold text. by rewrite all_whitespace_trim. Qed.

Lemma unindent_returns s :
  str_utf8 s -> flat (text_first s) (texts s) ->
  returns (unindent s) (fun s' => unindented s s' /\ str_utf8 s' /\
    text_first s' = text_first s /\ texts s' = texts s).
Proof.
  intros Hu Hf. destruct (lines_spec s) as [Hn Hfirst].
  pose proof (lines_newlines s) as Hnl. pose proof (lines_utf8 s Hu) as Hul.
  unfold unindented, unindent. destruct (lines s) as [|first rest] eqn:Hls.
  { apply returns_ret. done. }
  rewrite Forall_cons in Hnl, Hul. destruct Hnl as [Hnf Hnr], Hul as [Huf Hur].
  rewrite Hfirst, Hn in Hf. apply min_indent_bounds in Hf.
  set (m := min_indent (first :: rest)) in *. eapply returns_bind.
  - apply (map_loop_returns _ (fun l l' => cut_line m l l' /\ text l' = text l /\
      has_newline l' = false /\ str_utf8 l')).
    intros l Hl. rewrite Forall_forall in Hnr, Hur.
    apply unindent_line_returns; auto.
  - intros rest' Hall. apply returns_ret.
    assert (Hsplit : split_str (join nl (trim_start first :: rest')) nl = trim_start first :: rest').
    { apply split_join; [done|]. constructor.
      - destruct (trim_start_suffix first) as [pre Hpre]. rewrite Hpre in Hnf.
        by apply has_newline_suffix in Hnf.
      - eapply Forall2_codomain; [|exact Hall]. by intros ? ? (_ & _ & ? & _). }
    split_and!.
    + exists rest'. split; [done|]. eapply Forall2_impl; [exact Hall|]. by intros ? ? (? & _).
    + apply join_utf8. constructor; [by apply trim_start_utf8|].
      eapply Forall2_codomain; [|exact Hall]. by intros ? ? (_ & _ & _ & ?).
    + unfold text_first at 1. by rewrite Hsplit, text_trim.
    + unfold texts at 1. rewrite Hsplit, Hn. cbn [List.filter]. rewrite text_trim.
      assert (Hlen : length (List.filter text rest') = length (List.filter text rest)).
      { apply Forall2_length_filter. eapply Forall2_impl; [exact Hall|]. by intros ? ? (_ & ? & _). }
      destruct (text first); cbn [length]; by rewrite Hlen.
Qed.

(** ** Texts *)

(** The tests of the source. *)
Lemma unindent_tests :
  let text ls := join nl ls in
  let tab := String (Ascii.ascii_of_nat 9) EmptyString in
  unindent (text ["    line1"; "    line2"]) = Ret (text ["line1"; "line2"]) /\
  unindent (text ["    line1"; ""; "    line2"]) = Ret (text ["line1"; ""; "line2"]) /\
  unindent (text ["    line1"; ""; "        line2"]) = Ret (text ["line1"; ""; "    line2"]) /\
  unindent (text ["line1"; "    line2"]) = Ret (text ["line1"; "line2"]) /\
  unindent (text ["line1"; ""; "    line2"]) = Ret (text ["line1"; ""; "    line2"]) /\
  unindent (text [tab +:+ "line1"; tab +:+ "line2"]) = Ret (text ["line1"; "line2"]) /\
  unindent (text [tab +:+ "    line1"; tab +:+ "    line2"]) = Ret (text ["line1"; "line2"]) /\
  unindent (text ["    " +:+ tab +:+ "line1"; "    " +:+ tab +:+ "line2"])
    = Ret (text ["line1"; "line2"]) /\
  unindent (text [tab +:+ "    line1  "; tab +:+ "    line2"]) = Ret (text ["line1  "; "line2"]).
Proof. vm_compute. by split_and!. Qed.

(** ** Properties *)

(** C20: [unindent] never panics on a text whose first line is not blank, or with one line
    that is not blank. It trims the first line, keeps the blank ones, and takes the same
    number of bytes, spaces and tabs only, from the front of each of the others. *)
Theorem texts_are_unindented (s : string) (Hutf8 : str_utf8 s)
    (Hflat : flat (text_first s) (texts s)) :
  returns (unindent s) (fun s' => unindented s s' /\ str_utf8 s' /\
    text_first s' = text_first s /\ texts s' = texts s).
Proof. by apply unindent_returns. Qed.

Lemma texts_are_unindented_witness :
  unindented (join nl [" a"; "   b"; "  c"]) (join nl ["a"; " b"; "c"]) /\
  min_indent [" a"; "   b"; "  c"] = 2%N.
Proof.
  pose proof (texts_are_unindented (join nl [" a"; "   b"; "  c"]) ltac:(vm_compute; reflexivity)
    ltac:(left; vm_compute; reflexivity)) as Hr.
  assert (Heq : unindent (join nl [" a"; "   b"; "  c"]) = Ret (join nl ["a"; " b"; "c"]))
    by (vm_compute; reflexivity).
  rewrite Heq in Hr. destruct Hr as [Hu _]. split; [exact Hu|]. vm_compute. reflexivity.
Defined.

Lemma unindent_text_line l k :
  text l = true ->
  unindent_line (N.of_nat k) l =
  if (k <=? String.length l) && negb (inside_char (str_drop k l)) then Ret (str_drop k l)
  else Panicked.
Proof.
  intros Hl. unfold unindent_line, str_slice_from. rewrite text_whitespace, Hl, Nnat.Nat2N.id.
  cbn [negb]. destruct (Nat.leb_spec k (String.length l));
    destruct (N.leb_spec (N.of_nat k) (N.of_nat (String.length l))); done || lia.
Qed.

Lemma without_text : text EmptyString = false.
Proof. done. Qed.

Lemma lines_blank_first x y :
  text y = true -> has_newline x = false -> has_newline y = false ->
  without_cr x = x -> without_cr y = y -> lines (nl +:+ x +:+ nl +:+ y) = [EmptyString; x; y].
Proof.
  intros Hy Hnx Hny Hcx Hcy. unfold lines, split_terminator.
  assert (Hs : split_str (nl +:+ x +:+ nl +:+ y) nl = [EmptyString; x; y]).
  { change (nl +:+ x +:+ nl +:+ y) with (EmptyString +:+ nl +:+ (x +:+ nl +:+ y)).
    by rewrite !split_nl_app, !split_line. }
  rewrite Hs. rewrite bool_decide_eq_false_2.
  - cbn. by rewrite Hcx, Hcy.
  - intros [= ->]. by rewrite without_text in Hy.
Qed.

(** C40: behind a blank first line the indentation of the first line with text is ignored
    when the next one has text too, although that line is not trimmed but cut: [unindent]
    takes the indentation of the other line from it. When this is more than its own it
    loses text, and when it is more than its length, or ends inside a character, rustdoc
    panics. *)
Theorem blank_first_line_is_mishandled (x y : string)
    (Hx : text x = true) (Hy : text y = true) (Hutf8 : str_utf8 y)
    (Hlines : has_newline x = false /\ has_newline y = false)
    (Hcr : without_cr x = x /\ without_cr y = y)
    (Hlen : (N.of_nat (indentation y) <= usize_MAX)%N) :
  unindent (nl +:+ x +:+ nl +:+ y) =
  if (indentation y <=? String.length x) && negb (inside_char (str_drop (indentation y) x))
  then Ret (nl +:+ str_drop (indentation y) x +:+ nl +:+ str_drop (indentation y) y)
  else Panicked.
Proof.
  unfold unindent. rewrite (lines_blank_first x y) by tauto.
  assert (Hm : min_indent [EmptyString; x; y] = N.of_nat (indentation y)).
  { unfold min_indent. cbn [foldl]. rewrite indent_step_eq, without_text.
    cbn [orb andb negb]. rewrite indent_step_eq, Hx. cbn [orb andb negb].
    rewrite indent_step_eq, Hy. cbn [orb andb negb snd]. lia. }
  rewrite Hm. cbn [map_loop]. rewrite (unindent_text_line x), (unindent_text_line y) by done.
  assert ((indentation y <=? String.length y) = true) as -> by apply Nat.leb_le, indentation_length.
  rewrite (utf8_not_inside _ (drop_utf8 y _ ltac:(done) Hutf8)). cbn [andb negb].
  by destruct ((indentation y <=? String.length x) && _).
Qed.

Lemma blank_first_line_is_mishandled_witness :
  unindent (nl +:+ " a" +:+ nl +:+ "     b") = Panicked /\
  unindent (nl +:+ " abcd" +:+ nl +:+ "   b") = Ret (nl +:+ "cd" +:+ nl +:+ "b").
Proof.
  split.
  - rewrite (blank_first_line_is_mishandled " a" "     b"); by vm_compute.
  - rewrite (blank_first_line_is_mishandled " abcd" "   b"); by vm_compute.
Defined.
