(* ===== verification/Passes.v ===== *)
(** The passes that decide which items of a crate are documented, and so which functions
    the generator sees ([passes/mod.rs], [passes/strip_hidden.rs],
    [passes/strip_private.rs], [passes/strip_priv_imports.rs]), and their selection
    ([fuzz_target_generator_run_core] of [core.rs]). *)

From S2P Require Import Prelude RustStd MetaItems CleanTypes CleanItems DocFold DocPasses CfgPass.
From S2P Require Import DocCoverage.

(** ** Access levels ([librustc_middle/middle/privacy.rs]) *)
Inductive AccessLevel := ReachableFromImplTrait | Reachable | Exported | Public.

(** The derived order. *)
Definition access_rank (l : AccessLevel) : nat :=
  match l with ReachableFromImplTrait => 0 | Reachable => 1 | Exported => 2 | Public => 3 end.

Abbreviation AccessLevels := (gmap DefId AccessLevel).

(** [self.map.get(&id) >= Some(&level)]. *)
Definition at_least (levels : AccessLevels) (id : DefId) (level : AccessLevel) : bool :=
  match levels !! id with Some l => access_rank level <=? access_rank l | None => false end.
Definition is_exported (levels : AccessLevels) (id : DefId) : bool := at_least levels id Exported.
Definition is_public (levels : AccessLevels) (id : DefId) : bool := at_least levels id Public.

(** The passes and the construction of the cache run before the render cache of the thread
    is set: [Type::def_id] finds no primitive type. *)
Definition unset_cache : gmap PrimitiveType DefId := ∅.

(** ** [strip_hidden] *)
Record HiddenStripper := mk_HiddenStripper {
  hidden_retained : gset DefId;
  hidden_update_retained : bool
}.

Definition is_hidden (i : Item) : bool := has_word (lists (item_attrs i) "doc") "hidden".

Definition hidden_fold_item (recur : Item -> HiddenStripper -> outcome (option Item * HiddenStripper))
    (i : Item) (self : HiddenStripper) : outcome (option Item * HiddenStripper) :=
  if is_hidden i then
    match item_inner i with
    | StructFieldItem _ | ModuleItem _ =>
        let old := hidden_update_retained self in
        r ← recur i (mk_HiddenStripper (hidden_retained self) false);
        folded ← unwrap r.1;
        mret (strip folded, mk_HiddenStripper (hidden_retained r.2) old)
    | _ => mret (None, self)
    end
  else
    let self :=
      if hidden_update_retained self
      then mk_HiddenStripper ({[item_def_id i]} ∪ hidden_retained self)
             (hidden_update_retained self)
      else self in
    recur i self.

Lemma hidden_fold_item_local r1 r2 i s :
  (forall j s, item_inner j = item_inner i -> r1 j s = r2 j s) ->
  hidden_fold_item r1 i s = hidden_fold_item r2 i s.
Proof.
  intros Hr. pose proof (fun s => Hr i s eq_refl) as Heq.
  unfold hidden_fold_item. destruct (is_hidden i); [|by apply Heq].
  by destruct (item_inner i); rewrite ?Heq.
Qed.

#[export] Instance HiddenStripper_DocFolder : DocFolder HiddenStripper := {|
  override := hidden_fold_item; override_local := hidden_fold_item_local
|}.

(** ** The stripper of private items

    The access levels are behind a shared reference: they are a parameter of the type. *)
Record Stripper (access_levels : AccessLevels) := mk_Stripper {
  retained : gset DefId;
  update_retained : bool
}.
Arguments mk_Stripper {access_levels}.
Arguments retained {access_levels}.
Arguments update_retained {access_levels}.

Section stripper.
Context {access_levels : AccessLevels}.
Abbreviation Stripper := (Stripper access_levels).

Definition with_update (self : Stripper) (b : bool) : Stripper :=
  mk_Stripper (retained self) b.

Definition retain (self : Stripper) (did : DefId) : Stripper :=
  if update_retained self
  then mk_Stripper ({[did]} ∪ retained self) (update_retained self)
  else self.

(** The items that can be re-exported. *)
Definition reexportable (e : ItemEnum Item) : bool :=
  match e with
  | OpaqueTyItem _ _ | TypedefItem _ _ | StaticItem _ | StructItem _ | EnumItem _ | TraitItem _
  | FunctionItem _ | VariantItem _ | MethodItem _ | ForeignFunctionItem _ | ForeignStaticItem _
  | ConstantItem _ | UnionItem _ | AssocConstItem _ _ | TraitAliasItem _ | ForeignTypeItem => true
  | _ => false
  end.

(** [fastreturn]: the members of these are not looked at. *)
Definition fastreturn (e : ItemEnum Item) : bool :=
  match e with
  | TraitItem _ => true
  | ImplItem imp => bool_decide (is_Some (trait_ imp))
  | VariantItem (StructVariant _) => true
  | _ => false
  end.

(** What follows the checks on privacy. *)
Definition strip_members (recur : Item -> Stripper -> outcome (option Item * Stripper))
    (i : Item) (self : Stripper) : outcome (option Item * Stripper) :=
  if fastreturn (item_inner i) then mret (Some i, retain self (item_def_id i))
  else
    r ← recur i self;
    match r.1 with
    | Some i' => mret (Some i', retain r.2 (item_def_id i'))
    | None => mret r
    end.

Definition stripper_fold_item (recur : Item -> Stripper -> outcome (option Item * Stripper))
    (i : Item) (self : Stripper) : outcome (option Item * Stripper) :=
  match item_inner i with
  | StrippedItem _ =>
      let old := update_retained self in
      r ← recur i (with_update self false);
      mret (r.1, with_update r.2 old)
  | StructFieldItem _ =>
      if decide (item_visibility i <> Visibility.Public) then mret (strip i, self)
      else strip_members recur i self
  | ModuleItem _ =>
      if is_local (item_def_id i) && bool_decide (item_visibility i <> Visibility.Public) then
        let old := update_retained self in
        r ← recur i (with_update self false);
        folded ← unwrap r.1;
        mret (strip folded, with_update r.2 old)
      else strip_members recur i self
  | e =>
      if reexportable e && is_local (item_def_id i)
         && negb (is_exported access_levels (item_def_id i))
      then mret (None, self)
      else strip_members recur i self
  end.

Lemma stripper_fold_item_local r1 r2 i s :
  (forall j s, item_inner j = item_inner i -> r1 j s = r2 j s) ->
  stripper_fold_item r1 i s = stripper_fold_item r2 i s.
Proof.
  intros Hr. pose proof (fun s => Hr i s eq_refl) as Heq.
  unfold stripper_fold_item. unfold strip_members.
  destruct (item_inner i); rewrite ?Heq; done.
Qed.
End stripper.

#[export] Instance Stripper_DocFolder access_levels : DocFolder (Stripper access_levels) := {|
  override := stripper_fold_item; override_local := stripper_fold_item_local
|}.

(** ** The strippers of impls and imports *)
Record ImplStripper := mk_ImplStripper { impl_retained : gset DefId }.

(** The definition is local and was not retained. *)
Definition dropped (self : ImplStripper) (did : option DefId) : bool :=
  match did with
  | Some did => is_local did && negb (bool_decide (did ∈ impl_retained self))
  | None => false
  end.

Definition strip_impl (self : ImplStripper) (imp : Impl Item) : bool :=
  if bool_decide (trait_ imp = None) && bool_decide (length (items imp) = 0) then true
  else if negb (is_generic (for_ imp)) && dropped self (def_id unset_cache (for_ imp)) then true
  else if dropped self (trait_ imp ≫= def_id unset_cache) then true
  else
    match trait_ imp ≫= generics with
    | Some typarams => existsb (fun typaram => dropped self (def_id unset_cache typaram)) typarams
    | None => false
    end.

Definition impl_fold_item (recur : Item -> ImplStripper -> outcome (option Item * ImplStripper))
    (i : Item) (self : ImplStripper) : outcome (option Item * ImplStripper) :=
  match item_inner i with
  | ImplItem imp => if strip_impl self imp then mret (None, self) else recur i self
  | _ => recur i self
  end.

Lemma impl_fold_item_local r1 r2 i s :
  (forall j s, item_inner j = item_inner i -> r1 j s = r2 j s) ->
  impl_fold_item r1 i s = impl_fold_item r2 i s.
Proof.
  intros Hr. pose proof (fun s => Hr i s eq_refl) as Heq.
  unfold impl_fold_item. by destruct (item_inner i); rewrite ?Heq.
Qed.

#[export] Instance ImplStripper_DocFolder : DocFolder ImplStripper := {|
  override := impl_fold_item; override_local := impl_fold_item_local
|}.

Inductive ImportStripper := mk_ImportStripper.

Definition import_fold_item (recur : Item -> ImportStripper -> outcome (option Item * ImportStripper))
    (i : Item) (self : ImportStripper) : outcome (option Item * ImportStripper) :=
  match item_inner i with
  | ExternCrateItem _ _ | ImportItem _ =>
      if decide (item_visibility i <> Visibility.Public) then mret (None, self)
      else recur i self
  | _ => recur i self
  end.

Lemma import_fold_item_local r1 r2 i s :
  (forall j s, item_inner j = item_inner i -> r1 j s = r2 j s) ->
  import_fold_item r1 i s = import_fold_item r2 i s.
Proof.
  intros Hr. pose proof (fun s => Hr i s eq_refl) as Heq.
  unfold import_fold_item. by destruct (item_inner i); rewrite ?Heq.
Qed.

#[export] Instance ImportStripper_DocFolder : DocFolder ImportStripper := {|
  override := import_fold_item; override_local := import_fold_item_local
|}.

(** ** The passes *)
Section passes.
Context `{HashOrder}.

Definition strip_hidden (krate : Crate) : outcome Crate :=
  r ← fold_crate krate (mk_HiddenStripper ∅ true);
  r' ← fold_crate r.1 (mk_ImplStripper (hidden_retained r.2));
  mret r'.1.

Definition strip_private (levels : AccessLevels) (krate : Crate) : outcome Crate :=
  r ← fold_crate krate (mk_Stripper (access_levels := levels) ∅ true);
  r' ← fold_crate r.1 mk_ImportStripper;
  r'' ← fold_crate r'.1 (mk_ImplStripper (retained r.2));
  mret r''.1.

Definition strip_priv_imports (krate : Crate) : outcome Crate :=
  r ← fold_crate krate mk_ImportStripper;
  mret r.1.

(** *** Which passes run

    A pass is its name: the passes that read compiler data are the argument [run_pass]. *)
Inductive Condition := Always | WhenDocumentPrivate | WhenNotDocumentPrivate
  | WhenNotDocumentHidden.

Record ConditionalPass := mk_ConditionalPass { pass : string; condition : Condition }.

Definition STRIP_HIDDEN : string := "strip-hidden".
Definition STRIP_PRIVATE : string := "strip-private".
Definition STRIP_PRIV_IMPORTS : string := "strip-priv-imports".
Definition COLLAPSE_DOCS : string := "collapse-docs".
Definition UNINDENT_COMMENTS : string := "unindent-comments".
Definition PROPAGATE_DOC_CFG : string := "propagate-doc-cfg".
Definition COLLECT_TRAIT_IMPLS : string := "collect-trait-impls".
Definition CALCULATE_DOC_COVERAGE : string := "calculate-doc-coverage".

Definition PASSES : list string :=
  ["check-private-items-doc-tests"; STRIP_HIDDEN; UNINDENT_COMMENTS; COLLAPSE_DOCS;
   STRIP_PRIVATE; STRIP_PRIV_IMPORTS; PROPAGATE_DOC_CFG; "collect-intra-doc-links";
   "check-code-block-syntax"; COLLECT_TRAIT_IMPLS; CALCULATE_DOC_COVERAGE].

Definition always (p : string) : ConditionalPass := mk_ConditionalPass p Always.

Definition DEFAULT_PASSES : list ConditionalPass :=
  [always COLLECT_TRAIT_IMPLS; always COLLAPSE_DOCS; always UNINDENT_COMMENTS;
   always "check-private-items-doc-tests";
   mk_ConditionalPass STRIP_HIDDEN WhenNotDocumentHidden;
   mk_ConditionalPass STRIP_PRIVATE WhenNotDocumentPrivate;
   mk_ConditionalPass STRIP_PRIV_IMPORTS WhenDocumentPrivate;
   always "collect-intra-doc-links"; always "check-code-block-syntax";
   always PROPAGATE_DOC_CFG].

Definition COVERAGE_PASSES : list ConditionalPass :=
  [always COLLECT_TRAIT_IMPLS;
   mk_ConditionalPass STRIP_HIDDEN WhenNotDocumentHidden;
   mk_ConditionalPass STRIP_PRIVATE WhenNotDocumentPrivate;
   always CALCULATE_DOC_COVERAGE].

Inductive DefaultPassOption := Default | Coverage | None_.
#[export] Instance DefaultPassOption_eq_dec : EqDecision DefaultPassOption.
Proof. solve_decision. Defined.

Definition defaults (default_set : DefaultPassOption) : list ConditionalPass :=
  match default_set with
  | Default => DEFAULT_PASSES
  | Coverage => COVERAGE_PASSES
  | None_ => []
  end.

Definition find_pass (pass_name : string) : option string :=
  List.find (fun p => bool_decide (p = pass_name)) PASSES.

(** [str::split_whitespace], for the white space of ASCII. *)
Fixpoint split_words (s word : string) : list string :=
  match s with
  | EmptyString => if bool_decide (word = EmptyString) then [] else [word]
  | String c s =>
      if is_whitespace c then
        (if bool_decide (word = EmptyString) then [] else [word]) ++ split_words s EmptyString
      else split_words s (word +:+ String c EmptyString)
  end.

Definition split_whitespace (s : string) : list string := split_words s EmptyString.

(** The loop over the [doc] attributes of the crate: the default passes, the passes asked
    for by name, and whether private items are documented. *)
Definition read_attribute (attr : NestedMetaItem)
    (st : DefaultPassOption * list string * bool) : DefaultPassOption * list string * bool :=
  let '(default_passes, manual_passes, document_private) := st in
  let name := name_or_empty attr in
  let '(default_passes, manual_passes) :=
    if is_word attr then
      if bool_decide (name = "no_default_passes") && bool_decide (default_passes = Default)
      then (None_, manual_passes) else (default_passes, manual_passes)
    else
      match value_str attr with
      | Some value =>
          if bool_decide (name = "passes")
          then (default_passes, manual_passes ++ split_whitespace value)
          else (default_passes, manual_passes)
      | None => (default_passes, manual_passes)
      end in
  (default_passes, manual_passes,
   document_private || (is_word attr && bool_decide (name = "document_private_items"))).

Definition should_run (document_private document_hidden : bool) (c : Condition) : bool :=
  match c with
  | Always => true
  | WhenDocumentPrivate => document_private
  | WhenNotDocumentPrivate => negb document_private
  | WhenNotDocumentHidden => negb document_hidden
  end.

(** The choice of the crate: the default passes, the passes asked for by name, and whether
    private items are documented. *)
Definition read_attributes (root : Item) (default_passes : DefaultPassOption)
    (manual_passes : list string) (document_private : bool)
    : DefaultPassOption * list string * bool :=
  foldl (fun st attr => read_attribute attr st)
    (default_passes, manual_passes, document_private) (lists (item_attrs root) "doc").

(** The passes that are run, in order. *)
Definition passes_of (choice : DefaultPassOption * list string * bool) (document_hidden : bool)
    : list string :=
  let '(default_passes, manual_passes, document_private) := choice in
  List.map pass
    (List.filter (fun p => should_run document_private document_hidden (condition p))
      (defaults default_passes ++ List.map always (omap find_pass manual_passes))).

(** The passes that read data of the compiler. What [calculate-doc-coverage] prints is left
    out here, so that the format in which it does does not matter. *)
Variable run_pass : string -> Crate -> outcome Crate.
Variable levels : AccessLevels.

Definition run (p : string) (krate : Crate) : outcome Crate :=
  if bool_decide (p = STRIP_HIDDEN) then strip_hidden krate
  else if bool_decide (p = STRIP_PRIVATE) then strip_private levels krate
  else if bool_decide (p = STRIP_PRIV_IMPORTS) then strip_priv_imports krate
  else if bool_decide (p = COLLAPSE_DOCS) then collapse_docs krate
  else if bool_decide (p = UNINDENT_COMMENTS) then unindent_comments krate
  else if bool_decide (p = PROPAGATE_DOC_CFG) then propagate_doc_cfg krate
  else if bool_decide (p = CALCULATE_DOC_COVERAGE) then
    r ← calculate_doc_coverage None krate;
    mret r.1
  else run_pass p krate.

(** The crate, and whether private items are documented. *)
Definition run_passes (default_passes : DefaultPassOption) (manual_passes : list string)
    (document_private document_hidden : bool) (krate : Crate) : outcome (Crate * bool) :=
  root ← unwrap (krate_module krate);
  let choice := read_attributes root default_passes manual_passes document_private in
  krate ← fold_loop run (passes_of choice document_hidden) krate;
  mret (krate, choice.2).
End passes.
