(* ===== verification/CollectImpls.v ===== *)
(** The pass that adds the impls of traits to the root of the crate
    ([passes/collect_trait_impls.rs]), over the compiler as a record of the queries that
    the pass makes. *)

From S2P Require Import Prelude RustStd MetaItems CleanTypes CleanItems DocFold Pruning Passes.

(** ** The compiler

    The queries of [cx.tcx] change the context that rustdoc keeps: the set
    [renderinfo.inlined] and a rest [X]. *)
Record Cx (X : Type) := mk_Cx { inlined : gset DefId; cx_rest : X }.
Arguments mk_Cx {X}. Arguments inlined {X}. Arguments cx_rest {X}.

Record Tcx (X : Type) := mk_Tcx {
  get_attrs : DefId -> list Attribute;
  (** [get_auto_trait_and_blanket_impls(cx, type_of(did), did)]. *)
  auto_and_blanket_impls : DefId -> Cx X -> outcome (list Item * Cx X);
  (** [inline::build_impl] after the test of [inlined]: the items that it pushes. *)
  inline_impl : DefId -> Cx X -> outcome (list Item * Cx X);
  (** The impls of the crates, of the primitive types, and of the local traits. *)
  all_trait_implementations : list (list DefId);
  primitive_impls : list (option DefId);
  local_trait_impls : list (list DefId);
  deref_trait : option DefId
}.
Arguments get_attrs {X}. Arguments auto_and_blanket_impls {X}. Arguments inline_impl {X}.
Arguments all_trait_implementations {X}. Arguments primitive_impls {X}.
Arguments local_trait_impls {X}. Arguments deref_trait {X}.

(** ** The folders *)
Definition is_struct (i : Item) : outcome bool :=
  kind ← item_type i; mret (bool_decide (kind = ItemType.Struct)).
Definition is_enum (i : Item) : outcome bool :=
  kind ← item_type i; mret (bool_decide (kind = ItemType.Enum)).
Definition is_union (i : Item) : outcome bool :=
  kind ← item_type i; mret (bool_decide (kind = ItemType.Union_)).

Inductive SyntheticImplCollector {X : Type} (tcx : Tcx X) := mk_SyntheticImplCollector {
  synth_cx : Cx X;
  impls : list Item
}.
Arguments mk_SyntheticImplCollector {X tcx}. Arguments synth_cx {X tcx}. Arguments impls {X tcx}.

Record ItemCollector := mk_ItemCollector { collected : gset DefId }.

Section pass.
Context {X : Type} (tcx : Tcx X).

Definition is_doc_hidden (did : DefId) : bool :=
  has_word (attr_lists (get_attrs tcx did) "doc") "hidden".

Definition synthetic_fold_item
    (recur : Item -> SyntheticImplCollector tcx -> outcome (option Item * SyntheticImplCollector tcx))
    (i : Item) (self : SyntheticImplCollector tcx)
    : outcome (option Item * SyntheticImplCollector tcx) :=
  s ← is_struct i;
  e ← (if s : bool then mret true else is_enum i);
  u ← (if e : bool then mret true else is_union i);
  if u && negb (is_doc_hidden (item_def_id i)) then
    r ← auto_and_blanket_impls tcx (item_def_id i) (synth_cx self);
    recur i (mk_SyntheticImplCollector r.2 (impls self ++ r.1))
  else recur i self.

Lemma synthetic_fold_item_local r1 r2 i s :
  (forall j s, item_inner j = item_inner i -> r1 j s = r2 j s) ->
  synthetic_fold_item r1 i s = synthetic_fold_item r2 i s.
Proof.
  intros Hr. pose proof (fun s => Hr i s eq_refl) as Heq. unfold synthetic_fold_item.
  destruct (is_struct i) as [s0| |]; [cbn [mbind outcome_bind]|done..].
  destruct (if s0 : bool then _ else _) as [e| |]; [cbn [mbind outcome_bind]|done..].
  destruct (if e : bool then _ else _) as [u| |]; [cbn [mbind outcome_bind]|done..].
  destruct (u && _); [|apply Heq]. by destruct (auto_and_blanket_impls _ _ _); cbn; rewrite ?Heq.
Qed.

Definition collector_fold_item (recur : Item -> ItemCollector -> outcome (option Item * ItemCollector))
    (i : Item) (self : ItemCollector) : outcome (option Item * ItemCollector) :=
  recur i (mk_ItemCollector ({[item_def_id i]} ∪ collected self)).

Lemma collector_fold_item_local r1 r2 i s :
  (forall j s, item_inner j = item_inner i -> r1 j s = r2 j s) ->
  collector_fold_item r1 i s = collector_fold_item r2 i s.
Proof. intros Hr. by apply Hr. Qed.

(** ** The impls to keep *)
Record BadImplStripper := mk_BadImplStripper {
  prims : gset PrimitiveType;
  crate_items : gset DefId
}.

Definition keep_item (self : BadImplStripper) (ty : Type_) : bool :=
  match ty with
  | Generic _ => true
  | _ =>
      match primitive_type ty with
      | Some prim => bool_decide (prim ∈ prims self)
      | None =>
          match def_id unset_cache ty with
          | Some did => bool_decide (did ∈ crate_items self)
          | None => false
          end
      end
  end.

(** The [Target] of an impl of [Deref]. *)
Definition deref_target (items : list Item) : option Type_ :=
  head (omap (fun item =>
    match item_inner item with TypedefItem t true => Some (typedef_type t) | _ => None end) items).

(** The body of the loop that splices in the targets of [Deref]. *)
Definition splice_target (it : Item) (cleaner : BadImplStripper) : outcome BadImplStripper :=
  match item_inner it with
  | ImplItem imp =>
      if keep_item cleaner (for_ imp)
         && bool_decide ((trait_ imp ≫= def_id unset_cache) = deref_trait tcx)
      then
        target ← unwrap (deref_target (items imp));
        match primitive_type target with
        | Some prim => mret (mk_BadImplStripper ({[prim]} ∪ prims cleaner) (crate_items cleaner))
        | None =>
            match def_id unset_cache target with
            | Some did => mret (mk_BadImplStripper (prims cleaner) ({[did]} ∪ crate_items cleaner))
            | None => mret cleaner
            end
        end
      else mret cleaner
  | _ => mret cleaner
  end.

(** The predicate of [new_items.retain]. *)
Definition keep_impl (cleaner : BadImplStripper) (it : Item) : bool :=
  match item_inner it with
  | ImplItem imp =>
      keep_item cleaner (for_ imp)
      || match trait_ imp with Some t => keep_item cleaner t | None => false end
      || bool_decide (is_Some (blanket_impl imp))
  | _ => true
  end.

(** ** The pass *)

(** [new_items] and the context. *)
Definition build_impl (did : DefId) (st : list Item * Cx X) : outcome (list Item * Cx X) :=
  let '(ret, cx) := st in
  if decide (did ∈ inlined cx) then mret (ret, cx)
  else
    r ← inline_impl tcx did (mk_Cx ({[did]} ∪ inlined cx) (cx_rest cx));
    mret (ret ++ r.1, r.2).

(** [impls.filter(|i| renderinfo.inlined.insert(i.def_id))]. *)
Definition not_inlined (i : Item) (st : list Item * Cx X) : list Item * Cx X :=
  let '(new_items, cx) := st in
  if decide (item_def_id i ∈ inlined cx) then st
  else (new_items ++ [i], mk_Cx ({[item_def_id i]} ∪ inlined cx) (cx_rest cx)).

Definition build_primitive_impl (def_id : DefId) (st : list Item * Cx X)
    : outcome (list Item * Cx X) :=
  if is_local def_id then mret st
  else
    st ← build_impl def_id st;
    if is_doc_hidden def_id then mret st
    else
      r ← auto_and_blanket_impls tcx def_id st.2;
      mret (foldl (fun st i => not_inlined i st) (st.1, r.2) r.1).

Definition build_impls (dids : list (list DefId)) (st : list Item * Cx X)
    : outcome (list Item * Cx X) :=
  fold_loop (fun crate_impls st => fold_loop build_impl crate_impls st) dids st.
End pass.

#[export] Instance SyntheticImplCollector_DocFolder {X} (tcx : Tcx X) :
  DocFolder (SyntheticImplCollector tcx) := {|
  override := synthetic_fold_item tcx; override_local := synthetic_fold_item_local tcx
|}.
#[export] Instance ItemCollector_DocFolder : DocFolder ItemCollector := {|
  override := collector_fold_item; override_local := collector_fold_item_local
|}.

(** The items appended to the root. *)
Definition extend_root (krate : Crate) (new_items : list Item) : outcome Crate :=
  match krate_module krate with
  | Some it =>
      match item_inner it with
      | ModuleItem m =>
          mret (mk_Crate (krate_name krate) (krate_version krate) (krate_src krate)
            (Some (with_inner_enum it
               (ModuleItem (mk_Module (module_items_ m ++ new_items) (is_crate m)))))
            (krate_externs krate) (krate_primitives krate) (external_traits krate)
            (masked_crates krate))
      | _ => Panicked
      end
  | None => Panicked
  end.

Definition collect_trait_impls `{HashOrder} {X} (tcx : Tcx X) (krate : Crate) (cx : Cx X)
    : outcome (Crate * Cx X) :=
  r ← fold_crate krate (mk_SyntheticImplCollector (tcx := tcx) cx []);
  let '(krate, synth) := (r : Crate * SyntheticImplCollector tcx) in
  let prims := list_to_set (List.map snd (krate_primitives krate)) in
  c ← fold_crate krate (mk_ItemCollector ∅);
  let '(krate, coll) := (c : Crate * ItemCollector) in
  st ← build_impls tcx (all_trait_implementations tcx) ([], synth_cx synth);
  st ← fold_loop (build_primitive_impl tcx) (omap id (primitive_impls tcx)) st;
  let '(new_items, cx) := (st : list Item * Cx X) in
  cleaner ← fold_loop (splice_target tcx) new_items (mk_BadImplStripper prims (collected coll));
  let new_items := List.filter (keep_impl cleaner) new_items in
  st ← build_impls tcx (local_trait_impls tcx) (new_items, cx);
  krate ← extend_root krate (impls synth ++ st.1);
  mret (krate, st.2).

(** The passes that read the compiler, from the context [cx] on. *)
Definition compiler_passes `{HashOrder} {X} (tcx : Tcx X) (cx : Cx X)
    (others : string -> Crate -> outcome Crate) (p : string) (krate : Crate) : outcome Crate :=
  if decide (p = COLLECT_TRAIT_IMPLS) then
    r ← collect_trait_impls tcx krate cx;
    mret r.1
  else others p krate.
