(* ===== verification/PassesCorrect.v ===== *)
(** Correctness of the passes: they never panic on a crate in which nothing is stripped
    twice, they only remove or strip items, and what they should remove is gone. *)

From S2P Require Import Prelude RustStd CleanTypes CleanItems DocFold Pruning Passes.

(** ** The strippers prune *)

Lemma with_inner_same i : with_inner_enum i (item_inner i) = i.
Proof. by destruct i. Qed.

Lemma strip_pruned_self i i' :
  strippable (item_inner i) = true -> strip i = Some i' -> pruned true i' i.
Proof. by apply strip_pruned. Qed.

(** A fold whose result is stripped, as the strippers do with modules. *)
Lemma strip_folded {F : Type} (o : outcome (option Item * F)) (g : F -> F) i r s' :
  strippable (item_inner i) = true ->
  (forall r s', o = Ret (r, s') -> exists i', r = Some i' /\ pruned true i' i /\
     is_stripped i' = is_stripped i) ->
  (r ← o; folded ← unwrap r.1; mret (strip folded, g r.2)) = Ret (r, s') ->
  forall i', r = Some i' -> pruned true i' i.
Proof.
  intros Hi Ho. destruct o as [[r0 s0]| |]; cbn; try done.
  destruct (Ho r0 s0 eq_refl) as (i0 & -> & Hp & Hs). cbn. intros [= <- <-] i' Hi'.
  by eapply strip_pruned.
Qed.

(** A fold that goes on, or drops the item. *)
Lemma recur_prunes {F : Type} wrap (o : outcome (option Item * F)) i r s' :
  (forall r s', o = Ret (r, s') -> exists i', r = Some i' /\ pruned wrap i' i /\
     is_stripped i' = is_stripped i) ->
  o = Ret (r, s') -> forall i', r = Some i' -> pruned wrap i' i.
Proof. intros Ho Hr i' ->. destruct (Ho _ _ Hr) as (? & [= <-] & Hp & _). done. Qed.

#[export] Program Instance HiddenStripper_Pruner : Pruner HiddenStripper := {| wraps := true |}.
Next Obligation.
  intros recur i s r s' Hrec. change (override recur i s) with (hidden_fold_item recur i s). unfold hidden_fold_item.
  destruct (is_hidden i); [|apply recur_prunes, Hrec].
  destruct (item_inner i) eqn:Hi; try (by intros [= <- <-] i' Hi');
    (apply (strip_folded _ (fun self => mk_HiddenStripper (hidden_retained self) _));
     [by rewrite Hi|intros ? ?; apply Hrec]).
Qed.

Lemma strip_members_prunes levels recur i (s : Stripper levels) r s' :
  (forall s r s', recur i s = Ret (r, s') -> exists i', r = Some i' /\ pruned true i' i /\
     is_stripped i' = is_stripped i) ->
  strip_members recur i s = Ret (r, s') -> forall i', r = Some i' -> pruned true i' i.
Proof.
  intros Hrec. unfold strip_members. destruct (fastreturn (item_inner i)).
  { intros [= <- <-] i' [= <-]. reflexivity. }
  destruct (recur i s) as [[r0 s0]| |] eqn:Hr; cbn; try done.
  destruct (Hrec _ _ _ Hr) as (i0 & -> & Hp & _). by intros [= <- <-] i' [= <-].
Qed.

#[export] Program Instance Stripper_Pruner levels : Pruner (Stripper levels) := {| wraps := true |}.
Next Obligation.
  intros levels recur i s r s' Hrec.
  change (override recur i s) with (stripper_fold_item recur i s). unfold stripper_fold_item.
  assert (Hm := strip_members_prunes _ recur i s r s' Hrec).
  destruct (item_inner i) eqn:Hi;
    try (by (destruct (_ && _ && _); [intros [= <- <-] i' Hi'|apply Hm])).
  - destruct (_ && _); [|done].
    apply (strip_folded _ (fun self => with_update self _)); [by rewrite Hi|].
    intros ? ?. apply Hrec.
  - case_decide; [|done]. intros [= <- <-] i'. apply strip_pruned_self. by rewrite Hi.
  - destruct (recur i (with_update s false)) as [[r0 s0]| |] eqn:Hr; cbn; try done.
    intros [= <- <-] i' ->. by destruct (Hrec _ _ _ Hr) as (i1 & [= ->] & Hp & _).
Qed.

#[export] Program Instance ImplStripper_Pruner : Pruner ImplStripper := {| wraps := false |}.
Next Obligation.
  intros recur i s r s' Hrec. change (override recur i s) with (impl_fold_item recur i s). unfold impl_fold_item.
  destruct (item_inner i); try (apply recur_prunes, Hrec).
  destruct (strip_impl _ _); [by intros [= <- <-] i' Hi'|apply recur_prunes, Hrec].
Qed.

#[export] Program Instance ImportStripper_Pruner : Pruner ImportStripper := {| wraps := false |}.
Next Obligation.
  intros recur i s r s' Hrec. change (override recur i s) with (import_fold_item recur i s). unfold import_fold_item.
  destruct (item_inner i); try (apply recur_prunes, Hrec);
    (case_decide; [intros Heq i' ->; by injection Heq|apply recur_prunes, Hrec]).
Qed.

(** ** The strippers return *)

(** A folder that returns whenever its fold of the item does. *)
Class TotalFolder (F : Type) `{DocFolder F} := {
  override_total : forall (recur : Item -> F -> outcome (option Item * F)) i s,
    (forall s, returns (recur i s) (fun r => is_Some r.1)) ->
    returns (override recur i s) (fun _ => True)
}.

Ltac total_step Hrec :=
  repeat first
    [ exact I | apply returns_ret; done
    | case_match
    | apply Hrec
    | eapply returns_bind; [apply Hrec|intros [? ?] [? ?]; cbn in *; subst; cbn]
    | eapply returns_mono; [apply Hrec|done] ].

#[export] Program Instance HiddenStripper_Total : TotalFolder HiddenStripper.
Next Obligation. intros recur i s Hrec. change (override recur i s) with (hidden_fold_item recur i s). unfold hidden_fold_item. total_step Hrec. Qed.

#[export] Program Instance Stripper_Total levels : TotalFolder (Stripper levels).
Next Obligation.
  intros levels recur i s Hrec. change (override recur i s) with (stripper_fold_item recur i s). unfold stripper_fold_item, strip_members.
  total_step Hrec.
Qed.

#[export] Program Instance ImplStripper_Total : TotalFolder ImplStripper.
Next Obligation. intros recur i s Hrec. change (override recur i s) with (impl_fold_item recur i s). unfold impl_fold_item. total_step Hrec. Qed.

#[export] Program Instance ImportStripper_Total : TotalFolder ImportStripper.
Next Obligation. intros recur i s Hrec. change (override recur i s) with (import_fold_item recur i s). unfold import_fold_item. total_step Hrec. Qed.

Section total.
Context {F : Type} `{TotalFolder F}.

Lemma fold_items_total l s :
  (forall c s, c ∈ l -> returns (fold_item c s) (fun _ => True)) ->
  returns (fold_items fold_item l s) (fun _ => True).
Proof.
  intros Hc. eapply returns_mono;
    [apply (fold_items_returns fold_item (fun _ _ (_ : F) => True) l [] []); [done|]|done].
  intros l1 c l2 out s' Hl _. eapply returns_mono; [apply Hc; set_solver|done].
Qed.

Lemma fold_item_total i : single_strip i -> forall s, returns (fold_item i s) (fun _ => True).
Proof.
  induction i as [i IH] using item_members_ind. intros [Hi Hm] s. rewrite fold_item_unfold.
  apply override_total. intros s0. eapply returns_mono.
  - apply (fold_item_recur_returns fold_item (fun _ _ (_ : F) => True)); [done|done|].
    intros l1 c l2 out s1 Hl _. assert (Hc : c ∈ members (item_inner i)) by (rewrite Hl; set_solver).
    eapply returns_mono; [by apply (IH c Hc); auto|done].
  - intros [r s1] (i' & -> & _). by eexists.
Qed.

(** Nothing in the crate is stripped twice. *)
Definition single_strip_crate (c : Crate) : Prop :=
  (forall m, krate_module c = Some m -> single_strip m) /\
  (forall k t i, external_traits c !! k = Some t -> i ∈ trait_items t -> single_strip i).

Lemma fold_crate_total `{HashOrder} c s :
  single_strip_crate c -> returns (fold_crate c s) (fun _ => True).
Proof.
  intros [Hm Ht]. unfold fold_crate. eapply returns_bind with (P := fun _ => True).
  { destruct (krate_module c) as [m|]; [by apply fold_item_total, Hm|by apply returns_ret]. }
  intros [m' s1] _. eapply returns_bind; [|intros [? ?] _; by apply returns_ret].
  eapply returns_mono; [apply (fold_loop_returns _ (fun _ _ => True)); [done|]|done].
  intros pre [k t] post [traits s2] Hl _. unfold fold_trait. eapply returns_bind.
  - apply fold_items_total. intros c0 s3 Hc. apply fold_item_total.
    apply (Ht k t); [|done]. apply (elem_of_map_order 11). rewrite Hl. set_solver.
  - intros [? ?] _. by apply returns_ret.
Qed.
End total.

Lemma single_strip_crate_pruned wrap c' c :
  pruned_crate wrap c' c -> single_strip_crate c -> single_strip_crate c'.
Proof.
  intros Hp [Hm Ht]. split.
  - intros m' Hm'. destruct (pc_module _ _ _ Hp _ Hm') as (m & Hm0 & Hpm).
    by eapply single_strip_pruned; [|apply Hm].
  - intros k t' i Hk Hi. destruct (pc_traits _ _ _ Hp _ _ Hk) as (t & Hk0 & _ & Hkept).
    destruct (kept_elem _ _ _ _ Hkept Hi) as (i0 & Hi0 & Hpi).
    by eapply single_strip_pruned; [|eapply Ht].
Qed.

Lemma fold_crate_returns {F : Type} `{Pruner F} `{!TotalFolder F} `{HashOrder} c (s : F) :
  single_strip_crate c ->
  returns (fold_crate c s) (fun r => pruned_crate (wraps F) r.1 c /\ single_strip_crate r.1).
Proof.
  intros Hc. apply returns_exists.
  destruct (proj1 (returns_exists _ _) (fold_crate_total c s Hc)) as ([c' s'] & Hf & _).
  exists (c', s'). split; [exact Hf|]. apply fold_crate_prunes in Hf.
  split; [exact Hf|]. by eapply single_strip_crate_pruned.
Qed.
