(* ===== verification/ItemTree.v ===== *)
(** The tree of the items of a crate: the items below an item, the modules around an item,
    the free functions, and how the folds transform them. *)

From S2P Require Import Prelude RustStd CleanTypes CleanItems DocFold Pruning.

(** ** Below an item *)

Inductive below : Item -> Item -> Prop :=
| below_refl i : below i i
| below_member i c d : c ∈ members (item_inner i) -> below c d -> below i d.

(** [P] holds of the item and of everything below it. *)
Definition all_below (P : Item -> Prop) (i : Item) : Prop := forall d, below i d -> P d.

Lemma all_below_unfold P i :
  all_below P i <-> P i /\ forall c, c ∈ members (item_inner i) -> all_below P c.
Proof.
  unfold all_below. split.
  - intros Hall. split; [apply Hall, below_refl|]. intros c Hc d Hd.
    by apply Hall, (below_member _ c).
  - intros [Hi Hc] d Hd. inversion Hd; subst; [done|]. by eapply Hc.
Qed.

(** What pruning preserves of an item, it preserves everywhere. *)
Lemma pruned_below header wrap i' i d' :
  pruned_by header wrap i' i -> below i' d' ->
  exists d, below i d /\ pruned_by header wrap d' d.
Proof.
  intros Hp Hb. revert i Hp. induction Hb as [i'|i' c' d' Hc' _ IH]; intros i Hp.
  { exists i. split; [constructor|done]. }
  apply pruned_inv in Hp as (_ & _ & Hk).
  destruct (kept_elem _ _ _ _ Hk Hc') as (c & Hc & Hcc).
  destruct (IH c Hcc) as (d & Hd & Hdd). exists d. split; [by apply (below_member _ c)|done].
Qed.

Lemma all_below_pruned header wrap (P : Item -> Prop) i' i :
  (forall d' d, pruned_by header wrap d' d -> P d -> P d') ->
  pruned_by header wrap i' i -> all_below P i -> all_below P i'.
Proof.
  intros HP Hp Hall d' Hd'. destruct (pruned_below _ _ _ _ _ Hp Hd') as (d & Hd & Hdd).
  by eapply HP, Hall.
Qed.

(** ** Modules *)

(** The items of a module, stripped or not. *)
Definition enum_module (e : ItemEnum Item) : option (list Item) :=
  match e with
  | StrippedItem (ModuleItem m) | ModuleItem m => Some (module_items_ m)
  | _ => None
  end.
Definition module_items (item : Item) : option (list Item) := enum_module (item_inner item).

Lemma module_items_inv item items :
  module_items item = Some items ->
  exists m, module_items_ m = items /\
    (item_inner item = ModuleItem m \/ item_inner item = StrippedItem (ModuleItem m)).
Proof.
  unfold module_items, enum_module. intros Hitems.
  repeat case_match; simplify_eq; eauto.
Qed.

Lemma module_items_members item items :
  module_items item = Some items -> members (item_inner item) = items.
Proof. intros (m & <- & [-> | ->])%module_items_inv; done. Qed.

Lemma enum_module_shape e : is_Some (enum_module (shape e)) <-> is_Some (enum_module e).
Proof.
  unfold is_Some. destruct e as [| | | | | | | | | | | | | | | | |v| | | | | | | | |e|]; cbn; try naive_solver.
  - destruct v; cbn; naive_solver.
  - destruct e as [| | | | | | | | | | | | | | | | |v| | | | | | | | | |]; cbn; try naive_solver.
    destruct v; cbn; naive_solver.
Qed.

Lemma enum_module_wrap e : strippable e = true ->
  is_Some (enum_module (StrippedItem e)) <-> is_Some (enum_module e).
Proof. by destruct e. Qed.

Lemma pruned_module header wrap i' i :
  pruned_by header wrap i' i -> is_Some (module_items i') <-> is_Some (module_items i).
Proof.
  intros (_ & Hs & _)%pruned_inv. unfold module_items.
  rewrite <- enum_module_shape, <- (enum_module_shape (item_inner i)).
  destruct Hs as [-> |(_ & Hw & ->)]; [done|]. apply enum_module_wrap. by rewrite shape_strippable.
Qed.

(** The items below an item, with the modules around them. *)
Inductive under : list string * Item -> list string * Item -> Prop :=
| under_refl x : under x x
| under_child current item items child x :
    module_items item = Some items -> child ∈ items ->
    under (current ++ option_list (item_name item), child) x -> under (current, item) x.

Lemma under_modules x y : under x y -> exists extra, y.1 = x.1 ++ extra.
Proof.
  induction 1 as [x|current item items child x Hi Hc Hu (extra & Heq)].
  - exists []. by rewrite app_nil_r.
  - exists (option_list (item_name item) ++ extra). rewrite Heq. cbn. by rewrite <- app_assoc.
Qed.

(** The modules around an item are those around the root, and the ones below it. *)
Lemma under_shift x y :
  under x y -> exists p, y.1 = x.1 ++ p /\ forall current, under (current, x.2) (current ++ p, y.2).
Proof.
  induction 1 as [[c i]|current item items child x Hi Hc Hu (p & Heq & Hall)]; cbn [fst snd] in *.
  - exists []. rewrite app_nil_r. split; [done|]. intros current. rewrite app_nil_r. constructor.
  - exists (option_list (item_name item) ++ p). rewrite Heq, <- app_assoc. split; [done|].
    intros cur. eapply under_child; [exact Hi|exact Hc|].
    pose proof (Hall (cur ++ option_list (item_name item))) as Hc'. by rewrite <- app_assoc in Hc'.
Qed.

Lemma under_trans x y z : under x y -> under y z -> under x z.
Proof. induction 1; [done|]. intros Hz. eapply under_child; [done..|]. by auto. Qed.

Lemma under_below x y : under x y -> below x.2 y.2.
Proof.
  induction 1 as [|current item items child x Hi Hc _ IH]; [constructor|].
  apply (below_member _ child); [|done]. cbn. by rewrite (module_items_members _ _ Hi).
Qed.

(** Nothing new in a pruned tree. *)
Lemma under_pruned header `{Header header} wrap current i' i y' :
  pruned_by header wrap i' i -> under (current, i') y' ->
  exists d, under (current, i) (y'.1, d) /\ pruned_by header wrap y'.2 d.
Proof.
  intros Hp Hu. remember (current, i') as x eqn:Hx. revert current i' i Hp Hx.
  induction Hu as [x|cur0 item items child y Hi Hc _ IH]; intros current i' i Hp ?; simplify_eq.
  { exists i. split; [constructor|done]. }
  destruct (proj1 (pruned_module _ _ _ _ Hp) ltac:(by eexists)) as [items0 Hi0].
  apply pruned_inv in Hp as ((Hname & _)%header_same & _ & Hk).
  rewrite (module_items_members _ _ Hi), (module_items_members _ _ Hi0) in Hk.
  destruct (kept_elem _ _ _ _ Hk Hc) as (c & Hc0 & Hcc).
  destruct (IH _ _ c Hcc eq_refl) as (d & Hd & Hdd). exists d. split; [|done].
  rewrite Hname in Hd. by eapply under_child.
Qed.

(** ** Survival

    [D] are the items that a folder may drop. An item that is not one of them, and below
    none of them, is still there after the fold. *)
Section survive.
Context (D : Item -> Prop).

Inductive spared : list string * Item -> list string * Item -> Prop :=
| spared_refl x : spared x x
| spared_child current item items child x :
    module_items item = Some items -> child ∈ items -> ~ D child ->
    spared (current ++ option_list (item_name item), child) x -> spared (current, item) x.

Lemma spared_under x y : spared x y -> under x y.
Proof. induction 1; [constructor|by eapply under_child]. Qed.

(** When no module is dropped, all but the dropped items are spared. *)
Lemma under_spared x y :
  under x y -> (forall z, under x z -> is_Some (module_items z.2) -> ~ D z.2) -> ~ D y.2 ->
  spared x y.
Proof.
  induction 1 as [|current item items child y Hi Hc Hu IH]; intros HD Hy; [constructor|].
  assert (Hsp : spared (current ++ option_list (item_name item), child) y).
  { apply IH; [|done]. intros z Hz. apply HD. eapply under_child; [exact Hi|exact Hc|done]. }
  eapply spared_child; [exact Hi|exact Hc| |done].
  inversion Hu as [|? ? its ch ? Hi']; subst; [done|].
  apply (HD (current ++ option_list (item_name item), child)); [|by eexists].
  eapply under_child; [exact Hi|exact Hc|constructor].
Qed.

(** [i'] is [i] after a fold that spares all but [D]. *)
Definition survives (i' i : Item) : Prop :=
  pruned true i' i /\
  forall current y, spared (current, i) y ->
    exists d, under (current, i') (y.1, d) /\ pruned true d y.2.

Lemma survives_leaf i' i : pruned true i' i -> module_items i = None -> survives i' i.
Proof.
  intros Hp Hi. split; [done|]. intros current y Hy.
  inversion Hy as [|? ? ? ? ? Hi']; subst; [|congruence].
  exists i'. split; [constructor|done].
Qed.

Lemma survives_refl i : survives i i.
Proof.
  split; [reflexivity|]. intros current [p d] Hy. exists d.
  split; [by apply spared_under|reflexivity].
Qed.

(** The members that are not dropped survive, so the item does. *)
Lemma survives_members i' i :
  pruned true i' i ->
  (forall c, c ∈ members (item_inner i) -> ~ D c ->
     exists c', c' ∈ members (item_inner i') /\ survives c' c) ->
  survives i' i.
Proof.
  intros Hp Hc. split; [done|]. intros current y Hy.
  inversion Hy as [|? ? its ch ? Hi Hin HD Hrest]; subst.
  { exists i'. split; [constructor|done]. }
  rewrite <- (module_items_members _ _ Hi) in Hin.
  destruct (Hc ch Hin HD) as (c' & Hc' & _ & Hsp). destruct (Hsp _ _ Hrest) as (d & Hd & Hdd).
  exists d. split; [|done]. destruct (proj2 (pruned_module _ _ _ _ Hp) ltac:(by eexists)) as [its' Hi'].
  pose proof Hp as ((Hname & _) & _)%pruned_inv. rewrite <- Hname in Hd.
  eapply under_child; [exact Hi'| |exact Hd].
  by rewrite <- (module_items_members _ _ Hi').
Qed.

(** A folder that drops only [D]. *)
Class Sparing (F : Type) `{DocFolder F} := {
  override_spares : forall (recur : Item -> F -> outcome (option Item * F)) i s r s',
    (forall s r s', recur i s = Ret (r, s') -> exists i', r = Some i' /\ survives i' i /\
       is_stripped i' = is_stripped i) ->
    override recur i s = Ret (r, s') ->
    (~ D i -> is_Some r) /\ forall i', r = Some i' -> survives i' i
}.
End survive.

Section spares.
Context {F : Type} (D : Item -> Prop).

Lemma fold_items_survive (R : Item -> Item -> Prop) (f : Item -> F -> outcome (option Item * F)) l :
  (forall c s r s', c ∈ l -> f c s = Ret (r, s') -> (~ D c -> is_Some r) /\
     forall c', r = Some c' -> R c' c) ->
  forall s l' s', fold_items f l s = Ret (l', s') ->
  forall c, c ∈ l -> ~ D c -> exists c', c' ∈ l' /\ R c' c.
Proof.
  induction l as [|x l IH]; intros Hf s l' s' Hfold c Hc HD; [by apply not_elem_of_nil in Hc|].
  cbn in Hfold. destruct (f x s) as [[r s1]| |] eqn:Hx; cbn in Hfold; try done.
  destruct (fold_items f l s1) as [[l1 s2]| |] eqn:Hl; cbn in Hfold; try done.
  injection Hfold as <- <-. apply elem_of_cons in Hc as [->|Hc].
  - destruct (Hf x s r s1 ltac:(set_solver) Hx) as [Hs HR]. destruct (Hs HD) as [x' ->].
    exists x'. split; [cbn; set_solver|by apply HR].
  - destruct (IH ltac:(intros; eapply Hf; set_solver) s1 l1 s2 Hl c Hc HD) as (c' & Hc' & HR).
    exists c'. split; [set_solver|done].
Qed.

Lemma fold_item_recur_survives (R : Item -> Item -> Prop)
    (f : Item -> F -> outcome (option Item * F)) i s i' s' :
  (forall c s r s', c ∈ members (item_inner i) -> f c s = Ret (r, s') ->
     (~ D c -> is_Some r) /\ forall c', r = Some c' -> R c' c) ->
  fold_item_recur f i s = Ret (Some i', s') ->
  forall c, c ∈ members (item_inner i) -> ~ D c -> exists c', c' ∈ members (item_inner i') /\ R c' c.
Proof.
  intros Hf Hrec. assert (Hinner : forall e s e' s', stripped_enum e = false ->
    members e = members (item_inner i) -> fold_inner_recur f e s = Ret (e', s') ->
    forall c, c ∈ members (item_inner i) -> ~ D c -> exists c', c' ∈ members e' /\ R c' c).
  { intros e s0 e' s0' He Hm Hin. rewrite fold_inner_members, Hm in Hin by done.
    destruct (fold_items f (members (item_inner i)) s0) as [[l s1]| |] eqn:Hl; cbn in Hin; try done.
    injection Hin as <- <-. rewrite members_rebuild; [by eapply fold_items_survive|done|].
    intros Hnil. rewrite <- Hm, Hnil in Hl. cbn in Hl. by injection Hl as <- _. }
  unfold fold_item_recur in Hrec.
  destruct (stripped_enum (item_inner i)) eqn:Hs.
  - destruct (item_inner i) eqn:Hin; try done.
    match type of Hin with _ = StrippedItem ?e => rename e into inn end.
    assert (Hse : stripped_enum inn = false) by (destruct inn; cbn in Hrec; done).
    destruct (fold_inner_recur f inn s) as [[e1 s1]| |] eqn:He1; cbn in Hrec; try done.
    injection Hrec as <- <-. cbn [item_inner with_inner_enum members] in *. by eapply Hinner.
  - assert (Hr : (r ← fold_inner_recur f (item_inner i) s;
      mret (Some (with_inner_enum i r.1), r.2)) = Ret (Some i', s')) by (by destruct (item_inner i)).
    destruct (fold_inner_recur f (item_inner i) s) as [[e1 s1]| |] eqn:He1; cbn in Hr; try done.
    injection Hr as <- <-. by eapply Hinner.
Qed.

Lemma fold_item_spares `{Sparing D F} i : forall s r s',
  fold_item i s = Ret (r, s') -> (~ D i -> is_Some r) /\ forall i', r = Some i' -> survives D i' i.
Proof.
  induction i as [i IH] using item_members_ind. intros s r s'.
  rewrite fold_item_unfold. intros Hfold. refine (override_spares D _ _ _ _ _ _ Hfold).
  clear s r s' Hfold. intros s r s' Hrec.
  assert (Hk : forall c s r s', c ∈ members (item_inner i) -> fold_item c s = Ret (r, s') ->
    forall c', r = Some c' -> pruned true c' c).
  { intros c s0 r0 s0' Hc Hf c' Hc'. by apply (IH c Hc _ _ _ Hf). }
  destruct (fold_item_recur_kept _ _ _ _ _ _ Hk Hrec)
    as (i' & -> & Hh & Hs & Hk' & Hst).
  exists i'. split_and!; [done| |done]. apply survives_members.
  - constructor; [done|by left|done].
  - eapply fold_item_recur_survives; [|exact Hrec]. intros c s0 r0 s0' Hc Hf. by eapply IH.
Qed.
End spares.

(** ** What holds of every result of a fold *)
Lemma fold_item_results {F : Type} `{DocFolder F} (Q : Item -> Prop) :
  (forall (recur : Item -> F -> outcome (option Item * F)) i s i' s',
     (forall s r s', recur i s = Ret (r, s') -> exists i', r = Some i' /\ same_header i' i /\
        shape (item_inner i') = shape (item_inner i) /\
        forall c, c ∈ members (item_inner i') -> Q c) ->
     override recur i s = Ret (Some i', s') -> Q i') ->
  forall i s i' s', fold_item i s = Ret (Some i', s') -> Q i'.
Proof.
  intros Hover i. induction i as [i IH] using item_members_ind. intros s i' s'.
  rewrite fold_item_unfold. apply Hover. clear s i' s'. intros s r s' Hrec.
  assert (Hk : forall c s r s', c ∈ members (item_inner i) -> fold_item c s = Ret (r, s') ->
    forall c', r = Some c' -> Q c').
  { intros c s0 r0 s0' Hc Hf c' ->. by eapply IH. }
  destruct (fold_item_recur_kept (fun c' _ => Q c') _ _ _ _ _ Hk Hrec)
    as (i' & -> & Hh & Hs & Hkept & _).
  exists i'. split_and!; [done..|]. intros c Hc.
  by destruct (kept_elem _ _ _ _ Hkept Hc) as (? & _ & ?).
Qed.

(** ** The free functions of a crate

    [path] are the modules around the function, without the root. *)
Definition free_function (c : Crate) (path : list string) (d : Item) : Prop :=
  exists root items child f, krate_module c = Some root /\ module_items root = Some items /\
    child ∈ items /\ under ([], child) (path, d) /\ item_inner d = FunctionItem f.

Lemma free_function_under c path d root :
  krate_module c = Some root -> is_Some (module_items root) ->
  free_function c path d <->
  (exists f, item_inner d = FunctionItem f) /\
  under ([], root) (option_list (item_name root) ++ path, d).
Proof.
  intros Hr Hm. split.
  - intros (root0 & items & child & f & Hr0 & Hi & Hc & Hu & Hf). rewrite Hr in Hr0.
    injection Hr0 as <-. split; [by exists f|].
    destruct (under_shift _ _ Hu) as (p & Heq & Hall). cbn in Heq. subst p.
    eapply under_child; [exact Hi|exact Hc|apply Hall].
  - intros [[f Hf] Hu]. inversion Hu as [|? ? items child ? Hi Hc Hrest]; subst.
    { destruct Hm as [its (m & _ & [Hm|Hm])%module_items_inv]; congruence. }
    destruct (under_shift _ _ Hrest) as (p & Heq & Hall). cbn in Heq. apply app_inv_head in Heq as <-.
    exists root, items, child, f. split_and!; [done..| |done]. apply (Hall []).
Qed.

(** A crate whose root is a module. *)
Definition rooted (c : Crate) (root : Item) : Prop :=
  krate_module c = Some root /\ is_Some (module_items root).

Lemma shape_function e f : shape e = FunctionItem f <-> e = FunctionItem f.
Proof. destruct e; try done. by destruct v. Qed.

(** Pruning leaves a function as it is. *)
Lemma pruned_function wrap d' d f :
  pruned wrap d' d -> item_inner d' = FunctionItem f \/ item_inner d = FunctionItem f -> d' = d.
Proof.
  intros ((Hn & Ha & Hv & Hd & Hfile) & Hs & _)%pruned_inv Hf.
  assert (Hi : item_inner d' = item_inner d).
  { destruct Hf as [Hf|Hf]; rewrite Hf in Hs |- *.
    - destruct Hs as [Hs|(_ & _ & Hs)]; [|done]. symmetry in Hs. symmetry.
      by apply (shape_function _ f).
    - destruct Hs as [Hs|(_ & Hs & _)]; [|done]. by apply (shape_function _ f). }
  destruct d', d. cbn in *. congruence.
Qed.

Lemma pruned_functions wrap c' c path d :
  pruned_crate wrap c' c -> free_function c' path d -> free_function c path d.
Proof.
  intros Hp (root' & items' & child' & f & Hr & Hi & Hc & Hu & Hf).
  destruct (pc_module _ _ _ Hp _ Hr) as (root & Hr0 & Hpr).
  destruct (proj1 (pruned_module _ _ _ _ Hpr) ltac:(by eexists)) as [items Hi0].
  apply pruned_inv in Hpr as (_ & _ & Hk).
  rewrite (module_items_members _ _ Hi), (module_items_members _ _ Hi0) in Hk.
  destruct (kept_elem _ _ _ _ Hk Hc) as (child & Hc0 & Hcc).
  destruct (under_pruned _ _ _ _ _ _ Hcc Hu) as (d0 & Hd0 & Hpd). cbn in *.
  rewrite (pruned_function _ _ _ f Hpd) in * by (by left). by exists root, items, child, f.
Qed.

(** The functions after the fold of a crate. *)
Lemma fold_crate_functions {F : Type} (D : Item -> Prop) `{Sparing D F} `{HashOrder}
    c (s : F) c' s' root :
  rooted c root ->
  (forall z, under ([], root) z -> is_Some (module_items z.2) -> ~ D z.2) ->
  fold_crate c s = Ret (c', s') ->
  (exists root', rooted c' root' /\ survives D root' root) /\
  forall path d, free_function c path d -> ~ D d -> free_function c' path d.
Proof.
  intros [Hr Hm] HD. unfold fold_crate. rewrite Hr.
  destruct (fold_item root s) as [[r s1]| |] eqn:Hf; cbn [mbind outcome_bind]; try done.
  destruct (fold_loop fold_trait _ _) as [[traits s2]| |] eqn:Ht; cbn; try done.
  intros [= <- <-]. apply (fold_item_spares D) in Hf as [Hsome Hsurv].
  destruct Hsome as [root' ->]; [apply (HD ([], root)); [constructor|done]|].
  specialize (Hsurv _ eq_refl).
  assert (Hm' : is_Some (module_items root')) by (by apply (pruned_module _ _ _ _ (proj1 Hsurv))).
  split; [by exists root'|].
  intros path d Hfree Hnd. apply (free_function_under _ _ _ root Hr Hm) in Hfree as [[f Hfd] Hu].
  destruct (proj2 Hsurv [] _ (under_spared D _ _ Hu HD Hnd)) as (d' & Hd' & Hp). cbn in *.
  rewrite (pruned_function _ _ _ f Hp) in Hd' by (by right).
  apply (free_function_under _ _ _ root'); [done|done|]. split; [by exists f|].
  destruct (proj1 Hsurv) as [i' i (-> & _) _ _]. done.
Qed.
