(* ===== verification/DocPassesCorrect.v ===== *)
(** The passes over the documentation: how [collapse] groups the fragments, which
    documentation can be unindented, and that the two folders change nothing but the
    documentation. *)

From S2P Require Import Prelude RustStd TextLines CleanTypes CleanItems DocFold Pruning.
From S2P Require Import DocPasses CfgPass UnindentCorrect Passes PassesCorrect ItemTree.

(** ** The fragments of a documentation *)

(** The kind of a fragment, whether its first line has text, and its lines with text. *)
Definition profile : Type := DocFragmentKind * (bool * nat).
Definition profile_of (f : DocFragment) : profile :=
  (kind f, (text_first (doc_fragment_str f), texts (doc_fragment_str f))).

(** Neighbours of the same kind become one, except the included files. *)
Definition joins (p q : profile) : bool :=
  bool_decide (p.1 <> Include_) && bool_decide (p.1 = q.1).
Definition merge (p q : profile) : profile := (p.1, (p.2.1, p.2.2 + q.2.2)).
Fixpoint squash (ps : list profile) : list profile :=
  match ps with
  | [] => []
  | p :: ps =>
      match squash ps with
      | q :: qs => if joins p q then merge p q :: qs else p :: q :: qs
      | [] => [p]
      end
  end.

Lemma squash_head p ps : exists q qs, squash (p :: ps) = q :: qs /\ q.1 = p.1.
Proof.
  cbn. destruct (squash ps) as [|q qs]; [by eexists _, _|]. destruct (joins p q); by eexists _, _.
Qed.

Lemma squash_length ps : length (squash ps) <= length ps.
Proof.
  induction ps as [|p ps IH]; [done|]. cbn. destruct (squash ps) as [|q qs]; cbn in *; [lia|].
  destruct (joins p q); cbn; lia.
Qed.

Lemma squash_idem ps : squash (squash ps) = squash ps.
Proof.
  induction ps as [|p ps IH]; [done|]. cbn [squash].
  destruct (squash ps) as [|q qs] eqn:Hps; [done|]. destruct (joins p q) eqn:Hj.
  - assert (Hqs : match squash qs with
      | r :: rs => joins q r = false /\ r :: rs = qs | [] => qs = [] end).
    { cbn [squash] in IH. destruct (squash qs) as [|r rs] eqn:Hs.
      - by injection IH as <-.
      - destruct (joins q r) eqn:Hq; [|by injection IH as ->].
        exfalso. injection IH as _ <-. pose proof (squash_length rs) as Hlen.
        rewrite Hs in Hlen. cbn in Hlen. lia. }
    cbn [squash]. destruct (squash qs) as [|r rs]; [by subst|]. destruct Hqs as [Hqr ->].
    assert (joins (merge p q) r = false) as ->; [|done].
    unfold joins in *. cbn. apply andb_true_iff in Hj as [_ Hpq%bool_decide_eq_true].
    by rewrite Hpq.
  - change (squash (p :: q :: qs)) with (match squash (q :: qs) with
      | q :: qs => if joins p q then merge p q :: qs else p :: q :: qs | [] => [p] end).
    by rewrite IH, Hj.
Qed.

(** Joining the first two before or after the rest is the same. *)
Lemma squash_merge p q ps : joins p q = true -> squash (merge p q :: ps) = squash (p :: q :: ps).
Proof.
  intros Hj. cbn [squash]. assert (Hpq : p.1 = q.1).
  { by apply andb_true_iff in Hj as [_ ?%bool_decide_eq_true]. }
  assert (Hjr : forall r, joins (merge p q) r = joins q r).
  { intros r. unfold joins. cbn. by rewrite Hpq. }
  destruct (squash ps) as [|r rs]; [by rewrite Hj|]. rewrite Hjr.
  destruct (joins q r) eqn:Hqr; cbn.
  - assert (joins p (merge q r) = true) as -> by exact Hj.
    unfold merge. cbn. by rewrite Nat.add_assoc.
  - by rewrite Hj.
Qed.

Lemma squash_apart p q ps :
  joins p q = false -> squash (p :: q :: ps) = p :: squash (q :: ps).
Proof.
  intros Hj. change (squash (p :: q :: ps)) with (match squash (q :: ps) with
      | q :: qs => if joins p q then merge p q :: qs else p :: q :: qs | [] => [p] end).
  destruct (squash_head q ps) as (r & rs & -> & Hr).
  assert (joins p r = false) as ->; [|done]. unfold joins in *. by rewrite Hr.
Qed.

Lemma pad_profile f : profile_of (pad f) = profile_of f.
Proof. destruct f; unfold profile_of; cbn [pad kind doc_fragment_str]; by rewrite ?text_first_nl, ?texts_nl. Qed.

Definition fragment_utf8 (f : DocFragment) : Prop := str_utf8 (doc_fragment_str f).

Lemma nl_utf8 : str_utf8 nl.
Proof. done. Qed.

Lemma pad_utf8 f : fragment_utf8 f -> fragment_utf8 (pad f).
Proof. unfold fragment_utf8. destruct f; cbn; [|..|done]; intros Hs; by apply str_utf8_app. Qed.

Lemma append_returns f f' :
  joins (profile_of f) (profile_of f') = true -> fragment_utf8 f -> fragment_utf8 f' ->
  returns (append f f') (fun f2 =>
    profile_of f2 = merge (profile_of f) (profile_of f') /\ fragment_utf8 f2).
Proof.
  intros [Hk%bool_decide_eq_true _]%andb_true_iff Hf Hf'. unfold fragment_utf8 in *.
  destruct f; cbn in *; try done; (split;
    [unfold profile_of, merge; cbn [kind doc_fragment_str fst snd];
     by rewrite <- str_app_assoc, text_first_app, texts_app
    |apply str_utf8_app; [by apply str_utf8_app|done]]).
Qed.

Lemma collapse_step_some f docs g :
  collapse_step f (docs, Some g) =
  if joins (profile_of g) (profile_of f)
  then (g' ← append g f; mret (docs, Some g'))
  else mret (docs ++ [pad g], Some f).
Proof.
  unfold collapse_step, joins. cbn [profile_of fst].
  by destruct (decide (kind g = Include_)), (decide (kind g = kind f));
    repeat case_bool_decide.
Qed.

Lemma collapse_returns ds :
  Forall fragment_utf8 ds ->
  returns (collapse ds) (fun ds' =>
    List.map profile_of ds' = squash (List.map profile_of ds) /\ Forall fragment_utf8 ds').
Proof.
  intros Hu. unfold collapse.
  assert (Hloop : forall docs last, Forall fragment_utf8 (docs ++ option_list last) ->
    returns (fold_loop collapse_step ds (docs, last)) (fun st =>
      List.map profile_of (st.1 ++ option_list st.2) =
        List.map profile_of docs
          ++ squash (option_list (profile_of <$> last) ++ List.map profile_of ds) /\
      Forall fragment_utf8 (st.1 ++ option_list st.2))).
  { induction Hu as [|f ds Hf _ IH]; intros docs last Hd; cbn [fold_loop List.map].
    - apply returns_ret. cbn. rewrite List.map_app, app_nil_r. split; [|done]. by destruct last.
    - destruct last as [g|]; cbn [option_list from_option fmap option_fmap option_map] in *.
      2:{ apply IH. apply Forall_app. rewrite app_nil_r in Hd. split; [done|by constructor]. }
      apply Forall_app in Hd as [Hd Hg%(Forall_singleton fragment_utf8)].
      rewrite collapse_step_some. destruct (joins _ _) eqn:Hgf.
      + eapply returns_bind with (P := fun st => exists g', st = (docs, Some g') /\
            profile_of g' = merge (profile_of g) (profile_of f) /\ fragment_utf8 g').
        { eapply returns_bind; [by apply append_returns|]. intros g' Hg'. apply returns_ret.
          by exists g'. }
        intros ? (g' & -> & Hp & Hg'). eapply returns_mono.
        * apply IH. apply Forall_app. split; [done|by constructor].
        * intros st [Hst ?]. split; [|done]. rewrite Hst. cbn [fmap option_fmap option_map option_list from_option app].
          f_equal. rewrite Hp. by apply squash_merge.
      + cbn [mbind outcome_bind mret outcome_ret]. eapply returns_mono.
        * apply IH. rewrite <- app_assoc. apply Forall_app. split; [done|].
          constructor; [by apply pad_utf8|by constructor].
        * intros st [Hst ?]. split; [|done]. rewrite Hst, List.map_app, <- app_assoc. f_equal.
          symmetry. etrans; [by apply squash_apart|]. by rewrite <- pad_profile. }
  eapply returns_bind; [by apply (Hloop [] None)|]. intros st Hst. by apply returns_ret.
Qed.

(** ** Documentation that can be unindented

    Each fragment, and each one after they are collapsed, has text in its first line or one
    line of text at most. *)
Definition flat_profile (p : profile) : Prop := flat p.2.1 p.2.2.

Record docs_ok (ds : list DocFragment) : Prop := {
  dok_utf8 : Forall fragment_utf8 ds;
  dok_flat : Forall flat_profile (List.map profile_of ds);
  dok_collapsed : Forall flat_profile (squash (List.map profile_of ds))
}.

Lemma collapse_ok ds : docs_ok ds -> returns (collapse ds) docs_ok.
Proof.
  intros [Hu Hf Hc]. eapply returns_mono; [by apply collapse_returns|].
  intros ds' [Hp Hu']. split; [done|by rewrite Hp|by rewrite Hp, squash_idem].
Qed.

Lemma unindent_fragment_returns f :
  fragment_utf8 f -> flat_profile (profile_of f) ->
  returns (unindent_fragment f) (fun f' => profile_of f' = profile_of f /\ fragment_utf8 f').
Proof.
  unfold flat_profile, fragment_utf8. intros Hu Hf.
  destruct f as [line s|line s|line name s]; cbn in *;
    (eapply returns_bind; [by apply unindent_returns|]; intros s' (_ & Hu' & Ht & Hn);
     apply returns_ret; split; [|done]; unfold profile_of; cbn [kind doc_fragment_str];
     by rewrite Ht, Hn).
Qed.

Lemma unindent_ok ds : docs_ok ds -> returns (unindent_fragments ds) docs_ok.
Proof.
  intros [Hu Hf Hc]. unfold unindent_fragments. eapply returns_mono.
  - apply (map_loop_returns _ (fun f f' => profile_of f' = profile_of f /\ fragment_utf8 f')).
    intros f Hin. rewrite Forall_forall in Hu. apply unindent_fragment_returns; [by apply Hu|].
    rewrite Forall_forall in Hf. apply Hf, list_elem_of_In, in_map, list_elem_of_In, Hin.
  - intros ds' Hall.
    assert (Hp : List.map profile_of ds' = List.map profile_of ds /\ Forall fragment_utf8 ds').
    { clear -Hall. induction Hall as [|f f' ds ds' [Hp ?] _ [IH ?]]; [done|].
      cbn. rewrite Hp, IH. split; [done|by constructor]. }
    destruct Hp as [Hp Hu']. split; [done|by rewrite Hp..].
Qed.

(** ** Trees with another documentation *)

Inductive redocumented : Item -> Item -> Prop :=
| redocumented_item i' i :
    same_but_docs i' i -> shape (item_inner i') = shape (item_inner i) ->
    Forall2 redocumented (members (item_inner i')) (members (item_inner i)) ->
    redocumented i' i.

Lemma redocumented_inv i' i : redocumented i' i ->
  same_but_docs i' i /\ shape (item_inner i') = shape (item_inner i) /\
  Forall2 redocumented (members (item_inner i')) (members (item_inner i)).
Proof. by inversion 1. Qed.

Lemma Forall2_mono {A B} (R S : A -> B -> Prop) l' l :
  (forall x' x, x ∈ l -> R x' x -> S x' x) -> Forall2 R l' l -> Forall2 S l' l.
Proof. intros HRS. induction 1; constructor; [apply HRS; [set_solver|done]|set_solver]. Qed.

Lemma redocumented_sym i' i : redocumented i' i -> redocumented i i'.
Proof.
  revert i'. induction i as [i IH] using item_members_ind.
  intros i' (Hh & Hs & Hm)%redocumented_inv. constructor; [by symmetry|done|].
  apply Forall2_flip, (Forall2_mono redocumented); [|done]. intros x' x Hx. by apply IH.
Qed.

Lemma Forall2_kept {A} (R : A -> A -> Prop) l' l : Forall2 R l' l -> kept R l' l.
Proof. induction 1; by constructor. Qed.

(** Nothing is dropped, so that what holds of pruned trees holds of these. *)
Lemma redocumented_edited i' i : redocumented i' i -> edited false i' i.
Proof.
  revert i'. induction i as [i IH] using item_members_ind.
  intros i' (Hh & Hs & Hm)%redocumented_inv. constructor; [done|by left|].
  apply Forall2_kept in Hm. eapply kept_mono; [|exact Hm]. intros x' x Hx. by apply IH.
Qed.

Lemma redocumented_under current i' i y :
  redocumented i' i -> under (current, i) y ->
  exists d', under (current, i') (y.1, d') /\ redocumented d' y.2.
Proof.
  intros Hp Hu. remember (current, i) as x eqn:Hx. revert current i' i Hp Hx.
  induction Hu as [x|cur0 item items child y Hi Hc _ IH]; intros current i' i Hp ?; simplify_eq.
  { exists i'. split; [constructor|done]. }
  pose proof (redocumented_edited _ _ Hp) as He.
  destruct (proj2 (pruned_module _ _ _ _ He) ltac:(by eexists)) as [items' Hi'].
  apply redocumented_inv in Hp as ((Hname & _) & _ & Hk).
  rewrite (module_items_members _ _ Hi), (module_items_members _ _ Hi') in Hk.
  apply list_elem_of_lookup_1 in Hc as [j Hj].
  destruct (Forall2_lookup_r _ _ _ _ _ Hk Hj) as (c' & Hc' & Hcc).
  destruct (IH _ c' child Hcc eq_refl) as (d' & Hd' & Hdd). exists d'. split; [|done].
  rewrite <- Hname in Hd'. eapply under_child; [exact Hi'| |exact Hd'].
  by eapply list_elem_of_lookup_2.
Qed.

(** ** The folders *)

Definition documented_ok (d : Item) : Prop := docs_ok (doc_strings (item_attrs d)).

Definition with_attrs (i : Item) (attrs : ItemAttributes) : Item :=
  {| item_name := item_name i; item_attrs := attrs; item_inner := item_inner i;
     item_visibility := item_visibility i; item_def_id := item_def_id i;
     item_source := item_source i |}.

(** A folder that edits the documentation or the configuration of every item on the way
    down: with [edit] it goes below the item, and with [leave] it comes back. *)
Class Redocumenter (F : Type) `{DocFolder F} := {
  edit : ItemAttributes -> F -> outcome (ItemAttributes * F);
  leave : F -> F -> F;
  override_edits recur i s :
    override recur i s =
      (e ← edit (item_attrs i) s; r ← recur (with_attrs i e.1) e.2; mret (r.1, leave s r.2));
  edit_ok attrs s : docs_ok (doc_strings attrs) ->
    returns (edit attrs s) (fun e => docs_ok (doc_strings e.1) /\ other_attrs e.1 = other_attrs attrs)
}.

(** The folders of the documentation keep no state. *)
Definition edit_docs {F} (f : list DocFragment -> outcome (list DocFragment))
    (attrs : ItemAttributes) (s : F) : outcome (ItemAttributes * F) :=
  docs ← f (doc_strings attrs);
  mret (mk_ItemAttributes docs (other_attrs attrs) (cfg attrs) (inner_docs attrs), s).

Lemma edit_docs_ok {F} f attrs (s : F) :
  returns (f (doc_strings attrs)) docs_ok ->
  returns (edit_docs f attrs s) (fun e => docs_ok (doc_strings e.1) /\
    other_attrs e.1 = other_attrs attrs).
Proof. intros Hf. eapply returns_bind; [exact Hf|]. intros docs Hd. by apply returns_ret; split. Qed.

Lemma edit_docs_override {F} f (recur : Item -> F -> outcome (option Item * F)) i s :
  (docs ← f (doc_strings (item_attrs i)); recur (with_docs i docs) s) =
  (e ← edit_docs f (item_attrs i) s; r ← recur (with_attrs i e.1) e.2; mret (r.1, r.2)).
Proof.
  unfold edit_docs. destruct (f _) as [docs| |]; [|done..]. cbn [mbind outcome_bind mret outcome_ret].
  cbn [fst snd]. change (with_attrs i _) with (with_docs i docs).
  by destruct (recur (with_docs i docs) s) as [[? ?]| |].
Qed.

#[export] Instance Collapser_Redocumenter : Redocumenter Collapser.
Proof.
  refine {| edit := edit_docs collapse; leave := fun _ s => s |}.
  - intros recur i s. apply (edit_docs_override collapse).
  - intros attrs s Ha. by apply edit_docs_ok, collapse_ok.
Defined.
#[export] Instance CommentCleaner_Redocumenter : Redocumenter CommentCleaner.
Proof.
  refine {| edit := edit_docs unindent_fragments; leave := fun _ s => s |}.
  - intros recur i s. apply (edit_docs_override unindent_fragments).
  - intros attrs s Ha. by apply edit_docs_ok, unindent_ok.
Defined.

(** The configuration of the parent is put back. *)
#[export] Instance CfgPropagator_Redocumenter : Redocumenter CfgPropagator.
Proof.
  refine {| edit := fun attrs s =>
              let new_cfg := join_cfg (parent_cfg s) (cfg attrs) in
              mret (mk_ItemAttributes (doc_strings attrs) (other_attrs attrs) new_cfg (inner_docs attrs),
                    mk_CfgPropagator new_cfg);
            leave := fun s _ => mk_CfgPropagator (parent_cfg s) |}.
  - by intros recur i s.
  - intros attrs s Ha. by apply returns_ret; split.
Defined.

Section redocument.
Context {F : Type} `{Redocumenter F}.

(** The members that are done, before and after. *)
Definition edited_members (l l' : list Item) (_ : F) : Prop :=
  Forall2 redocumented l' l /\ Forall (all_below documented_ok) l'.

Lemma edited_members_snoc l l' c c' s s' :
  edited_members l l' s -> redocumented c' c -> all_below documented_ok c' ->
  edited_members (l ++ [c]) (l' ++ [c']) s'.
Proof.
  intros [H1 H2] Hc Hd. split.
  - apply Forall2_app; [done|]. constructor; [done|constructor].
  - apply Forall_app. split; [done|]. constructor; [done|constructor].
Qed.

Lemma fold_item_redocuments i : single_strip i -> all_below documented_ok i ->
  forall s, returns (fold_item i s) (fun r => exists i', r.1 = Some i' /\ redocumented i' i /\
    all_below documented_ok i').
Proof.
  induction i as [i IH] using item_members_ind. intros [Hi Hm] Hd s.
  apply all_below_unfold in Hd as [Hdi Hdm].
  rewrite fold_item_unfold, override_edits. eapply returns_bind; [by apply edit_ok|].
  intros [attrs s0] [Hdocs Hother]. cbn [fst snd] in *. eapply returns_bind.
  - apply (fold_item_recur_returns fold_item edited_members (with_attrs i attrs)); [done|by split|].
    intros l1 c l2 out s1 Hl Hout. cbn in Hl.
    assert (Hc : c ∈ members (item_inner i)) by (rewrite Hl; set_solver).
    eapply returns_mono; [by apply (IH c Hc); auto|]. intros [r s2] (c' & -> & Hcc & Hc').
    by eapply edited_members_snoc.
  - intros [r s1] (i' & -> & Hh & Hs & Hk1 & Hk2). apply returns_ret. exists i'. split_and!; [done| |].
    + constructor; [|exact Hs|exact Hk1]. destruct Hh as (? & Ha & ? & ? & ?). split_and!; try done.
      by rewrite Ha.
    + apply all_below_unfold. split; [|by apply Forall_forall].
      destruct Hh as (_ & Ha & _). unfold documented_ok. by rewrite Ha.
Qed.

End redocument.

(** ** Crates *)

(** The items of a crate, one by one: nothing is dropped, and the items at the top are
    related. *)
Section mapped.
Context (R : Item -> Item -> Prop).

Definition mapped_trait (t' t : Trait Item) : Prop :=
  shape (TraitItem t') = shape (TraitItem t) /\ Forall2 R (trait_items t') (trait_items t).

Record mapped_crate (c' c : Crate) : Prop := {
  rc_name : krate_name c' = krate_name c;
  rc_version : krate_version c' = krate_version c;
  rc_externs : krate_externs c' = krate_externs c;
  rc_primitives : krate_primitives c' = krate_primitives c;
  rc_masked : masked_crates c' = masked_crates c;
  rc_module : option_Forall2 R (krate_module c') (krate_module c);
  rc_traits k : option_Forall2 mapped_trait (external_traits c' !! k) (external_traits c !! k)
}.

(** A folder that maps every item to a related one, and keeps [I]. *)
Context {F : Type} `{DocFolder F} `{HashOrder} (P : Item -> Prop) (I : F -> Prop).
Context (Hfold : forall i s, P i -> I s ->
  returns (fold_item i s) (fun r => I r.2 /\ exists i', r.1 = Some i' /\ R i' i)).

Lemma fold_items_maps l s :
  Forall P l -> I s -> returns (fold_items fold_item l s) (fun r => I r.2 /\ Forall2 R r.1 l).
Proof using Hfold.
  intros Hl Hs.
  eapply returns_mono;
    [apply (fold_items_returns fold_item (fun l l' s => I s /\ Forall2 R l' l) l [] [] s); [by split|]|].
  - intros l1 c l2 out s1 -> [Hs1 Hout]. cbn [app] in *. rewrite Forall_app, Forall_cons in Hl.
    eapply returns_mono; [by apply (Hfold c s1); tauto|]. intros [r s2] (Hs2 & c' & -> & Hc).
    split; [done|]. apply Forall2_app; [done|]. by constructor.
  - intros r Hr. exact Hr.
Qed.

(** The traits that are done. *)
Definition mapped_traits (l : list (DefId * Trait Item)) (st : gmap DefId (Trait Item) * F)
    : Prop :=
  I st.2 /\ forall k, match st.1 !! k with
  | Some t' => exists t, (k, t) ∈ l /\ mapped_trait t' t
  | None => forall t, (k, t) ∉ l
  end.

Lemma fold_trait_maps pre k t st :
  Forall P (trait_items t) -> mapped_traits pre st ->
  returns (fold_trait (k, t) st) (mapped_traits (pre ++ [(k, t)])).
Proof using Hfold.
  intros HP [Hst Hpre]. unfold fold_trait. eapply returns_bind; [by apply fold_items_maps|].
  intros [l' s'] [Hs' Hl']. apply returns_ret. split; [done|]. intros k0. cbn [fst].
  destruct (decide (k = k0)) as [->|Hne].
  - rewrite lookup_insert_eq. exists t. split; [|by split].
    apply elem_of_app. right. by apply list_elem_of_singleton.
  - rewrite lookup_insert_ne by done. specialize (Hpre k0). destruct (st.1 !! k0) as [t'|].
    + destruct Hpre as (t0 & Hin & Ht). exists t0. split; [|done]. apply elem_of_app. by left.
    + intros t0 [Hin|[= Heq _]%list_elem_of_singleton]%elem_of_app; [by eapply Hpre|by subst].
Qed.

Lemma fold_crate_maps c s :
  (forall root, krate_module c = Some root -> P root) ->
  (forall k t i, external_traits c !! k = Some t -> i ∈ trait_items t -> P i) -> I s ->
  returns (fold_crate c s) (fun r => I r.2 /\ mapped_crate r.1 c).
Proof using Hfold.
  intros Hm Ht Hs. unfold fold_crate.
  eapply returns_bind with (P := fun r => I r.2 /\ option_Forall2 R r.1 (krate_module c)).
  { destruct (krate_module c) as [m|]; [|apply returns_ret; by split; [|constructor]].
    eapply returns_mono; [by apply Hfold; auto|].
    intros [r s1] (Hs1 & m' & -> & Hr). split; [done|by constructor]. }
  intros [m' s1] [Hs1 Hm1]. eapply returns_bind.
  - apply (fold_loop_returns _ mapped_traits).
    + split; [done|]. intros k. cbn. rewrite lookup_empty. intros t. apply not_elem_of_nil.
    + intros pre [k t] post st Hl Hpre.
      assert (Hk : external_traits c !! k = Some t).
      { apply (elem_of_map_order 11). rewrite Hl. apply elem_of_app. right. apply list_elem_of_here. }
      apply fold_trait_maps; [|done]. apply Forall_forall. intros i Hi. by eapply Ht.
  - intros [traits s2] [Hs2 Htr]. apply returns_ret. cbn [fst snd] in *. split; [done|].
    split; try done. cbn. intros k. specialize (Htr k). destruct (traits !! k) as [t'|].
    + destruct Htr as (t & Hin%elem_of_map_order & Ht'). rewrite Hin. by constructor.
    + destruct (external_traits c !! k) as [t|] eqn:Hk; [|constructor].
      by apply (elem_of_map_order 11), Htr in Hk.
Qed.
End mapped.

Lemma mapped_crate_mono (R S : Item -> Item -> Prop) c' c :
  (forall i' i, R i' i -> S i' i) -> mapped_crate R c' c -> mapped_crate S c' c.
Proof.
  intros HRS []. split; try done.
  - destruct rc_module0; constructor. auto.
  - intros k. destruct (rc_traits0 k) as [t' t [Hs Ht]|]; constructor. split; [done|].
    eapply Forall2_impl; [exact Ht|auto].
Qed.

Abbreviation redocumented_trait := (mapped_trait redocumented).
Abbreviation redocumented_crate := (mapped_crate redocumented).

(** The documentation of all the items of a crate. *)
Record crate_docs_ok (c : Crate) : Prop := {
  cd_module root : krate_module c = Some root -> all_below documented_ok root;
  cd_traits k t i : external_traits c !! k = Some t -> i ∈ trait_items t ->
    all_below documented_ok i
}.

Lemma fold_crate_redocuments {F : Type} `{Redocumenter F} `{HashOrder} c (s : F) :
  single_strip_crate c -> crate_docs_ok c ->
  returns (fold_crate c s) (fun r => redocumented_crate r.1 c /\ crate_docs_ok r.1).
Proof.
  intros [Hm Ht] [Hdm Hdt]. eapply returns_mono.
  - apply (fold_crate_maps (fun i' i => redocumented i' i /\ all_below documented_ok i')
      (fun i => single_strip i /\ all_below documented_ok i) (fun _ => True)); [|eauto..].
    intros i s1 [Hs Hd] _. eapply returns_mono; [by apply fold_item_redocuments|]. auto.
  - intros r [_ Hr]. split; [by eapply mapped_crate_mono; [|exact Hr]; intros ? ? [? _]|]. split.
    + intros root Hroot. pose proof (rc_module _ _ _ Hr) as Hmod. rewrite Hroot in Hmod.
      by inversion Hmod as [? ? [_ ?]|].
    + intros k t' i Hk Hi. pose proof (rc_traits _ _ _ Hr k) as Htr. rewrite Hk in Htr.
      inversion Htr as [? t [_ Hall] Heq Heq'|]; subst. apply list_elem_of_lookup_1 in Hi as [j Hj].
      by destruct (Forall2_lookup_l _ _ _ _ _ Hall Hj) as (? & _ & _ & ?).
Qed.
