(* ===== verification/Visitors.v ===== *)
(** Folders that only look at the items: they go through the items of a crate, each once,
    and leave the tree as it is. *)

From S2P Require Import Prelude RustStd CleanTypes CleanItems DocFold Pruning.
From S2P Require Import Passes PassesCorrect ItemTree UnindentCorrect DocPassesCorrect.

(** [visit] is what the folder does with an item before it goes on below it, if it does. *)
Class Visitor (F : Type) `{DocFolder F} := {
  visit : Item -> F -> outcome F;
  descends : Item -> bool;
  override_visits recur i s : override recur i s =
    (s ← visit i s; if descends i then recur i s else mret (Some i, s))
}.

(** What such a folder comes by. *)
Inductive seen (goes_on : Item -> bool) (i : Item) : Item -> Prop :=
| seen_here : seen goes_on i i
| seen_member c x :
    goes_on i = true -> c ∈ members (item_inner i) -> seen goes_on c x -> seen goes_on i x.

Lemma seen_below goes_on i x : seen goes_on i x -> below i x.
Proof. induction 1 as [|i c x _ Hc _ IH]; [constructor|]. by apply (below_member _ c). Qed.

Lemma below_seen goes_on i x : (forall d, goes_on d = true) -> below i x -> seen goes_on i x.
Proof.
  intros Hg. induction 1 as [|i c x Hc _ IH]; [constructor|]. by apply (seen_member _ _ c).
Qed.

(** The tree is the same, but for the marks that fields are stripped. *)
Definition unchanged (i' i : Item) : Prop := pruned false i' i /\ redocumented i' i.

Lemma unchanged_members i' i :
  same_header i' i -> shape (item_inner i') = shape (item_inner i) ->
  Forall2 unchanged (members (item_inner i')) (members (item_inner i)) -> unchanged i' i.
Proof.
  intros Hh Hs Hm. split; constructor.
  - done.
  - by left.
  - apply Forall2_kept. eapply Forall2_impl; [exact Hm|]. by intros ? ? [? _].
  - exact (header_same _ _ Hh).
  - done.
  - eapply Forall2_impl; [exact Hm|]. by intros ? ? [_ ?].
Qed.

Lemma unchanged_refl i : unchanged i i.
Proof.
  induction i as [i IH] using item_members_ind.
  apply unchanged_members; [done|done|].
  induction (members (item_inner i)) as [|c l IHl]; constructor; [|apply IHl; intros];
    apply IH; [apply list_elem_of_here|by apply list_elem_of_further].
Qed.

(** The items of a crate, and those that a folder comes by. *)
Definition in_crate_by (R : Item -> Item -> Prop) (c : Crate) (x : Item) : Prop :=
  (exists root, krate_module c = Some root /\ R root x) \/
  exists k t i, external_traits c !! k = Some t /\ i ∈ trait_items t /\ R i x.
Definition crate_item : Crate -> Item -> Prop := in_crate_by below.
Definition crate_seen (goes_on : Item -> bool) : Crate -> Item -> Prop :=
  in_crate_by (seen goes_on).

Lemma crate_seen_item goes_on c x : (forall d, goes_on d = true) ->
  crate_seen goes_on c x <-> crate_item c x.
Proof.
  intros Hg. pose proof (seen_below goes_on) as H1. pose proof (below_seen goes_on) as H2.
  split; (intros [(root & ? & ?)|(k & t & i & ? & ? & ?)]; [left; exists root|right; exists k, t, i]);
    split_and!; auto.
Qed.

Record unchanged_crate (c' c : Crate) : Prop := {
  uc_pruned : pruned_crate false c' c;
  uc_same : redocumented_crate c' c
}.

(** The crate that a fold puts together again. *)
Lemma visited_unchanged c m' traits :
  option_Forall2 unchanged m' (krate_module c) ->
  (forall k, option_Forall2 (fun t' t => shape (TraitItem t') = shape (TraitItem t) /\
     Forall2 unchanged (trait_items t') (trait_items t)) (traits !! k) (external_traits c !! k)) ->
  unchanged_crate (mk_Crate (krate_name c) (krate_version c) (krate_src c) m' (krate_externs c)
    (krate_primitives c) traits (masked_crates c)) c.
Proof.
  intros Hm Ht. split; split; try done; cbn.
  - intros root' ->. inversion Hm as [? root [Hp _] Heq Heq'|]; subst. by exists root.
  - intros k t' Hk. specialize (Ht k). rewrite Hk in Ht.
    inversion Ht as [? t [Hs Hall] Heq Heq'|]; subst. exists t. split; [done|]. split; [done|].
    apply Forall2_kept. eapply Forall2_impl; [exact Hall|]. by intros ? ? [? _].
  - destruct Hm as [? ? [_ ?]|]; by constructor.
  - intros k. destruct (Ht k) as [t' t [Hs Hall]|]; constructor. split; [done|].
    eapply Forall2_impl; [exact Hall|]. by intros ? ? [_ ?].
Qed.

(** *** In which order

    Each item once, in the order of the tree; the external traits in any order. *)
Inductive listed (goes_on : Item -> bool) (i : Item) : list Item -> Prop :=
| listed_alone : goes_on i = false -> listed goes_on i [i]
| listed_tree ls :
    goes_on i = true -> Forall2 (listed goes_on) (members (item_inner i)) ls ->
    listed goes_on i (i :: concat ls).

Definition crate_listed (goes_on : Item -> bool) (c : Crate) (l : list Item) : Prop :=
  exists lr entries lt,
    match krate_module c with Some root => listed goes_on root lr | None => lr = [] end /\
    entries ≡ₚ map_to_list (external_traits c) /\
    Forall2 (listed goes_on) (entries ≫= fun e => trait_items e.2) lt /\
    l = lr ++ concat lt.

(** The members of a list, when this holds of each. *)
Lemma listed_concat goes_on its ls x :
  (forall i, i ∈ its -> forall l, listed goes_on i l -> x ∈ l <-> seen goes_on i x) ->
  Forall2 (listed goes_on) its ls ->
  x ∈ concat ls <-> exists i, i ∈ its /\ seen goes_on i x.
Proof.
  intros Hl HF. induction HF as [|i l its ls Hi _ IH]; cbn; [set_solver|].
  rewrite elem_of_app, (Hl i (list_elem_of_here _ _) l Hi), IH.
  - setoid_rewrite elem_of_cons. naive_solver.
  - intros j Hj. apply Hl. by apply list_elem_of_further.
Qed.

Lemma listed_seen goes_on i x : forall l, listed goes_on i l -> x ∈ l <-> seen goes_on i x.
Proof.
  induction i as [i IH] using item_members_ind. intros l Hl.
  inversion Hl as [Hg|ls Hg HF]; subst.
  - rewrite list_elem_of_singleton. split; [intros ->; constructor|].
    intros Hx. inversion Hx; subst; [done|congruence].
  - rewrite elem_of_cons, (listed_concat goes_on _ ls x IH HF). split.
    + intros [->|(c & Hc & Hx)]; [constructor|by apply (seen_member _ _ c)].
    + intros Hx. inversion Hx as [|c ? _ Hc Hcx]; subst; [by left|right; by exists c].
Qed.

Lemma crate_listed_seen goes_on c l x :
  crate_listed goes_on c l -> x ∈ l <-> crate_seen goes_on c x.
Proof.
  intros (lr & es & lt & Hr & Hes & Ht & ->). unfold crate_seen, in_crate_by.
  rewrite elem_of_app, (listed_concat goes_on _ lt x (fun i _ => listed_seen goes_on i x) Ht).
  setoid_rewrite list_elem_of_bind. setoid_rewrite Hes. split.
  - intros [Hx|(i & ([k t] & Hi & Hk%elem_of_map_to_list) & Hx)]; [left|right; by exists k, t, i].
    destruct (krate_module c) as [root|]; [exists root; split; [done|exact (proj1 (listed_seen _ _ _ _ Hr) Hx)]|].
    subst lr. by apply not_elem_of_nil in Hx.
  - intros [(root & Hm & Hx)|(k & t & i & Hk & Hi & Hx)]; [left|right].
    + rewrite Hm in Hr. exact (proj2 (listed_seen _ _ _ _ Hr) Hx).
    + exists i. split; [exists (k, t); by rewrite elem_of_map_to_list|done].
Qed.

Section visit.
Context {F : Type} `{Visitor F}.

(** [J visited s]: the items that were visited, in order, and the state. *)
Context (J : list Item -> F -> Prop).
Context (HJ : forall pre i s, (forall e, item_inner i = StrippedItem e -> stripped_enum e = false) ->
  J pre s -> returns (visit i s) (J (pre ++ [i]))).

(** The members that are done, with what was visited below them. *)
Definition visited_members (pre done kept : list Item) (s : F) : Prop :=
  Forall2 unchanged kept done /\
  exists ls, Forall2 (listed descends) done ls /\ J (pre ++ concat ls) s.

Lemma visited_nil pre s : J pre s -> visited_members pre [] [] s.
Proof. split; [constructor|]. exists []. cbn. rewrite app_nil_r. by split. Qed.

Lemma visited_snoc pre done kept ls c c' l s' :
  Forall2 unchanged kept done -> Forall2 (listed descends) done ls ->
  unchanged c' c -> listed descends c l -> J ((pre ++ concat ls) ++ l) s' ->
  visited_members pre (done ++ [c]) (kept ++ [c']) s'.
Proof.
  intros Hk Hls Hc Hl Hs'. split; [by apply Forall2_app; auto|].
  exists (ls ++ [l]). split; [by apply Forall2_app; auto|].
  rewrite concat_app, app_assoc. cbn. by rewrite app_nil_r.
Qed.

Lemma fold_item_visits i : single_strip i -> forall pre s, J pre s ->
  returns (fold_item i s) (fun r => exists i' l, r.1 = Some i' /\ unchanged i' i /\
    listed descends i l /\ J (pre ++ l) r.2).
Proof using HJ.
  induction i as [i IH] using item_members_ind. intros [Hi Hm] pre s Hs.
  rewrite fold_item_unfold, override_visits. eapply returns_bind; [by apply HJ|].
  intros s1 Hs1. destruct (descends i) eqn:Hgo.
  2:{ apply returns_ret. exists i, [i].
      split_and!; [done|apply unchanged_refl|by apply listed_alone|done]. }
  eapply returns_mono.
  - apply (fold_item_recur_returns fold_item (visited_members (pre ++ [i])) i);
      [done|by apply visited_nil|].
    intros l1 c l2 out s2 Hl [Hk (ls & Hls & Hs2)].
    assert (Hc : c ∈ members (item_inner i)).
    { rewrite Hl. apply elem_of_app. right. apply list_elem_of_here. }
    eapply returns_mono; [by apply (IH c Hc); auto|]. intros [r s3] (c' & l & -> & Hcc & Hlc & Hs3).
    by eapply visited_snoc.
  - intros [r s2] (i' & -> & Hh & Hs' & Hk & ls & Hls & Hs2). exists i', (i :: concat ls).
    split_and!; [done|by apply unchanged_members|by apply listed_tree|by rewrite <- app_assoc in Hs2].
Qed.

Lemma fold_items_visit its : Forall single_strip its -> forall pre s, J pre s ->
  returns (fold_items fold_item its s) (fun r => visited_members pre its r.1 r.2).
Proof using HJ.
  intros Hss pre s Hs.
  apply (fold_items_returns fold_item (visited_members pre) its [] []); [by apply visited_nil|].
  intros l1 c l2 out s2 -> [Hk (ls & Hls & Hs2)]. rewrite Forall_app, Forall_cons in Hss.
  eapply returns_mono; [apply fold_item_visits; [tauto|exact Hs2]|].
  intros [r s3] (c' & l & -> & Hcc & Hlc & Hs3). by eapply visited_snoc.
Qed.

(** The traits that are done. *)
Definition visited_traits (pre : list Item) (done : list (DefId * Trait Item))
    (st : gmap DefId (Trait Item) * F) : Prop :=
  (forall k, match st.1 !! k with
   | Some t' => exists t, (k, t) ∈ done /\ shape (TraitItem t') = shape (TraitItem t) /\
       Forall2 unchanged (trait_items t') (trait_items t)
   | None => forall t, (k, t) ∉ done
   end) /\
  exists ls, Forall2 (listed descends) (done ≫= fun e => trait_items e.2) ls /\
    J (pre ++ concat ls) st.2.

Lemma fold_trait_visits pre done k t st :
  Forall single_strip (trait_items t) -> visited_traits pre done st ->
  returns (fold_trait (k, t) st) (visited_traits pre (done ++ [(k, t)])).
Proof using HJ.
  intros Hss [Hmap (ls & Hls & Hs)]. unfold fold_trait.
  eapply returns_bind; [by apply fold_items_visit|].
  intros [l' s'] [Hk (ls2 & Hls2 & Hs')]. apply returns_ret. split; cbn [fst snd] in *.
  - intros k0. destruct (decide (k = k0)) as [->|Hne].
    + rewrite lookup_insert_eq. exists t. split; [|done].
      apply elem_of_app. right. by apply list_elem_of_singleton.
    + rewrite lookup_insert_ne by done. specialize (Hmap k0). destruct (st.1 !! k0) as [t'|].
      * destruct Hmap as (t0 & Hin & Ht). exists t0. split; [|done]. apply elem_of_app. by left.
      * intros t0 [Hin|[= -> ->]%list_elem_of_singleton]%elem_of_app; [by apply (Hmap t0)|done].
  - exists (ls ++ ls2). rewrite concat_app, app_assoc. split; [|done].
    rewrite bind_app. cbn. rewrite app_nil_r. by apply Forall2_app.
Qed.

Lemma fold_crate_visits `{HashOrder} c s :
  single_strip_crate c -> J [] s ->
  returns (fold_crate c s) (fun r => unchanged_crate r.1 c /\
    exists l, crate_listed descends c l /\ J l r.2).
Proof using HJ.
  intros [Hm Ht] Hs. unfold fold_crate.
  eapply returns_bind with (P := fun r => option_Forall2 unchanged r.1 (krate_module c) /\
    exists l, match krate_module c with Some root => listed descends root l | None => l = [] end /\
      J l r.2).
  { destruct (krate_module c) as [m|].
    - eapply returns_mono; [by apply (fold_item_visits m (Hm m eq_refl) []); auto|].
      intros [r s1] (m' & l & -> & Hu & Hl & Hs1). split; [by constructor|]. by exists l.
    - apply returns_ret. split; [constructor|]. by exists []. }
  intros [m' s1] [Hm1 (l & Hl & Hs1)]. cbn [fst snd] in *. eapply returns_bind.
  - apply (fold_loop_returns _ (visited_traits l)).
    + split; [intros k; cbn; rewrite lookup_empty; set_solver|]. exists []. cbn.
      rewrite app_nil_r. by split.
    + intros pre [k t] post st Hl0 Hpre. apply fold_trait_visits; [|done].
      apply Forall_forall. intros i Hi. apply (Ht k t); [|done].
      apply (elem_of_map_order 11). rewrite Hl0. set_solver.
  - intros [traits s2] [Hmap (ls & Hls & Hs2)]. apply returns_ret. cbn [fst snd] in *.
    split; [|exists (l ++ concat ls); split; [by eexists l, _, ls; split_and!; [|apply map_order_perm|..]|done]].
    + apply visited_unchanged; [exact Hm1|]. intros k. specialize (Hmap k).
      destruct (traits !! k) as [t'|].
      * destruct Hmap as (t & Hin%elem_of_map_order & Hst & Hk). rewrite Hin. by constructor.
      * destruct (external_traits c !! k) as [t|] eqn:Hk; [|constructor].
        by apply (elem_of_map_order 11), Hmap in Hk.
Qed.
End visit.
