(* ===== verification/ItemSamples.v ===== *)
(** A small crate as the cleaning hands it over: a type with a method, a function, a
    function that is hidden from the documentation, and a private module with a function.
    It instantiates the theorems on crates. *)

From S2P Require Import Prelude RustStd MetaItems CleanTypes CleanItems DocFold Pruning Passes.
From S2P Require Import PassesCorrect ItemTree.

(** The type [c::T]. *)
Definition sample_did : DefId := mk_DefId 0 1.
Definition sample_source : Span := mk_Span (Real (Named "src/lib.rs")) 0.
Definition sample_type : Type_ :=
  ResolvedPath
    (mk_Path false (mk_Res 0) [mk_PathSegment "T" (AngleBracketed [] [])]) None sample_did false.

Definition no_attributes : ItemAttributes := mk_ItemAttributes [] [] None true.
Definition no_generics : Generics :=
  {| generics_params := []; generics_where_predicates := [] |}.
Definition sample_signature (ins : list Type_) (out : FnRetTy) : Function :=
  mk_Function
    (mk_FnDecl (mk_Arguments (List.map (fun t => mk_Argument t "self") ins)) out false
       (mk_Attributes 0))
    no_generics CleanTypes.Normal [] [].

(** [impl T { fn get(&self) -> u8 }]. *)
Definition sample_method : Item :=
  mk_Item (Some "get") no_attributes
    (MethodItem (sample_signature [BorrowedRef None Not (Generic "Self")]
      (Return_ (Primitive PrimitiveType.U8)))) Visibility.Inherited (mk_DefId 0 3) sample_source.
Definition sample_impl : Impl Item :=
  mk_Impl CleanTypes.Normal no_generics ∅ None sample_type [sample_method] None false None.
Definition sample_impl_item : Item :=
  mk_Item None no_attributes (ImplItem sample_impl) Visibility.Inherited (mk_DefId 0 2) sample_source.

Definition sample_struct : Item :=
  mk_Item (Some "T") no_attributes (StructItem (mk_Struct PlainStruct no_generics [] false))
    Visibility.Public sample_did sample_source.

Definition sample_fn (attrs : ItemAttributes) (name : string) (index : N) : Item :=
  mk_Item (Some name) attrs
    (FunctionItem (sample_signature [Primitive PrimitiveType.U16] (Return_ sample_type)))
    Visibility.Public (mk_DefId 0 index) sample_source.
Definition doc_hidden : ItemAttributes :=
  mk_ItemAttributes []
    [mk_Attribute (MetaItems.Normal ["doc"] (Some (MetaList [MetaItem_ (mk_word_item "hidden")]))) Outer]
    None true.

Definition sample_module (name : option string) (v : Visibility) (index : N)
    (its : list Item) : Item :=
  mk_Item name no_attributes (ModuleItem (mk_Module its false)) v (mk_DefId 0 index)
    sample_source.

Definition sample_free : Item := sample_fn no_attributes "f" 4.
Definition sample_internal : Item := sample_fn no_attributes "internal" 6.
Definition sample_hidden : Item := sample_fn doc_hidden "debug" 7.
Definition sample_private : Item :=
  sample_module (Some "m") Visibility.Inherited 5 [sample_internal].
Definition sample_root : Item :=
  sample_module None Visibility.Public 0
    [sample_struct; sample_impl_item; sample_free; sample_hidden; sample_private].

Definition sample_crate (name : string) : Crate :=
  mk_Crate name None (filename sample_source) (Some sample_root) [] [] ∅ ∅.
Definition sample_krate : Crate := sample_crate "c".

(** The compiler exports the type, its method and the public functions. *)
Definition sample_levels : AccessLevels :=
  list_to_map (List.map (fun i => (mk_DefId 0 i, Public)) [0; 1; 2; 3; 4; 7]%N).

(** ** Facts about it *)

Definition sample_items : list Item :=
  [sample_root; sample_struct; sample_impl_item; sample_method; sample_free; sample_hidden;
   sample_private; sample_internal].

(** The members of a list that is written out, one by one. *)
Ltac each H :=
  repeat (apply elem_of_cons in H as [->|H]); [..|by apply not_elem_of_nil in H].

Lemma sample_below P : (forall i, i ∈ sample_items -> P i) -> all_below P sample_root.
Proof.
  intros HP.
  repeat (apply all_below_unfold; split; [apply HP; unfold sample_items; set_solver|];
          cbn [item_inner members sample_root sample_module sample_struct sample_impl_item
            sample_impl sample_method sample_free sample_hidden sample_fn sample_private
            sample_internal items struct_fields module_items_];
          intros ? Hc; each Hc).
Qed.

Lemma sample_under (P : Item -> Prop) :
  (forall i, i ∈ sample_items -> P i) -> forall current y, under (current, sample_root) y -> P y.2.
Proof. intros HP current y Hu. apply (sample_below P HP). apply (under_below _ _ Hu). Qed.

Lemma sample_rooted name : rooted (sample_crate name) sample_root.
Proof. split; [done|by eexists]. Qed.

Lemma unstripped_single_strip i : all_below (fun d => is_stripped d = false) i -> single_strip i.
Proof.
  induction i as [i IH] using item_members_ind. intros [Hi Hm]%all_below_unfold. constructor.
  - intros e He. unfold is_stripped in Hi. by rewrite He in Hi.
  - intros c Hc. by apply IH, Hm.
Qed.

Lemma sample_unstripped : all_below (fun d => is_stripped d = false) sample_root.
Proof. apply sample_below. intros i Hi. unfold sample_items in Hi. each Hi; done. Qed.

Lemma sample_single_strip name : single_strip_crate (sample_crate name).
Proof.
  split; [|intros k t i Hk; cbn in Hk; by rewrite lookup_empty in Hk]. intros m [= <-].
  apply unstripped_single_strip, sample_unstripped.
Qed.

(** The functions of the root. *)
Lemma sample_function_in name attrs n index :
  sample_fn attrs n index ∈ members (item_inner sample_root) ->
  free_function (sample_crate name) [] (sample_fn attrs n index).
Proof.
  intros Hin. eexists _, _, _, _. split_and!; [done|done|exact Hin|constructor|done].
Qed.

Lemma sample_free_in name : free_function (sample_crate name) [] sample_free.
Proof.
  apply (sample_function_in name no_attributes "f" 4).
  do 2 apply list_elem_of_further. apply list_elem_of_here.
Qed.

Lemma sample_hidden_in name : free_function (sample_crate name) [] sample_hidden.
Proof.
  apply (sample_function_in name doc_hidden "debug" 7).
  do 3 apply list_elem_of_further. apply list_elem_of_here.
Qed.
