(* ===== verification/SourcesCorrect.v ===== *)
(** The pages with the source code: each local file of the crate is rendered once, until one
    of them cannot be read or written. *)

From S2P Require Import Prelude RustStd TextLines FileSystem MetaItems CleanTypes.
From S2P Require Import CleanItems DocFold Pruning Passes PassesCorrect ItemTree Visitors.
From S2P Require Import ItemSamples Sources.

(** ** Line numbers

    The width [digits] is that of the largest number, so that all the numbers fit. *)
Lemma digits_length x : forall fuel s, N.to_nat x <= fuel ->
  String.length (pretty_N_go x s) = digits fuel (N.to_nat x) + String.length s.
Proof.
  induction (N.lt_wf_0 x) as [x _ IH]. intros fuel s Hf. destruct (decide (x = 0%N)) as [->|Hx].
  - rewrite pretty_N_go_0. by destruct fuel.
  - rewrite pretty_N_go_step by lia. destruct fuel as [|fuel]; [lia|]. cbn [digits].
    destruct (Nat.ltb_spec 0 (N.to_nat x)); [|lia].
    assert (Hlt : (x / 10 < x)%N) by (apply N.div_lt; lia).
    assert (Hd : N.to_nat (x / 10) = N.to_nat x / 10) by by rewrite N2Nat.inj_div.
    assert (N.to_nat x / 10 < N.to_nat x) by (apply Nat.div_lt; lia).
    rewrite (IH _ Hlt fuel) by lia. rewrite Hd. cbn [String.length]. lia.
Qed.

Lemma digits_mono fuel m n : m <= n -> n <= fuel -> digits fuel m <= digits fuel n.
Proof.
  revert m n. induction fuel as [|fuel IH]; intros m n Hm Hn; [done|]. cbn [digits].
  destruct (Nat.ltb_spec 0 m), (Nat.ltb_spec 0 n); try lia.
  assert (n / 10 < n) by (apply Nat.div_lt; lia).
  assert (digits fuel (m / 10) <= digits fuel (n / 10)); [|lia].
  apply IH; [by apply Nat.Div0.div_le_mono|lia].
Qed.

Lemma line_numbers_fit i n : 0 < i -> i <= n -> String.length (usize_to_string i) <= digits n n.
Proof.
  intros Hi Hn. etrans; [|by apply digits_mono]. unfold usize_to_string.
  change (pretty i) with (pretty (N.of_nat i)). unfold pretty, pretty_N. rewrite decide_False by lia.
  rewrite (digits_length _ n) by lia. rewrite Nat2N.id. cbn. lia.
Qed.

Section pages.
Context (render_with_highlighting : string -> string) (layout_render : Page -> string -> string).
Context (read_to_string : string -> option string).
(** What can be read has a file name: it is no root and does not end in [..]. *)
Context (Hread : forall p contents, read_to_string p = Some contents ->
  is_Some (file_name (components p))).

#[local] Abbreviation emit_source := (emit_source render_with_highlighting layout_render read_to_string).
#[local] Abbreviation collect_item := (collect_item render_with_highlighting layout_render read_to_string).

#[local] Instance SourceCollector_Visitor :
  @Visitor SourceCollector
    (SourceCollector_DocFolder render_with_highlighting layout_render read_to_string).
Proof. by refine {| visit := collect_item; descends := fun _ => true |}. Defined.

(** The local file that an item comes from. *)
Definition source_of (i : Item) : option RealFileName :=
  match filename (item_source i) with
  | Real file => if N.eqb (cnum (item_source i)) 0 then Some file else None
  | _ => None
  end.

(** The output directory and the root of the sources do not change. *)
Context (out : path) (root : list Component) (Hout : out <> []).

Definition in_place (self : SourceCollector) : Prop := dst self = out /\ src_root (scx self) = root.

Definition comps (p : string) : list string := clean_path root (components p) false.

(** Where the page of a file goes, and the link to it. *)
Definition page_dir (p : string) : path := out ++ comps p.
Definition page_file (p : string) : path :=
  path_join (page_dir p) (default "" (file_name (components p)) +:+ ".html").
Definition page_href (p : string) : string :=
  foldl (fun href component => href +:+ component +:+ "/") "" (comps p)
    +:+ (default "" (file_name (components p)) +:+ ".html").
Definition page_text (file : RealFileName) (contents : string) : string :=
  layout_render
    (mk_Page ((default "" (file_name (components (local_path file))) +:+ ".html") +:+ " -- source")
       (foldl (fun root_path _ => root_path +:+ "../") "../../" (comps (local_path file)))
       ("Source to the Rust file `" +:+ file_name_to_string (Real file) +:+ "`."))
    (print_src render_with_highlighting (without_bom contents)).

Lemma page_place_spec self p : in_place self ->
  page_place self p = (page_dir p, foldl (fun root_path _ => root_path +:+ "../") "../../" (comps p),
    foldl (fun href component => href +:+ component +:+ "/") "" (comps p)).
Proof.
  intros [Hd Hr]. unfold page_place, page_dir, comps. rewrite Hd, Hr.
  enough (Hgen : forall cs d r h, foldl (fun '(cur, root_path, href) component =>
      (path_join cur component, root_path +:+ "../", href +:+ component +:+ "/")) (d, r, h) cs =
    (d ++ cs, foldl (fun root_path _ => root_path +:+ "../") r cs,
     foldl (fun href component => href +:+ component +:+ "/") h cs)) by apply Hgen.
  induction cs as [|c cs IH]; intros d r h; cbn [foldl]; [by rewrite app_nil_r|].
  rewrite IH. unfold path_join. by rewrite <- app_assoc.
Qed.

(** A file that cannot be read, or whose page cannot be written. *)
Definition blocked (fs : Fs) (file : RealFileName) : Prop :=
  read_to_string (local_path file) = None \/
  (exists n, is_file fs (take n (page_dir (local_path file))) = true) \/
  fs !! page_file (local_path file) = Some Dir.

Lemma blocked_grows fs fs' file : grows fs fs' -> blocked fs file -> blocked fs' file.
Proof. intros [Hf Hd] [?|[(n & ?)|?]]; [by left|right; left; exists n; auto|right; right; auto]. Qed.

(** The state after the items [l]: what was emitted, and when this stops. *)
Record emitted (l : list Item) (shared : SharedContext) : Prop := {
  rd_dirs : forall d, d ∈ created_dirs shared -> d = [] \/ scx_fs shared !! d = Some Dir;
  rd_links : forall k href, local_sources shared !! k = Some href ->
    exists i file, i ∈ l /\ source_of i = Some file /\ components (local_path file) = k /\
      href = page_href (local_path file);
  rd_pages : forall i file, i ∈ l -> source_of i = Some file ->
    is_Some (local_sources shared !! components (local_path file)) ->
    exists i' file' contents, i' ∈ l /\ source_of i' = Some file' /\
      page_file (local_path file') = page_file (local_path file) /\
      read_to_string (local_path file') = Some contents /\
      scx_fs shared !! page_file (local_path file) = Some (File (page_text file' contents))
}.

Record rendered (l : list Item) (shared : SharedContext) : Prop := {
  rd_emitted : emitted l shared;
  rd_all : include_sources shared = true -> forall i file, i ∈ l -> source_of i = Some file ->
    is_Some (local_sources shared !! components (local_path file));
  rd_stop : include_sources shared = false ->
    exists i file, i ∈ l /\ source_of i = Some file /\ blocked (scx_fs shared) file
}.

Definition collected (l : list Item) (self : SourceCollector) : Prop :=
  in_place self /\ rendered l (scx self).

(** *** Directories *)
Lemma ensure_dir_cases d shared :
  (forall d, d ∈ created_dirs shared -> d = [] \/ scx_fs shared !! d = Some Dir) -> d <> [] ->
  (exists shared', ensure_dir d shared = Some shared' /\ scx_fs shared' !! d = Some Dir /\
     src_root shared' = src_root shared /\ include_sources shared' = include_sources shared /\
     local_sources shared' = local_sources shared /\ grows (scx_fs shared) (scx_fs shared') /\
     (forall q c, scx_fs shared !! q = Some (File c) -> scx_fs shared' !! q = Some (File c)) /\
     (forall d, d ∈ created_dirs shared' -> d = [] \/ scx_fs shared' !! d = Some Dir)) \/
  (ensure_dir d shared = None /\ exists n, is_file (scx_fs shared) (take n d) = true).
Proof.
  intros Hdirs Hd. unfold ensure_dir. destruct (decide (d ∈ created_dirs shared)) as [Hin|Hin].
  - left. exists shared. destruct (Hdirs d Hin) as [?|?]; [done|]. by split_and!.
  - assert (Hblocked : (forall fs', create_dir_all (scx_fs shared) d <> Ret fs') ->
      exists n, is_file (scx_fs shared) (take n d) = true).
    { intros Hno. destruct (create_dir_all_blocked (scx_fs shared) d) as [(fs' & Hc)|(n & _ & Hn)];
        [by destruct (Hno fs')|by exists n]. }
    destruct (create_dir_all (scx_fs shared) d) as [fs'| |] eqn:Hc;
      [|right; split; [done|by apply Hblocked]..].
    left. cbn. destruct (create_dir_all_keeps _ _ _ Hc) as (H1 & H2 & H3).
    eexists. split; [done|]. cbn. split_and!; [by apply H3|done..|by eapply create_dir_all_grows|done|].
    intros d' [->%elem_of_singleton|Hd']%elem_of_union; [right; by apply H3|].
    destruct (Hdirs d' Hd') as [?|?]; [by left|right; by apply H2].
Qed.

(** *** One item *)

(** More items, without their pages. *)
Lemma emitted_more l l' shared : emitted l shared -> emitted (l ++ l') shared.
Proof.
  intros [H1 H2 H3]. split; [done|..].
  - intros k href Hk. destruct (H2 k href Hk) as (i & file & Hi & Hrest). exists i, file.
    split; [apply elem_of_app; by left|done].
  - intros i file _ Hs [href Hl].
    destruct (H2 _ _ Hl) as (i0 & file0 & Hi0 & Hs0 & Hc0 & _).
    destruct (H3 i0 file0 Hi0 Hs0) as (i' & file' & contents & Hi' & Hs' & Hp & Hrest).
    { rewrite Hc0. by eexists. }
    assert (Heq : page_file (local_path file0) = page_file (local_path file)).
    { unfold page_file, page_dir, comps. by rewrite Hc0. }
    exists i', file', contents. rewrite Heq in Hp, Hrest. split; [apply elem_of_app; by left|done].
Qed.

(** Another file system, in which the pages are still there. *)
Lemma emitted_same l shared shared' :
  local_sources shared' = local_sources shared ->
  (forall d, d ∈ created_dirs shared' -> d = [] \/ scx_fs shared' !! d = Some Dir) ->
  (forall q c, scx_fs shared !! q = Some (File c) -> scx_fs shared' !! q = Some (File c)) ->
  emitted l shared -> emitted l shared'.
Proof.
  intros Hl Hd Hf [H1 H2 H3]. split; [done|by rewrite Hl|]. rewrite Hl. intros i file Hi Hs Hin.
  destruct (H3 i file Hi Hs Hin) as (i' & file' & contents & ? & ? & ? & ? & Hp).
  exists i', file', contents. split_and!; [done..|by apply Hf].
Qed.

(** A new page. *)
Lemma emitted_page l shared i file contents :
  emitted l shared -> source_of i = Some file -> read_to_string (local_path file) = Some contents ->
  grows (scx_fs shared) (<[page_file (local_path file) := File (page_text file contents)]> (scx_fs shared)) ->
  emitted (l ++ [i]) (mk_SharedContext (src_root shared) (include_sources shared)
    (<[components (local_path file) := page_href (local_path file)]> (local_sources shared))
    (created_dirs shared)
    (<[page_file (local_path file) := File (page_text file contents)]> (scx_fs shared))).
Proof.
  intros Hem%(emitted_more l [i]) Hs Hr Hg. destruct Hem as [H1 H2 H3]. split; cbn.
  - intros d Hd. destruct (H1 d Hd) as [?|?]; [by left|right; by apply Hg].
  - intros k href Hk. apply lookup_insert_Some in Hk as [[<- <-]|[_ Hk]]; [|by apply H2].
    exists i, file. split_and!; [|done..]. apply elem_of_app. right. apply list_elem_of_here.
  - intros i' file' Hi' Hs' Hin.
    destruct (decide (page_file (local_path file') = page_file (local_path file))) as [Heq|Hne].
    + exists i, file, contents. rewrite Heq, lookup_insert_eq. split_and!; [|done..].
      apply elem_of_app. right. apply list_elem_of_here.
    + rewrite lookup_insert_ne by done. apply (H3 i' file' Hi' Hs').
      rewrite lookup_insert_ne in Hin; [done|]. intros Heq. apply Hne.
      unfold page_file, page_dir, comps. by rewrite Heq.
Qed.

Lemma rendered_stop l i file shared :
  emitted l shared -> source_of i = Some file -> blocked (scx_fs shared) file ->
  include_sources shared = false -> rendered (l ++ [i]) shared.
Proof.
  intros Hem Hs Hb Hinc. split; [by apply emitted_more|by rewrite Hinc|]. intros _. exists i, file.
  split_and!; [|done..]. apply elem_of_app. right. apply list_elem_of_here.
Qed.

Lemma rendered_go_on l i shared :
  rendered l shared ->
  (forall file, source_of i = Some file -> include_sources shared = true ->
     is_Some (local_sources shared !! components (local_path file))) ->
  rendered (l ++ [i]) shared.
Proof.
  intros [H1 H2 H3] Hi. split; [by apply emitted_more|..].
  - intros Hinc i' file [Hi'| ->%list_elem_of_singleton]%elem_of_app Hs; [by eapply H2|by apply Hi].
  - intros Hinc. destruct (H3 Hinc) as (i' & file & Hi' & Hrest). exists i', file.
    split; [apply elem_of_app; by left|done].
Qed.

Lemma page_dir_nonempty p : page_dir p <> [].
Proof using Hout. unfold page_dir. by destruct out. Qed.

Lemma page_file_parent p : take (length (page_file p) - 1) (page_file p) = page_dir p.
Proof.
  unfold page_file, path_join. rewrite length_app. cbn [length]. by rewrite Nat.add_sub, take_app_length.
Qed.

Lemma emit_source_returns l i file self :
  source_of i = Some file -> include_sources (scx self) = true -> collected l self ->
  returns (emit_source (Real file) self) (fun r => collected (l ++ [i]) (with_include_sources r.1 r.2)).
Proof using Hread Hout.
  intros Hs Hinc [Hplace Hren]. unfold Sources.emit_source. cbn zeta.
  destruct (decide (is_Some (local_sources (scx self) !! components (local_path file)))) as [Hin|Hin].
  { apply returns_ret. split; [done|]. cbn [fst snd].
    assert (with_include_sources self true = self) as ->.
    { unfold with_include_sources. rewrite <- Hinc. by destruct self as [[]]. }
    apply rendered_go_on; [done|]. intros file' Hs' _. by simplify_eq. }
  destruct (read_to_string (local_path file)) as [contents|] eqn:Hr.
  2:{ apply returns_ret. split; [done|]. apply (rendered_stop _ _ file); [|done|by left|done].
      apply (emitted_same _ (scx self)); [done|apply Hren|done|apply Hren]. }
  rewrite page_place_spec by done. cbn beta iota zeta.
  destruct (ensure_dir_cases (page_dir (local_path file)) (scx self)) as
    [(shared & -> & Hdir & Hroot & Hinc' & Hls & Hg & Hfs & Hdirs)|[-> Hblocked]];
    [apply Hren|apply page_dir_nonempty| |].
  2:{ apply returns_ret. split; [done|]. apply (rendered_stop _ _ file); [|done|by right; left|done].
      apply (emitted_same _ (scx self)); [done|apply Hren|done|apply Hren]. }
  destruct (Hread _ _ Hr) as [fname Hfname]. rewrite Hfname. cbn [unwrap mbind outcome_bind].
  assert (Hpf : path_join (page_dir (local_path file)) (fname +:+ ".html") = page_file (local_path file)).
  { unfold page_file. by rewrite Hfname. }
  rewrite Hpf.
  assert (Hem : emitted l shared) by (apply (emitted_same _ (scx self)); [done..|apply Hren]).
  match goal with |- context [write_file _ _ ?v] => assert (Hv : v = page_text file contents) end.
  { unfold page_text. by rewrite Hfname. }
  rewrite Hv. destruct (write_file_cases (scx_fs shared) (page_file (local_path file)) (page_text file contents))
    as [[-> Hg']|[-> Hno]]; cbn [io_result].
  - apply returns_ret. split; [split; [apply Hplace|by destruct Hplace as [_ <-]]|]. cbn [fst snd].
    assert (Hhref : page_href (local_path file) =
      foldl (fun href component => href +:+ component +:+ "/") "" (comps (local_path file)) +:+ (fname +:+ ".html")).
    { unfold page_href. by rewrite Hfname. }
    rewrite <- Hhref. pose proof (emitted_page l shared i file contents Hem Hs Hr Hg') as Hnew.
    unfold with_include_sources. cbn. split; cbn.
    + by destruct Hnew.
    + intros _ i' file' [Hi'| ->%list_elem_of_singleton]%elem_of_app Hs'.
      * apply lookup_insert_is_Some'. right. rewrite Hls. by eapply (rd_all _ _ Hren).
      * simplify_eq. by rewrite lookup_insert_eq.
    + done.
  - apply returns_ret. split; [split; [apply Hplace|by destruct Hplace as [_ <-]]|].
    apply (rendered_stop _ _ file); [|done| |done].
    + by apply (emitted_same _ shared); [|apply Hem|..].
    + right. right. cbn. destruct Hno as [?|Hno]; [done|]. by rewrite page_file_parent in Hno.
Qed.

Lemma collect_item_returns l i self :
  collected l self -> returns (collect_item i self) (collected (l ++ [i])).
Proof using Hread Hout.
  intros Hc. unfold Sources.collect_item.
  destruct (include_sources (scx self)) eqn:Hinc; cbn [andb].
  2:{ apply returns_ret. destruct Hc as [Hp Hr]. split; [done|]. apply rendered_go_on; [done|]. congruence. }
  destruct (is_real (filename (item_source i)) && N.eqb (cnum (item_source i)) 0) eqn:Hs.
  - apply andb_true_iff in Hs as [Hf Hl]. destruct (filename (item_source i)) as [file| | | | | | | | |] eqn:Hfile;
      try done. eapply returns_bind; [apply (emit_source_returns l i file); [|done..]|].
    + unfold source_of. by rewrite Hfile, Hl.
    + intros r Hr. by apply returns_ret.
  - apply returns_ret. destruct Hc as [Hp Hr]. split; [done|]. apply rendered_go_on; [done|].
    intros file Hsrc. unfold source_of in Hsrc. exfalso.
    destruct (filename (item_source i)); try done. by destruct (N.eqb (cnum (item_source i)) 0).
Qed.
(** *** What changes in the file system *)

(** The part of the tree that the output directory [d] may have changed. *)
Definition changes (d : path) (fs fs' : Fs) : Prop :=
  (fs_wf fs -> framed d fs fs') /\ grows fs fs'.

Lemma changes_refl d fs : changes d fs fs.
Proof. split; [by apply framed_refl|done]. Qed.

Lemma changes_trans d fs1 fs2 fs3 : changes d fs1 fs2 -> changes d fs2 fs3 -> changes d fs1 fs3.
Proof.
  intros [Hf1 Hg1] [Hf2 Hg2]. split; [|by etrans]. intros Hwf. specialize (Hf1 Hwf).
  eapply framed_trans; [exact Hf1|apply Hf2, Hf1].
Qed.

Lemma ensure_dir_changes d q shared shared' :
  d <> [] -> d `prefix_of` q -> ensure_dir q shared = Some shared' ->
  changes d (scx_fs shared) (scx_fs shared').
Proof.
  intros Hd Hq. unfold ensure_dir. destruct (decide _); [intros [= <-]; apply changes_refl|].
  destruct (create_dir_all (scx_fs shared) q) as [fs'| |] eqn:Hc; [|done..].
  intros [= <-]. split; cbn; [|by eapply create_dir_all_grows].
  intros Hwf. by eapply create_dir_all_framed.
Qed.

Lemma ensure_dir_files d shared shared' q :
  ensure_dir d shared = Some shared' -> is_file (scx_fs shared') q = true ->
  is_file (scx_fs shared) q = true.
Proof.
  unfold ensure_dir. destruct (decide _); [by intros [= <-]|].
  destruct (create_dir_all (scx_fs shared) d) as [fs'| |] eqn:Hc; [|done..].
  intros [= <-]. by apply (create_dir_all_files _ _ _ _ Hc).
Qed.

Lemma page_place_prefix self p : dst self `prefix_of` (page_place self p).1.1.
Proof.
  unfold page_place. enough (Hgen : forall cs x, x.1.1 `prefix_of` (foldl (fun '(cur, root_path, href) component =>
      (path_join cur component, root_path +:+ "../", href +:+ component +:+ "/")) x cs).1.1)
    by apply (Hgen _ (_, _, _)).
  induction cs as [|c cs IH]; intros [[cur r] h]; cbn [foldl]; [done|].
  etrans; [|apply IH]. by apply prefix_app_r.
Qed.

Lemma emit_source_changes d f self r :
  d <> [] -> d `prefix_of` dst self -> emit_source f self = Ret r ->
  changes d (scx_fs (scx self)) (scx_fs (scx r.1)).
Proof.
  intros Hd Hdst. unfold Sources.emit_source. destruct f; try (intros [= <-]; apply changes_refl).
  cbn zeta. destruct (decide _); [intros [= <-]; apply changes_refl|].
  destruct (read_to_string _) as [contents|]; [|intros [= <-]; apply changes_refl].
  destruct (page_place self (local_path name)) as [[cur root_path] href] eqn:Hplace.
  assert (Hcur : d `prefix_of` cur).
  { apply (f_equal (fun x => x.1.1)) in Hplace. cbn [fst] in Hplace. rewrite <- Hplace.
    etrans; [exact Hdst|apply page_place_prefix]. }
  destruct (ensure_dir cur (scx self)) as [shared|] eqn:He; [|intros [= <-]; apply changes_refl].
  apply (ensure_dir_changes d) in He; [|done..].
  destruct (file_name (components (local_path name))) as [fname|]; [|done].
  cbn [unwrap mbind outcome_bind].
  match goal with |- context [write_file ?fs ?p ?v] =>
    destruct (write_file_cases fs p v) as [[Hw Hg]|[Hw _]]; rewrite Hw; cbn [io_result] end;
    intros [= <-]; cbn [fst scx scx_fs]; [|done].
  eapply changes_trans; [exact He|]. split; [|done]. intros Hwf.
  eapply write_file_framed; [done|done| |exact Hw]. by apply prefix_app_r.
Qed.

Lemma collect_item_changes d i self self' :
  d <> [] -> d `prefix_of` dst self -> collect_item i self = Ret self' ->
  changes d (scx_fs (scx self)) (scx_fs (scx self')).
Proof.
  intros Hd Hdst. unfold Sources.collect_item. destruct (_ && _); [|intros [= <-]; apply changes_refl].
  destruct (emit_source _ self) as [r| |] eqn:He; [|done..]. intros [= <-].
  by apply (emit_source_changes d) in He.
Qed.

Lemma collect_item_all d fs0 l i self :
  d <> [] -> d `prefix_of` out -> collected l self /\ changes d fs0 (scx_fs (scx self)) ->
  returns (collect_item i self)
    (fun self' => collected (l ++ [i]) self' /\ changes d fs0 (scx_fs (scx self'))).
Proof using Hread Hout.
  intros Hd Hpre [Hc Hch]. pose proof (collect_item_returns l i self Hc) as Hr.
  destruct (collect_item i self) as [self'| |] eqn:He; [|done..]. split; [done|].
  eapply changes_trans; [exact Hch|]. eapply collect_item_changes; [done| |exact He].
  destruct Hc as [[-> _] _]. done.
Qed.

(** *** The crate *)
Lemma render_returns `{HashOrder} output shared c :
  out = path_join (path_join output "src") (krate_name c) -> src_root shared = root ->
  single_strip_crate c -> output <> [] ->
  (forall d, d ∈ created_dirs shared -> d = [] \/ scx_fs shared !! d = Some Dir) ->
  include_sources shared = true -> local_sources shared = ∅ ->
  returns (render render_with_highlighting layout_render read_to_string output shared c) (fun r =>
    match r with
    | None => exists n, is_file (scx_fs shared) (take n out) = true
    | Some (c', shared') => unchanged_crate c' c /\
        changes output (scx_fs shared) (scx_fs shared') /\
        exists l, crate_listed (fun _ => true) c l /\ rendered l shared'
    end).
Proof using Hread Hout.
  intros Ho Hroot Hc Hne Hdirs Hinc Hls. unfold render. rewrite <- Ho.
  assert (Hpre : output `prefix_of` out).
  { rewrite Ho. unfold path_join. rewrite <- app_assoc. by apply prefix_app_r. }
  destruct (ensure_dir_cases out shared Hdirs Hout) as
    [(shared' & He & Hdir & Hroot' & Hinc' & Hls' & _ & _ & Hdirs')|[-> Hb]]; [|by apply returns_ret].
  rewrite He. apply (ensure_dir_changes output) in He; [|done..].
  eapply returns_bind.
  - apply (@fold_crate_visits SourceCollector _ SourceCollector_Visitor
      (fun l self => collected l self /\ changes output (scx_fs shared) (scx_fs (scx self)))); [|done|].
    + intros pre i s _ Hs. by apply collect_item_all.
    + split; [|done]. split; [split; [done|by rewrite <- Hroot, <- Hroot']|]. cbn. split; [split|..].
      * done.
      * intros k href Hk. rewrite Hls', Hls in Hk. by rewrite lookup_empty in Hk.
      * by intros i file ?%not_elem_of_nil.
      * by intros _ i file ?%not_elem_of_nil.
      * rewrite Hinc', Hinc. done.
  - intros [c' self] (Hu & l & Hl & [[_ Hr] Hch]). apply returns_ret. split; [done|]. split; [done|].
    by exists l.
Qed.
End pages.

(** ** Properties *)

(** C25: the source pages of a crate. Rendering never panics on a crate in which nothing is
    stripped twice, and ends with an error only when a file is in the way of the directory of
    the pages. Files and directories stay what they are, and nothing is written outside of the
    output directory. The items of the crate stay as they are, and each is visited once.
    The links that it records are those of local files of the items; the page of a linked
    file holds its text, or that of a file with the same page. Unless the rendering was
    switched off every local file is linked, and it is switched off only when a local file
    could not be read, or its page not be written. *)
Theorem source_pages_are_rendered `{HashOrder} (render_with_highlighting : string -> string)
    (layout_render : Page -> string -> string) (read_to_string : string -> option string)
    (output : path) (shared : SharedContext) (c : Crate)
    (Hread : forall p contents, read_to_string p = Some contents -> is_Some (file_name (components p)))
    (Hc : single_strip_crate c) (Houtput : output <> [])
    (Hdirs : forall d, d ∈ created_dirs shared -> d = [] \/ scx_fs shared !! d = Some Dir)
    (Hnew : include_sources shared = true /\ local_sources shared = ∅) :
  let out := path_join (path_join output "src") (krate_name c) in
  returns (render render_with_highlighting layout_render read_to_string output shared c) (fun r =>
    match r with
    | None => exists n, is_file (scx_fs shared) (take n out) = true
    | Some (c', shared') => unchanged_crate c' c /\
        changes output (scx_fs shared) (scx_fs shared') /\
        exists l, crate_listed (fun _ => true) c l /\
          rendered render_with_highlighting layout_render read_to_string out (src_root shared) l shared'
    end).
Proof.
  intros out. by apply (render_returns _ _ _ Hread _ _ (join_nonempty _ _)); [..|apply Hnew|apply Hnew].
Qed.

Definition sample_read (p : string) : option string :=
  if String.eqb p "src/lib.rs" then Some "pub fn f() {}" else None.
Lemma sample_read_ok p contents :
  sample_read p = Some contents -> is_Some (file_name (components p)).
Proof.
  unfold sample_read. destruct (String.eqb_spec p "src/lib.rs") as [->|]; [|done].
  intros _. by eexists.
Qed.

Definition sample_shared : SharedContext := mk_SharedContext (components "src") true ∅ ∅ ∅.

(** The only source file of the sample crate gets a page. *)
Lemma source_pages_are_rendered_witness :
  exists c' shared' l,
    render (H := canonical_order) (fun s => s) (fun _ s => s) sample_read ["doc"] sample_shared
      (sample_crate "c") = Ret (Some (c', shared')) /\
    local_sources shared' = {[components "src/lib.rs" := "lib.rs.html"]} /\
    is_file (scx_fs shared') ["doc"; "src"; "c"; "lib.rs.html"] = true /\
    crate_listed (fun _ => true) (sample_crate "c") l /\
    forall i file, i ∈ l -> source_of i = Some file ->
      is_Some (local_sources shared' !! components (local_path file)).
Proof.
  assert (Hrun : exists c' shared',
    render (H := canonical_order) (fun s => s) (fun _ s => s) sample_read ["doc"] sample_shared
      (sample_crate "c") = Ret (Some (c', shared')) /\
    local_sources shared' = {[components "src/lib.rs" := "lib.rs.html"]} /\
    is_file (scx_fs shared') ["doc"; "src"; "c"; "lib.rs.html"] = true /\
    include_sources shared' = true).
  { eexists _, _. split_and!; vm_compute; reflexivity. }
  destruct Hrun as (c' & shared' & Hrun & Hls & Hpage & Hinc).
  pose proof (source_pages_are_rendered (H := canonical_order) (fun s => s) (fun _ s => s) sample_read
    ["doc"] sample_shared (sample_crate "c") sample_read_ok (sample_single_strip "c")
    ltac:(done)
    (fun d Hd => False_ind _ (not_elem_of_empty d Hd)) (conj eq_refl eq_refl)) as Hr.
  cbv zeta in Hr. rewrite Hrun in Hr. destruct Hr as (_ & _ & l & Hl & Hren).
  exists c', shared', l. split_and!; [exact Hrun|exact Hls|exact Hpage|exact Hl|].
  exact (rd_all _ _ _ _ _ _ _ Hren Hinc).
Defined.

(** ** Pages that collide

    [..] becomes [up]: a file outside of the root and one in a directory of this name have the
    same page. *)
Lemma pages_can_collide (out : path) :
  components "../a.rs" <> components "up/a.rs" /\
  page_file out (components "src") "../a.rs" = page_file out (components "src") "up/a.rs".
Proof. by split. Qed.

(** Otherwise the files below the root have pages of their own. *)
Definition plain_components (cs : list Component) : Prop :=
  Forall (fun c => exists name, c = Component.Normal name /\ name <> "up") cs.

Lemma clean_plain cs : plain_components cs ->
  List.map Component.Normal (omap (fun c => match c with
    | Component.ParentDir => Some "up" | Component.Normal c => Some c | _ => None end) cs) = cs.
Proof. induction 1 as [|c cs (name & -> & _) _ IH]; [done|]. cbn. by f_equal. Qed.

Lemma strip_prefix_app base cs : strip_prefix (base ++ cs) base = Some cs.
Proof. induction base as [|b base IH]; [by destruct cs|]. cbn. by rewrite decide_True by done. Qed.

Lemma page_file_below out root p cs name :
  components p = root ++ cs ++ [Component.Normal name] ->
  page_file out root p = out ++ omap (fun c => match c with
    | Component.ParentDir => Some "up" | Component.Normal c => Some c | _ => None end) cs
    ++ [name +:+ ".html"].
Proof.
  intros Hp. unfold page_file, path_join, page_dir, comps, clean_path, file_name.
  assert (Hs : strip_prefix (components p) root = Some (cs ++ [Component.Normal name])).
  { by rewrite Hp, strip_prefix_app. }
  assert (Hl : last (components p) = Some (Component.Normal name)) by (by rewrite Hp, app_assoc, last_snoc).
  rewrite Hs, Hl. unfold default, from_option, id. rewrite length_app. cbn [length].
  rewrite Nat.add_sub, take_app_length. by rewrite <- app_assoc.
Qed.

Lemma pages_are_distinct out root p1 p2 cs1 cs2 name1 name2 :
  components p1 = root ++ cs1 ++ [Component.Normal name1] ->
  components p2 = root ++ cs2 ++ [Component.Normal name2] ->
  plain_components cs1 -> plain_components cs2 ->
  page_file out root p1 = page_file out root p2 -> components p1 = components p2.
Proof.
  intros H1 H2 Hc1 Hc2. rewrite (page_file_below _ _ _ _ _ H1), (page_file_below _ _ _ _ _ H2).
  intros [Heq Hname]%app_inv_head%app_inj_tail. rewrite H1, H2.
  rewrite <- (clean_plain cs1 Hc1), <- (clean_plain cs2 Hc2), Heq.
  apply str_app_inj_r in Hname. by subst.
Qed.
