(* ===== verification/CoverageCorrect.v ===== *)
(** The count of the documented items: the pass leaves the crate as it is, each item that
    can be documented is counted once in its file, and the rows add up to the total. *)

From S2P Require Import Prelude RustStd TextLines MetaItems CleanTypes CleanItems.
From S2P Require Import DocFold Pruning DocPasses DocCoverage PassesCorrect ItemTree UnindentCorrect.
From S2P Require Import DocPassesCorrect Visitors ItemSamples.
Import ItemCount.

(** ** The names of the files *)

Lemma char_offset_spec n s : n < char_count s ->
  exists k, char_offset n s = Some k /\ k <= String.length s /\
    inside_char (str_drop k s) = false /\ char_count (str_drop k s) = char_count s - n.
Proof.
  revert n. induction s as [|c s IH]; intros n Hn; [cbn in Hn; lia|].
  cbn [char_count char_offset] in *. destruct (inside_char (String c s)) eqn:Hc.
  - destruct (IH n) as (k & Hk & Hle & Hin & Hcount); [lia|].
    exists (S k). rewrite Hk. cbn. split_and!; [done|lia|done|done].
  - destruct n as [|n].
    + exists 0. cbn [str_drop String.length]. split_and!; [done|lia|done|]. cbn [char_count].
      rewrite Hc. lia.
    + destruct (IH n) as (k & Hk & Hle & Hin & Hcount); [lia|].
      exists (S k). rewrite Hk. cbn [fmap option_fmap option_map str_drop String.length].
      split_and!; [done|lia|done|lia].
Qed.

(** A name has at most 35 characters in the table: a longer one is cut at the front. *)
Lemma limit_filename_len_returns f :
  returns (limit_filename_len f) (fun name => char_count name <= 35 /\
    (char_count f <= 35 -> name = f) /\
    (35 < char_count f -> exists k, name = "..." +:+ str_drop k f /\
       char_count (str_drop k f) = 32)).
Proof.
  unfold limit_filename_len. destruct (Nat.ltb_spec 35 (char_count f)) as [Hlt|Hle].
  - destruct (char_offset_spec (char_count f - 32) f) as (k & -> & Hk & Hin & Hc); [lia|].
    cbn [from_option id]. unfold str_slice_from. rewrite Hin. apply Nat.leb_le in Hk. rewrite Hk.
    cbn [andb negb mbind outcome_bind]. apply returns_ret.
    replace (char_count f - (char_count f - 32)) with 32 in Hc by lia.
    split_and!; [|lia|intros _; by exists k]. cbn [String.append char_count]. rewrite Hc. vm_compute. lia.
  - apply returns_ret. split_and!; [lia|done|lia].
Qed.

(** ** What is counted *)

Definition is_counted (i : Item) : bool :=
  negb (is_passed_over i) && match item_inner i with ImplItem _ => false | _ => true end.
Definition has_docs (i : Item) : bool := negb (bool_decide (doc_strings (item_attrs i) = [])).
Definition in_file (f : FileName) (i : Item) : bool := bool_decide (filename (item_source i) = f).

(** The count of some items. *)
Definition count_of (l : list Item) : ItemCount :=
  mk_ItemCount (length l) (length (List.filter has_docs l)).

(** The counted items of a file. *)
Definition counted_in (f : FileName) (l : list Item) : list Item :=
  List.filter (in_file f) (List.filter is_counted l).

#[export] Instance CoverageCalculator_Visitor : Visitor CoverageCalculator.
Proof.
  refine {| visit := fun i self => mret (if is_counted i then count_in_file i self else self);
            descends := fun i => negb (is_passed_over i) |}.
  intros recur i s. change (override recur i s) with (coverage_fold_item recur i s).
  unfold coverage_fold_item, is_counted.
  destruct (is_passed_over i); [done|]. by destruct (item_inner i).
Defined.

(** The map after the visit of the items [l]. *)
Definition counts (l : list Item) (self : CoverageCalculator) : Prop :=
  forall f, file_items self !! f =
    match counted_in f l with [] => None | l => Some (count_of l) end.

Lemma count_of_snoc l i : count_of (l ++ [i]) = count_item (has_docs i) (count_of l).
Proof.
  unfold count_of, count_item. rewrite List.filter_app, !length_app. cbn.
  destruct (has_docs i); cbn; f_equal; lia.
Qed.

Lemma counted_in_snoc f l i : counted_in f (l ++ [i]) =
  counted_in f l ++ (if is_counted i && in_file f i then [i] else []).
Proof.
  unfold counted_in. rewrite !List.filter_app. cbn. destruct (is_counted i); cbn; [|done].
  by destruct (in_file f i).
Qed.

Lemma counts_snoc pre i self : counts pre self ->
  counts (pre ++ [i]) (if is_counted i then count_in_file i self else self).
Proof.
  intros Hs f. rewrite counted_in_snoc. destruct (is_counted i); cbn [andb]; [|by rewrite app_nil_r].
  unfold count_in_file, in_file. cbn [file_items].
  destruct (bool_decide_reflect (filename (item_source i) = f)) as [Hf|Hf].
  - rewrite Hf, lookup_insert_eq, Hs.
    assert (Hne : forall l, match l ++ [i] with [] => None | l' => Some (count_of l') end =
      Some (count_of (l ++ [i]))) by (by intros []).
    rewrite Hne, count_of_snoc. f_equal. unfold has_docs. by destruct (counted_in f pre).
  - by rewrite lookup_insert_ne, app_nil_r by done.
Qed.

Lemma coverage_visits `{HashOrder} c : single_strip_crate c ->
  returns (fold_crate c (mk_CoverageCalculator ∅)) (fun r => unchanged_crate r.1 c /\
    exists l, crate_listed (fun i => negb (is_passed_over i)) c l /\ counts l r.2).
Proof.
  intros Hc. eapply returns_mono; [apply (fold_crate_visits counts); [|exact Hc|]|].
  - intros pre i s _ Hs. apply returns_ret. by apply counts_snoc.
  - intros f. apply lookup_empty.
  - intros r Hr. exact Hr.
Qed.

(** ** The table *)

(** The values of a function with their indices sum up over the keys. *)
Lemma sum_by_key {A K} `{EqDecision K} (key : A -> K) (ks : list K) (l : list A) :
  NoDup ks -> (forall x, x ∈ l -> key x ∈ ks) ->
  sum_list_with (fun k => length (List.filter (fun x => bool_decide (key x = k)) l)) ks = length l.
Proof.
  intros Hnd. induction l as [|x l IH]; intros Hin; cbn.
  - clear. induction ks as [|k ks IH]; cbn; [done|]. exact IH.
  - rewrite <- IH by (intros y Hy; apply Hin; by apply list_elem_of_further).
    assert (Hx : key x ∈ ks) by (apply Hin, list_elem_of_here). clear IH Hin.
    induction Hnd as [|k ks Hk Hnd IH]; [by apply not_elem_of_nil in Hx|]. cbn.
    case_bool_decide as Heq; cbn.
    + subst k. f_equal. f_equal. clear -Hk. induction ks as [|k ks IH]; cbn; [done|].
      apply not_elem_of_cons in Hk as [Hk Hks]. rewrite bool_decide_false by done. by rewrite IH.
    + apply elem_of_cons in Hx as [?|Hx]; [done|]. rewrite IH by done. lia.
Qed.

Lemma filter_comm {A} (p q : A -> bool) (l : list A) :
  List.filter p (List.filter q l) = List.filter q (List.filter p l).
Proof.
  induction l as [|x l IH]; cbn; [done|].
  destruct (p x) eqn:Hp, (q x) eqn:Hq; cbn; rewrite ?Hp, ?Hq; by rewrite ?IH.
Qed.

(** The row of a file. *)
Definition row_of (l : list Item) (f : FileName) (row : Row) : Prop :=
  limit_filename_len (file_name_to_string f) = Ret (row_name row) /\
  row_count row = count_of (counted_in f l) /\
  row_percentage row = (with_docs (row_count row) * 100, total (row_count row)).

(** The rows that are done, and their sum. *)
Definition rows_done (l : list Item) (done : list (FileName * ItemCount)) (st : list Row * ItemCount)
    : Prop :=
  Forall2 (row_of l) (List.map fst done) st.1 /\
  total st.2 = sum_list_with (fun e => total e.2) done /\
  with_docs st.2 = sum_list_with (fun e => with_docs e.2) done.

Lemma counts_entry l self f n : counts l self -> file_items self !! f = Some n ->
  n = count_of (counted_in f l) /\ counted_in f l <> [].
Proof. intros Hs. rewrite Hs. destruct (counted_in f l) eqn:Hl; [done|]. by intros [= <-]. Qed.

Lemma table_row_returns l self done f n st :
  counts l self -> file_items self !! f = Some n -> rows_done l done st ->
  returns (table_row (f, n) st) (rows_done l (done ++ [(f, n)])).
Proof.
  intros Hs [Hn Hne]%(counts_entry l) (Hrows & Ht & Hd); [|done]. unfold table_row, percentage.
  assert ((0 <? total n) = true) as -> by (rewrite Hn; by destruct (counted_in f l)).
  destruct (limit_filename_len (file_name_to_string f)) as [name| |] eqn:Hf;
    [|by pose proof (limit_filename_len_returns (file_name_to_string f)) as Hr; rewrite Hf in Hr..].
  cbn [mbind outcome_bind]. apply returns_ret. split_and!; cbn [fst snd add_assign total with_docs].
  - rewrite fmap_app. apply Forall2_app; [done|]. constructor; [|constructor]. by split_and!.
  - rewrite sum_list_with_app, Ht. cbn. lia.
  - rewrite sum_list_with_app, Hd. cbn. lia.
Qed.

(** What is printed for the visited items [l]. *)
Definition printed_for (output_format : option OutputFormat) (l : list Item) (p : Printed) : Prop :=
  let counted := List.filter is_counted l in
  match p with
  | PrintedJson m => output_format = Some Json /\
      (forall name n, m !! name = Some n -> exists f, file_name_to_string f = name /\
         counted_in f l <> [] /\ n = count_of (counted_in f l)) /\
      (forall f, counted_in f l <> [] -> is_Some (m !! file_name_to_string f))
  | PrintedTable rows row => output_format <> Some Json /\
      (exists files, NoDup files /\
         (forall f, f ∈ files <-> exists i, i ∈ counted /\ filename (item_source i) = f) /\
         Forall2 (row_of l) files rows) /\
      row_count row = count_of counted
  end.

Lemma elem_of_counted_in f l i :
  i ∈ counted_in f l <-> i ∈ List.filter is_counted l /\ filename (item_source i) = f.
Proof.
  unfold counted_in. rewrite !list_elem_of_In, (filter_In (in_file f)).
  unfold in_file. by rewrite bool_decide_eq_true.
Qed.

(** The entries of the map in some order: the files that hold counted items, each once. *)
Section entries.
Context (l : list Item) (self : CoverageCalculator) (es : list (FileName * ItemCount)).
Context (Hs : counts l self) (Hes : es ≡ₚ map_to_list (file_items self)).

Lemma entry_count f n : (f, n) ∈ es -> file_items self !! f = Some n.
Proof using Hes. rewrite Hes. apply elem_of_map_to_list. Qed.

Lemma entries_nodup : NoDup (fst <$> es).
Proof using Hes. rewrite Hes. apply NoDup_fst_map_to_list. Qed.

Lemma entries_files f :
  f ∈ fst <$> es <-> exists i, i ∈ List.filter is_counted l /\ filename (item_source i) = f.
Proof using Hs Hes.
  rewrite list_elem_of_fmap. split.
  - intros ([f' n] & -> & [_ Hne]%entry_count%(counts_entry l)); [|exact Hs]. cbn.
    destruct (counted_in f' l) as [|i l'] eqn:Hc; [done|]. exists i.
    apply elem_of_counted_in. rewrite Hc. apply list_elem_of_here.
  - intros (i & Hi%elem_of_counted_in). exists (f, count_of (counted_in f l)). split; [done|].
    rewrite Hes. apply elem_of_map_to_list. rewrite Hs.
    destruct (counted_in f l); [by apply not_elem_of_nil in Hi|done].
Qed.

(** A sum over the files is the sum over the counted items. *)
Lemma entries_sum (p : Item -> bool) (num : ItemCount -> nat) :
  (forall l, num (count_of l) = length (List.filter p l)) ->
  sum_list_with (fun e => num e.2) es = length (List.filter p (List.filter is_counted l)).
Proof using Hs Hes.
  intros Hnum. rewrite <- (sum_by_key (fun i => filename (item_source i)) (fst <$> es)).
  - assert (Hall : forall f n, (f, n) ∈ es -> n = count_of (counted_in f l)).
    { intros f n Hn%entry_count. by apply (counts_entry l self) in Hn as [-> _]. }
    clear Hes. induction es as [|[f n] es' IH]; cbn; [done|].
    rewrite IH by (intros f' n' Hn; apply Hall; by apply list_elem_of_further). f_equal.
    rewrite (Hall f n (list_elem_of_here _ _)), Hnum. unfold counted_in.
    by rewrite filter_comm.
  - exact entries_nodup.
  - intros i Hi. apply entries_files. exists i. split; [|done].
    rewrite list_elem_of_In in Hi |- *. by apply filter_In in Hi as [Hi _].
Qed.
End entries.

(** The map by texts. *)
Lemma to_json_spec `{HashOrder} l self : counts l self ->
  printed_for (Some Json) l (PrintedJson (to_json self)).
Proof.
  intros Hs. split; [done|]. unfold to_json. set (es := map_order 14 (file_items self)).
  assert (Hes : es ≡ₚ map_to_list (file_items self)) by apply map_order_perm.
  assert (Hgen : forall (es' : list (FileName * ItemCount)) (m : gmap string ItemCount) name, (forall n,
    foldl (fun m e => <[file_name_to_string e.1 := e.2]> m) m es' !! name = Some n ->
    (exists f, file_name_to_string f = name /\ (f, n) ∈ es') \/ m !! name = Some n) /\
    ((exists f n, file_name_to_string f = name /\ (f, n) ∈ es') \/ is_Some (m !! name) ->
     is_Some (foldl (fun m e => <[file_name_to_string e.1 := e.2]> m) m es' !! name))).
  { induction es' as [|[f n] es' IH]; intros m name; cbn [foldl fst snd].
    - split; [by right|]. by intros [(f & n & _ & ?%not_elem_of_nil)|?].
    - destruct (IH (<[file_name_to_string f:=n]> m) name) as [IH1 IH2]. split.
      + intros n' [(f' & Hf' & Hin)|Hm]%IH1; [left; exists f'; split; [done|by right]|].
        apply lookup_insert_Some in Hm as [[<- <-]|[_ Hm]]; [left; exists f; split; [done|by left]|by right].
      + intros Hin. apply IH2. rewrite lookup_insert_is_Some'.
        destruct Hin as [(f' & n' & Hf' & [[= -> ->]|Hin]%elem_of_cons)|?];
          [right; by left|left; by exists f', n'|right; by right]. }
  split.
  - intros name n Hn. destruct (proj1 (Hgen es ∅ name) n Hn) as [(f & Hf & Hin)|Hm]; [|done].
    exists f. split; [done|]. apply (entry_count self es Hes) in Hin.
    by apply (counts_entry l self) in Hin as [-> ?].
  - intros f Hf. apply (proj2 (Hgen es ∅ _)). left. exists f, (count_of (counted_in f l)).
    split; [done|]. rewrite Hes. apply elem_of_map_to_list. rewrite Hs.
    by destruct (counted_in f l).
Qed.

Lemma print_results_returns `{HashOrder} output_format l self :
  counts l self -> returns (print_results output_format self) (printed_for output_format l).
Proof.
  intros Hs. unfold print_results. set (es := map_order 14 (file_items self)).
  assert (Hes : es ≡ₚ map_to_list (file_items self)) by apply map_order_perm.
  assert (Htable : returns (st ← fold_loop table_row es ([], no_items);
    mret (PrintedTable st.1 (mk_Row "Total" st.2 (default (0, 1) (percentage st.2)))))
    (fun p => output_format <> Some Json -> printed_for output_format l p)).
  { eapply returns_bind.
    - apply (fold_loop_returns _ (rows_done l)); [by split_and!|].
      intros pre [f n] post st Hpre Hst. eapply table_row_returns; [exact Hs| |exact Hst].
      apply (entry_count _ es Hes). rewrite Hpre. apply elem_of_app. right. apply list_elem_of_here.
    - intros st (Hrows & Ht & Hd). apply returns_ret. intros Hf. cbn [printed_for row_count].
      split_and!; [done| |].
      + exists (fst <$> es). split_and!; [by eapply entries_nodup|by eapply entries_files|exact Hrows].
      + rewrite (entries_sum l self es Hs Hes has_docs with_docs) in Hd by done.
        rewrite (entries_sum l self es Hs Hes (fun _ => true) total) in Ht
          by (intros; cbn; by rewrite List.filter_true).
        rewrite List.filter_true in Ht. destruct st.2. cbn in *. unfold count_of. by subst. }
  destruct output_format as [[]|].
  - apply returns_ret. by apply to_json_spec.
  - eapply returns_mono; [exact Htable|]. intros p Hp. by apply Hp.
  - eapply returns_mono; [exact Htable|]. intros p Hp. by apply Hp.
Qed.

Lemma coverage_returns `{HashOrder} output_format c : single_strip_crate c ->
  returns (calculate_doc_coverage output_format c) (fun r => unchanged_crate r.1 c /\
    exists l, crate_listed (fun i => negb (is_passed_over i)) c l /\
      printed_for output_format l r.2).
Proof.
  intros Hc. unfold calculate_doc_coverage. eapply returns_bind; [by apply coverage_visits|].
  intros [c' self] (Hu & l & Hl & Hs). eapply returns_bind; [by apply print_results_returns|].
  intros p Hp. apply returns_ret. split; [done|]. by exists l.
Qed.

(** C24: [calculate_doc_coverage] never panics on a crate in which nothing is stripped twice,
    and leaves the items of the crate as they are. It goes through each item of the crate
    once, except below the items that are passed over. The table has one row for every file
    with an item that is counted, under its name shortened to 35 characters, with the number
    of these items in the file and of those with documentation; the last row has the same
    numbers for the whole crate. In the JSON format the same counts are given by the texts
    of the file names, those of one file for each text. *)
Theorem documented_items_are_counted `{HashOrder} (output_format : option OutputFormat)
    (c : Crate) (Hc : single_strip_crate c) :
  returns (calculate_doc_coverage output_format c) (fun r => unchanged_crate r.1 c /\
    exists l, crate_listed (fun i => negb (is_passed_over i)) c l /\
      printed_for output_format l r.2).
Proof. by apply coverage_returns. Qed.

(** Seven items are counted in the sample crate. *)
Lemma documented_items_are_counted_witness :
  exists l, crate_listed (fun i => negb (is_passed_over i)) (sample_crate "c") l /\
    length (List.filter is_counted l) = 7.
Proof.
  assert (Hc : exists c' rows, calculate_doc_coverage (H := canonical_order) None (sample_crate "c")
    = Ret (c', PrintedTable rows (mk_Row "Total" (mk_ItemCount 7 0) (0, 7))))
    by (eexists _, _; vm_compute; reflexivity).
  destruct Hc as (c' & rows & Hc).
  pose proof (documented_items_are_counted (H := canonical_order) None (sample_crate "c")
    (sample_single_strip "c")) as Hr.
  rewrite Hc in Hr. destruct Hr as [_ (l & Hl & _ & _ & Hp)]. exists l. split; [exact Hl|].
  injection Hp as Hp _. symmetry. exact Hp.
Defined.
