(* ===== verification/PassesSpec.v ===== *)
(** What the passes leave of a crate: nothing hidden, nothing private, and every function
    that is neither. *)

From S2P Require Import Prelude RustStd CleanTypes CleanItems DocFold Pruning.
From S2P Require Import Passes PassesCorrect ItemTree.

(** ** What the folders may drop *)

Definition may_hide (i : Item) : Prop :=
  is_hidden i = true /\ (module_items i = None \/ is_stripped i = true).

Definition may_privatise (levels : AccessLevels) (i : Item) : Prop :=
  reexportable (item_inner i) = true /\ is_local (item_def_id i) = true /\
  is_exported levels (item_def_id i) = false.

Definition is_impl (i : Item) : Prop := exists imp, item_inner i = ImplItem imp.

Definition is_import (i : Item) : Prop :=
  match item_inner i with ExternCrateItem _ _ | ImportItem _ => True | _ => False end.

Lemma is_stripped_shape i' i :
  shape (item_inner i') = shape (item_inner i) -> is_stripped i' = is_stripped i.
Proof.
  intros Hs. change (stripped_enum (item_inner i') = stripped_enum (item_inner i)).
  by rewrite <- shape_stripped, Hs, shape_stripped.
Qed.

(** A module whose tree is folded and stripped. *)
Lemma survives_strip D folded i i' :
  survives D folded i -> is_stripped folded = is_stripped i ->
  strippable (item_inner i) = true -> strip folded = Some i' -> survives D i' i.
Proof.
  intros [Hp Hs] Hst Hi Hstrip. split; [by eapply strip_pruned|].
  intros current y Hy. inversion Hy as [|? ? its ch ? Him Hin HD Hrest]; subst.
  { exists i'. split; [constructor|by eapply strip_pruned]. }
  destruct (Hs _ _ Hy) as (d & Hd & Hdd).
  assert (Him' : is_Some (module_items folded)) by (apply (pruned_module _ _ _ _ Hp); by eexists).
  assert (Hi' : module_items i' = module_items folded /\ item_name i' = item_name folded).
  { destruct Him' as [its' (m & _ & [Hm|Hm])%module_items_inv]; unfold strip in Hstrip;
      rewrite Hm in Hstrip; injection Hstrip as <-; unfold module_items; cbn; by rewrite ?Hm. }
  destruct Hi' as [Heq Hname]. inversion Hd as [|? ? its' ch' ? Hi' Hin']; subst.
  - (* nothing was pushed: the place is that of the item itself *)
    exists i'. split; [constructor|]. destruct (is_stripped d) eqn:Hd'.
    { unfold strip, is_stripped in *. destruct (item_inner d); try done. by injection Hstrip as <-. }
    pose proof Hdd as (_ & [Hsh|(_ & _ & Hsh)] & _)%pruned_inv.
    + eapply strip_pruned; [exact Hdd| | |exact Hstrip].
      * by apply is_stripped_shape.
      * rewrite <- shape_strippable, <- Hsh, shape_strippable.
        destruct Him' as [? (m & _ & [Hm|Hm])%module_items_inv]; [by rewrite Hm|].
        unfold is_stripped in Hd'. by rewrite Hm in Hd'.
    + apply shape_stripped_inv in Hsh as (e & He & _). unfold is_stripped in Hd'. by rewrite He in Hd'.
  - exists d. split; [|done]. eapply under_child; [by rewrite Heq|exact Hin'|by rewrite Hname].
Qed.

#[export] Program Instance HiddenStripper_Sparing : Sparing may_hide HiddenStripper.
Next Obligation.
  intros recur i s r s' Hrec. change (override recur i s) with (hidden_fold_item recur i s).
  unfold hidden_fold_item. destruct (is_hidden i) eqn:Hh.
  2:{ intros Hr. destruct (Hrec _ _ _ Hr) as (i' & -> & Hs & _).
      split; [done|]. by intros ? [= <-]. }
  assert (Hdrop : module_items i = None \/ is_stripped i = true ->
    mret (None, s) = Ret (r, s') -> (~ may_hide i -> is_Some r) /\
    forall i', r = Some i' -> survives may_hide i' i).
  { intros Hd [= <- <-]. split; [|done]. intros Hn. by destruct Hn. }
  unfold module_items, is_stripped in Hdrop.
  destruct (item_inner i) eqn:Hi; try (apply Hdrop; cbn; by auto).
  all: destruct (recur i _) as [[r0 s0]| |] eqn:Hr; cbn; try done.
  all: destruct (Hrec _ _ _ Hr) as (i0 & -> & Hs & Hst); cbn; intros [= <- <-].
  all: split; [intros _; unfold strip; by destruct (item_inner i0)|].
  all: intros i' Hi'; eapply survives_strip; [done|done|by rewrite Hi|done].
Qed.

#[export] Program Instance Stripper_Sparing levels : Sparing (may_privatise levels) (Stripper levels).
Next Obligation.
  intros levels recur i s r s' Hrec.
  change (override recur i s) with (stripper_fold_item recur i s). unfold stripper_fold_item.
  assert (Hm : strip_members recur i s = Ret (r, s') ->
    (~ may_privatise levels i -> is_Some r) /\
    forall i', r = Some i' -> survives (may_privatise levels) i' i).
  { unfold strip_members. destruct (fastreturn (item_inner i)).
    { intros [= <- <-]. split; [done|]. intros ? [= <-]. apply survives_refl. }
    destruct (recur i s) as [[r0 s0]| |] eqn:Hr; cbn; try done.
    destruct (Hrec _ _ _ Hr) as (i0 & -> & Hs & _). intros [= <- <-].
    split; [done|]. by intros ? [= <-]. }
  destruct (item_inner i) eqn:Hi;
    try (destruct (_ && _ && _) eqn:Hc; [|by apply Hm];
         intros [= <- <-]; split; [|done]; intros Hn; destruct Hn; unfold may_privatise;
         rewrite Hi; by apply andb_true_iff in Hc as [[Hre Hl]%andb_true_iff He%negb_true_iff]).
  - destruct (_ && _); [|by apply Hm].
    destruct (recur i (with_update s false)) as [[r0 s0]| |] eqn:Hr; cbn; try done.
    destruct (Hrec _ _ _ Hr) as (i0 & -> & Hs & Hst); cbn; intros [= <- <-].
    split; [intros _; unfold strip; by destruct (item_inner i0)|].
    intros i' Hi'. eapply survives_strip; [done|done|by rewrite Hi|done].
  - case_decide; [|by apply Hm]. intros [= <- <-].
    split; [intros _; unfold strip; by rewrite Hi|].
    intros i' Hi'. eapply survives_strip; [apply survives_refl|done|by rewrite Hi|done].
  - destruct (recur i (with_update s false)) as [[r0 s0]| |] eqn:Hr; cbn; try done.
    destruct (Hrec _ _ _ Hr) as (folded & -> & Hs & Hst). intros [= <- <-].
    split; [done|]. by intros ? [= <-].
Qed.

#[export] Program Instance ImplStripper_Sparing : Sparing is_impl ImplStripper.
Next Obligation.
  intros recur i s r s' Hrec. change (override recur i s) with (impl_fold_item recur i s).
  unfold impl_fold_item.
  assert (Hr : recur i s = Ret (r, s') -> (~ is_impl i -> is_Some r) /\
    forall i', r = Some i' -> survives is_impl i' i).
  { intros Hr. destruct (Hrec _ _ _ Hr) as (folded & -> & Hs & _). split; [done|]. by intros ? [= <-]. }
  destruct (item_inner i) eqn:Hi; try apply Hr. destruct (strip_impl _ _); [|apply Hr].
  intros [= <- <-]. split; [|done]. intros Hn. destruct Hn. by eexists.
Qed.

#[export] Program Instance ImportStripper_Sparing : Sparing is_import ImportStripper.
Next Obligation.
  intros recur i s r s' Hrec. change (override recur i s) with (import_fold_item recur i s).
  unfold import_fold_item.
  assert (Hr : recur i s = Ret (r, s') -> (~ is_import i -> is_Some r) /\
    forall i', r = Some i' -> survives is_import i' i).
  { intros Hr. destruct (Hrec _ _ _ Hr) as (folded & -> & Hs & _). split; [done|]. by intros ? [= <-]. }
  destruct (item_inner i) eqn:Hi; try apply Hr; (case_decide; [|apply Hr]);
    (intros Heq; injection Heq as <-; split; [|done]; intros Hn; destruct Hn; unfold is_import; by rewrite Hi).
Qed.

(** ** What the passes remove *)

(** Every hidden item that is left is stripped. *)
Definition hidden_stripped (d : Item) : Prop := is_hidden d = true -> is_stripped d = true.

Lemma hidden_header i' i : same_header i' i -> is_hidden i' = is_hidden i.
Proof. intros (_ & Ha & _). unfold is_hidden. by rewrite Ha. Qed.

Lemma hidden_stripped_pruned wrap d' d :
  pruned wrap d' d -> hidden_stripped d -> hidden_stripped d'.
Proof.
  intros (Hh & Hs & _)%pruned_inv Hd. unfold hidden_stripped. rewrite (hidden_header _ _ Hh).
  intros Hhid. destruct Hs as [Hs|(_ & _ & Hs)].
  - rewrite (is_stripped_shape _ _ Hs). by apply Hd.
  - change (stripped_enum (item_inner d') = true). by rewrite <- shape_stripped, Hs.
Qed.

Lemma strip_is_stripped i i' : strip i = Some i' ->
  is_stripped i' = true /\ members (item_inner i') = members (item_inner i).
Proof. unfold strip, is_stripped. destruct (item_inner i) eqn:Hi; intros [= <-]; by rewrite ?Hi. Qed.

Lemma hidden_folder_spec i (s : HiddenStripper) i' s' :
  fold_item i s = Ret (Some i', s') -> all_below hidden_stripped i'.
Proof.
  apply (fold_item_results (all_below hidden_stripped)). clear i s i' s'.
  intros recur i s i' s' Hrec. change (override recur i s) with (hidden_fold_item recur i s).
  unfold hidden_fold_item. destruct (is_hidden i) eqn:Hh.
  - destruct (item_inner i); try done.
    all: destruct (recur i _) as [[r0 s0]| |] eqn:Hr; cbn; try done.
    all: destruct (Hrec _ _ _ Hr) as (i0 & -> & _ & _ & Hm); cbn; intros [= Hs _].
    all: apply strip_is_stripped in Hs as [Hs Hmem]; apply all_below_unfold;
      split; [by intros _|by rewrite Hmem].
  - intros Hr. destruct (Hrec _ _ _ Hr) as (i0 & [= <-] & Hhd & _ & Hm).
    apply all_below_unfold. split; [|done]. intros Hhid. by rewrite (hidden_header _ _ Hhd), Hh in Hhid.
Qed.

(** What the access levels and the visibilities allow. *)
Definition allowed (levels : AccessLevels) (d : Item) : Prop :=
  match item_inner d with
  | StrippedItem _ => True
  | StructFieldItem _ => item_visibility d = Visibility.Public
  | ModuleItem _ => is_local (item_def_id d) = true -> item_visibility d = Visibility.Public
  | e => reexportable e = true -> is_local (item_def_id d) = true ->
         is_exported levels (item_def_id d) = true
  end.

(** Everything but what is inside traits, impls of traits and struct variants is
    allowed. *)
Inductive checked (levels : AccessLevels) : Item -> Prop :=
| checked_item d :
    allowed levels d ->
    (fastreturn (item_inner d) = false ->
     forall c, c ∈ members (item_inner d) -> checked levels c) ->
    checked levels d.

Lemma fastreturn_shape e : fastreturn (shape e) = fastreturn e.
Proof. destruct e; try done. by destruct v. Qed.

Lemma reexportable_shape e : reexportable (shape e) = reexportable e.
Proof. destruct e; try done. by destruct v. Qed.

Lemma allowed_shape levels i' i :
  same_header i' i -> shape (item_inner i') = shape (item_inner i) ->
  allowed levels i -> allowed levels i'.
Proof.
  intros (_ & _ & Hv & Hd & _) Hs.
  assert (Heq : forall d : Item, allowed levels d <->
    match shape (item_inner d) with
    | StrippedItem _ => True
    | StructFieldItem _ => item_visibility d = Visibility.Public
    | ModuleItem _ => is_local (item_def_id d) = true -> item_visibility d = Visibility.Public
    | e => reexportable e = true -> is_local (item_def_id d) = true ->
           is_exported levels (item_def_id d) = true
    end).
  { intros d. unfold allowed. destruct (item_inner d); try done. by destruct v. }
  rewrite !Heq, Hs, Hv, Hd. done.
Qed.

Lemma checked_pruned levels wrap i' i :
  pruned wrap i' i -> checked levels i -> checked levels i'.
Proof.
  revert i'. induction i as [i IH] using item_members_ind.
  intros i' (Hh & Hs & Hk)%pruned_inv Hck. inversion Hck as [d Ha Hc]; subst d. constructor.
  - destruct Hs as [Hs|(_ & _ & Hs)]; [by eapply allowed_shape|].
    unfold allowed. apply shape_stripped_inv in Hs as (e & -> & _). done.
  - intros Hf c Hin. destruct (kept_elem _ _ _ _ Hk Hin) as (c0 & Hc0 & Hp).
    apply (IH c0 Hc0 c Hp), Hc; [|done]. destruct Hs as [Hs|(_ & Hw & _)].
    + by rewrite <- fastreturn_shape, <- Hs, fastreturn_shape.
    + by destruct (item_inner i).
Qed.

Lemma stripper_spec levels i (s : Stripper levels) i' s' :
  fold_item i s = Ret (Some i', s') -> checked levels i'.
Proof.
  apply (fold_item_results (checked levels)). clear i s i' s'.
  intros recur i s i' s' Hrec. change (override recur i s) with (stripper_fold_item recur i s).
  unfold stripper_fold_item.
  assert (Hm : allowed levels i -> strip_members recur i s = Ret (Some i', s') -> checked levels i').
  { intros Ha. unfold strip_members. destruct (fastreturn (item_inner i)) eqn:Hf.
    { intros [= <- <-]. constructor; [done|]. by rewrite Hf. }
    destruct (recur i s) as [[r0 s0]| |] eqn:Hr;
      cbn [mbind outcome_bind]; [|intros; discriminate..].
    destruct (Hrec _ _ _ Hr) as (i0 & -> & Hh & Hs & Hmem). intros [= <- <-].
    constructor; [exact (allowed_shape levels _ _ Hh Hs Ha)|intros _; exact Hmem]. }
  assert (Hstripped : forall j, is_stripped j = true ->
    (forall c, c ∈ members (item_inner j) -> checked levels c) -> checked levels j).
  { intros j Hj Hc. constructor; [|by intros _]. unfold allowed, is_stripped in *.
    by destruct (item_inner j). }
  unfold allowed in Hm. destruct (item_inner i) eqn:Hi;
    try (destruct (_ && _ && _) eqn:Hc; [done|]; apply Hm; intros Hre Hl;
         destruct (is_exported levels (item_def_id i)) eqn:He; [done|];
         rewrite Hre, Hl in Hc; cbn in Hc; done).
  - destruct (_ && _) eqn:Hc.
    + destruct (recur i (with_update s false)) as [[r0 s0]| |] eqn:Hr;
        cbn [mbind outcome_bind]; [|intros; discriminate..].
      destruct (Hrec _ _ _ Hr) as (i0 & -> & _ & _ & Hmem); cbn; intros [= Hst _].
      apply strip_is_stripped in Hst as [Hst Hmm]. apply Hstripped; [done|]. by rewrite Hmm.
    + apply Hm. intros Hl. rewrite Hl in Hc. cbn in Hc.
      apply bool_decide_eq_false in Hc. by apply dec_stable.
  - case_decide as Hv; [|by apply Hm]. intros [= Hst _].
    apply strip_is_stripped in Hst as [Hst Hmm]. apply Hstripped; [done|]. rewrite Hmm, Hi.
    intros c Hc. by apply not_elem_of_nil in Hc.
  - destruct (recur i (with_update s false)) as [[r0 s0]| |] eqn:Hr;
        cbn [mbind outcome_bind]; [|intros; discriminate..].
    destruct (Hrec _ _ _ Hr) as (folded & -> & Hh & Hs & Hmem). intros [= <- _].
    rewrite <- Hi in Hs. apply Hstripped; [|done]. rewrite (is_stripped_shape _ _ Hs).
    unfold is_stripped. by rewrite Hi.
Qed.
