(* ===== verification/PassesRun.v ===== *)
(** The passes as a whole: the functions of a crate after the passes that were chosen. *)

From S2P Require Import Prelude RustStd CleanTypes CleanItems DocFold Pruning.
From S2P Require Import DocPasses CfgPass Passes PassesCorrect ItemTree DocPassesCorrect ItemSamples.
From S2P Require Import PassesSpec DocCoverage Visitors CoverageCorrect.

(** ** Crates before and after a pass *)

(** Nothing in the tree of the modules is stripped. *)
Definition bare (c : Crate) : Prop :=
  forall root y, krate_module c = Some root -> under ([], root) y -> is_stripped y.2 = false.

(** The root is a module and nothing is stripped twice. *)
Definition crate_wf (c : Crate) : Prop :=
  single_strip_crate c /\ exists root, rooted c root.

(** Two items that differ at most in their documentation. *)
Definition same_code (d' d : Item) : Prop :=
  item_name d' = item_name d /\ other_attrs (item_attrs d') = other_attrs (item_attrs d) /\
  item_inner d' = item_inner d /\ item_visibility d' = item_visibility d /\
  item_def_id d' = item_def_id d.

#[export] Instance same_code_equivalence : Equivalence same_code.
Proof.
  unfold same_code. split.
  - intros d. done.
  - intros d e (? & ? & ? & ? & ?). done.
  - intros d e f (? & ? & ? & ? & ?) (? & ? & ? & ? & ?). split_and!; congruence.
Qed.

(** The functions of [c'] are those of [c] that satisfy [K]. *)
Definition functions_match (K : Item -> Prop) (c' c : Crate) : Prop :=
  forall path,
    (forall d', free_function c' path d' ->
       exists d, free_function c path d /\ same_code d' d /\ K d) /\
    (forall d, free_function c path d -> K d ->
       exists d', free_function c' path d' /\ same_code d' d).

Lemma functions_match_trans (K1 K2 : Item -> Prop) c1 c2 c3 :
  (forall d' d, same_code d' d -> K2 d' <-> K2 d) ->
  functions_match K1 c2 c1 -> functions_match K2 c3 c2 ->
  functions_match (fun d => K1 d /\ K2 d) c3 c1.
Proof.
  intros HK H1 H2 path. destruct (H1 path) as [H1a H1b], (H2 path) as [H2a H2b]. split.
  - intros d3 (d2 & Hd2 & Hs & HK2)%H2a. destruct (H1a d2 Hd2) as (d1 & Hd1 & Hs' & HK1).
    exists d1. split_and!; [done|by etrans|done|]. by apply (HK d2 d1).
  - intros d1 Hd1 [HK1 HK2]. destruct (H1b d1 Hd1 HK1) as (d2 & Hd2 & Hs).
    destruct (H2b d2 Hd2) as (d3 & Hd3 & Hs'); [by apply (HK d2 d1)|].
    exists d3. split; [done|by etrans].
Qed.

Lemma functions_match_ext (K1 K2 : Item -> Prop) c' c :
  (forall d, K1 d <-> K2 d) -> functions_match K1 c' c -> functions_match K2 c' c.
Proof. intros HK Hm path. destruct (Hm path) as [Ha Hb]. setoid_rewrite HK in Ha. setoid_rewrite HK in Hb. done. Qed.

Lemma functions_match_exact (K : Item -> Prop) c' c :
  (forall path d, free_function c' path d -> free_function c path d /\ K d) ->
  (forall path d, free_function c path d -> K d -> free_function c' path d) ->
  functions_match K c' c.
Proof.
  intros H1 H2 path. split.
  - intros d' Hd'. exists d'. destruct (H1 path d' Hd'). done.
  - intros d Hd HK. exists d. split; [by apply H2|done].
Qed.

Lemma hidden_same_code d' d : same_code d' d -> is_hidden d' = is_hidden d.
Proof. intros (_ & Ha & _). unfold is_hidden, lists. by rewrite Ha. Qed.

(** ** A fold of the crate by a stripper *)
Section fold.
Context {F : Type} (D : Item -> Prop) `{Pruner F} `{!TotalFolder F} `{!Sparing D F} `{HashOrder}.

(** No module of the crate is dropped. *)
Definition spares_modules (c : Crate) : Prop :=
  forall root z, krate_module c = Some root -> under ([], root) z ->
    is_Some (module_items z.2) -> ~ D z.2.

(** The root that is left is the result of a fold. *)
Lemma fold_crate_root c (s : F) c' s' root' :
  fold_crate c s = Ret (c', s') -> krate_module c' = Some root' ->
  exists root s1, fold_item root s = Ret (Some root', s1).
Proof.
  unfold fold_crate. destruct (krate_module c) as [root|]; cbn [mbind outcome_bind].
  - destruct (fold_item root s) as [[r s1]| |] eqn:Hf; cbn [mbind outcome_bind]; [|done..].
    destruct (fold_loop fold_trait _ _) as [[t s2]| |]; cbn; [|done..].
    intros [= <- _] Hr. cbn in Hr. subst r. by exists root, s1.
  - cbn. destruct (fold_loop fold_trait _ _) as [[t s2]| |]; cbn; [|done..]. by intros [= <- _].
Qed.
Lemma fold_pass c (s : F) :
  crate_wf c -> spares_modules c ->
  returns (fold_crate c s) (fun r => crate_wf r.1 /\ pruned_crate (wraps F) r.1 c /\
    (forall path d, free_function r.1 path d -> free_function c path d) /\
    (forall path d, free_function c path d -> ~ D d -> free_function r.1 path d) /\
    forall root', krate_module r.1 = Some root' ->
      exists root s1, fold_item root s = Ret (Some root', s1)).
Proof.
  intros [Hs [root Hr]] HD. apply returns_exists.
  destruct (proj1 (returns_exists _ _) (fold_crate_returns c s Hs)) as ([c' s'] & Hf & Hp & Hs').
  exists (c', s'). split; [exact Hf|]. cbn [fst] in *.
  destruct (fold_crate_functions D c s c' s' root Hr (fun z => HD root z (proj1 Hr)) Hf)
    as [(root' & Hr' & _) Hfun].
  split_and!; [by split; [|exists root']|done|intros path d; exact (pruned_functions _ _ _ path d Hp)|done|].
  intros root0. by apply (fold_crate_root c s c' s').
Qed.

End fold.

Lemma bare_pruned c' c : pruned_crate false c' c -> bare c -> bare c'.
Proof.
  intros Hp Hb root' y Hr Hu. destruct (pc_module _ _ _ Hp _ Hr) as (root & Hr0 & Hpr).
  destruct (under_pruned _ _ _ _ _ _ Hpr Hu) as (d & Hd & Hdd).
  apply pruned_inv in Hdd as (_ & [Hs|(? & _)] & _); [|done].
  rewrite (is_stripped_shape _ _ Hs). by apply (Hb root (y.1, d)).
Qed.

(** ** The three passes *)
Section strip.
Context `{HashOrder}.

Lemma impl_module i : is_Some (module_items i) -> ~ is_impl i.
Proof. intros [its (m & _ & [Hm|Hm])%module_items_inv] [imp Hi]; congruence. Qed.

Lemma import_module i : is_Some (module_items i) -> ~ is_import i.
Proof.
  intros [its (m & _ & [Hm|Hm])%module_items_inv]; unfold is_import; rewrite Hm; tauto.
Qed.

Lemma function_of c path d : free_function c path d -> exists f, item_inner d = FunctionItem f.
Proof. intros (? & ? & ? & f & _ & _ & _ & _ & Hf). by exists f. Qed.

Lemma free_function_inv c path d :
  free_function c path d ->
  exists root p f, krate_module c = Some root /\ under ([], root) (p, d) /\
    item_inner d = FunctionItem f.
Proof.
  intros (root & its & child & f & Hr & Hi & Hc & Hu & Hf).
  destruct (under_shift _ _ Hu) as (p & _ & Hall).
  exists root, (option_list (item_name root) ++ p), f. split_and!; [done| |done].
  by eapply under_child.
Qed.

(** Neither impls nor imports are functions. *)
Lemma impl_pass c s :
  crate_wf c ->
  returns (fold_crate c (s : ImplStripper)) (fun r => crate_wf r.1 /\ pruned_crate false r.1 c /\
    forall path d, free_function r.1 path d <-> free_function c path d).
Proof.
  intros Hc. eapply returns_mono.
  - apply (fold_pass is_impl c s Hc). intros root z _ _. apply impl_module.
  - intros [c' s'] (Hwf & Hp & H1 & H2 & _). split_and!; [done|done|]. intros path d.
    split; [apply H1|]. intros Hd. apply H2; [done|].
    destruct (function_of _ _ _ Hd) as [f Hf]. intros [imp Hi]. congruence.
Qed.

Lemma import_pass c s :
  crate_wf c ->
  returns (fold_crate c (s : ImportStripper)) (fun r => crate_wf r.1 /\ pruned_crate false r.1 c /\
    forall path d, free_function r.1 path d <-> free_function c path d).
Proof.
  intros Hc. eapply returns_mono.
  - apply (fold_pass is_import c s Hc). intros root z _ _. apply import_module.
  - intros [c' s'] (Hwf & Hp & H1 & H2 & _). split_and!; [done|done|]. intros path d.
    split; [apply H1|]. intros Hd. apply H2; [done|].
    destruct (function_of _ _ _ Hd) as [f Hf]. unfold is_import. rewrite Hf; tauto.
Qed.

(** What holds of the root is preserved by the passes that follow. *)
Definition root_satisfies (P : Item -> Prop) (c : Crate) : Prop :=
  forall root, krate_module c = Some root -> P root.

Lemma root_pruned wrap (P : Item -> Prop) c' c :
  (forall i' i, pruned wrap i' i -> P i -> P i') ->
  pruned_crate wrap c' c -> root_satisfies P c -> root_satisfies P c'.
Proof.
  intros HP Hp Hc root' Hr. destruct (pc_module _ _ _ Hp _ Hr) as (root & Hr0 & Hpr).
  by eapply HP, Hc.
Qed.

Lemma strip_hidden_returns c :
  crate_wf c -> bare c ->
  returns (strip_hidden c) (fun c' => crate_wf c' /\ pruned_crate true c' c /\
    root_satisfies (all_below hidden_stripped) c' /\
    functions_match (fun d => is_hidden d = false) c' c).
Proof.
  intros Hc Hb. unfold strip_hidden. eapply returns_bind.
  { apply (fold_pass may_hide c (mk_HiddenStripper ∅ true) Hc).
    intros root z Hr Hu [its Hi] [_ [Hn|Hs]]; [congruence|by rewrite (Hb root z Hr Hu) in Hs]. }
  intros [c1 s1] (Hwf1 & Hp1 & H1 & H1' & Hroot). cbn [fst snd] in *.
  assert (Hroot1 : root_satisfies (all_below hidden_stripped) c1).
  { intros root' (root & s2 & Hf)%Hroot. by eapply hidden_folder_spec. }
  eapply returns_bind; [by apply impl_pass|].
  intros [c2 s2] (Hwf2 & Hp2 & H2). apply returns_ret. cbn [fst] in *.
  assert (Hroot2 : root_satisfies (all_below hidden_stripped) c2).
  { eapply root_pruned; [|exact Hp2|done]. intros i' i. apply all_below_pruned.
    apply hidden_stripped_pruned. }
  split_and!; [done| |done|].
  - etrans; [by eapply pruned_crate_wrap|exact Hp1].
  - apply functions_match_exact.
    + intros path d Hd. split; [by apply H1, H2|].
      destruct (free_function_inv _ _ _ Hd) as (root & p & f & Hr & Hu & Hf).
      apply not_true_iff_false. intros Hh.
      specialize (Hroot2 root Hr d ltac:(by apply (under_below _ _ Hu)) Hh).
      unfold is_stripped in Hroot2. by rewrite Hf in Hroot2.
    + intros path d Hd Hh. apply H2, H1'; [done|]. intros [Ht _]. congruence.
Qed.

Lemma checked_under levels x y :
  under x y -> checked levels x.2 -> checked levels y.2.
Proof.
  induction 1 as [|current item items child y Hi Hc _ IH]; [done|].
  intros Hck. apply IH. inversion Hck as [d Ha Hm]; subst d. cbn in *. apply Hm.
  - by destruct (module_items_inv _ _ Hi) as (m & _ & [-> | ->]).
  - by rewrite (module_items_members _ _ Hi).
Qed.

Definition exported_if_local (levels : AccessLevels) (d : Item) : Prop :=
  is_local (item_def_id d) = true -> is_exported levels (item_def_id d) = true.

Lemma strip_private_returns levels c :
  crate_wf c ->
  returns (strip_private levels c) (fun c' => crate_wf c' /\ pruned_crate true c' c /\
    root_satisfies (checked levels) c' /\ functions_match (exported_if_local levels) c' c).
Proof.
  intros Hc. unfold strip_private. eapply returns_bind.
  { apply (fold_pass (may_privatise levels) c (mk_Stripper (access_levels := levels) ∅ true) Hc).
    intros root z _ _ [its (m & _ & [Hm|Hm])%module_items_inv] [Hre _]; by rewrite Hm in Hre. }
  intros [c1 s1] (Hwf1 & Hp1 & H1 & H1' & Hroot). cbn [fst snd] in *.
  assert (Hroot1 : root_satisfies (checked levels) c1).
  { intros root' (root & s2 & Hf)%Hroot. by eapply stripper_spec. }
  eapply returns_bind; [by apply import_pass|].
  intros [c2 s2] (Hwf2 & Hp2 & H2). cbn [fst snd] in *.
  eapply returns_bind; [by apply impl_pass|].
  intros [c3 s3] (Hwf3 & Hp3 & H3). apply returns_ret. cbn [fst snd] in *.
  assert (Hroot3 : root_satisfies (checked levels) c3).
  { eapply root_pruned; [|exact Hp3|eapply root_pruned; [|exact Hp2|exact Hroot1]];
      intros i' i; apply checked_pruned. }
  split_and!; [done| |done|].
  - etrans; [by eapply pruned_crate_wrap|]. etrans; [by eapply pruned_crate_wrap|exact Hp1].
  - apply functions_match_exact.
    + intros path d Hd. split; [by apply H1, H2, H3|].
      destruct (free_function_inv _ _ _ Hd) as (root & p & f & Hr & Hu & Hf).
      pose proof (checked_under levels _ _ Hu (Hroot3 root Hr)) as Hck.
      inversion Hck as [d0 Ha _]; subst d0. unfold allowed in Ha. cbn in Ha. rewrite Hf in Ha.
      intros Hl. by apply Ha.
    + intros path d Hd He. apply H3, H2, H1'; [done|]. intros (_ & Hl & Hn).
      specialize (He Hl). congruence.
Qed.

Lemma strip_priv_imports_returns c :
  crate_wf c ->
  returns (strip_priv_imports c) (fun c' => crate_wf c' /\ pruned_crate false c' c /\
    functions_match (fun _ => True) c' c).
Proof.
  intros Hc. eapply returns_bind; [by apply import_pass|].
  intros [c1 s1] (Hwf & Hp & Hf). apply returns_ret. split_and!; [done..|].
  apply functions_match_exact; intros path d Hd; [split; [|done]|intros _]; by apply Hf.
Qed.

(** ** The passes over the documentation *)

Lemma redocumented_root c' c root :
  redocumented_crate c' c -> rooted c root -> exists root', rooted c' root'.
Proof.
  intros Hr [Hroot Hmod]. pose proof (rc_module _ _ _ Hr) as Hm. rewrite Hroot in Hm.
  inversion Hm as [root' ? Hp Heq Heq'|]; subst. exists root'.
  split; [done|]. by apply (pruned_module _ _ _ _ (redocumented_edited _ _ Hp)).
Qed.

Lemma redocumented_wf c' c : redocumented_crate c' c -> crate_wf c -> crate_wf c'.
Proof.
  intros Hr [[Hm Ht] [root Hroot]]. pose proof (rc_module _ _ _ Hr) as Hrm. split.
  - split.
    + intros m' Hm'. rewrite Hm' in Hrm. inversion Hrm as [? m Hp Heq Heq'|]; subst.
      eapply single_strip_pruned; [by apply redocumented_edited|by apply Hm].
    + intros k t' i Hk Hi. pose proof (rc_traits _ _ _ Hr k) as Htr. rewrite Hk in Htr.
      inversion Htr as [? t [_ Hall] Heq Heq'|]; subst.
      apply list_elem_of_lookup_1 in Hi as [j Hj].
      destruct (Forall2_lookup_l _ _ _ _ _ Hall Hj) as (i0 & Hi0 & Hp).
      eapply single_strip_pruned; [by apply redocumented_edited|].
      eapply Ht; [done|by eapply list_elem_of_lookup_2].
  - by apply (redocumented_root _ _ root Hr).
Qed.

Lemma redocumented_code d' d f :
  redocumented d' d -> item_inner d = FunctionItem f -> same_code d' d.
Proof.
  intros ((Hn & Ha & Hv & Hd & _) & Hs & _)%redocumented_inv Hf. split_and!; try done.
  rewrite Hf in *. by apply shape_function.
Qed.

Lemma redocumented_functions_in c' c path d :
  option_Forall2 redocumented (krate_module c') (krate_module c) -> free_function c path d ->
  exists d', free_function c' path d' /\ same_code d' d.
Proof.
  intros Hm (root & items & child & f & Hr & Hi & Hc & Hu & Hf). rewrite Hr in Hm.
  inversion Hm as [root' ? Hp Heq Heq'|]; subst.
  pose proof (redocumented_edited _ _ Hp) as He.
  destruct (proj2 (pruned_module _ _ _ _ He) ltac:(by eexists)) as [items' Hi'].
  apply redocumented_inv in Hp as (_ & _ & Hk).
  rewrite (module_items_members _ _ Hi), (module_items_members _ _ Hi') in Hk.
  apply list_elem_of_lookup_1 in Hc as [j Hj].
  destruct (Forall2_lookup_r _ _ _ _ _ Hk Hj) as (child' & Hc' & Hcc).
  destruct (redocumented_under _ _ _ _ Hcc Hu) as (d' & Hd' & Hdd). cbn in *.
  pose proof (redocumented_code _ _ f Hdd Hf) as Hs. exists d'. split; [|done].
  exists root', items', child', f. split_and!; [done|done|by eapply list_elem_of_lookup_2|done|].
  destruct Hs as (_ & _ & Hin & _). by rewrite Hin.
Qed.

Lemma redocumented_functions c' c :
  redocumented_crate c' c -> functions_match (fun _ => True) c' c.
Proof.
  intros Hr path. pose proof (rc_module _ _ _ Hr) as Hm. split.
  - intros d' Hd'. destruct (redocumented_functions_in c c' path d') as (d & Hd & Hs); [|done|].
    + destruct Hm; constructor. by apply redocumented_sym.
    + exists d. split_and!; [done|by symmetry|done].
  - intros d Hd _. by apply (redocumented_functions_in c' c).
Qed.

Lemma redocumented_bare c' c : redocumented_crate c' c -> bare c -> bare c'.
Proof.
  intros Hr Hb root' y Hroot Hu. pose proof (rc_module _ _ _ Hr) as Hm. rewrite Hroot in Hm.
  inversion Hm as [? root Hp Heq Heq'|]; subst.
  destruct (under_pruned _ _ _ _ _ _ (redocumented_edited _ _ Hp) Hu) as (d & Hd & Hdd).
  apply pruned_inv in Hdd as (_ & [Hs|(? & _)] & _); [|done].
  rewrite (is_stripped_shape _ _ Hs). by apply (Hb root (y.1, d)).
Qed.

(** The two passes return, and change the documentation only. *)
Lemma doc_pass_returns {F : Type} `{Redocumenter F} (s : F) c :
  crate_wf c -> crate_docs_ok c ->
  returns (r ← fold_crate c s; mret r.1) (fun c' => crate_wf c' /\ crate_docs_ok c' /\
    redocumented_crate c' c /\ functions_match (fun _ => True) c' c).
Proof.
  intros Hc Hd. eapply returns_bind; [apply fold_crate_redocuments; [apply Hc|done]|].
  intros [c' s'] [Hr Hd']. apply returns_ret. cbn [fst] in *.
  split_and!; [by apply (redocumented_wf _ c)|done|done|by apply redocumented_functions].
Qed.

Lemma coverage_pass_returns c :
  crate_wf c -> returns (r ← calculate_doc_coverage None c; mret r.1) (fun c' => crate_wf c' /\
    pruned_crate false c' c /\ (bare c -> bare c') /\ functions_match (fun _ => True) c' c).
Proof.
  intros Hc. eapply returns_bind; [apply (coverage_returns None); apply Hc|].
  intros [c' p] ([Hp Hr] & _). apply returns_ret. cbn [fst].
  split_and!; [by apply (redocumented_wf _ c)|done|by apply redocumented_bare|
    by apply redocumented_functions].
Qed.

Lemma crate_docs_ok_pruned wrap c' c : pruned_crate wrap c' c -> crate_docs_ok c -> crate_docs_ok c'.
Proof.
  assert (Hp : forall i' i, pruned wrap i' i -> all_below documented_ok i ->
    all_below documented_ok i').
  { intros i' i. apply all_below_pruned. intros d' d ((_ & Ha & _) & _)%pruned_inv.
    unfold documented_ok. by rewrite Ha. }
  intros Hc [Hm Ht]. split.
  - intros root' Hr. destruct (pc_module _ _ _ Hc _ Hr) as (root & Hr0 & Hpr).
    by eapply Hp, Hm.
  - intros k t' i Hk Hi. destruct (pc_traits _ _ _ Hc _ _ Hk) as (t & Hk0 & _ & Hkept).
    destruct (kept_elem _ _ _ _ Hkept Hi) as (i0 & Hi0 & Hpi). by eapply Hp, Ht.
Qed.

(** ** The chosen passes *)
Context (run_pass : string -> Crate -> outcome Crate) (levels : AccessLevels).

(** A property of crates that pruning preserves, and another documentation that can be
    unindented. *)
Context (W : Crate -> Prop) (HW : forall c' c, pruned_crate true c' c -> W c -> W c').
Context (HWdocs : forall c, W c -> crate_docs_ok c).
Context (HWdoc : forall c' c, redocumented_crate c' c -> crate_docs_ok c' -> W c -> W c').

(** The passes that need a crate in which nothing is stripped. *)
Definition needs_bare (p : string) : Prop := p = STRIP_HIDDEN \/ p = COLLECT_TRAIT_IMPLS.

(** A pass that changes neither the functions nor the modules around them. *)
Definition harmless (p : string) : Prop :=
  forall c, crate_wf c -> W c -> (needs_bare p -> bare c) ->
    returns (run_pass p c) (fun c' => crate_wf c' /\ W c' /\ (bare c -> bare c') /\
      functions_match (fun _ => True) c' c).

(** Nothing is stripped before the impls are collected and the hidden items are stripped. *)
Definition hidden_first (ps : list string) : Prop :=
  forall l1 p l2, ps = l1 ++ p :: l2 -> needs_bare p ->
    (STRIP_HIDDEN ∉ l1) /\ (STRIP_PRIVATE ∉ l1).

(** What the passes leave. *)
Definition documented (ps : list string) (d : Item) : Prop :=
  (STRIP_HIDDEN ∈ ps -> is_hidden d = false) /\
  (STRIP_PRIVATE ∈ ps -> exported_if_local levels d).

Lemma documented_same_code ps d' d : same_code d' d -> documented ps d' <-> documented ps d.
Proof.
  intros Hs. unfold documented, exported_if_local. rewrite (hidden_same_code _ _ Hs).
  destruct Hs as (_ & _ & _ & _ & ->). done.
Qed.

Lemma documented_snoc ps p d :
  documented (ps ++ [p]) d <-> documented ps d /\ documented [p] d.
Proof. unfold documented. set_solver. Qed.

(** The passes that read compiler data. *)
Definition reads_compiler (p : string) : Prop :=
  p ∉ [STRIP_HIDDEN; STRIP_PRIVATE; STRIP_PRIV_IMPORTS; COLLAPSE_DOCS; UNINDENT_COMMENTS;
       PROPAGATE_DOC_CFG; CALCULATE_DOC_COVERAGE].

Lemma documented_other p d :
  p <> STRIP_HIDDEN -> p <> STRIP_PRIVATE -> documented [p] d <-> True.
Proof.
  intros H1 H2. unfold documented. rewrite !list_elem_of_singleton. split; [done|by intros _; split].
Qed.

(** One pass. *)
Lemma run_returns p c :
  (reads_compiler p -> harmless p) ->
  crate_wf c -> W c -> (needs_bare p -> bare c) ->
  returns (run run_pass levels p c) (fun c' => crate_wf c' /\ W c' /\
    (p <> STRIP_HIDDEN -> p <> STRIP_PRIVATE -> bare c -> bare c') /\
    functions_match (documented [p]) c' c).
Proof using HW HWdocs HWdoc.
  intros Hh Hc HWc Hb. unfold run.
  repeat case_bool_decide; subst.
  - eapply returns_mono; [apply strip_hidden_returns; [done|by apply Hb; left]|].
    intros c' (Hwf & Hp & _ & Hm). split_and!; [done|by eapply HW|done|].
    eapply functions_match_ext; [|exact Hm].
    intros d. unfold documented. rewrite !list_elem_of_singleton.
    split; [by intros Hd; split|intros [Hd _]; by apply Hd].
  - eapply returns_mono; [by apply strip_private_returns|].
    intros c' (Hwf & Hp & _ & Hm). split_and!; [done|by eapply HW|done|].
    eapply functions_match_ext; [|exact Hm].
    intros d. unfold documented. rewrite !list_elem_of_singleton.
    split; [by intros Hd; split|intros [_ Hd]; by apply Hd].
  - eapply returns_mono; [by apply strip_priv_imports_returns|].
    intros c' (Hwf & Hp & Hm). split_and!; [done| |intros _ _; by apply bare_pruned|].
    { eapply HW; [|done]. by eapply pruned_crate_wrap. }
    eapply functions_match_ext; [|exact Hm]. intros d. symmetry. by apply documented_other.
  - eapply returns_mono; [by apply (doc_pass_returns mk_Collapser); auto|].
    intros c' (Hwf & Hd & Hr & Hm). split_and!; [done|by eapply HWdoc|intros _ _; by apply redocumented_bare|].
    eapply functions_match_ext; [|exact Hm]. intros d. symmetry. by apply documented_other.
  - eapply returns_mono; [by apply (doc_pass_returns mk_CommentCleaner); auto|].
    intros c' (Hwf & Hd & Hr & Hm). split_and!; [done|by eapply HWdoc|intros _ _; by apply redocumented_bare|].
    eapply functions_match_ext; [|exact Hm]. intros d. symmetry. by apply documented_other.
  - eapply returns_mono; [by apply (doc_pass_returns (mk_CfgPropagator None)); auto|].
    intros c' (Hwf & Hd & Hr & Hm). split_and!; [done|by eapply HWdoc|intros _ _; by apply redocumented_bare|].
    eapply functions_match_ext; [|exact Hm]. intros d. symmetry. by apply documented_other.
  - eapply returns_mono; [by apply coverage_pass_returns|].
    intros c' (Hwf & Hp & Hbare & Hm). split_and!; [done| |done|].
    { eapply HW; [|done]. by eapply pruned_crate_wrap. }
    eapply functions_match_ext; [|exact Hm]. intros d. symmetry. by apply documented_other.
  - eapply returns_mono; [apply Hh; [unfold reads_compiler; set_solver|done..]|].
    intros c' (Hwf & HWc' & Hbare & Hm). split_and!; [done..|].
    eapply functions_match_ext; [|exact Hm]. intros d. symmetry. by apply documented_other.
Qed.

Lemma run_all_returns ps c :
  (forall p, p ∈ ps -> reads_compiler p -> harmless p) ->
  hidden_first ps -> crate_wf c -> W c -> bare c ->
  returns (fold_loop (run run_pass levels) ps c) (fun c' => crate_wf c' /\ W c' /\
    functions_match (documented ps) c' c).
Proof using HW HWdocs HWdoc.
  intros Hh Hfirst Hc HWc Hb.
  eapply returns_mono; [apply (fold_loop_returns _ (fun pre c' => crate_wf c' /\ W c' /\
    (STRIP_HIDDEN ∉ pre -> STRIP_PRIVATE ∉ pre -> bare c') /\
    functions_match (documented pre) c' c))|].
  - split_and!; [done..|]. apply functions_match_exact; [|done].
    intros path d Hd. split; [done|]. unfold documented. set_solver.
  - intros pre p post c1 Heq (Hwf & HW1 & Hbare & Hm). eapply returns_mono.
    + apply run_returns; [apply Hh; set_solver|done|done|].
      intros Hneed. destruct (Hfirst pre p post Heq Hneed). by apply Hbare.
    + intros c2 (Hwf2 & HW2 & Hb2 & Hm2). split_and!; [done|done| |].
      * intros Hn1 Hn2. apply Hb2; [set_solver..|]. apply Hbare; set_solver.
      * eapply functions_match_ext; [intros d; symmetry; apply documented_snoc|].
        eapply functions_match_trans; [|done..]. intros d' d. apply documented_same_code.
  - intros c' (Hwf & HW' & _ & Hm). done.
Qed.
End strip.

Lemma hidden_first_none ps :
  (forall p, p ∈ ps -> ~ needs_bare p) -> hidden_first ps.
Proof. intros Hn l1 p l2 -> Hp. destruct (Hn p); [set_solver|done]. Qed.

Lemma hidden_first_here ps :
  (forall p, p ∈ ps -> ~ needs_bare p) -> hidden_first (STRIP_HIDDEN :: ps).
Proof.
  intros Hn l1 p l2 Heq Hp. destruct l1 as [|p' l1]; [set_solver|].
  injection Heq as _ ->. destruct (Hn p); [set_solver|done].
Qed.

(** A list without the two is seen to be one. *)
Lemma no_needs_bare (ps : list string) :
  bool_decide (STRIP_HIDDEN ∉ ps) && bool_decide (COLLECT_TRAIT_IMPLS ∉ ps) = true ->
  forall p, p ∈ ps -> ~ needs_bare p.
Proof.
  rewrite andb_true_iff, !bool_decide_eq_true. by intros [H1 H2] p Hp [-> | ->].
Qed.

Lemma hidden_first_cons p ps :
  p <> STRIP_HIDDEN -> p <> STRIP_PRIVATE -> hidden_first ps -> hidden_first (p :: ps).
Proof.
  intros Hh Hp Hps l1 q l2 Heq Hq. destruct l1 as [|p' l1]; [set_solver|].
  injection Heq as <- ->. destruct (Hps l1 q l2 eq_refl Hq). set_solver.
Qed.

(** The default passes collect the impls and strip the hidden items first: what is asked
    for by name comes last. *)
Lemma passes_hidden_first choice document_hidden :
  (forall p, p ∈ choice.1.2 -> ~ needs_bare p) -> hidden_first (passes_of choice document_hidden).
Proof.
  destruct choice as [[default_passes manual_passes] document_private]. cbn [fst snd].
  intros Hman. unfold passes_of. rewrite List.filter_app, List.map_app.
  set (ds := List.map pass (List.filter _ (defaults default_passes))).
  set (ms := List.map pass (List.filter _ (List.map always _))).
  assert (Hms : forall p, p ∈ ms -> ~ needs_bare p).
  { intros q Hin. apply Hman. unfold ms in Hin. apply list_elem_of_In, in_map_iff in Hin as (p & Hp & Hin).
    apply filter_In in Hin as [Hin _]. apply in_map_iff in Hin as (n & <- & Hin). cbn in Hp. subst n.
    apply list_elem_of_In, list_elem_of_omap in Hin as (n & Hn & Hf).
    unfold find_pass in Hf. apply find_some in Hf as [_ Hf%bool_decide_eq_true]. by subst n. }
  assert (Hds : hidden_first ds).
  { unfold ds. clear. destruct default_passes, document_private, document_hidden; cbn;
      repeat first [apply hidden_first_none; by apply no_needs_bare
                   |apply hidden_first_here; by apply no_needs_bare
                   |apply hidden_first_cons; [done..|]]. }
  intros l1 p l2 Heq Hp. apply app_eq_inv in Heq as [(k & Hk1 & Hk2)|(k & -> & Hk2)].
  - destruct k as [|p' k]; cbn in Hk2; [destruct (Hms p); [rewrite <- Hk2; set_solver|done]|].
    injection Hk2 as <- ->. by apply (Hds l1 p k).
  - destruct (Hms p); [rewrite Hk2; set_solver|done].
Qed.

(** ** Properties *)

(** The strippers of hidden items, of private items, of impls and of imports never
    panic on a crate in which nothing is stripped twice, whatever they have recorded; they
    only drop items or (the first two) mark them as stripped, and leave the names, the
    attributes, the visibilities and the ids as they are. *)
Lemma strippers_return `{HashOrder} (c : Crate) (Hc : single_strip_crate c) :
  (forall s : HiddenStripper, returns (fold_crate c s) (fun r =>
     pruned_crate true r.1 c /\ single_strip_crate r.1)) /\
  (forall levels (s : Stripper levels), returns (fold_crate c s) (fun r =>
     pruned_crate true r.1 c /\ single_strip_crate r.1)) /\
  (forall s : ImplStripper, returns (fold_crate c s) (fun r =>
     pruned_crate false r.1 c /\ single_strip_crate r.1)) /\
  (forall s : ImportStripper, returns (fold_crate c s) (fun r =>
     pruned_crate false r.1 c /\ single_strip_crate r.1)).
Proof.
  split_and!; intros.
  - exact (fold_crate_returns (F := HiddenStripper) c s Hc).
  - exact (fold_crate_returns (F := Stripper levels) c s Hc).
  - exact (fold_crate_returns (F := ImplStripper) c s Hc).
  - exact (fold_crate_returns (F := ImportStripper) c s Hc).
Qed.

Lemma strippers_return_witness :
  exists r, fold_crate (H0 := canonical_order) sample_krate (mk_HiddenStripper ∅ true) = Ret r /\
    pruned_crate true r.1 sample_krate /\
    (is_hidden sample_hidden, is_hidden sample_free) = (true, false).
Proof.
  destruct (strippers_return (H := canonical_order) sample_krate (sample_single_strip "c"))
    as (Hr & _). specialize (Hr (mk_HiddenStripper ∅ true)).
  destruct (fold_crate sample_krate _) as [r| |]; [|destruct Hr|destruct Hr].
  exists r. destruct Hr as [Hp _]. split_and!; [reflexivity|exact Hp|reflexivity].
Defined.

(** C19: [strip_hidden] never panics on a crate of modules without stripped items. Of the
    items that are left every hidden one is stripped, and the functions that are left are
    exactly those that are not marked as hidden. *)
Theorem hidden_items_are_stripped `{HashOrder} (c : Crate) (Hc : crate_wf c) (Hb : bare c) :
  returns (strip_hidden c) (fun c' => crate_wf c' /\ pruned_crate true c' c /\
    root_satisfies (all_below hidden_stripped) c' /\
    functions_match (fun d => is_hidden d = false) c' c).
Proof. by apply strip_hidden_returns. Qed.

Lemma sample_crate_wf name : crate_wf (sample_crate name).
Proof. split; [apply sample_single_strip|]. exists sample_root. apply sample_rooted. Qed.

Lemma sample_bare name : bare (sample_crate name).
Proof. intros root y [= <-] Hu. exact (sample_unstripped _ (under_below _ _ Hu)). Qed.

Lemma hidden_items_are_stripped_witness :
  returns (strip_hidden (H := canonical_order) sample_krate) (fun c' =>
    ~ free_function c' [] sample_hidden /\
    exists d, free_function c' [] d /\ same_code d sample_free).
Proof.
  pose proof (hidden_items_are_stripped (H := canonical_order) sample_krate
    (sample_crate_wf "c") (sample_bare "c")) as Hr.
  apply (returns_mono _ _ _ Hr). intros c' (_ & _ & _ & Hm). destruct (Hm []) as [H1 H2]. split.
  - intros (d & _ & Hs & Hd)%H1. apply hidden_same_code in Hs. rewrite Hd in Hs. discriminate Hs.
  - apply H2; [|reflexivity]. apply (sample_free_in "c").
Defined.



(** The passes over the documentation never panic when the documentation can be
    unindented, before and after it is collapsed. They change nothing but the documentation
    of the items: the tree, the other attributes, the visibilities and the ids stay, no item
    is lost, and the functions of the crate are the same. What they leave can be collapsed
    and unindented again. *)
Lemma documentation_passes_keep_the_code `{HashOrder} (c : Crate) (Hc : crate_wf c)
    (Hd : crate_docs_ok c) :
  returns (collapse_docs c) (fun c' => crate_wf c' /\ crate_docs_ok c' /\
    redocumented_crate c' c /\ functions_match (fun _ => True) c' c) /\
  returns (unindent_comments c) (fun c' => crate_wf c' /\ crate_docs_ok c' /\
    redocumented_crate c' c /\ functions_match (fun _ => True) c' c).
Proof. split; by apply doc_pass_returns. Qed.

(** A function with three lines of documentation. *)
Definition documented_free : Item :=
  with_docs sample_free [SugaredDoc 0 " a"; SugaredDoc 1 ""; SugaredDoc 2 "   b"].
Definition documented_root : Item :=
  sample_module None Visibility.Public 0 [documented_free].
Definition documented_crate : Crate :=
  mk_Crate "c" None (filename sample_source) (Some documented_root) [] [] ∅ ∅.

Lemma documented_crate_wf : crate_wf documented_crate.
Proof.
  split; [split|].
  - intros m [= <-]. constructor; [done|]. intros c Hc. each Hc.
    constructor; [done|]. intros d Hd. by apply not_elem_of_nil in Hd.
  - intros k t i Hk. cbn in Hk. by rewrite lookup_empty in Hk.
  - exists documented_root. split; [done|by eexists].
Qed.

Lemma documented_crate_docs_ok : crate_docs_ok documented_crate.
Proof.
  split.
  - intros m [= <-]. apply all_below_unfold. split; [split; constructor|].
    intros c Hc. each Hc. apply all_below_unfold. split.
    + split; repeat first [apply Forall_nil_2 | apply Forall_cons_2];
        first [reflexivity | by left | right; by apply Nat.leb_le].
    + intros d Hd. by apply not_elem_of_nil in Hd.
  - intros k t i Hk. cbn in Hk. by rewrite lookup_empty in Hk.
Qed.

Lemma documentation_passes_keep_the_code_witness :
  exists c' c'', collapse_docs (H := canonical_order) documented_crate = Ret c' /\
    unindent_comments (H := canonical_order) documented_crate = Ret c'' /\
    redocumented_crate c' documented_crate /\ redocumented_crate c'' documented_crate /\
    (root ← krate_module c'; (fun d => doc_strings (item_attrs d)) <$> members (item_inner root) !! 0) =
      Some [SugaredDoc 0 (join nl [" a"; ""; "   b"])].
Proof.
  destruct (documentation_passes_keep_the_code (H := canonical_order) documented_crate
    documented_crate_wf documented_crate_docs_ok) as [H1 H2].
  remember (collapse_docs documented_crate) as r1 eqn:Heq1.
  destruct r1 as [c'| |]; [|destruct H1..].
  destruct (unindent_comments documented_crate) as [c''| |]; [|destruct H2..].
  exists c', c''. split_and!; [reflexivity|reflexivity|apply H1|apply H2|].
  vm_compute in Heq1. injection Heq1 as ->. vm_compute. reflexivity.
Defined.

(** C17: the passes never panic when the documentation can be unindented, the passes that
    read compiler data are harmless and nothing is stripped at the beginning or before the
    hidden items are stripped and the impls collected, which is so for the default passes.
    When they are done the crate holds exactly the functions that the chosen passes leave:
    no hidden one when hidden items are stripped, only exported ones when private items
    are. *)
Theorem passes_leave_the_documented_functions `{HashOrder} (levels : AccessLevels)
    (run_pass : string -> Crate -> outcome Crate) (default_passes : DefaultPassOption)
    (manual_passes : list string) (document_private document_hidden : bool)
    (c : Crate) (root : Item)
    (Hroot : rooted c root) (Hs : single_strip_crate c) (Hb : bare c)
    (Hfirst : hidden_first (passes_of
      (read_attributes root default_passes manual_passes document_private) document_hidden))
    (Hdocs : crate_docs_ok c)
    (Hharm : forall p, reads_compiler p -> harmless run_pass crate_docs_ok p) :
  returns (run_passes run_pass levels default_passes manual_passes document_private
             document_hidden c) (fun r =>
    functions_match (documented levels (passes_of
      (read_attributes root default_passes manual_passes document_private) document_hidden))
      r.1 c).
Proof.
  unfold run_passes. rewrite (proj1 Hroot). cbn [unwrap mbind outcome_bind].
  eapply returns_bind.
  - eapply (run_all_returns run_pass levels crate_docs_ok); try done.
    + intros c1 c0. apply crate_docs_ok_pruned.
    + intros p _. by apply Hharm.
    + split; [done|by exists root].
  - intros c' (_ & _ & Hm). by apply returns_ret.
Qed.

Lemma sample_docs_ok : crate_docs_ok (sample_crate "c").
Proof.
  split.
  - intros root [= <-]. apply sample_below. intros i Hi. unfold sample_items in Hi. unfold documented_ok.
    each Hi; (split; constructor).
  - intros k t i Hk. unfold sample_crate in Hk. cbn in Hk. by rewrite lookup_empty in Hk.
Qed.

Lemma same_passes_harmless W p : harmless (fun _ c => Ret c) W p.
Proof.
  intros c Hc HWc _. apply returns_ret. split_and!; [done..|].
  apply functions_match_exact; [by intros|done].
Qed.

Lemma passes_leave_the_documented_functions_witness :
  returns (run_passes (H := canonical_order) (fun _ c => Ret c) sample_levels Default []
             false false sample_krate) (fun r =>
    ~ free_function r.1 [] sample_hidden /\
    (forall path, ~ free_function r.1 path sample_internal) /\
    exists d, free_function r.1 [] d /\ same_code d sample_free).
Proof.
  pose proof (passes_leave_the_documented_functions (H := canonical_order) sample_levels
    (fun _ c => Ret c) Default [] false false sample_krate sample_root (sample_rooted "c")
    (sample_single_strip "c") (sample_bare "c")
    (passes_hidden_first (Default, [], false) false (no_needs_bare [] eq_refl)) sample_docs_ok
    (fun p _ => same_passes_harmless _ p)) as Hr.
  apply (returns_mono _ _ _ Hr). intros r Hm. split_and!.
  - intros (d & _ & Hs & Hd & _)%(proj1 (Hm [])). apply hidden_same_code in Hs.
    rewrite Hd in Hs; [discriminate Hs|].
    apply (bool_decide_unpack _). vm_compute. done.
  - intros path (d & _ & Hs & _ & Hd)%(proj1 (Hm path)). destruct Hs as (_ & _ & _ & _ & Hid).
    unfold exported_if_local in Hd. rewrite <- Hid in Hd.
    specialize (Hd ltac:(apply (bool_decide_unpack _); vm_compute; done) eq_refl). vm_compute in Hd. discriminate Hd.
  - apply (proj2 (Hm [])); [apply (sample_free_in "c")|]. split; [done|].
    by intros _ _.
Defined.
