(* ===== verification/CfgPassCorrect.v ===== *)
(** What [propagate_doc_cfg] computes: an item asks for what it and the items around it
    asked for. *)

From S2P Require Import Prelude RustStd MetaItems Cfg CfgCorrect CleanTypes CleanItems.
From S2P Require Import DocFold Pruning DocPasses CfgPass UnindentCorrect Passes PassesCorrect.
From S2P Require Import ItemTree DocPassesCorrect ItemSamples PassesSpec PassesRun Visitors.

(** ** The tree *)

(** [i'] is [i] below an item that asks for [p]. *)
Inductive propagated : option Cfg -> Item -> Item -> Prop :=
| propagated_item p i' i :
    same_but_docs i' i -> shape (item_inner i') = shape (item_inner i) ->
    doc_strings (item_attrs i') = doc_strings (item_attrs i) ->
    cfg (item_attrs i') = join_cfg p (cfg (item_attrs i)) ->
    Forall2 (propagated (cfg (item_attrs i'))) (members (item_inner i')) (members (item_inner i)) ->
    propagated p i' i.

Lemma propagated_inv p i' i : propagated p i' i ->
  same_but_docs i' i /\ shape (item_inner i') = shape (item_inner i) /\
  doc_strings (item_attrs i') = doc_strings (item_attrs i) /\
  cfg (item_attrs i') = join_cfg p (cfg (item_attrs i)) /\
  Forall2 (propagated (cfg (item_attrs i'))) (members (item_inner i')) (members (item_inner i)).
Proof. by inversion 1. Qed.

Lemma propagated_redocumented i : forall p i', propagated p i' i -> redocumented i' i.
Proof.
  induction i as [i IH] using item_members_ind.
  intros p i' (Hh & Hs & _ & _ & Hm)%propagated_inv. constructor; [done..|].
  eapply Forall2_mono; [|exact Hm]. intros x' x Hx. by apply IH.
Qed.

Lemma fold_item_propagates i : single_strip i -> forall s : CfgPropagator,
  returns (fold_item i s) (fun r => r.2 = s /\ exists i', r.1 = Some i' /\ propagated (parent_cfg s) i' i).
Proof.
  induction i as [i IH] using item_members_ind. intros [Hi Hm] s.
  rewrite fold_item_unfold, override_edits. cbn [edit CfgPropagator_Redocumenter mbind outcome_bind mret outcome_ret].
  set (new := join_cfg (parent_cfg s) (cfg (item_attrs i))). cbn [fst snd]. eapply returns_bind.
  - apply (fold_item_recur_returns fold_item (fun l l' s1 =>
      s1 = mk_CfgPropagator new /\ Forall2 (propagated new) l' l)); [done|by split; [|constructor]|].
    intros l1 c l2 out s1 Hl [-> Hout]. cbn in Hl.
    assert (Hc : c ∈ members (item_inner i)).
    { rewrite Hl. apply elem_of_app. right. apply list_elem_of_here. }
    eapply returns_mono; [by apply (IH c Hc); auto|]. intros [r s2] (-> & c' & -> & Hcc).
    split; [done|]. apply Forall2_app; [done|]. by constructor.
  - intros [r s1] (i' & -> & Hh & Hs & _ & Hk). apply returns_ret. cbn [fst snd leave].
    split; [by destruct s|]. exists i'. split; [done|].
    destruct Hh as (Hn & Ha & Hv & Hd & Hfile). cbn in Hn, Ha, Hv, Hd, Hfile.
    constructor; rewrite ?Ha; try done. by split_and!; rewrite ?Ha.
Qed.

(** ** What an item asks for *)

(** [x] is [i] or in it, and [cs] is what the items from [i] to [x] ask for. *)
Inductive asks : Item -> Item -> list Cfg -> Prop :=
| asks_here i : asks i i (option_list (cfg (item_attrs i)))
| asks_below i c x cs :
    c ∈ members (item_inner i) -> asks c x cs ->
    asks i x (option_list (cfg (item_attrs i)) ++ cs).

Definition join_all (p : option Cfg) (cs : list Cfg) : option Cfg :=
  foldl (fun p c => join_cfg p (Some c)) p cs.

Lemma join_option p o : join_cfg p o = join_all p (option_list o).
Proof. by destruct p, o. Qed.

(** The item [x'] after the pass, for [x]. *)
Definition shown (p : option Cfg) (cs : list Cfg) (x' x : Item) : Prop :=
  redocumented x' x /\ doc_strings (item_attrs x') = doc_strings (item_attrs x) /\
  cfg (item_attrs x') = join_all p cs.

Lemma propagated_asks i x cs : asks i x cs -> forall p i', propagated p i' i ->
  exists x', below i' x' /\ shown p cs x' x.
Proof.
  induction 1 as [i|i c x cs Hc _ IH]; intros p i' Hp;
    pose proof (propagated_redocumented _ _ _ Hp) as Hr;
    apply propagated_inv in Hp as (_ & _ & Hd & Hcfg & Hm); rewrite join_option in Hcfg.
  - exists i'. split; [constructor|done].
  - apply list_elem_of_lookup_1 in Hc as [j Hj].
    destruct (Forall2_lookup_r _ _ _ _ _ Hm Hj) as (c' & Hc' & Hcc).
    destruct (IH _ _ Hcc) as (x' & Hx' & Hr' & Hd' & Hcfg'). exists x'. split.
    + apply (below_member _ c'); [by eapply list_elem_of_lookup_2|done].
    + split_and!; [done..|]. rewrite Hcfg', Hcfg. unfold join_all. by rewrite foldl_app.
Qed.

Lemma asks_propagated x' i' : below i' x' -> forall p i, propagated p i' i ->
  exists x cs, asks i x cs /\ shown p cs x' x.
Proof.
  induction 1 as [i'|i' c' x' Hc' _ IH]; intros p i Hp;
    pose proof (propagated_redocumented _ _ _ Hp) as Hr;
    apply propagated_inv in Hp as (_ & _ & Hd & Hcfg & Hm); rewrite join_option in Hcfg.
  - exists i, (option_list (cfg (item_attrs i))). split; [constructor|done].
  - apply list_elem_of_lookup_1 in Hc' as [j Hj].
    destruct (Forall2_lookup_l _ _ _ _ _ Hm Hj) as (c & Hc & Hcc).
    destruct (IH _ _ Hcc) as (x & cs & Hx & Hr' & Hd' & Hcfg').
    exists x, (option_list (cfg (item_attrs i)) ++ cs). split.
    + apply (asks_below i c); [by eapply list_elem_of_lookup_2|done].
    + split_and!; [done..|]. rewrite Hcfg', Hcfg. unfold join_all. by rewrite foldl_app.
Qed.

(** The meaning of what was joined. *)
Lemma join_all_matches config cs : forall p,
  Cfg.matches config (default Cfg.True_ (join_all p cs)) =
  Cfg.matches config (default Cfg.True_ p) && forallb (Cfg.matches config) cs.
Proof.
  induction cs as [|c cs IH]; intros p; cbn [join_all foldl forallb]; [by rewrite andb_true_r|].
  change (foldl _ (join_cfg p (Some c)) cs) with (join_all (join_cfg p (Some c)) cs).
  rewrite IH, andb_assoc. f_equal. destruct p as [a|]; cbn [join_cfg default]; [|done].
  apply bitand_matches.
Qed.

Lemma join_all_normal cs : forall p,
  normal (default Cfg.True_ p) = true -> Forall (fun c => normal c = true) cs ->
  normal (default Cfg.True_ (join_all p cs)) = true.
Proof.
  induction cs as [|c cs IH]; intros p Hp Hcs; [done|]. inversion Hcs; subst.
  apply (IH (join_cfg p (Some c))); [|done].
  destruct p as [a|]; cbn [join_cfg default] in *; [by apply bitand_normal|done].
Qed.

(** ** The crate *)

(** [x] is an item of the crate; the items around it and itself ask for [cs]. *)
Definition asked (c : Crate) (x : Item) (cs : list Cfg) : Prop :=
  (exists root, krate_module c = Some root /\ asks root x cs) \/
  exists k t i, external_traits c !! k = Some t /\ i ∈ trait_items t /\ asks i x cs.

Lemma propagate_returns `{HashOrder} c :
  single_strip_crate c ->
  returns (propagate_doc_cfg c) (fun c' => mapped_crate (propagated None) c' c).
Proof.
  intros [Hm Ht]. unfold propagate_doc_cfg. eapply returns_bind.
  - apply (fold_crate_maps (propagated None) single_strip (fun s => s = mk_CfgPropagator None));
      [|exact Hm|exact Ht|done].
    intros i s Hi ->. by apply (fold_item_propagates i Hi (mk_CfgPropagator None)).
  - intros r [_ Hr]. by apply returns_ret.
Qed.

Lemma mapped_items R c' c :
  mapped_crate R c' c ->
  (forall x', crate_item c' x' -> exists i' i,
     R i' i /\ below i' x' /\ forall x cs, asks i x cs -> asked c x cs) /\
  (forall x cs, asked c x cs -> exists i' i,
     R i' i /\ asks i x cs /\ forall x', below i' x' -> crate_item c' x').
Proof.
  intros Hr. split.
  - intros x' [(root' & Hroot & Hx)|(k & t' & i' & Hk & Hi & Hx)].
    + pose proof (rc_module _ _ _ Hr) as Hm. rewrite Hroot in Hm.
      inversion Hm as [? root Hp Heq Heq'|]; subst. exists root', root. split_and!; [done..|].
      intros x cs Ha. left. by exists root.
    + pose proof (rc_traits _ _ _ Hr k) as Ht. rewrite Hk in Ht.
      inversion Ht as [? t [_ Hall] Heq Heq'|]; subst. apply list_elem_of_lookup_1 in Hi as [j Hj].
      destruct (Forall2_lookup_l _ _ _ _ _ Hall Hj) as (i & Hi & Hp).
      exists i', i. split_and!; [done..|]. intros x cs Ha. right. exists k, t, i.
      split_and!; [done|by eapply list_elem_of_lookup_2|done].
  - intros x cs [(root & Hroot & Hx)|(k & t & i & Hk & Hi & Hx)].
    + pose proof (rc_module _ _ _ Hr) as Hm. rewrite Hroot in Hm.
      inversion Hm as [root' ? Hp Heq Heq'|]; subst. exists root', root. split_and!; [done..|].
      intros x' Hx'. left. by exists root'.
    + pose proof (rc_traits _ _ _ Hr k) as Ht. rewrite Hk in Ht.
      inversion Ht as [t' ? [_ Hall] Heq Heq'|]; subst. apply list_elem_of_lookup_1 in Hi as [j Hj].
      destruct (Forall2_lookup_r _ _ _ _ _ Hall Hj) as (i' & Hi' & Hp).
      exists i', i. split_and!; [done..|]. intros x' Hx'. right. exists k, t', i'.
      split_and!; [done|by eapply list_elem_of_lookup_2|done].
Qed.

(** The item [x'] stands for [x], and its configuration for [cs]. *)
Definition shows (x' x : Item) (cs : list Cfg) : Prop :=
  redocumented x' x /\ doc_strings (item_attrs x') = doc_strings (item_attrs x) /\
  (Forall (fun c => normal c = true) cs -> normal (default Cfg.True_ (cfg (item_attrs x'))) = true) /\
  forall config, Cfg.matches config (default Cfg.True_ (cfg (item_attrs x'))) =
    forallb (Cfg.matches config) cs.

Lemma shown_shows x' x cs : shown None cs x' x -> shows x' x cs.
Proof.
  intros (Hr & Hd & Hc). split_and!; [done|done|..].
  - intros Hcs. rewrite Hc. by apply join_all_normal.
  - intros config. by rewrite Hc, join_all_matches.
Qed.

(** ** Properties *)

(** C23: [propagate_doc_cfg] never panics on a crate in which nothing is stripped twice, and
    changes nothing but configurations. The items of the new crate are those of the old
    one, each with a configuration that holds exactly when the configurations of the item
    and of all the items around it hold, in normal form if these are. *)
Theorem configurations_are_handed_down `{HashOrder} (c : Crate) (Hc : single_strip_crate c) :
  returns (propagate_doc_cfg c) (fun c' => redocumented_crate c' c /\
    (forall x', crate_item c' x' -> exists x cs, asked c x cs /\ shows x' x cs) /\
    (forall x cs, asked c x cs -> exists x', crate_item c' x' /\ shows x' x cs)).
Proof.
  eapply returns_mono; [by apply propagate_returns|]. intros c' Hr.
  destruct (mapped_items _ _ _ Hr) as [Hto Hfrom]. split_and!.
  - eapply mapped_crate_mono; [|exact Hr]. intros i' i. apply propagated_redocumented.
  - intros x' Hx'. destruct (Hto x' Hx') as (i' & i & Hp & Hb & Ha).
    destruct (asks_propagated _ _ Hb _ _ Hp) as (x & cs & Hx & Hs).
    exists x, cs. split; [by apply Ha|by apply shown_shows].
  - intros x cs Hx. destruct (Hfrom x cs Hx) as (i' & i & Hp & Ha & Hb).
    destruct (propagated_asks _ _ _ Ha _ _ Hp) as (x' & Hx' & Hs).
    exists x'. split; [by apply Hb|by apply shown_shows].
Qed.

(** A function for Unix in a module for tests. *)
Definition cfg_attributes (name : string) : ItemAttributes :=
  mk_ItemAttributes [] [] (Some (word_cfg name)) true.
Definition sample_unix : Item := sample_fn (cfg_attributes "unix") "g" 9.
Definition sample_cfg_root : Item :=
  mk_Item None (cfg_attributes "test") (ModuleItem (mk_Module [sample_unix; sample_free] false))
    Visibility.Public (mk_DefId 0 0) sample_source.
Definition sample_cfg_crate : Crate := mk_Crate "c" None (filename sample_source) (Some sample_cfg_root) [] [] ∅ ∅.

Lemma sample_cfg_single : single_strip_crate sample_cfg_crate.
Proof.
  split; [|intros k t i Hk; cbn in Hk; by rewrite lookup_empty in Hk]. intros m [= <-].
  apply unstripped_single_strip, all_below_unfold. split; [done|]. intros c Hc. cbn in Hc.
  each Hc; apply all_below_unfold; (split; [done|]); intros d Hd; by apply not_elem_of_nil in Hd.
Qed.

Lemma configurations_are_handed_down_witness :
  exists c', propagate_doc_cfg (H := canonical_order) sample_cfg_crate = Ret c' /\
    (fun root => (fun d => cfg (item_attrs d)) <$> members (item_inner root)) <$> krate_module c' =
      Some [Some (Cfg.All [word_cfg "test"; word_cfg "unix"]); Some (word_cfg "test")] /\
    redocumented_crate c' sample_cfg_crate /\
    exists x', crate_item c' x' /\ shows x' sample_unix [word_cfg "test"; word_cfg "unix"].
Proof.
  pose proof (configurations_are_handed_down (H := canonical_order) sample_cfg_crate sample_cfg_single)
    as Hr.
  assert (Hcomp : (fun c' => (fun root => (fun d => cfg (item_attrs d)) <$> members (item_inner root))
      <$> krate_module c') <$> propagate_doc_cfg (H := canonical_order) sample_cfg_crate =
    Ret (Some [Some (Cfg.All [word_cfg "test"; word_cfg "unix"]); Some (word_cfg "test")]))
    by (vm_compute; reflexivity).
  destruct (propagate_doc_cfg sample_cfg_crate) as [c'| |]; [|destruct Hr|destruct Hr].
  exists c'. cbn in Hcomp. injection Hcomp as Hcomp. destruct Hr as (Hre & _ & Hfrom).
  split_and!; [done|exact Hcomp|exact Hre|]. apply Hfrom. left. exists sample_cfg_root.
  split; [done|]. apply (asks_below sample_cfg_root sample_unix sample_unix [word_cfg "unix"]).
  - apply list_elem_of_here.
  - apply (asks_here sample_unix).
Defined.
