(* ===== verification/CollectCorrect.v ===== *)
(** What [collect_trait_impls] adds to a crate: impls only, at the end of the root, and of
    those that other crates have the ones that concern the crate. *)

From S2P Require Import Prelude RustStd CleanTypes CleanItems DocFold Pruning.
From S2P Require Import DocPasses Passes CollectImpls PassesCorrect ItemTree UnindentCorrect.
From S2P Require Import DocPassesCorrect Visitors ItemSamples PassesSpec PassesRun.

(** ** The folders look at the items *)

#[export] Instance ItemCollector_Visitor : Visitor ItemCollector.
Proof.
  refine {| visit := fun i self =>
    mret (mk_ItemCollector ({[item_def_id i]} ∪ collected self)); descends := fun _ => true |}.
  by intros recur i s.
Defined.

#[export] Instance SyntheticImplCollector_Visitor {X} (tcx : Tcx X) :
  Visitor (SyntheticImplCollector tcx).
Proof.
  refine {| visit := fun i (self : SyntheticImplCollector tcx) =>
    s ← is_struct i;
    e ← (if s : bool then mret true else is_enum i);
    u ← (if e : bool then mret true else is_union i);
    if u && negb (is_doc_hidden tcx (item_def_id i)) then
      r ← auto_and_blanket_impls tcx (item_def_id i) (synth_cx self);
      mret (mk_SyntheticImplCollector r.2 (impls self ++ r.1))
    else mret self; descends := fun _ => true |}.
  intros recur i s. change (override recur i s) with (synthetic_fold_item tcx recur i s).
  unfold synthetic_fold_item.
  destruct (is_struct i) as [s0| |]; [cbn [mbind outcome_bind]|done..].
  destruct (if s0 : bool then _ else _) as [e| |]; [cbn [mbind outcome_bind]|done..].
  destruct (if e : bool then _ else _) as [u| |]; [cbn [mbind outcome_bind]|done..].
  destruct (u && _); [|done]. by destruct (auto_and_blanket_impls _ _ _).
Defined.

(** ** The same crate *)

Lemma Forall2_compose {A} (R S T : A -> A -> Prop) l1 l2 l3 :
  (forall x y z, z ∈ l3 -> R x y -> S y z -> T x z) ->
  Forall2 R l1 l2 -> Forall2 S l2 l3 -> Forall2 T l1 l3.
Proof.
  intros HT H12 H23. revert l1 H12.
  induction H23 as [|y z l2 l3 Hyz _ IH]; intros l1 H12; inversion H12; subst; constructor.
  - eapply HT; [apply list_elem_of_here|done..].
  - apply IH; [|done]. intros a b c Hc. apply HT. by apply list_elem_of_further.
Qed.

Lemma redocumented_trans i1 i2 i3 :
  redocumented i1 i2 -> redocumented i2 i3 -> redocumented i1 i3.
Proof.
  revert i1 i2. induction i3 as [i3 IH] using item_members_ind.
  intros i1 i2 (Hh & Hs & Hm)%redocumented_inv (Hh' & Hs' & Hm')%redocumented_inv.
  constructor; [by etrans|congruence|].
  eapply Forall2_compose; [|exact Hm|exact Hm']. intros x y z Hz. by apply IH.
Qed.

Lemma unchanged_crate_trans c1 c2 c3 :
  unchanged_crate c1 c2 -> unchanged_crate c2 c3 -> unchanged_crate c1 c3.
Proof.
  intros [Hp Hr] [Hp' Hr']. split; [by etrans|]. destruct Hr, Hr'. split; try congruence.
  - destruct rc_module as [i1 i2 H12|]; inversion rc_module0 as [? i3 H23 Heq Heq'|]; subst;
      constructor. by eapply redocumented_trans.
  - intros k. specialize (rc_traits k). specialize (rc_traits0 k).
    destruct rc_traits as [t1 t2 [Hs H12]|]; inversion rc_traits0 as [? t3 [Hs' H23] Heq Heq'|];
      subst; constructor. split; [congruence|].
    eapply Forall2_compose; [|exact H12|exact H23]. intros x y z _. apply redocumented_trans.
Qed.

(** The ids of the items of a crate. *)
Definition crate_id (c : Crate) (d : DefId) : Prop := exists x, crate_item c x /\ item_def_id x = d.

Lemma redocumented_ids i' i x : redocumented i' i -> below i x ->
  exists x', below i' x' /\ item_def_id x' = item_def_id x.
Proof.
  intros Hr%redocumented_sym%redocumented_edited Hx.
  destruct (pruned_below _ _ _ _ _ Hr Hx) as (x' & Hx' & Hp).
  apply pruned_inv in Hp as ((_ & _ & _ & Hd & _) & _). by exists x'.
Qed.

Lemma redocumented_crate_ids c' c d : redocumented_crate c' c -> crate_id c d -> crate_id c' d.
Proof.
  intros Hr (x & [(root & Hroot & Hx)|(k & t & i & Hk & Hi & Hx)] & <-).
  - pose proof (rc_module _ _ _ Hr) as Hm. rewrite Hroot in Hm.
    inversion Hm as [root' ? Hp Heq Heq'|]; subst.
    destruct (redocumented_ids _ _ _ Hp Hx) as (x' & Hx' & Hd). exists x'. split; [|done].
    left. by exists root'.
  - pose proof (rc_traits _ _ _ Hr k) as Ht. rewrite Hk in Ht.
    inversion Ht as [t' ? [_ Hall] Heq Heq'|]; subst. apply list_elem_of_lookup_1 in Hi as [j Hj].
    destruct (Forall2_lookup_r _ _ _ _ _ Hall Hj) as (i' & Hi' & Hp).
    destruct (redocumented_ids _ _ _ Hp Hx) as (x' & Hx' & Hd). exists x'. split; [|done].
    right. exists k, t', i'. split_and!; [done|by eapply list_elem_of_lookup_2|done].
Qed.

Lemma redocumented_crate_sym c' c : redocumented_crate c' c -> redocumented_crate c c'.
Proof.
  intros []. split; try done.
  - destruct rc_module; constructor. by apply redocumented_sym.
  - intros k. destruct (rc_traits k) as [t' t [Hs Hall]|]; constructor. split; [done|].
    apply Forall2_flip. eapply Forall2_impl; [exact Hall|]. intros. by apply redocumented_sym.
Qed.

Lemma collector_returns `{HashOrder} c :
  single_strip_crate c ->
  returns (fold_crate c (mk_ItemCollector ∅)) (fun r => unchanged_crate r.1 c /\
    forall d, d ∈ collected r.2 <-> crate_id c d).
Proof.
  intros Hs. eapply returns_mono.
  - apply (fold_crate_visits (fun l self => forall d, d ∈ collected self <->
      exists x, x ∈ l /\ item_def_id x = d)); [|done|].
    + intros pre i self _ Hself. apply returns_ret. intros d. cbn.
      rewrite elem_of_union, elem_of_singleton, Hself. setoid_rewrite elem_of_app.
      setoid_rewrite list_elem_of_singleton. naive_solver.
    + intros d. cbn. set_solver.
  - intros [c' self] (Hu & l & Hl & Hself). split; [done|]. intros d. cbn in *.
    rewrite Hself. unfold crate_id. setoid_rewrite (fun x => crate_listed_seen _ _ _ x Hl).
    by setoid_rewrite crate_seen_item.
Qed.

(** ** The impls of the compiler *)
Section impls.
Context {X : Type} (tcx : Tcx X) (Q : Item -> Prop).

(** An impl of [Deref], with its target. *)
Definition deref_impl (imp : Impl Item) : Prop :=
  (trait_ imp ≫= def_id unset_cache) = deref_trait tcx.
(** The target of the impl of [Deref] for a type that the stripper keeps. *)
Definition derefs_to (c : BadImplStripper) (it : Item) (target : Type_) : Prop :=
  exists imp, item_inner it = ImplItem imp /\ keep_item c (for_ imp) = true /\ deref_impl imp /\
    deref_target (items imp) = Some target.

(** What the compiler hands over: impls that satisfy [Q], those of [Deref] with a
    target. *)
Definition good_impl (i : Item) : Prop :=
  single_strip i /\ Q i /\
  exists imp, item_inner i = ImplItem imp /\
    (deref_impl imp -> is_Some (deref_target (items imp))).

Record compiler_ok : Prop := {
  auto_ok did cx : returns (auto_and_blanket_impls tcx did cx) (fun r => Forall good_impl r.1);
  inline_ok did cx : returns (inline_impl tcx did cx) (fun r => Forall good_impl r.1)
}.

(** *** What the compiler is asked, and what it hands over

    Each relation reads: from the context [cx0] on, for the list of requests that were made
    so far, these are the items that were handed over, and this is the context left. *)

(** The types that have impls of their own: structures, enumerations and unions that are not
    hidden. *)
Definition asked_type (i : Item) : Prop :=
  (exists k, item_type i = Ret k /\ k ∈ [ItemType.Struct; ItemType.Enum; ItemType.Union_]) /\
  is_doc_hidden tcx (item_def_id i) = false.

Inductive type_impls (cx0 : Cx X) : list Item -> list Item -> Cx X -> Prop :=
| type_impls_none : type_impls cx0 [] [] cx0
| type_impls_asked l its cx i r cx' :
    type_impls cx0 l its cx -> asked_type i ->
    auto_and_blanket_impls tcx (item_def_id i) cx = Ret (r, cx') ->
    type_impls cx0 (l ++ [i]) (its ++ r) cx'
| type_impls_other l its cx i :
    type_impls cx0 l its cx -> ~ asked_type i -> type_impls cx0 (l ++ [i]) its cx.

(** Impls by their ids: each that is not known yet is asked for, and is known from then on. *)
Inductive inlines (cx0 : Cx X) : list DefId -> list Item -> Cx X -> Prop :=
| inlines_none : inlines cx0 [] [] cx0
| inlines_known dids its cx did :
    inlines cx0 dids its cx -> did ∈ inlined cx -> inlines cx0 (dids ++ [did]) its cx
| inlines_new dids its cx did r cx' :
    inlines cx0 dids its cx -> did ∉ inlined cx ->
    inline_impl tcx did (mk_Cx ({[did]} ∪ inlined cx) (cx_rest cx)) = Ret (r, cx') ->
    inlines cx0 (dids ++ [did]) (its ++ r) cx'.

(** Of a list of impls, those that are not known yet. *)
Inductive fresh_impls (cx0 : Cx X) : list Item -> list Item -> Cx X -> Prop :=
| fresh_none : fresh_impls cx0 [] [] cx0
| fresh_known l its cx i :
    fresh_impls cx0 l its cx -> item_def_id i ∈ inlined cx -> fresh_impls cx0 (l ++ [i]) its cx
| fresh_new l its cx i :
    fresh_impls cx0 l its cx -> item_def_id i ∉ inlined cx ->
    fresh_impls cx0 (l ++ [i]) (its ++ [i]) (mk_Cx ({[item_def_id i]} ∪ inlined cx) (cx_rest cx)).

(** The primitive types of other crates: the impl of the type and, unless it is hidden, the
    impls for it that are not known yet. *)
Inductive primitive_type_impls (cx0 : Cx X) : list DefId -> list Item -> Cx X -> Prop :=
| primitive_none : primitive_type_impls cx0 [] [] cx0
| primitive_local dids its cx did :
    primitive_type_impls cx0 dids its cx -> is_local did = true ->
    primitive_type_impls cx0 (dids ++ [did]) its cx
| primitive_hidden dids its cx did r cx' :
    primitive_type_impls cx0 dids its cx -> is_local did = false ->
    inlines cx [did] r cx' -> is_doc_hidden tcx did = true ->
    primitive_type_impls cx0 (dids ++ [did]) (its ++ r) cx'
| primitive_shown dids its cx did r cx1 auto cx2 new cx' :
    primitive_type_impls cx0 dids its cx -> is_local did = false ->
    inlines cx [did] r cx1 -> is_doc_hidden tcx did = false ->
    auto_and_blanket_impls tcx did cx1 = Ret (auto, cx2) -> fresh_impls cx2 auto new cx' ->
    primitive_type_impls cx0 (dids ++ [did]) (its ++ r ++ new) cx'.

Lemma inlines_trans cx0 ds1 l1 cx1 ds2 l2 cx2 :
  inlines cx0 ds1 l1 cx1 -> inlines cx1 ds2 l2 cx2 -> inlines cx0 (ds1 ++ ds2) (l1 ++ l2) cx2.
Proof.
  intros H1 H2. induction H2 as [|ds l cx did _ IH Hin|ds l cx did r cx' _ IH Hnot Hr].
  - by rewrite !app_nil_r.
  - rewrite app_assoc. by apply inlines_known.
  - rewrite !app_assoc. by eapply inlines_new.
Qed.

Context (Hok : compiler_ok).

Lemma synthetic_returns `{HashOrder} c cx :
  single_strip_crate c ->
  returns (fold_crate c (mk_SyntheticImplCollector (tcx := tcx) cx [])) (fun r =>
    unchanged_crate r.1 c /\ Forall good_impl (impls r.2) /\
    exists l, crate_listed (fun _ => true) c l /\ type_impls cx l (impls r.2) (synth_cx r.2)).
Proof using Hok.
  intros Hs. eapply returns_mono.
  - apply (fold_crate_visits (fun l self =>
      Forall good_impl (impls self) /\ type_impls cx l (impls self) (synth_cx self)));
      [|done|split; constructor].
    intros l i self Hi [Hself Htrace]. destruct (item_type_returns i Hi) as [kind Hk].
    assert (Hkind : forall k : ItemType,
      (kind ← item_type i; mret (bool_decide (kind = k))) = Ret (bool_decide (kind = k))).
    { intros k. by rewrite Hk. }
    cbn [visit SyntheticImplCollector_Visitor]. unfold is_struct, is_enum, is_union.
    rewrite !Hkind. cbn [mbind outcome_bind].
    set (u := bool_decide (kind = ItemType.Struct) || bool_decide (kind = ItemType.Enum)
      || bool_decide (kind = ItemType.Union_)).
    assert (Hif : forall (k : bool -> outcome (SyntheticImplCollector tcx)),
      (e ← (if bool_decide (kind = ItemType.Struct) then mret true
            else mret (bool_decide (kind = ItemType.Enum)));
       v ← (if e : bool then mret true else mret (bool_decide (kind = ItemType.Union_))); k v) = k u).
    { intros k. subst u. by destruct (bool_decide (kind = ItemType.Struct)),
        (bool_decide (kind = ItemType.Enum)), (bool_decide (kind = ItemType.Union_)). }
    rewrite Hif. clear Hif.
    assert (Hasked : asked_type i <-> u && negb (is_doc_hidden tcx (item_def_id i)) = true).
    { unfold asked_type. rewrite Hk. subst u. rewrite andb_true_iff, negb_true_iff, !orb_true_iff,
        !bool_decide_eq_true. split; intros [H1 H2]; (split; [|exact H2]).
      - destruct H1 as (k & [= <-] & Hin). rewrite !elem_of_cons, elem_of_nil in Hin. tauto.
      - exists kind. rewrite !elem_of_cons. tauto. }
    destruct (u && _) eqn:Hu.
    + destruct (proj1 (returns_exists _ _) (auto_ok Hok (item_def_id i) (synth_cx self)))
        as ([r cx'] & Hr & Hgood). rewrite Hr. cbn [mbind outcome_bind fst snd]. apply returns_ret.
      cbn [impls synth_cx]. split; [by apply Forall_app|]. eapply type_impls_asked; [done|tauto|done].
    + apply returns_ret. split; [done|]. apply type_impls_other; [done|]. by rewrite Hasked.
  - intros [c' self] (Hu & l & Hl & Hself & Htrace). split; [done|]. split; [done|]. by exists l.
Qed.

(** What a step of the collection adds to the items: good impls, as the relation says. *)
Definition adds (rel : Cx X -> list Item -> Cx X -> Prop) (st st' : list Item * Cx X) : Prop :=
  exists l, st'.1 = st.1 ++ l /\ rel st.2 l st'.2 /\ Forall good_impl l.

Lemma build_impl_returns did st :
  returns (build_impl tcx did st) (adds (fun cx => inlines cx [did]) st).
Proof using Hok.
  destruct st as [ret cx]. unfold build_impl. case_decide as Hin.
  { apply returns_ret. exists []. cbn. rewrite app_nil_r. split; [done|]. split; [|done].
    apply (inlines_known cx []); [constructor|done]. }
  destruct (proj1 (returns_exists _ _) (inline_ok Hok did (mk_Cx ({[did]} ∪ inlined cx) (cx_rest cx))))
    as ([r cx'] & Hr & Hgood). rewrite Hr. cbn [mbind outcome_bind fst snd]. apply returns_ret.
  exists r. split; [done|]. split; [|done]. apply (inlines_new cx [] [] cx did r cx'); [constructor|done..].
Qed.

Lemma adds_inlines st st1 st2 ds1 ds2 :
  adds (fun cx => inlines cx ds1) st st1 -> adds (fun cx => inlines cx ds2) st1 st2 ->
  adds (fun cx => inlines cx (ds1 ++ ds2)) st st2.
Proof using.
  intros (l1 & H1 & Hr1 & Hg1) (l2 & H2 & Hr2 & Hg2). exists (l1 ++ l2).
  split; [by rewrite H2, H1, app_assoc|]. split; [by eapply inlines_trans|by apply Forall_app].
Qed.

Lemma adds_nothing st : adds (fun cx => inlines cx []) st st.
Proof using. exists []. rewrite app_nil_r. split; [done|]. split; constructor. Qed.

Lemma build_impls_returns dids st :
  returns (build_impls tcx dids st) (adds (fun cx => inlines cx (concat dids)) st).
Proof using Hok.
  apply (fold_loop_returns _ (fun done => adds (fun cx => inlines cx (concat done)) st));
    [apply adds_nothing|].
  intros done ds _ st1 _ Hst1. rewrite concat_app. cbn [concat]. rewrite app_nil_r.
  eapply returns_mono.
  - apply (fold_loop_returns _ (fun done => adds (fun cx => inlines cx done) st1)); [apply adds_nothing|].
    intros done' did _ st2 _ Hst2. eapply returns_mono; [apply build_impl_returns|].
    intros st3. by apply adds_inlines.
  - intros st2. by apply adds_inlines.
Qed.

Lemma not_inlined_fresh cx0 ret : forall l done its cx,
  fresh_impls cx0 done its cx -> Forall good_impl its -> Forall good_impl l ->
  exists new, (foldl (fun st i => not_inlined (X := X) i st) (ret ++ its, cx) l).1 = ret ++ new /\
    fresh_impls cx0 (done ++ l) new (foldl (fun st i => not_inlined (X := X) i st) (ret ++ its, cx) l).2 /\
    Forall good_impl new.
Proof using.
  induction l as [|i l IH]; intros done its cx Hf Hg Hl; [exists its; by rewrite app_nil_r|].
  apply Forall_cons in Hl as [Hi Hl]. cbn [foldl]. unfold not_inlined at 2 4.
  replace (done ++ i :: l) with ((done ++ [i]) ++ l) by (by rewrite <- app_assoc).
  destruct (decide (item_def_id i ∈ inlined cx)) as [Hin|Hin].
  - apply IH; [by apply fresh_known|done..].
  - rewrite <- app_assoc. apply IH; [by apply fresh_new| |done]. apply Forall_app. by split; [|constructor].
Qed.

Lemma primitive_impl_returns did dids st0 st :
  adds (fun cx => primitive_type_impls cx dids) st0 st ->
  returns (build_primitive_impl tcx did st) (adds (fun cx => primitive_type_impls cx (dids ++ [did])) st0).
Proof using Hok.
  intros (l & Hl & Hr & Hg). unfold build_primitive_impl. destruct (is_local did) eqn:Hloc.
  { apply returns_ret. exists l. split; [done|]. split; [by apply primitive_local|done]. }
  eapply returns_bind; [by apply build_impl_returns|]. intros st1 (l1 & Hl1 & Hr1 & Hg1).
  destruct (is_doc_hidden tcx did) eqn:Hh.
  { apply returns_ret. exists (l ++ l1). split; [by rewrite Hl1, Hl, app_assoc|].
    split; [by eapply primitive_hidden|by apply Forall_app]. }
  destruct (proj1 (returns_exists _ _) (auto_ok Hok did st1.2)) as ([auto cx2] & Hauto & Hga).
  rewrite Hauto. cbn [mbind outcome_bind fst snd]. apply returns_ret.
  destruct (not_inlined_fresh cx2 st1.1 auto [] [] cx2) as (new & Hnew & Hfresh & Hgn);
    [constructor|constructor|done|]. rewrite app_nil_r in Hnew, Hfresh.
  exists (l ++ l1 ++ new). split; [by rewrite Hnew, Hl1, Hl, !app_assoc|].
  split; [by eapply primitive_shown|]. by rewrite !Forall_app.
Qed.

Lemma primitive_impls_returns dids st :
  returns (fold_loop (build_primitive_impl tcx) dids st)
    (adds (fun cx => primitive_type_impls cx dids) st).
Proof using Hok.
  apply (fold_loop_returns _ (fun done => adds (fun cx => primitive_type_impls cx done) st)).
  - exists []. rewrite app_nil_r. split; [done|]. split; constructor.
  - intros done did _ st1 _. apply primitive_impl_returns.
Qed.

Lemma keep_item_mono c0 c t :
  prims c0 ⊆ prims c -> crate_items c0 ⊆ crate_items c -> keep_item c0 t = true ->
  keep_item c t = true.
Proof.
  intros Hp Hi. unfold keep_item. destruct t; [..|done|]; try done.
  all: destruct (primitive_type _); [|destruct (def_id _ _); [|done]];
    rewrite !bool_decide_eq_true; auto.
Qed.

(** The type is in the sets. *)
Definition in_sets (c : BadImplStripper) (t : Type_) : Prop :=
  match primitive_type t with
  | Some p => p ∈ prims c
  | None => forall d, def_id unset_cache t = Some d -> d ∈ crate_items c
  end.

Lemma in_sets_mono c0 c t :
  prims c0 ⊆ prims c -> crate_items c0 ⊆ crate_items c -> in_sets c0 t -> in_sets c t.
Proof. unfold in_sets. destruct (primitive_type t); auto. Qed.

(** The sets of the stripper after the targets are spliced in. *)
Record spliced (new_items : list Item) (c0 c : BadImplStripper) : Prop := {
  sp_prims_from p : p ∈ prims c -> p ∈ prims c0 \/
    exists it t, it ∈ new_items /\ derefs_to c it t /\ primitive_type t = Some p;
  sp_items_from d : d ∈ crate_items c -> d ∈ crate_items c0 \/
    exists it t, it ∈ new_items /\ derefs_to c it t /\ def_id unset_cache t = Some d;
  sp_prims : prims c0 ⊆ prims c;
  sp_items : crate_items c0 ⊆ crate_items c;
  (** The target of an impl for a type of the sets is in. *)
  sp_targets it imp t : it ∈ new_items -> item_inner it = ImplItem imp ->
    keep_item c0 (for_ imp) = true -> deref_impl imp -> deref_target (items imp) = Some t ->
    in_sets c t
}.

(** One impl is a list of one. *)
Lemma splice_step it c :
  good_impl it -> returns (splice_target tcx it c) (spliced [it] c).
Proof.
  intros (_ & _ & imp & Hi & Ht).
  assert (Hsame : (keep_item c (for_ imp) = true -> deref_impl imp -> False) -> spliced [it] c c).
  { intros Hno. split; [by left|by left|done|done|].
    intros it' imp' t ->%list_elem_of_singleton Hi' Hk Hd _. rewrite Hi in Hi'.
    injection Hi' as <-. by destruct (Hno Hk Hd). }
  unfold splice_target. rewrite Hi. destruct (keep_item c (for_ imp)) eqn:Hkeep;
    [|by apply returns_ret, Hsame].
  cbn [andb]. case_bool_decide as Hd; [|by apply returns_ret, Hsame].
  destruct (Ht Hd) as [target Htarget]. rewrite Htarget. cbn [unwrap mbind outcome_bind].
  assert (Hto : forall c', prims c ⊆ prims c' -> crate_items c ⊆ crate_items c' -> derefs_to c' it target).
  { intros c' H1 H2. exists imp. split_and!; [done|by apply (keep_item_mono c)|done..]. }
  assert (Hin : forall c', in_sets c' target -> forall it' imp' t, it' ∈ [it] ->
    item_inner it' = ImplItem imp' -> deref_target (items imp') = Some t -> in_sets c' t).
  { intros c' Hc' it' imp' t ->%list_elem_of_singleton Hi' Ht'. congruence. }
  destruct (primitive_type target) as [p|] eqn:Hp;
    [|destruct (def_id _ _) as [d|] eqn:Hdid]; apply returns_ret; split; cbn; try done.
  all: try (intros q [->%elem_of_singleton|Hq]%elem_of_union;
    [right; exists it, target; rewrite list_elem_of_singleton;
       split_and!; [done|apply Hto; cbn; set_solver|done]|by left]).
  all: try by left.
  all: try apply union_subseteq_r.
  all: intros it' imp' t Hit Hi' _ _; eapply Hin; try done; unfold in_sets; rewrite Hp; cbn.
  - by apply elem_of_union_l, elem_of_singleton.
  - intros d' Hd'. apply elem_of_union_l, elem_of_singleton. congruence.
  - congruence.
Qed.

Lemma spliced_trans l1 l2 c0 c1 c2 :
  spliced l1 c0 c1 -> spliced l2 c1 c2 -> spliced (l1 ++ l2) c0 c2.
Proof.
  intros [Hp Hi Hps His Ht] [Hp' Hi' Hps' His' Ht'].
  assert (Hmono : forall it t, derefs_to c1 it t -> derefs_to c2 it t).
  { intros it t (imp & H1 & H2 & H3 & H4). exists imp.
    split_and!; [done|by apply (keep_item_mono c1)|done..]. }
  split.
  - intros p [[?|(it & t & ? & ? & ?)]%Hp|(it & t & ? & ? & ?)]%Hp'; [by left|right..];
      exists it, t; rewrite elem_of_app; auto.
  - intros d [[?|(it & t & ? & ? & ?)]%Hi|(it & t & ? & ? & ?)]%Hi'; [by left|right..];
      exists it, t; rewrite elem_of_app; auto.
  - by etrans.
  - by etrans.
  - intros it imp t [Hit|Hit]%elem_of_app Hin Hk Hd Hto.
    + eapply in_sets_mono; [done..|]. by eapply Ht.
    + eapply Ht'; [done|done| |done|done]. by eapply keep_item_mono.
Qed.

Lemma splice_returns new_items c0 :
  Forall good_impl new_items ->
  returns (fold_loop (splice_target tcx) new_items c0) (spliced new_items c0).
Proof.
  intros Hall. apply (fold_loop_returns _ (fun done c => spliced done c0 c)).
  { split; [by left|by left|done|done|]. by intros it imp t Hit%not_elem_of_nil. }
  intros pre it post c Hl Hc. rewrite Hl in Hall.
  apply Forall_app in Hall as [_ [Hit _]%Forall_cons].
  eapply returns_mono; [by apply splice_step|]. intros c'. by apply spliced_trans.
Qed.
End impls.

(** ** The crate with the new items *)

Lemma extend_root_returns c root m extras :
  krate_module c = Some root -> item_inner root = ModuleItem m ->
  exists c' root', extend_root c extras = Ret c' /\ krate_module c' = Some root' /\
    external_traits c' = external_traits c /\ krate_name c' = krate_name c /\
    same_header root' root /\
    item_inner root' = ModuleItem (mk_Module (module_items_ m ++ extras) (is_crate m)).
Proof.
  intros Hr Hi. unfold extend_root. rewrite Hr, Hi. by eexists _, _.
Qed.

Section extend.
Context (c c' : Crate) (root root' : Item) (m : Module_ Item) (extras : list Item).
Context (Hr : krate_module c = Some root) (Hi : item_inner root = ModuleItem m).
Context (Hr' : krate_module c' = Some root') (Hh : same_header root' root).
Context (Hi' : item_inner root' = ModuleItem (mk_Module (module_items_ m ++ extras) (is_crate m))).
Context (Htr : external_traits c' = external_traits c).
Context (Hextras : Forall (fun i => single_strip i /\ is_impl i) extras).

Lemma extras_impl i : i ∈ extras -> single_strip i /\ is_impl i.
Proof using Hextras. rewrite Forall_forall in Hextras. apply Hextras. Qed.

Lemma is_impl_leaf i current y : is_impl i -> under (current, i) y -> y = (current, i).
Proof.
  intros [imp Himp] Hu. inversion Hu as [|? ? its ch ? Hm]; subst; [done|].
  unfold module_items in Hm. by rewrite Himp in Hm.
Qed.

Lemma extended_wf : crate_wf c -> crate_wf c'.
Proof using All.
  intros [[Hm Ht] _]. split; [split|].
  - intros ? Heq. rewrite Hr' in Heq. injection Heq as <-. destruct (Hm root Hr) as [_ Hc].
    constructor; [by rewrite Hi'|]. rewrite Hi'. cbn. intros x [Hx|Hx]%elem_of_app.
    + apply Hc. by rewrite Hi.
    + by apply extras_impl.
  - rewrite Htr. exact Ht.
  - exists root'. split; [done|]. unfold module_items. by rewrite Hi'.
Qed.

Lemma extended_under x : under ([], root') x ->
  x = ([], root') \/ under ([], root) x \/ x.2 ∈ extras.
Proof using All.
  intros Hu. inversion Hu as [|? ? its ch ? Hm Hc Hu']; subst; [by left|right].
  unfold module_items in Hm. rewrite Hi' in Hm. injection Hm as <-. destruct Hh as (Hn & _).
  cbn in Hc. apply elem_of_app in Hc as [Hc|Hc].
  - left. eapply under_child; [|exact Hc|by rewrite <- Hn]. unfold module_items. by rewrite Hi.
  - right. destruct (extras_impl _ Hc) as [_ Himp].
    by rewrite (is_impl_leaf _ _ _ Himp Hu').
Qed.

Lemma extended_bare : bare c -> bare c'.
Proof using All.
  intros Hb r y Heq Hu. rewrite Hr' in Heq. injection Heq as <-.
  destruct (extended_under y Hu) as [->|[Hy|Hy]].
  - cbn. unfold is_stripped. by rewrite Hi'.
  - by apply (Hb root).
  - destruct (extras_impl _ Hy) as [_ [imp Himp]]. unfold is_stripped. by rewrite Himp.
Qed.

Lemma extended_functions path d : free_function c' path d <-> free_function c path d.
Proof using All.
  split.
  - intros (r & its & ch & f & Heq & Hm & Hc & Hu & Hf). rewrite Hr' in Heq. injection Heq as <-.
    unfold module_items in Hm. rewrite Hi' in Hm. injection Hm as <-.
    apply elem_of_app in Hc as [Hc|Hc].
    + exists root, (module_items_ m), ch, f. split_and!; try done. unfold module_items. by rewrite Hi.
    + destruct (extras_impl _ Hc) as [_ Himp]. pose proof (is_impl_leaf _ _ _ Himp Hu) as Heq.
      injection Heq as _ ->. destruct Himp as [imp Himp]. congruence.
  - intros (r & its & ch & f & Heq & Hm & Hc & Hu & Hf). rewrite Hr in Heq. injection Heq as <-.
    unfold module_items in Hm. rewrite Hi in Hm. injection Hm as <-.
    exists root', (module_items_ m ++ extras), ch, f. split_and!; try done.
    + unfold module_items. by rewrite Hi'.
    + apply elem_of_app. by left.
Qed.
End extend.

Lemma bare_root c root : rooted c root -> bare c ->
  exists m, item_inner root = ModuleItem m.
Proof.
  intros [Hr [its (m & _ & [Hm|Hm])%module_items_inv]] Hb; [by exists m|].
  specialize (Hb root ([], root) Hr (under_refl _)). unfold is_stripped in Hb. cbn in Hb.
  by rewrite Hm in Hb.
Qed.

(** What the pass does to a crate, from the context [cx] to [cx']: the items stay, and behind
    them, at the end of the root, come in this order the impls that the compiler hands over for
    the types of the crate; of those for the traits of other crates and then for the primitive
    types the ones that the stripper keeps; and those of the local traits. The stripper starts
    from the primitive types and the ids of the crate. *)
Record trait_impls_added {X} (tcx : Tcx X) (Q : Item -> Prop) (c : Crate) (cx : Cx X)
    (c' : Crate) (cx' : Cx X) : Prop := {
  ta_wf : crate_wf c';
  ta_bare : bare c';
  ta_functions : functions_match (fun _ => True) c' c;
  ta_added : exists c1 visited synth cx1 others cx2 prim cx3 local sets cleaner,
    unchanged_crate c1 c /\ crate_listed (fun _ => true) c visited /\
    type_impls tcx cx visited synth cx1 /\
    inlines tcx cx1 (concat (all_trait_implementations tcx)) others cx2 /\
    primitive_type_impls tcx cx2 (omap id (primitive_impls tcx)) prim cx3 /\
    inlines tcx cx3 (concat (local_trait_impls tcx)) local cx' /\
    extend_root c1 (synth ++ List.filter (keep_impl cleaner) (others ++ prim) ++ local) = Ret c' /\
    Forall (good_impl tcx Q) (synth ++ (others ++ prim) ++ local) /\
    spliced tcx (others ++ prim) sets cleaner /\
    prims sets = list_to_set (List.map snd (krate_primitives c)) /\
    forall d, d ∈ crate_items sets <-> crate_id c d
}.

Lemma good_impls_extra {X} (tcx : Tcx X) Q l :
  Forall (good_impl tcx Q) l -> Forall (fun i => single_strip i /\ is_impl i) l.
Proof.
  intros Hl. eapply Forall_impl; [exact Hl|]. intros i (Hs & _ & imp & Hi & _).
  split; [done|by exists imp].
Qed.

(** The end of the pass. *)
Lemma extend_added {X} (tcx : Tcx X) Q c c1 extras :
  crate_wf c -> bare c -> unchanged_crate c1 c -> Forall (good_impl tcx Q) extras ->
  returns (extend_root c1 extras) (fun c' => crate_wf c' /\ bare c' /\
    functions_match (fun _ => True) c' c).
Proof.
  intros Hc Hb [Hp Hre] Hextras%good_impls_extra.
  pose proof (redocumented_wf _ _ Hre Hc) as Hc1. pose proof (redocumented_bare _ _ Hre Hb) as Hb1.
  destruct Hc1 as [Hs1 [root1 Hroot1]]. destruct (bare_root _ _ Hroot1 Hb1) as [m Hm].
  destruct (extend_root_returns c1 root1 m extras (proj1 Hroot1) Hm)
    as (c' & root' & -> & Hr' & Htr & _ & Hh & Hi').
  apply returns_ret. split_and!.
  - eapply (extended_wf c1 c' root1 root' m extras); try done; [apply Hroot1|].
    split; [done|by exists root1].
  - eapply (extended_bare c1 c' root1 root' m extras); try done; apply Hroot1.
  - eapply functions_match_ext; [|eapply (functions_match_trans (fun _ => True) (fun _ => True));
      [done|by apply redocumented_functions|]]; [tauto|].
    assert (Hf := extended_functions c1 c' root1 root' m extras (proj1 Hroot1) Hm Hr' Hh Hi' Htr Hextras).
    apply functions_match_exact; intros path d Hd; [split; [|done]|intros _]; by apply Hf.
Qed.

Lemma collecting_returns `{HashOrder} {X} (tcx : Tcx X) Q c cx :
  compiler_ok tcx Q -> crate_wf c -> bare c ->
  returns (collect_trait_impls tcx c cx) (fun r => trait_impls_added tcx Q c cx r.1 r.2).
Proof.
  intros Hok Hc Hb. unfold collect_trait_impls.
  eapply returns_bind; [apply (synthetic_returns tcx Q Hok), Hc|].
  intros [c0 synth] (Hu0 & Hsynth & visited & Hvisited & Htypes). cbn [fst snd] in *.
  pose proof (redocumented_wf _ _ (uc_same _ _ Hu0) Hc) as Hc0.
  eapply returns_bind; [apply collector_returns, Hc0|].
  intros [c1 coll] [Hu1 Hids]. cbn [fst snd] in *.
  eapply returns_bind; [by apply (build_impls_returns tcx Q Hok)|].
  intros [others cx2] (others' & Ho & Hothers & Hgo). cbn [fst snd app] in *. subst others'.
  eapply returns_bind; [by apply (primitive_impls_returns tcx Q Hok)|].
  intros [built cx3] (prim & Hbuilt & Hprim & Hgp). cbn [fst snd] in *. subst built.
  assert (Hbuilt : Forall (good_impl tcx Q) (others ++ prim)) by (by apply Forall_app).
  eapply returns_bind; [by apply (splice_returns tcx Q)|]. intros cleaner Hcl.
  eapply returns_bind; [by apply (build_impls_returns tcx Q Hok)|].
  intros st2 (local & Hlocal & Hinl & Hgl). cbn [fst snd] in *. rewrite Hlocal.
  pose proof (unchanged_crate_trans _ _ _ Hu1 Hu0) as Hu.
  assert (Hkept : Forall (good_impl tcx Q) (List.filter (keep_impl cleaner) (others ++ prim))).
  { apply Forall_forall. intros i Hi%list_elem_of_In%filter_In.
    rewrite Forall_forall in Hbuilt. apply Hbuilt, list_elem_of_In, Hi. }
  assert (Hextras : Forall (good_impl tcx Q)
    (impls synth ++ List.filter (keep_impl cleaner) (others ++ prim) ++ local))
    by (by rewrite (Forall_app _ (impls synth)), (Forall_app _ (List.filter _ _))).
  apply returns_exists.
  destruct (proj1 (returns_exists _ _) (extend_added tcx Q c c1 _ Hc Hb Hu Hextras))
    as (c' & Hext & Hwf & Hbare & Hfun).
  rewrite Hext. cbn [mbind outcome_bind]. exists (c', st2.2). split; [done|]. split; try done.
  exists c1, visited, (impls synth), (synth_cx synth), others, cx2, prim, cx3, local.
  eexists _, cleaner. split; [done|]. split; [done|]. split; [done|]. split; [done|].
  split; [done|]. split; [done|]. split; [exact Hext|]. split; [|split; [exact Hcl|cbn; split]].
  - by rewrite (Forall_app _ (impls synth)), (Forall_app _ (others ++ prim)).
  - by rewrite (rc_primitives _ _ _ (uc_same _ _ Hu0)).
  - intros d. rewrite Hids. split; apply redocumented_crate_ids;
      [apply redocumented_crate_sym|]; apply Hu0.
Qed.

(** ** The pass *)

(** C21: [collect_trait_impls], when the compiler hands over impls (those of [Deref] with a
    target) and does not panic, in every iteration order of the hash maps, never panics on
    a crate whose root is a module that is not stripped. The crate keeps its shape, its
    functions are the same, and its items are unchanged but for a list at the end of the root.
    This list holds, in this order: all impls that the compiler hands over for the structures,
    enumerations and unions of the crate that are not hidden, in the order of the items; of the
    impls of the traits of other crates, and of those of the primitive types of other crates
    with the ones for these types unless they are hidden, each of an id that is not known yet, exactly
    those that the stripper keeps; and all impls of the local traits that were not handed over
    before. The stripper knows the primitive types and the ids of the crate, the targets of the
    impls of [Deref] for types that it knew from the beginning, and of others only targets of
    impls of [Deref] for types that it keeps. *)
Theorem trait_impls_are_added `{HashOrder} {X : Type} (tcx : Tcx X) (Q : Item -> Prop)
    (c : Crate) (cx : Cx X)
    (Hok : compiler_ok tcx Q) (Hc : crate_wf c) (Hb : bare c) :
  returns (collect_trait_impls tcx c cx) (fun r => trait_impls_added tcx Q c cx r.1 r.2).
Proof. by apply collecting_returns. Qed.

(** A compiler that knows the impl of a trait of the crate 1 for [T], one for another type of that
    crate, and the impl of the sample crate. *)
Definition sample_trait_impl (for_ : Type_) (index : N) : Item :=
  mk_Item None no_attributes
    (ImplItem (mk_Impl CleanTypes.Normal no_generics ∅ None for_ [] None false None))
    Visibility.Inherited (mk_DefId 1 index) (mk_Span (Real (Named "f.rs")) 0).
Definition foreign_type : Type_ :=
  ResolvedPath (mk_Path false (mk_Res 0) [mk_PathSegment "F" (AngleBracketed [] [])]) None
    (mk_DefId 1 9) false.
Definition sample_tcx : Tcx unit := {|
  get_attrs := fun _ => [];
  auto_and_blanket_impls := fun did cx => Ret ([sample_trait_impl (Generic "T") 3], cx);
  inline_impl := fun did cx => Ret (
    [if decide (did = mk_DefId 1 1) then sample_trait_impl sample_type 1
     else sample_trait_impl foreign_type 2], cx);
  all_trait_implementations := [[mk_DefId 1 1; mk_DefId 1 2]];
  primitive_impls := [];
  local_trait_impls := [];
  deref_trait := Some (mk_DefId 1 8)
|}.

Lemma sample_impl_good (Q : Item -> Prop) for_ index :
  Q (sample_trait_impl for_ index) -> good_impl sample_tcx Q (sample_trait_impl for_ index).
Proof.
  intros HQ. split_and!; [|done|].
  - constructor; [done|]. cbn. intros x Hx. by apply not_elem_of_nil in Hx.
  - eexists. split; [done|]. intros Hd. discriminate Hd.
Qed.

Lemma sample_compiler_ok (Q : Item -> Prop) :
  (forall for_ index, Q (sample_trait_impl for_ index)) -> compiler_ok sample_tcx Q.
Proof.
  intros HQ. split.
  - intros did cx. apply returns_ret. cbn. constructor; [|done]. by apply sample_impl_good.
  - intros did cx. apply returns_ret. cbn. constructor; [|done].
    destruct (decide _); by apply sample_impl_good.
Qed.

Lemma trait_impls_are_added_witness :
  exists c' cx', collect_trait_impls (H := canonical_order) sample_tcx
      (sample_crate "c") (mk_Cx ∅ tt) = Ret (c', cx') /\
    krate_module c' = Some (with_inner_enum sample_root (ModuleItem (mk_Module
      [sample_struct; sample_impl_item; sample_free; sample_hidden; sample_private;
       sample_trait_impl (Generic "T") 3; sample_trait_impl sample_type 1] false))) /\
    trait_impls_added sample_tcx (fun _ => True) (sample_crate "c") (mk_Cx ∅ tt) c' cx'.
Proof.
  pose proof (trait_impls_are_added (H := canonical_order) sample_tcx (fun _ => True)
    (sample_crate "c") (mk_Cx ∅ tt) (sample_compiler_ok (fun _ => True) (fun _ _ => I))
    (conj (sample_single_strip "c") (ex_intro _ sample_root (sample_rooted "c")))
    (sample_bare "c")) as Hr.
  assert (Hm : (fun r : Crate * Cx unit => krate_module r.1) <$>
    collect_trait_impls (H := canonical_order) sample_tcx (sample_crate "c") (mk_Cx ∅ tt) =
    Ret (Some (with_inner_enum sample_root (ModuleItem (mk_Module
      [sample_struct; sample_impl_item; sample_free; sample_hidden; sample_private;
       sample_trait_impl (Generic "T") 3; sample_trait_impl sample_type 1] false)))))
    by (vm_compute; reflexivity).
  destruct (collect_trait_impls sample_tcx (sample_crate "c") _) as [[c' cx']| |]; [|destruct Hr|destruct Hr].
  exists c', cx'. split_and!; [done| |exact Hr]. by injection Hm.
Defined.
