(* ===== verification/RenderCache.v ===== *)
(** The render cache ([html/render/cache.rs]): the crawl over the items of the crate that
    records the paths of the items, the impls of the types, the traits and their
    implementors, and the entries of the search index. The generator reads the paths and
    the impls. *)

From S2P Require Import Prelude RustStd MetaItems CleanTypes CleanItems DocFold Passes.

(** ** The search index ([html/render.rs]) *)
Record IndexGeneric := mk_IndexGeneric {
  generic_name : string;
  generic_defid : option DefId;
  generic_idx : option nat
}.

Record RenderType := mk_RenderType {
  render_ty : option DefId;
  render_idx : option nat;
  render_name : option string;
  render_generics : option (list IndexGeneric)
}.

Record TypeWithKind := mk_TypeWithKind { with_kind_ty : RenderType; with_kind : TypeKind }.

Record IndexItemFunctionType := mk_IndexItemFunctionType {
  index_inputs : list TypeWithKind;
  index_output : option (list TypeWithKind)
}.

Record IndexItem := mk_IndexItem {
  index_ty : ItemType;
  index_name : string;
  index_path : string;
  index_desc : string;
  index_parent : option DefId;
  index_parent_idx : option nat;
  index_search_type : option IndexItemFunctionType
}.

(** [{:?}] on a primitive type. *)
Definition primitive_debug (p : PrimitiveType) : string :=
  match p with
  | PrimitiveType.Isize => "Isize" | PrimitiveType.I8 => "I8" | PrimitiveType.I16 => "I16"
  | PrimitiveType.I32 => "I32" | PrimitiveType.I64 => "I64" | PrimitiveType.I128 => "I128"
  | PrimitiveType.Usize => "Usize" | PrimitiveType.U8 => "U8" | PrimitiveType.U16 => "U16"
  | PrimitiveType.U32 => "U32" | PrimitiveType.U64 => "U64" | PrimitiveType.U128 => "U128"
  | PrimitiveType.F32 => "F32" | PrimitiveType.F64 => "F64" | PrimitiveType.Char => "Char"
  | PrimitiveType.Bool => "Bool" | PrimitiveType.Str => "Str" | PrimitiveType.Slice => "Slice"
  | PrimitiveType.Array => "Array" | PrimitiveType.Tuple => "Tuple"
  | PrimitiveType.Unit => "Unit" | PrimitiveType.RawPointer => "RawPointer"
  | PrimitiveType.Reference => "Reference" | PrimitiveType.Fn => "Fn"
  | PrimitiveType.Never => "Never"
  end.

(** [to_ascii_lowercase]; [to_lowercase] agrees with it on ASCII. *)
Definition ascii_lower (c : Ascii.ascii) : Ascii.ascii :=
  let n := Ascii.nat_of_ascii c in
  if (65 <=? n) && (n <=? 90) then Ascii.ascii_of_nat (n + 32) else c.
Fixpoint to_lowercase (s : string) : string :=
  match s with
  | EmptyString => EmptyString
  | String c s => String (ascii_lower c) (to_lowercase s)
  end.

(** A path without segments panics. *)
Fixpoint get_index_type_name (clean_type : Type_) (accept_generic : bool)
    : outcome (option string) :=
  match clean_type with
  | ResolvedPath path _ _ _ =>
      path_segment ← unwrap (last (path_segments path));
      let 'mk_PathSegment name _ := path_segment in mret (Some name)
  | Generic s => mret (if accept_generic then Some s else None)
  | Primitive p => mret (Some (primitive_debug p))
  | BorrowedRef _ _ type_ => get_index_type_name type_ accept_generic
  | _ => mret None
  end.

Definition get_generics (clean_type : Type_) : outcome (option (list IndexGeneric)) :=
  match generics clean_type with
  | None => mret None
  | Some types =>
      r ← fold_loop (fun t r =>
        name ← get_index_type_name t false;
        mret (r ++ match name with
                   | Some name => [mk_IndexGeneric (to_lowercase name) (def_id unset_cache t) None]
                   | None => []
                   end)) types [];
      mret (if bool_decide (r = []) then None else Some r)
  end.

Definition get_index_type (clean_type : Type_) : outcome RenderType :=
  name ← get_index_type_name clean_type true;
  generics ← get_generics clean_type;
  mret (mk_RenderType (def_id unset_cache clean_type) None (to_lowercase <$> name) generics).

(** The types with a name. *)
Definition index_types (types : list (Type_ * TypeKind)) : outcome (list TypeWithKind) :=
  fold_loop (fun '(ty, kind) r =>
    ty ← get_index_type ty;
    mret (r ++ if bool_decide (is_Some (render_name ty)) then [mk_TypeWithKind ty kind] else []))
    types [].

Definition get_index_search_type (item : Item) : outcome (option IndexItemFunctionType) :=
  match item_inner item with
  | FunctionItem f | MethodItem f | TyMethodItem f =>
      inputs ← index_types (all_types f);
      output ← index_types (ret_types f);
      mret (Some (mk_IndexItemFunctionType inputs
                    (if bool_decide (output = []) then None else Some output)))
  | _ => mret None
  end.

(** ** The cache *)

(** [render::Impl]: an item that is an impl. *)
Record RenderImpl := mk_RenderImpl { impl_item : Item }.

Definition inner_impl (self : RenderImpl) : outcome (Impl Item) :=
  match item_inner (impl_item self) with
  | ImplItem impl_ => mret impl_
  | _ => Panicked
  end.

Definition trait_did (self : RenderImpl) : outcome (option DefId) :=
  impl_ ← inner_impl self;
  mret (trait_ impl_ ≫= def_id unset_cache).

Inductive ExternalLocation := Remote (url : string) | Local | Unknown.

(** The fields that the crawl reads only, [traits] apart; the source files of the
    external crates are left out. *)
Record CacheInfo := mk_CacheInfo {
  external_paths : gmap DefId (list string * ItemType);
  exact_paths : gmap DefId (list string);
  extern_locations : gmap N (string * ExternalLocation);
  primitive_locations : gmap PrimitiveType DefId;
  access_levels : AccessLevels;
  crate_version : option string;
  document_private : bool;
  deref_trait_did : option DefId;
  deref_mut_trait_did : option DefId;
  owned_box_did : option DefId;
  cache_masked_crates : gset N
}.

(** The fields that the crawl changes. *)
Record Crawl (info : CacheInfo) := mk_Crawl {
  impls : gmap DefId (list RenderImpl);
  paths : gmap DefId (list string * ItemType);
  traits : gmap DefId (Trait Item);
  implementors : gmap DefId (list RenderImpl);
  stack : list string;
  parent_stack : list DefId;
  parent_is_trait_impl : bool;
  search_index : list IndexItem;
  stripped_mod : bool;
  orphan_impl_items : list (DefId * Item);
  orphan_trait_impls : list (DefId * gset DefId * RenderImpl);
  aliases : gmap string (list nat)
}.
Arguments mk_Crawl {info}. Arguments impls {info}. Arguments paths {info}.
Arguments traits {info}. Arguments implementors {info}. Arguments stack {info}.
Arguments parent_stack {info}. Arguments parent_is_trait_impl {info}.
Arguments search_index {info}. Arguments stripped_mod {info}.
Arguments orphan_impl_items {info}. Arguments orphan_trait_impls {info}.
Arguments aliases {info}.

(** [Cache]. *)
Record Cache := mk_Cache { cache_info : CacheInfo; cache_crawl : Crawl cache_info }.

(** The last [n - 1] of [n] elements: [v[..v.len() - 1]]. *)
Definition without_last {A} (v : list A) : outcome (list A) :=
  if decide (v = []) then Panicked else mret (take (length v - 1) v).

(** [map.entry(k).or_insert(vec![]).push(x)]. *)
Definition push_entry {K A} `{Countable K} (m : gmap K (list A)) (k : K) (x : A)
    : gmap K (list A) :=
  <[k := default [] (m !! k) ++ [x]]> m.

Section crawl.
Context `{HashOrder} {info : CacheInfo}.
(** The first paragraph of a documentation as one line of plain text, shortened: the
    Markdown renderer of rustdoc. *)
Context (summary : option string -> string).

Abbreviation Crawl := (Crawl info).

(** *** Assignments of fields *)

Definition set_impls (c : Crawl) m : Crawl :=
  mk_Crawl m (paths c) (traits c) (implementors c) (stack c) (parent_stack c)
    (parent_is_trait_impl c) (search_index c) (stripped_mod c) (orphan_impl_items c)
    (orphan_trait_impls c) (aliases c).
Definition set_paths (c : Crawl) m : Crawl :=
  mk_Crawl (impls c) m (traits c) (implementors c) (stack c) (parent_stack c)
    (parent_is_trait_impl c) (search_index c) (stripped_mod c) (orphan_impl_items c)
    (orphan_trait_impls c) (aliases c).
Definition set_traits (c : Crawl) m : Crawl :=
  mk_Crawl (impls c) (paths c) m (implementors c) (stack c) (parent_stack c)
    (parent_is_trait_impl c) (search_index c) (stripped_mod c) (orphan_impl_items c)
    (orphan_trait_impls c) (aliases c).
Definition set_implementors (c : Crawl) m : Crawl :=
  mk_Crawl (impls c) (paths c) (traits c) m (stack c) (parent_stack c)
    (parent_is_trait_impl c) (search_index c) (stripped_mod c) (orphan_impl_items c)
    (orphan_trait_impls c) (aliases c).
Definition set_position (c : Crawl) st ps trait_impl stripped : Crawl :=
  mk_Crawl (impls c) (paths c) (traits c) (implementors c) st ps trait_impl
    (search_index c) stripped (orphan_impl_items c) (orphan_trait_impls c) (aliases c).
Definition set_index (c : Crawl) index m : Crawl :=
  mk_Crawl (impls c) (paths c) (traits c) (implementors c) (stack c) (parent_stack c)
    (parent_is_trait_impl c) index (stripped_mod c) (orphan_impl_items c)
    (orphan_trait_impls c) m.
Definition set_orphans (c : Crawl) items trait_impls : Crawl :=
  mk_Crawl (impls c) (paths c) (traits c) (implementors c) (stack c) (parent_stack c)
    (parent_is_trait_impl c) (search_index c) (stripped_mod c) items trait_impls (aliases c).

(** *** The steps of [fold_item] *)

Definition masked_did (did : option DefId) : bool :=
  match did with
  | Some d => bool_decide (did_krate d ∈ cache_masked_crates info)
  | None => false
  end.

(** The impl is from a masked crate or references something from one. *)
Definition masked (item : Item) : bool :=
  match item_inner item with
  | ImplItem i =>
      masked_did (Some (item_def_id item)) || masked_did (trait_ i ≫= def_id unset_cache)
      || masked_did (def_id unset_cache (for_ i))
  | _ => false
  end.

Definition is_stripped_mod (item : Item) : bool :=
  match item_inner item with StrippedItem (ModuleItem _) => true | _ => false end.

Definition record_trait (item : Item) (self : Crawl) : Crawl :=
  match item_inner item with
  | TraitItem t =>
      match traits self !! item_def_id item with
      | Some _ => self
      | None => set_traits self (<[item_def_id item := t]> (traits self))
      end
  | _ => self
  end.

Definition record_implementor (item : Item) (self : Crawl) : Crawl :=
  match item_inner item with
  | ImplItem i =>
      match trait_ i ≫= def_id unset_cache with
      | Some did =>
          if bool_decide (blanket_impl i = None)
          then set_implementors self (push_entry (implementors self) did (mk_RenderImpl item))
          else self
      | None => self
      end
  | _ => self
  end.

(** The parent of an item in the index with its path, and whether it is an item of an
    inherent impl. *)
Definition owner (item : Item) (self : Crawl)
    : outcome (option DefId * option (list string) * bool) :=
  let assoc_of_parent :=
    match last (parent_stack self) with
    | None => mret (None, None, false)
    | Some did =>
        path ← match paths self !! did with
               | Some (fqp, kind) =>
                   match kind with
                   | ItemType.Trait | ItemType.Struct | ItemType.Union_ | ItemType.Enum =>
                       fqp ← without_last fqp; mret (Some fqp)
                   | _ => mret (Some (stack self))
                   end
               | None => mret None
               end;
        mret (Some did, path, true)
    end in
  match item_inner item with
  | StrippedItem _ => mret (None, None, false)
  | AssocConstItem _ _ =>
      if parent_is_trait_impl self then mret (None, None, false) else assoc_of_parent
  | TypedefItem _ true =>
      if parent_is_trait_impl self then mret (None, None, false)
      else mret (None, Some (stack self), false)
  | AssocTypeItem _ _ | TyMethodItem _ | StructFieldItem _ | VariantItem _ =>
      parent ← unwrap (last (parent_stack self));
      path ← without_last (stack self);
      mret (Some parent, Some path, false)
  | MethodItem _ => assoc_of_parent
  | _ => mret (None, Some (stack self), false)
  end.

(** The push of an entry, and the aliases of the item. *)
Definition add_index (item : Item) (name : string) (path : list string)
    (parent : option DefId) (index : list IndexItem) (al : gmap string (list nat))
    : outcome (list IndexItem * gmap string (list nat)) :=
  ty ← item_type item;
  search_type ← get_index_search_type item;
  let index := index ++ [mk_IndexItem ty name (join "::" path)
                           (summary (doc_value (item_attrs item))) parent None search_type] in
  mret (index, foldl (fun al alias => push_entry al (to_lowercase alias) (length index - 1)) al
                 (hash_order 12 (get_doc_aliases (item_attrs item)))).

Definition index_item (item : Item) (self : Crawl) : outcome Crawl :=
  match item_name item with
  | None => mret self
  | Some s =>
      o ← owner item self;
      let '(parent, path, is_inherent_impl_item) :=
        (o : option DefId * option (list string) * bool) in
      match parent, path with
      | _, Some path =>
          if is_inherent_impl_item || negb (stripped_mod self) then
            if bool_decide (did_index (item_def_id item) <> CRATE_DEF_INDEX) then
              r ← add_index item s path parent (search_index self) (aliases self);
              mret (set_index self r.1 r.2)
            else mret self
          else mret self
      | Some parent, None =>
          if is_inherent_impl_item
          then mret (set_orphans self (orphan_impl_items self ++ [(parent, item)])
                       (orphan_trait_impls self))
          else mret self
      | None, None => mret self
      end
  end.

(** The items that have a path of their own. *)
Definition pathable (e : ItemEnum Item) : bool :=
  match e with
  | StructItem _ | EnumItem _ | TypedefItem _ _ | TraitItem _ | FunctionItem _ | ModuleItem _
  | ForeignFunctionItem _ | ForeignStaticItem _ | ConstantItem _ | StaticItem _ | UnionItem _
  | ForeignTypeItem | MacroItem _ | ProcMacroItem _ | VariantItem _ => true
  | _ => false
  end.

Definition record_path (item : Item) (self : Crawl) : outcome Crawl :=
  let insert :=
    kind ← item_type item;
    mret (set_paths self (<[item_def_id item := (stack self, kind)]> (paths self))) in
  match item_inner item with
  | PrimitiveItem _ => insert
  | e =>
      if pathable e && negb (stripped_mod self) then
        if bool_decide (paths self !! item_def_id item = None)
           || is_public (access_levels info) (item_def_id item)
        then insert
        else mret self
      else mret self
  end.

Definition primitive_location (t : Type_) : option DefId :=
  p ← primitive_type t; primitive_locations info !! p.

(** What the item pushes on the stack of parents, and whether the items in it are those
    of an impl of a trait. *)
Definition parent_of (item : Item) (self : Crawl) : option DefId * bool :=
  match item_inner item with
  | TraitItem _ | EnumItem _ | ForeignTypeItem | StructItem _ | UnionItem _ | VariantItem _ =>
      (Some (item_def_id item), false)
  | ImplItem i =>
      (match for_ i with
       | ResolvedPath _ _ did _ => Some did
       | t => primitive_location t
       end, bool_decide (is_Some (trait_ i)))
  | _ => (None, parent_is_trait_impl self)
  end.

(** The ids of the types that an impl is listed at. *)
Definition impl_dids (i : Impl Item) : gset DefId :=
  match for_ i with
  | ResolvedPath _ _ did _ | BorrowedRef _ _ (ResolvedPath _ _ did _) => {[did]}
  | t => list_to_set (option_list (primitive_location t))
  end ∪
  match trait_ i ≫= generics with
  | Some bounds => list_to_set (omap (def_id unset_cache) bounds)
  | None => ∅
  end.

Definition push_impl (dids : gset DefId) (impl_ : RenderImpl)
    (m : gmap DefId (list RenderImpl)) : gmap DefId (list RenderImpl) :=
  foldl (fun m did => push_entry m did impl_) m (hash_order 13 dids).

(** The impls are taken out of the tree. *)
Definition hoard_impl (item : Item) (self : Crawl) : outcome (option Item * Crawl) :=
  match item_inner item with
  | ImplItem i =>
      let dids := impl_dids i in
      let impl_ := mk_RenderImpl item in
      trait ← trait_did impl_;
      match trait with
      | Some d =>
          if bool_decide (is_Some (traits self !! d))
          then mret (None, set_impls self (push_impl dids impl_ (impls self)))
          else mret (None, set_orphans self (orphan_impl_items self)
                             (orphan_trait_impls self ++ [(d, dids, impl_)]))
      | None => mret (None, set_impls self (push_impl dids impl_ (impls self)))
      end
  | _ => mret (Some item, self)
  end.

(** [Vec::pop] with [expect]. *)
Definition pop_expect {A} (pushed : bool) (v : list A) : outcome (list A) :=
  if pushed then if decide (v = []) then Panicked else mret (vec_pop v) else mret v.

Definition crawl_fold_item (recur : Item -> Crawl -> outcome (option Item * Crawl))
    (item : Item) (self : Crawl) : outcome (option Item * Crawl) :=
  let orig_stripped_mod := stripped_mod self in
  let self := set_position self (stack self) (parent_stack self) (parent_is_trait_impl self)
                (is_stripped_mod item || stripped_mod self) in
  if masked item then mret (None, self)
  else
    let self := record_implementor item (record_trait item self) in
    self ← index_item item self;
    let pushed :=
      match item_name item with
      | Some n => negb (bool_decide (n = EmptyString))
      | None => false
      end in
    let self := set_position self
      (if pushed then stack self ++ option_list (item_name item) else stack self)
      (parent_stack self) (parent_is_trait_impl self) (stripped_mod self) in
    self ← record_path item self;
    let orig_parent_is_trait_impl := parent_is_trait_impl self in
    let '(parent, trait_impl) := parent_of item self in
    let self := set_position self (stack self) (parent_stack self ++ option_list parent)
                  trait_impl (stripped_mod self) in
    r ← recur item self;
    r ← match r.1 with
        | Some item => hoard_impl item r.2
        | None => mret r
        end;
    let '(ret, self) := (r : option Item * Crawl) in
    st ← pop_expect pushed (stack self);
    ps ← pop_expect (bool_decide (is_Some parent)) (parent_stack self);
    mret (ret, set_position self st ps orig_parent_is_trait_impl orig_stripped_mod).

Lemma crawl_fold_item_local r1 r2 i s :
  (forall j s, item_inner j = item_inner i -> r1 j s = r2 j s) ->
  crawl_fold_item r1 i s = crawl_fold_item r2 i s.
Proof.
  intros Hr. pose proof (fun s => Hr i s eq_refl) as Heq.
  unfold crawl_fold_item. destruct (masked i); [done|].
  destruct (index_item _ _); [|done..]. cbn [mbind outcome_bind].
  destruct (record_path _ _); [|done..]. cbn [mbind outcome_bind].
  destruct (parent_of _ _). by rewrite Heq.
Qed.
End crawl.

(** The folder: the Markdown renderer is fixed. *)
Class Summary := summary : option string -> string.

#[export] Instance Crawl_DocFolder `{HashOrder} `{Summary} info : DocFolder (Crawl info) := {|
  override := crawl_fold_item summary; override_local := crawl_fold_item_local summary
|}.

(** ** The index of the crate *)

(** What is serialised to JSON. *)
Record CrateData := mk_CrateData {
  data_doc : string;
  data_items : list IndexItem;
  data_paths : list (ItemType * string);
  data_aliases : gmap string (list nat)
}.

Section build.
Context `{HashOrder} `{Summary} {info : CacheInfo}.
(** [serde_json::to_string]. *)
Context (to_json : CrateData -> string).

Definition index_orphan (c : Crawl info) (orphan : DefId * Item)
    (st : list IndexItem * gmap string (list nat))
    : outcome (list IndexItem * gmap string (list nat)) :=
  let '(did, item) := orphan in
  match paths c !! did with
  | Some (fqp, _) =>
      name ← unwrap (item_name item);
      path ← without_last fqp;
      add_index summary item name path (Some did) st.1 st.2
  | None => mret st
  end.

(** The local variables of the loop that numbers the parents. *)
Record Numbering := mk_Numbering {
  defid_to_pathid : gmap DefId nat;
  crate_paths : list (ItemType * string);
  lastpath : string;
  lastpathid : nat;
  crate_items : list IndexItem
}.

Definition number_parent (c : Crawl info) (parent : option DefId) (st : Numbering)
    : outcome (option nat * Numbering) :=
  match parent with
  | None => mret (None, st)
  | Some defid =>
      match defid_to_pathid st !! defid with
      | Some pathid => mret (Some pathid, st)
      | None =>
          let pathid := lastpathid st in
          let ids := <[defid := pathid]> (defid_to_pathid st) in
          match paths c !! defid with
          | Some (fqp, short) =>
              name ← unwrap (last fqp);
              mret (Some pathid, mk_Numbering ids (crate_paths st ++ [(short, name)])
                                   (lastpath st) (S pathid) (crate_items st))
          | None =>
              mret (None, mk_Numbering ids (crate_paths st) (lastpath st) (S pathid)
                            (crate_items st))
          end
      end
  end.

Definition number_item (c : Crawl info) (item : IndexItem) (st : Numbering)
    : outcome Numbering :=
  r ← number_parent c (index_parent item) st;
  let '(parent_idx, st) := (r : option nat * Numbering) in
  let same := bool_decide (lastpath st = index_path item) in
  mret (mk_Numbering (defid_to_pathid st) (crate_paths st)
    (if same then lastpath st else index_path item) (lastpathid st)
    (crate_items st ++ [mk_IndexItem (index_ty item) (index_name item)
       (if same then EmptyString else index_path item) (index_desc item) (index_parent item)
       parent_idx (index_search_type item)])).

(** Where the serialisers of [IndexItem] and of [IndexItemFunctionType] panic. *)
Definition serialize_search_type (t : IndexItemFunctionType) : outcome () :=
  match index_output t with
  | Some [] =>
      if existsb (fun i => bool_decide (render_name (with_kind_ty i) = None)) (index_inputs t)
      then mret () else Panicked
  | _ => mret ()
  end.

Definition serialize_item (item : IndexItem) : outcome () :=
  if bool_decide (is_Some (index_parent item) <-> is_Some (index_parent_idx item)) then
    match index_search_type item with
    | Some t => serialize_search_type t
    | None => mret ()
    end
  else Panicked.

Definition backslash : string := String (Ascii.ascii_of_nat 92) EmptyString.
Definition quote : string := String (Ascii.ascii_of_nat 39) EmptyString.

Definition escape_json (s : string) : string :=
  str_replace (str_replace (str_replace s backslash (backslash +:+ backslash))
                 quote (backslash +:+ quote))
    (backslash +:+ dquote) (backslash +:+ backslash +:+ dquote).

Definition build_index (krate : Crate) (c : Crawl info) : outcome (string * Crawl info) :=
  r ← fold_loop (index_orphan c) (orphan_impl_items c) (search_index c, aliases c);
  st ← fold_loop (number_item c) r.1 (mk_Numbering ∅ [] EmptyString 0 []);
  let crate_doc :=
    match krate_module krate with
    | Some module => summary (doc_value (item_attrs module))
    | None => EmptyString
    end in
  _ ← fold_loop (fun item _ => serialize_item item) (crate_items st) ();
  mret (dquote +:+ krate_name krate +:+ dquote +:+ ":" +:+
          escape_json (to_json (mk_CrateData crate_doc (crate_items st) (crate_paths st) r.2)),
        set_index c (crate_items st) r.2).
End build.

(** ** [Cache::from_krate] *)
Record RenderInfo := mk_RenderInfo {
  ri_external_paths : gmap DefId (list string * TypeKind);
  ri_exact_paths : gmap DefId (list string);
  ri_access_levels : AccessLevels;
  ri_deref_trait_did : option DefId;
  ri_deref_mut_trait_did : option DefId;
  ri_owned_box_did : option DefId
}.

Definition ends_with (s : string) (c : Ascii.ascii) : bool :=
  bool_decide (last (String.list_ascii_of_string s) = Some c).
Definition slash : Ascii.ascii := Ascii.ascii_of_nat 47.

Definition remote (url : string) : ExternalLocation :=
  Remote (if ends_with url slash then url else url +:+ String slash EmptyString).

(** [is_dir]: whether the documentation of the crate is in the output directory. *)
Definition extern_location (is_dir : string -> bool) (e : ExternalCrate)
    (extern_url : option string) : ExternalLocation :=
  if is_dir (extern_name e) then Local
  else
    match extern_url with
    | Some url => remote url
    | None =>
        match omap value_str
                (List.filter (fun a => check_name a "html_root_url") (lists (extern_attrs e) "doc"))
        with
        | url :: _ => remote url
        | [] => Unknown
        end
    end.

Section from_krate.
Context `{HashOrder} `{Summary} (to_json : CrateData -> string) (is_dir : string -> bool).

Definition add_primitive (m : gmap PrimitiveType DefId) (p : DefId * PrimitiveType)
    : gmap PrimitiveType DefId := <[p.2 := p.1]> m.

(** The primitive types of the local crate win over those of the external crates, and the
    first external crates over the later ones. *)
Definition all_primitive_locations (krate : Crate) : gmap PrimitiveType DefId :=
  foldl add_primitive
    (foldl (fun m e => foldl add_primitive m (extern_primitives (snd e))) ∅
       (reverse (krate_externs krate)))
    (krate_primitives krate).

Definition initial_info (renderinfo : RenderInfo) (private : bool)
    (extern_html_root_urls : gmap string string) (krate : Crate) : CacheInfo :=
  {| external_paths :=
       foldl (fun m '(n, e) =>
         <[mk_DefId n CRATE_DEF_INDEX := ([extern_name e], ItemType.Module_)]> m)
         ((fun p => (fst p, TypeKind.to_item_type (snd p))) <$> ri_external_paths renderinfo)
         (krate_externs krate);
     exact_paths := ri_exact_paths renderinfo;
     extern_locations :=
       foldl (fun m '(n, e) =>
         <[n := (extern_name e,
                 extern_location is_dir e (extern_html_root_urls !! extern_name e))]> m)
         ∅ (krate_externs krate);
     primitive_locations := all_primitive_locations krate;
     access_levels := ri_access_levels renderinfo;
     crate_version := krate_version krate;
     document_private := private;
     deref_trait_did := ri_deref_trait_did renderinfo;
     deref_mut_trait_did := ri_deref_mut_trait_did renderinfo;
     owned_box_did := ri_owned_box_did renderinfo;
     cache_masked_crates := masked_crates krate |}.

(** The traits of other crates move from the crate to the cache. *)
Definition initial_crawl (info : CacheInfo) (krate : Crate) : Crawl info :=
  mk_Crawl ∅ ∅ (external_traits krate) ∅ [krate_name krate] [] false [] false [] [] ∅.

Definition taken (krate : Crate) : Crate :=
  mk_Crate (krate_name krate) None (krate_src krate) (krate_module krate) (krate_externs krate)
    (krate_primitives krate) ∅ ∅.

(** The impls of traits that were met after them. *)
Definition adopt_impl {info} (c : Crawl info) (orphan : DefId * gset DefId * RenderImpl)
    : Crawl info :=
  let '(trait_did, dids, impl_) := orphan in
  if bool_decide (is_Some (traits c !! trait_did))
  then set_impls c (push_impl dids impl_ (impls c)) else c.

Definition adopt_impls {info} (c : Crawl info) : Crawl info :=
  set_orphans (foldl adopt_impl c (orphan_trait_impls c)) (orphan_impl_items c) [].

Definition from_krate (renderinfo : RenderInfo) (private : bool)
    (extern_html_root_urls : gmap string string) (krate : Crate)
    : outcome (Crate * string * Cache) :=
  let info := initial_info renderinfo private extern_html_root_urls krate in
  r ← fold_crate (taken krate) (initial_crawl info krate);
  let '(krate, crawl) := (r : Crate * Crawl info) in
  i ← build_index to_json krate (adopt_impls crawl);
  mret (krate, i.1, mk_Cache info i.2).
End from_krate.
