(* ===== verification/DocSummary.v ===== *)
(** The summaries of the search index ([html/render.rs]): the first paragraph of the
    documentation on one line, as plain text, shortened to 60 characters. *)

From S2P Require Import Prelude RustStd LangString MdEvents RenderCache.

(** ** Summaries *)

(** [s.split_whitespace()]. *)
Definition split_whitespace (s : string) : list string :=
  List.filter (fun w => negb (String.eqb w EmptyString)) (split_where all_whitespace (chars s)).

(** The words that [take_while] takes; [len] counts them and the spaces behind them. *)
Fixpoint take_words (len : nat) (words : list string) : list string :=
  match words with
  | [] => []
  | p :: words =>
      let len := len + (length (chars p) + 1) in
      if len <? 60 then p :: take_words len words else []
  end.

Definition shorten (s : string) : string :=
  if 60 <? length (chars s) then join " " (take_words 0 (split_whitespace s)) +:+ "…" else s.

Fixpoint skip_while {A} (p : A -> bool) (l : list A) : list A :=
  match l with [] => [] | x :: l' => if p x then skip_while p l' else l end.
Fixpoint take_while {A} (p : A -> bool) (l : list A) : list A :=
  match l with [] => [] | x :: l => if p x then x :: take_while p l else [] end.

(** The first paragraph: the lines up to a blank one, each with a space behind it but for the
    last one. *)
Definition first_paragraph (s : string) : string :=
  let line := foldl (fun acc line => acc +:+ line +:+ " ") EmptyString
    (take_while (fun line => negb (all_whitespace line)) (skip_while all_whitespace (lines s))) in
  String.substring 0 (String.length line - 1) line.

Definition plain_summary_line {X} (parser : string -> list (Event X)) (s : option string) : string :=
  MdEvents.plain_summary_line (parser (first_paragraph (default EmptyString s))).

(** What the index shows of an item. *)
Definition shown_summary {X} (parser : string -> list (Event X)) : Summary :=
  fun doc => shorten (plain_summary_line parser doc).

(** ** The number of characters *)

Lemma chars_nonempty c s : chars (String c s) <> [].
Proof. cbn. destruct (inside_char s); [|done]. by destruct (chars s). Qed.

Lemma chars_length c s : length (chars (String c s)) = (if inside_char s then 0 else 1) + length (chars s).
Proof.
  cbn. destruct (inside_char s) eqn:Hi; [|done]. destruct s as [|d s]; [done|].
  pose proof (chars_nonempty d s). by destruct (chars (String d s)).
Qed.

Lemma chars_app a b : length (chars (a +:+ b)) <= length (chars a) + length (chars b).
Proof.
  induction a as [|c a IH]; [done|]. change (String c a +:+ b) with (String c (a +:+ b)).
  rewrite !chars_length. destruct a as [|d a].
  - change (EmptyString +:+ b) with b. cbn. destruct (inside_char b); lia.
  - replace (inside_char (String d a +:+ b)) with (inside_char (String d a)) by done. lia.
Qed.

Lemma take_words_length words : forall len, len < 60 ->
  length (chars (join " " (take_words len words))) <= 59 - len.
Proof.
  induction words as [|p words IH]; intros len Hlen; cbn [take_words]; [cbn; lia|].
  destruct (Nat.ltb_spec (len + (length (chars p) + 1)) 60) as [Hlt|]; [|cbn; lia].
  specialize (IH _ Hlt). destruct (take_words _ words) as [|w ws]; [cbn [join]; lia|].
  change (join " " (p :: w :: ws)) with (p +:+ (" " +:+ join " " (w :: ws))).
  pose proof (chars_app p (" " +:+ join " " (w :: ws))). pose proof (chars_app " " (join " " (w :: ws))).
  change (length (chars " ")) with 1 in *. lia.
Qed.

(** A summary of the index has at most 60 characters. *)
Lemma shown_summaries_are_short {X} (parser : string -> list (Event X)) doc :
  length (chars (shown_summary parser doc)) <= 60.
Proof.
  unfold shown_summary, shorten. destruct (Nat.ltb_spec 60 (length (chars (plain_summary_line parser doc)))); [|done].
  pose proof (chars_app (join " " (take_words 0 (split_whitespace (plain_summary_line parser doc)))) "…").
  pose proof (take_words_length (split_whitespace (plain_summary_line parser doc)) 0).
  change (length (chars "…")) with 1 in *. lia.
Qed.
