(* ===== verification/TestCollect.v ===== *)
(** The collection of documentation tests: [find_testable_code] of [html/markdown.rs], the
    [Collector] and the walk over the items of [test.rs], and [test] of [markdown.rs]. *)

From S2P Require Import Prelude RustStd TextLines FileSystem MetaItems Cfg CleanTypes CleanItems DocAttributes.
From S2P Require Import DocPasses IdMap LangString MdEvents DocTest.

(** ** [Tester] *)

(** The trait: what takes the tests and the headings of a text. *)
Class Tester (T : Type) := {
  add_test : string -> LangString -> nat -> T -> outcome T;
  get_line : T -> nat;
  register_header : string -> nat -> T -> outcome T
}.

Section find.
Context {X : Type} (unicode_alphanumeric : string -> bool).

(** The text of a block; the event behind it is taken as well. *)
Fixpoint take_texts (events : list (Event X * nat)) : string * list (Event X * nat) :=
  match events with
  | (Text s, _) :: events => let '(test_s, rest) := take_texts events in (s +:+ test_s, rest)
  | _ :: events => (EmptyString, events)
  | [] => (EmptyString, [])
  end.

Definition block_info (error_codes enable_per_target_ignores : bool) (kind : CodeBlockKind) : LangString :=
  match kind with
  | Fenced lang =>
      if String.eqb lang EmptyString then all_false
      else parse unicode_alphanumeric lang error_codes enable_per_target_ignores
  | Indented => all_false
  end.

(** What is reported when there is a place for it. *)
Definition block_reports (extra error_codes : bool) (kind : CodeBlockKind) : list (string * string) :=
  match kind with
  | Fenced lang => if extra then parse_reports unicode_alphanumeric lang error_codes else []
  | Indented => []
  end.

Record Finding {T : Type} := mk_Finding {
  fd_tests : T;
  prev_offset : nat;
  nb_lines : nat;
  pending_header : option nat;
  fd_reports : list (string * string)
}.

(** The loop over the events, each with the place where it starts. *)
Fixpoint find_loop `{Tester T} (doc : string) (error_codes enable_per_target_ignores extra : bool) (fuel : nat)
    (events : list (Event X * nat)) (st : Finding (T := T)) : outcome (Finding (T := T)) :=
  let recur := find_loop doc error_codes enable_per_target_ignores extra in
  match fuel, events with
  | S fuel, (event, start) :: events =>
      match event with
      | Start (CodeBlock kind) =>
          let info := block_info error_codes enable_per_target_ignores kind in
          let reports := fd_reports st ++ block_reports extra error_codes kind in
          if negb (rust info) then
            recur fuel events (mk_Finding T (fd_tests st) (prev_offset st) (nb_lines st) (pending_header st) reports)
          else
            let '(test_s, events) := take_texts events in
            part ← str_slice doc (prev_offset st) start;
            let nb := nb_lines st + length (lines part) in
            tests ← add_test (tested_text test_s) info (get_line (fd_tests st) + nb + 1) (fd_tests st);
            recur fuel events (mk_Finding T tests start nb (pending_header st) reports)
      | Start (Heading level) =>
          recur fuel events (mk_Finding T (fd_tests st) (prev_offset st) (nb_lines st) (Some level) (fd_reports st))
      | Text s =>
          match pending_header st with
          | Some level =>
              tests ← register_header s level (fd_tests st);
              recur fuel events (mk_Finding T tests (prev_offset st) (nb_lines st) None (fd_reports st))
          | None => recur fuel events st
          end
      | _ => recur fuel events st
      end
  | _, _ => mret st
  end.

Definition find_testable_code `{Tester T} (parser : string -> list (Event X * nat)) (doc : string) (tests : T)
    (error_codes enable_per_target_ignores extra : bool) : outcome (T * list (string * string)) :=
  let events := parser doc in
  st ← find_loop doc error_codes enable_per_target_ignores extra (length events) events
         (mk_Finding T tests 0 0 None []);
  mret (fd_tests st, fd_reports st).
End find.
Arguments Finding : clear implicits.

(** ** [Collector] *)

(** The options that the collector reads. *)
Record CollectOptions := mk_CollectOptions {
  co_edition : Edition;
  co_target : string;
  persist_doctests : option path
}.

(** A test that is collected, with what its run gets; the directory of a test that is not
    kept is a fresh one. *)
Record Doctest := mk_Doctest {
  dt_name : string;
  dt_ignore : bool;
  dt_allow_fail : bool;
  dt_text : string;
  dt_config : LangString;
  dt_line : nat;
  dt_edition : Edition;
  dt_outdir : option path
}.

(** The position: the name of the file, and the line when there is a source map. *)
Record Collector := mk_Collector {
  tests : list Doctest;
  names : list string;
  co_options : CollectOptions;
  use_headers : bool;
  co_per_target : bool;
  co_cratename : string;
  position_file : string;
  position_line : option nat;
  visited_tests : gmap (string * nat) nat;
  co_fs : Fs
}.

Definition Collector_new (cratename : string) (options : CollectOptions) (use_headers per_target : bool)
    (fs : Fs) : Collector :=
  mk_Collector [] [] options use_headers per_target cratename "<input>" None ∅ fs.

Definition set_position (file : string) (line : option nat) (self : Collector) : Collector :=
  mk_Collector (tests self) (names self) (co_options self) (use_headers self) (co_per_target self)
    (co_cratename self) file line (visited_tests self) (co_fs self).
Definition set_names (names : list string) (self : Collector) : Collector :=
  mk_Collector (tests self) names (co_options self) (use_headers self) (co_per_target self)
    (co_cratename self) (position_file self) (position_line self) (visited_tests self) (co_fs self).

Definition generate_name (self : Collector) (line : nat) (filename : string) : string :=
  let item_path := join "::" (names self) in
  let item_path := if String.eqb item_path EmptyString then item_path else item_path +:+ " " in
  filename +:+ " - " +:+ item_path +:+ "(line " +:+ usize_to_string line +:+ ")".

Definition is_byte (n : nat) (c : Ascii.ascii) : bool := Ascii.nat_of_ascii c =? n.

(** The name of a file with [/] and [.] replaced. *)
Fixpoint folder_name (filename : string) : string :=
  match filename with
  | EmptyString => EmptyString
  | String c s =>
      String (if is_byte 47 c || is_byte 46 c then Ascii.ascii_of_nat 95 else c) (folder_name s)
  end.
Definition test_dir (folder : string) (line number : nat) : string :=
  folder +:+ "_" +:+ usize_to_string line +:+ "_" +:+ usize_to_string number.

Definition is_test_ignored (ignore : Ignore) (target_str : string) : bool :=
  match ignore with
  | IgnoreAll => true
  | IgnoreNone => false
  | IgnoreSome ignores => existsb (fun s => str_contains target_str s) ignores
  end.

Definition collector_add_test (test : string) (config : LangString) (line : nat) (self : Collector)
    : outcome Collector :=
  let filename := position_file self in
  r ← match persist_doctests (co_options self) with
      | Some path =>
          let folder := folder_name filename in
          let number := match visited_tests self !! (folder, line) with Some v => v + 1 | None => 0 end in
          let path := path_join path (test_dir folder line number) in
          fs ← create_dir_all (co_fs self) path;
          mret (Some path, <[(folder, line) := number]> (visited_tests self), fs)
      | None => mret (None, visited_tests self, co_fs self)
      end;
  let '(outdir, visited, fs) := r in
  let t := mk_Doctest (generate_name self line filename) (is_test_ignored (ignore config) (co_target (co_options self)))
    (allow_fail config) test config line (default (co_edition (co_options self)) (lang_edition config)) outdir in
  mret (mk_Collector (tests self ++ [t]) (names self) (co_options self) (use_headers self) (co_per_target self)
    (co_cratename self) (position_file self) (position_line self) visited fs).

Definition collector_get_line (self : Collector) : nat :=
  match position_line self with
  | Some line => if 0 <? line then line - 1 else line
  | None => 0
  end.

Section collector.
(** [rustc_lexer::is_id_start] and [is_id_continue] beyond ASCII. *)
Context (unicode_id_start unicode_id_continue : string -> bool).

Definition is_letter (a : Ascii.ascii) : bool := ascii_in 65 90 a || ascii_in 97 122 a || is_byte 95 a.
Definition is_id_start (c : string) : bool :=
  match c with String a EmptyString => is_letter a | _ => unicode_id_start c end.
Definition is_id_continue (c : string) : bool :=
  match c with String a EmptyString => is_letter a || is_ascii_digit a | _ => unicode_id_continue c end.

Definition id_char (i : nat) (c : string) : string :=
  if (i =? 0) && is_id_start c || negb (i =? 0) && is_id_continue c then c else "_".
Definition header_name (name : string) : string :=
  foldr String.append EmptyString (imap id_char (chars name)).

(** The names with a heading of this level behind them. *)
Definition put_header (names : list string) (level : nat) (name : string) : outcome (list string) :=
  if level <=? length names then
    let names := take level names in
    if level =? 0 then Panicked else vec_store names (level - 1) name
  else
    let names := if length names <? level - 1 then names ++ replicate (level - 1 - length names) "_" else names in
    mret (names ++ [name]).

Definition collector_register_header (name : string) (level : nat) (self : Collector) : outcome Collector :=
  if use_headers self then
    names ← put_header (names self) level (header_name name);
    mret (set_names names self)
  else mret self.

#[export] Instance Collector_Tester : Tester Collector := {|
  add_test := collector_add_test;
  get_line := collector_get_line;
  register_header := collector_register_header
|}.

(** ** [scrape_test_config] *)

(** [pprust::meta_list_item_to_string]. *)
Definition scrape_step (print_item : NestedMetaItem -> string) (opts : TestOptions) (attr : NestedMetaItem) : TestOptions :=
  let opts :=
    if check_name attr "no_crate_inject" then mk_TestOptions true (display_warnings opts) (opt_attrs opts) else opts in
  if check_name attr "attr" then
    match nested_list attr with
    | Some l => mk_TestOptions (no_crate_inject opts) (display_warnings opts) (opt_attrs opts ++ List.map print_item l)
    | None => opts
    end
  else opts.

Definition scrape_test_config (print_item : NestedMetaItem -> string) (attrs : list Attribute) : TestOptions :=
  let docs := List.filter (fun a => attr_check_name a "doc") attrs in
  let test_attrs := List.filter (fun a => check_name a "test") (docs ≫= fun a => default [] (attr_list a)) in
  foldl (scrape_step print_item) (mk_TestOptions false false []) (test_attrs ≫= fun a => default [] (nested_list a)).

(** ** [HirCollector] *)

(** An item that is visited: its name, its attributes, where its documentation stands, and
    what is nested in it, in the order of the visitor. *)
Inductive Testable := mk_Testable {
  ts_name : string;
  ts_attrs : list Attribute;
  ts_file : string;
  ts_line : nat;
  ts_nested : list Testable
}.

(** [FromIterator<&DocFragment> for String]. *)
Definition collapse_fragments (docs : list DocFragment) : string :=
  foldl (fun acc frag =>
    (if String.eqb acc EmptyString then acc else acc +:+ nl) +:+ doc_fragment_str frag) EmptyString docs.

Definition collapsed_doc_value (docs : list DocFragment) : option string :=
  match docs with
  | [] => None
  | _ => Some (collapse_fragments docs)
  end.

(** The configurations of the session, and the events of a text. *)
Context {X : Type} (unicode_alphanumeric : string -> bool) (parser : string -> list (Event X * nat)).
Context (config : gset (string * option string)) (codes : bool).

(** The tests in the documentation of an item. *)
Definition doc_tests (item : Testable) (attrs : ItemAttributes) (self : Collector) : outcome Collector :=
  docs ← collapse (doc_strings attrs);
  docs ← unindent_fragments docs;
  match collapsed_doc_value docs with
  | Some doc =>
      let self := set_position (ts_file item) (Some (ts_line item)) self in
      r ← find_testable_code unicode_alphanumeric parser doc self codes (co_per_target self) true;
      mret r.1
  | None => mret self
  end.

Fixpoint visit_testable (item : Testable) (self : Collector) : outcome Collector :=
  attrs ← from_ast (ts_attrs item);
  let attrs := attrs.1 in
  if match cfg attrs with Some cfg => negb (Cfg.matches config cfg) | None => false end then mret self
  else
    let has_name := negb (String.eqb (ts_name item) EmptyString) in
    let self := if has_name then set_names (names self ++ [ts_name item]) self else self in
    self ← doc_tests item attrs self;
    self ← fold_loop visit_testable (ts_nested item) self;
    mret (if has_name then set_names (removelast (names self)) self else self).

(** The run of a collected test. *)
Definition run_doctest (rust_parser : Edition -> string -> option Parsed) (compile : string -> Z -> option (bool * string))
    (execute : string -> string + bool * string) (opts : TestOptions) (cratename : string) (t : Doctest)
    : outcome (option TestFailure) :=
  let config := dt_config t in
  run_test rust_parser compile execute (dt_text t) cratename (dt_line t) (should_panic config) (no_run config)
    (test_harness config) (compile_fail config) (error_codes config) opts (dt_edition t).

(** ** The tests of a Markdown file *)
Definition markdown_collector (input : string) (options : CollectOptions) (per_target : bool) (fs : Fs) : Collector :=
  set_position input None (Collector_new input options true per_target fs).
Definition markdown_tests (input input_str : string) (options : CollectOptions) (per_target : bool) (fs : Fs)
    : outcome (list Doctest) :=
  r ← find_testable_code unicode_alphanumeric parser input_str (markdown_collector input options per_target fs)
        codes per_target false;
  mret (tests r.1).
End collector.

(** ** The names of headings *)

(** The name of the open section of level [j], from the headings before, the last one first. *)
Fixpoint section_at (j : nat) (hs : list (nat * string)) : option string :=
  match hs with
  | [] => None
  | h :: hs => if h.1 =? j then Some h.2 else if h.1 <? j then None else section_at j hs
  end.

Lemma put_header_spec names level name : 1 <= level ->
  put_header names level name =
    Ret (take (level - 1) (names ++ replicate (level - 1 - length names) "_") ++ [name]).
Proof.
  intros Hl. unfold put_header. destruct (Nat.leb_spec level (length names)) as [Hle|Hgt].
  - destruct (Nat.eqb_spec level 0); [lia|]. unfold vec_store.
    rewrite decide_True by (rewrite length_take; lia). f_equal.
    replace (level - 1 - length names) with 0 by lia. cbn [replicate]. rewrite app_nil_r.
    destruct (lookup_lt_is_Some_2 names (level - 1)) as [x Hx]; [lia|].
    replace (take level names) with (take (level - 1) names ++ [x]).
    + rewrite insert_app_r_alt by (rewrite length_take; lia).
      rewrite length_take. by replace (level - 1 - (level - 1) `min` length names) with 0 by lia.
    + rewrite <- (take_S_r _ _ _ Hx). f_equal. lia.
  - f_equal. f_equal. destruct (Nat.ltb_spec (length names) (level - 1)).
    + rewrite take_ge; [done|]. rewrite length_app, length_replicate. lia.
    + replace (level - 1 - length names) with 0 by lia. cbn [replicate]. rewrite app_nil_r.
      rewrite take_ge; [done|lia].
Qed.

(** The names after the headings [hs]. *)
Record names_ok (hs : list (nat * string)) (names : list string) : Prop := {
  nm_length : length names = match last hs with Some h => h.1 | None => 0 end;
  nm_entry : forall j, 1 <= j <= length names ->
    names !! (j - 1) = Some (default "_" (section_at j (reverse hs)))
}.

Lemma put_header_ok hs names level name : 1 <= level -> names_ok hs names ->
  returns (put_header names level name) (names_ok (hs ++ [(level, name)])).
Proof.
  intros Hl [Hlen Hent]. rewrite put_header_spec by done. apply returns_ret.
  assert (Htake : length (take (level - 1) (names ++ replicate (level - 1 - length names) "_")) = level - 1).
  { rewrite length_take, length_app, length_replicate. lia. }
  split.
  - rewrite length_app, Htake, last_snoc. cbn. lia.
  - intros j Hj. rewrite length_app, Htake in Hj. cbn [length] in Hj. rewrite reverse_snoc. cbn [section_at fst snd].
    destruct (Nat.eqb_spec level j) as [->|Hne].
    + rewrite lookup_app_r by lia. by rewrite Htake, Nat.sub_diag.
    + destruct (Nat.ltb_spec level j); [lia|]. rewrite lookup_app_l by lia. rewrite lookup_take_lt by lia.
      destruct (decide (j <= length names)) as [Hin|Hout].
      * rewrite lookup_app_l by lia. apply Hent. lia.
      * rewrite lookup_app_r, lookup_replicate_2 by lia. f_equal.
        destruct (reverse hs) as [|h rs] eqn:Hr; [done|]. cbn [section_at].
        assert (Hh : h.1 = length names).
        { rewrite Hlen. apply (f_equal reverse) in Hr. rewrite reverse_involutive, reverse_cons in Hr.
          by rewrite Hr, last_snoc. }
        destruct (Nat.eqb_spec h.1 j); [lia|]. by destruct (Nat.ltb_spec h.1 j); [|lia].
Qed.

(** The headings of a text, as the collector takes them. *)
Lemma headings_name_the_tests (hs : list (nat * string)) : Forall (fun h => 1 <= h.1) hs ->
  returns (fold_loop (fun h names => put_header names h.1 h.2) hs []) (names_ok hs).
Proof.
  intros Hl. apply (fold_loop_returns _ names_ok).
  - split; [done|]. cbn. lia.
  - intros pre [level name] post names -> Hn. apply Forall_app in Hl as [_ Hl].
    apply Forall_cons in Hl as [Hl _]. by apply put_header_ok.
Qed.

(** ** The directories of tests *)

Lemma test_dir_inj f1 f2 l1 l2 n1 n2 :
  test_dir f1 l1 n1 = test_dir f2 l2 n2 -> f1 = f2 /\ l1 = l2 /\ n1 = n2.
Proof.
  unfold test_dir. rewrite !(str_app_assoc _ "_"), !(str_app_assoc (_ +:+ "_")).
  assert (H_ : forall n, free_of (Ascii.ascii_of_nat 95) (usize_to_string n)) by (intros n; by apply pretty_free_of).
  rewrite <- !(str_app_assoc _ "_").
  intros [[-> Hl]%split_last Hn]%split_last; [|done..].
  split_and!; [done|by apply pretty_nat_inj..].
Qed.

(** The directories of the tests that are kept below [p]; the key of one is the folder, the
    line and the number. *)
Definition key_path (p : path) (k : string * nat * nat) : path := path_join p (test_dir k.1.1 k.1.2 k.2).

Record dirs_ok (keys : list (string * nat * nat)) (self : Collector) : Prop := {
  do_tests : List.map dt_outdir (tests self) =
    match persist_doctests (co_options self) with
    | Some p => List.map (fun k => Some (key_path p k)) keys
    | None => List.map (fun _ => None) keys
    end;
  do_distinct : persist_doctests (co_options self) <> None -> NoDup keys;
  do_visited : forall f l n, persist_doctests (co_options self) <> None -> (f, l, n) ∈ keys ->
    exists v, visited_tests self !! (f, l) = Some v /\ n <= v;
  do_made : forall p k, persist_doctests (co_options self) = Some p -> k ∈ keys -> co_fs self !! key_path p k = Some Dir
}.

(** No file is in the way of a directory below [p]. *)
Definition no_file_around (fs : Fs) (p : path) : Prop :=
  forall name n, 0 < n <= length p + 1 -> is_file fs (take n (path_join p name)) = false.

Lemma key_path_free fs p k : no_file_around fs p ->
  forall n, 0 < n <= length (key_path p k) -> is_file fs (take n (key_path p k)) = false.
Proof. intros Hfree n Hn. unfold key_path, path_join in *. rewrite length_app in Hn. by apply Hfree; cbn in Hn. Qed.

Lemma add_test_dirs text config line self keys : dirs_ok keys self ->
  (forall p, persist_doctests (co_options self) = Some p -> no_file_around (co_fs self) p) ->
  returns (collector_add_test text config line self) (fun self' => exists k,
    dirs_ok (keys ++ [k]) self' /\
    (forall p, persist_doctests (co_options self) = Some p -> no_file_around (co_fs self') p) /\
    (exists outdir, tests self' = tests self ++
      [mk_Doctest (generate_name self line (position_file self))
        (is_test_ignored (ignore config) (co_target (co_options self))) (allow_fail config) text config line
        (default (co_edition (co_options self)) (lang_edition config)) outdir]) /\
    names self' = names self /\ co_options self' = co_options self /\ use_headers self' = use_headers self /\
    position_file self' = position_file self /\ position_line self' = position_line self).
Proof.
  intros [Ht Hd Hv Hm] Hfree. unfold collector_add_test.
  destruct (persist_doctests (co_options self)) as [p|] eqn:Hp.
  - set (folder := folder_name (position_file self)). set (number := match visited_tests self !! (folder, line) with Some v => v + 1 | None => 0 end).
    set (k := (folder, line, number)).
    destruct (proj1 (returns_exists _ _) (create_dir_all_returns (co_fs self) (key_path p k)
      (key_path_free _ _ k (Hfree p eq_refl)))) as (fs & Hfs & _).
    change (path_join p (test_dir folder line number)) with (key_path p k). rewrite Hfs. cbn [mbind outcome_bind].
    destruct (create_dir_all_keeps _ _ _ Hfs) as (_ & Hdirs & Hmade).
    exists k. split; [|split_and!; try done].
    + assert (Hnew : k ∉ keys).
      { intros (v & Hv1 & Hle)%Hv; [|done]. unfold number in Hle. rewrite Hv1 in Hle. lia. }
      split; cbn [tests co_options visited_tests co_fs]; rewrite ?Hp.
      * by rewrite !map_app, Ht.
      * intros _. apply NoDup_app. split_and!; [by apply Hd| |apply NoDup_singleton].
        intros x Hx Hx'%list_elem_of_singleton. by subst.
      * intros f l n _ [Hk|Hk%list_elem_of_singleton]%elem_of_app.
        -- destruct (Hv f l n) as (v & Hv1 & Hle); [done|done|].
           destruct (decide ((f, l) = (folder, line))) as [Heq|Hne].
           ++ exists number. rewrite Heq, lookup_insert_eq. split; [done|]. rewrite Heq in Hv1.
              unfold number. rewrite Hv1. lia.
           ++ exists v. by rewrite lookup_insert_ne.
        -- injection Hk as -> -> ->. exists number. by rewrite lookup_insert_eq.
      * intros p' k' [= <-] [Hk|Hk%list_elem_of_singleton]%elem_of_app; [by apply Hdirs, Hm|].
        subst k'. apply Hmade. unfold key_path. apply join_nonempty.
    + intros p' [= <-] name n Hn. cbn [co_fs]. destruct (is_file fs (take n (path_join p name))) eqn:Hf; [|done].
      eapply create_dir_all_files in Hf; [|exact Hfs]. by rewrite Hfree in Hf.
    + by eexists.
  - cbn [mbind outcome_bind]. exists (EmptyString, 0, 0). split; [|split_and!; try done; by eexists].
    split; cbn [tests co_options visited_tests co_fs]; rewrite ?Hp; try done. by rewrite !map_app, Ht.
Qed.

(** ** What a text asks of a tester *)

(** A test, with its attributes and the place of its block, or a heading. *)
Inductive Action := RunTest (text : string) (info : LangString) (start : nat) | Heading_ (name : string) (level : nat).

(** The first [n] bytes. *)
Definition str_take (n : nat) (s : string) : string := String.substring 0 n s.

Definition perform `{Tester T} (doc : string) (a : Action) (tests : T) : outcome T :=
  match a with
  | RunTest text info start =>
      add_test text info (get_line tests + newlines (str_take start doc) + 1) tests
  | Heading_ name level => register_header name level tests
  end.

Section plan.
Context {X : Type} (unicode_alphanumeric : string -> bool) (codes per_target : bool).

#[local] Abbreviation block_info := (block_info unicode_alphanumeric codes per_target).

(** The actions of a text. *)
Fixpoint plan (fuel : nat) (header : option nat) (events : list (Event X * nat)) : list Action :=
  match fuel, events with
  | S fuel, (event, start) :: events =>
      match event with
      | Start (CodeBlock kind) =>
          if negb (rust (block_info kind)) then plan fuel header events
          else
            let '(test_s, events) := take_texts events in
            RunTest (tested_text test_s) (block_info kind) start :: plan fuel header events
      | Start (Heading level) => plan fuel (Some level) events
      | Text s =>
          match header with
          | Some level => Heading_ s level :: plan fuel None events
          | None => plan fuel None events
          end
      | _ => plan fuel header events
      end
  | _, _ => []
  end.

(** A place at the beginning of a line. *)
Definition line_start (doc : string) (i : nat) : Prop :=
  i <= String.length doc /\ (i = 0 \/ exists a b, doc = a +:+ nl +:+ b /\ i = String.length a + 1).

(** The blocks begin at lines, one behind the other. *)
Fixpoint well_placed (doc : string) (prev : nat) (actions : list Action) : Prop :=
  match actions with
  | RunTest _ _ start :: actions => prev <= start /\ line_start doc start /\ well_placed doc start actions
  | Heading_ _ _ :: actions => well_placed doc prev actions
  | [] => True
  end.

(** ** Lines of blocks *)
Lemma split_length s : length (split_str s nl) = newlines s + 1.
Proof.
  induction s as [l Hl|l s Hl IH] using lines_ind; [by rewrite split_line, newlines_none by done|].
  rewrite split_nl_app, length_app, split_line, IH, !newlines_app, (newlines_none l) by done.
  change (newlines nl) with 1. cbn [length]. lia.
Qed.

Lemma lines_closed b : length (lines (b +:+ nl)) = newlines (b +:+ nl).
Proof.
  unfold lines, split_terminator. replace (b +:+ nl) with (b +:+ nl +:+ EmptyString) by done.
  rewrite split_nl_app. change (split_str EmptyString nl) with [EmptyString].
  rewrite last_snoc, bool_decide_eq_true_2 by done.
  rewrite length_fmap, length_take, length_app, split_length, !newlines_app.
  change (newlines nl) with 1. change (newlines EmptyString) with 0. cbn [length]. lia.
Qed.

Lemma str_split_at (s : string) i : i <= String.length s -> exists a b, s = a +:+ b /\ String.length a = i.
Proof.
  revert s. induction i as [|i IH]; intros s Hi; [by exists EmptyString, s|].
  destruct s as [|c s]; [cbn in Hi; lia|]. cbn in Hi. destruct (IH s) as (a & b & -> & Ha); [lia|].
  exists (String c a), b. cbn. by rewrite Ha.
Qed.

Lemma str_take_app a b : str_take (String.length a) (a +:+ b) = a.
Proof. unfold str_take. induction a as [|c a IH]; [by destruct b|]. cbn. by rewrite IH. Qed.

Lemma str_app_inj_length a1 : forall a2 b1 b2, String.length a1 = String.length a2 ->
  a1 +:+ b1 = a2 +:+ b2 -> a1 = a2 /\ b1 = b2.
Proof.
  induction a1 as [|c a1 IH]; intros [|d a2] b1 b2 Hl Heq; cbn in Hl; [done|lia|lia|].
  simpl in Heq. injection Heq as -> Heq. destruct (IH a2 b1 b2) as [-> ->]; [lia|done|done].
Qed.

(** What stands in front of the beginning of a line. *)
Lemma line_start_split doc i : str_utf8 doc -> line_start doc i -> exists a b,
  doc = a +:+ b /\ i = String.length a /\ inside_char b = false /\
  (a = EmptyString \/ exists a', a = a' +:+ nl).
Proof.
  intros Hu [_ [->|(a & b & -> & ->)]].
  - exists EmptyString, doc. split_and!; [done|done|by apply utf8_not_inside|by left].
  - exists (a +:+ nl), b. rewrite str_length_app. split_and!; [by rewrite str_app_assoc|done| |right; by exists a].
    apply utf8_not_inside. change (a +:+ nl +:+ b) with (a +:+ String (Ascii.ascii_of_nat 10) b) in Hu.
    apply str_utf8_before in Hu as [_ Hu]; [done|apply nl_ascii].
Qed.

(** The lines between two blocks. *)
Lemma lines_between doc i j : str_utf8 doc -> line_start doc i -> line_start doc j -> i <= j ->
  exists part, str_slice doc i j = Ret part /\
    newlines (str_take i doc) + length (lines part) = newlines (str_take j doc).
Proof.
  intros Hu Hi Hj Hij. destruct (line_start_split doc i Hu Hi) as (a & b & Hd & -> & Hb & Ha).
  destruct (line_start_split doc j Hu Hj) as (c & e & Hd' & -> & He & Hc).
  assert (Hp : exists p, c = a +:+ p).
  { destruct (str_split_at c (String.length a) Hij) as (a' & p & -> & Hlen). exists p.
    rewrite Hd, <- str_app_assoc in Hd'. symmetry in Hlen. by destruct (str_app_inj_length _ _ _ _ Hlen Hd') as [-> _]. }
  destruct Hp as [p ->]. exists p. rewrite Hd', <- str_app_assoc, str_take_app, str_app_assoc, str_take_app.
  rewrite Hd', <- str_app_assoc in Hd. apply str_app_inj_length in Hd as [_ Hpe]; [|done]. split.
  - rewrite str_length_app, <- str_app_assoc. apply str_slice_app; [by rewrite Hpe|done].
  - rewrite newlines_app. f_equal. destruct p as [|x p]; [done|].
    destruct Hc as [Hc|[c' Hc]]; [by destruct a|].
    assert (Hq : exists q, String x p = q +:+ nl).
    { clear -Hc. revert c' Hc. induction a as [|y a IH]; intros c' Hc; [by exists c'|].
      destruct c' as [|z c']; simpl in Hc; injection Hc as -> Hc; [by destruct a|by apply (IH c')]. }
    destruct Hq as [q ->]. apply lines_closed.
Qed.

(** The search asks for exactly these actions, one after the other, of any tester. *)
Lemma find_loop_plan `{Tester T} (doc : string) (extra : bool) fuel : forall events (st : Finding T),
  str_utf8 doc -> line_start doc (prev_offset st) ->
  nb_lines st = newlines (str_take (prev_offset st) doc) ->
  well_placed doc (prev_offset st) (plan fuel (pending_header st) events) ->
  fd_tests <$> find_loop unicode_alphanumeric doc codes per_target extra fuel events st =
    fold_loop (perform doc) (plan fuel (pending_header st) events) (fd_tests st).
Proof.
  induction fuel as [|fuel IH]; intros events st Hu Hp Hn Hw; [done|].
  destruct events as [|[event start] events]; [done|].
  destruct event as [t| |s| | | |]; cbn [find_loop plan] in *; try by apply IH.
  - destruct t as [|level| |kind| | | | | |]; try by apply IH.
    + by apply (IH events (mk_Finding T (fd_tests st) (prev_offset st) (nb_lines st) (Some level) (fd_reports st))).
    + destruct (negb (rust (block_info kind))).
      { by apply (IH events (mk_Finding T (fd_tests st) (prev_offset st) (nb_lines st) (pending_header st) _)). }
      destruct (take_texts events) as [test_s rest]. cbn [well_placed] in Hw. destruct Hw as (Hle & Hs & Hw).
      destruct (lines_between doc _ _ Hu Hp Hs Hle) as (part & -> & Hlen). cbn [mbind outcome_bind fold_loop perform].
      rewrite Hn, Hlen. destruct (add_test _ _ _ _) as [tests| |]; [|done..]. cbn [mbind outcome_bind].
      apply (IH rest (mk_Finding T tests start (newlines (str_take start doc)) (pending_header st) _)); done.
  - destruct (pending_header st) as [level|] eqn:Hh; [|rewrite <- Hh; apply IH; [done..|by rewrite Hh]].
    cbn [fold_loop perform]. destruct (register_header s level (fd_tests st)) as [tests| |]; [|done..].
    cbn [mbind outcome_bind].
    by apply (IH events (mk_Finding T tests (prev_offset st) (nb_lines st) None (fd_reports st))).
Qed.

Lemma find_plan `{Tester T} (parser : string -> list (Event X * nat)) (doc : string) (extra : bool) (tests : T) :
  str_utf8 doc -> well_placed doc 0 (plan (length (parser doc)) None (parser doc)) ->
  fst <$> find_testable_code unicode_alphanumeric parser doc tests codes per_target extra =
    fold_loop (perform doc) (plan (length (parser doc)) None (parser doc)) tests.
Proof.
  intros Hu Hw. unfold find_testable_code.
  rewrite <- (find_loop_plan doc extra _ _ (mk_Finding T tests 0 0 None [])); [|done| |by destruct doc|done].
  - by destruct (find_loop _ _ _ _ _ _ _ _).
  - split; [cbn; lia|by left].
Qed.
End plan.

(** ** The tests of a Markdown file *)
Section markdown.
Context (unicode_id_start unicode_id_continue : string -> bool).

#[local] Abbreviation header_name := (header_name unicode_id_start unicode_id_continue).

(** The names of the sections that are open behind the headings [hs]. *)
Definition open_sections (hs : list (nat * string)) : list string :=
  List.map (fun j => default "_" (section_at j (reverse hs)))
    (seq 1 (match last hs with Some h => h.1 | None => 0 end)).

Lemma names_ok_open hs names : names_ok hs names -> names = open_sections hs.
Proof.
  intros [Hlen Hent]. unfold open_sections. rewrite <- Hlen. apply list_eq. intros i.
  destruct (decide (i < length names)) as [Hi|Hi].
  - specialize (Hent (S i) ltac:(lia)). replace (S i - 1) with i in Hent by lia. rewrite Hent.
    rewrite list_lookup_fmap, lookup_seq_lt by done. done.
  - rewrite lookup_ge_None_2 by lia. symmetry. apply lookup_ge_None_2. rewrite length_map, length_seq. lia.
Qed.

(** The tests of the actions, each with the headings in front of it. *)
Fixpoint asked (hs : list (nat * string)) (actions : list Action)
    : list (list (nat * string) * string * LangString * nat) :=
  match actions with
  | RunTest text info start :: actions => (hs, text, info, start) :: asked hs actions
  | Heading_ name level :: actions => asked (hs ++ [(level, header_name name)]) actions
  | [] => []
  end.

(** The test that is collected for one that is asked for. *)
Definition collected (self : Collector) (doc : string) (a : list (nat * string) * string * LangString * nat)
    (outdir : option path) : Doctest :=
  let '(hs, text, info, start) := a in
  let line := collector_get_line self + newlines (str_take start doc) + 1 in
  mk_Doctest (generate_name (set_names (open_sections hs) self) line (position_file self))
    (is_test_ignored (ignore info) (co_target (co_options self))) (allow_fail info) text info line
    (default (co_edition (co_options self)) (lang_edition info)) outdir.

#[local] Instance collector : Tester Collector := Collector_Tester unicode_id_start unicode_id_continue.

Definition levels_positive (actions : list Action) : Prop :=
  Forall (fun a => match a with Heading_ _ level => 1 <= level | RunTest _ _ _ => True end) actions.

(** The collector behind the actions, from [self] with the headings [hs] and the keys [keys]. *)
Lemma perform_collects doc actions : forall self hs keys,
  use_headers self = true -> names_ok hs (names self) -> dirs_ok keys self ->
  (forall p, persist_doctests (co_options self) = Some p -> no_file_around (co_fs self) p) ->
  levels_positive actions ->
  returns (fold_loop (perform doc) actions self) (fun self' => exists keys' new,
    dirs_ok keys' self' /\ co_options self' = co_options self /\ tests self' = tests self ++ new /\
    Forall2 (fun t a => t = collected self doc a (dt_outdir t)) new (asked hs actions)).
Proof.
  induction actions as [|a actions IH]; intros self hs keys Hu Hn Hd Hfree Hl.
  { apply returns_ret. exists keys, []. by rewrite app_nil_r. }
  apply Forall_cons in Hl as [Ha Hl]. cbn [fold_loop].
  destruct a as [text info start|name level]; cbn [perform asked].
  - eapply returns_bind; [by apply (add_test_dirs _ _ _ _ _ Hd Hfree)|].
    intros self1 (k & Hd1 & Hfree1 & (outdir & Ht1) & Hn1 & Ho1 & Hu1 & Hf1 & Hp1). cbn beta.
    eapply returns_mono; [apply (IH self1 hs (keys ++ [k]))|].
    + by rewrite Hu1.
    + by rewrite Hn1.
    + done.
    + by rewrite Ho1.
    + done.
    + intros self2 (keys2 & new & Hd2 & Ho2 & Ht2 & Hall). rewrite Ht1, <- app_assoc in Ht2.
      eexists keys2, (_ :: new). split_and!; [done|congruence|exact Ht2|]. constructor.
      * unfold collected. cbn [dt_outdir]. by rewrite <- (names_ok_open _ _ Hn).
      * eapply Forall2_impl; [exact Hall|]. intros t [[[hs' text'] info'] start'] ->.
        unfold collected, collector_get_line. by rewrite Hf1, Hp1, Ho1.
  - unfold register_header at 1. cbn [collector Collector_Tester]. unfold collector_register_header. rewrite Hu.
    destruct (proj1 (returns_exists _ _) (put_header_ok hs (names self) level (header_name name) Ha Hn)) as (ns & -> & Hns).
    cbn [mbind outcome_bind mret outcome_ret].
    eapply returns_mono; [apply (IH (set_names ns self) (hs ++ [(level, header_name name)]) keys)|]; try done.
    by destruct Hd; split.
Qed.

Lemma persisted_distinct p keys : NoDup keys -> NoDup (List.map (key_path p) keys).
Proof.
  intros Hnd. apply NoDup_fmap_2_strong; [|done]. intros [[f1 l1] n1] [[f2 l2] n2] _ _ Heq.
  unfold key_path, path_join in Heq. apply app_inj_2 in Heq as [_ Heq]; [|done].
  injection Heq as Heq. by apply test_dir_inj in Heq as (-> & -> & ->).
Qed.
End markdown.

(** ** The walk over the items of a crate *)
Section walk.
Context (unicode_id_start unicode_id_continue unicode_alphanumeric : string -> bool).
Context {X : Type} (parser : string -> list (Event X * nat)) (config : gset (string * option string)) (codes : bool).

#[local] Instance crate_collector : Tester Collector := Collector_Tester unicode_id_start unicode_id_continue.

(** The collector with the same names, that does not take headings. *)
Definition same_names (self self' : Collector) : Prop := names self' = names self /\ use_headers self' = false.

Lemma find_loop_names doc per_target extra fuel : forall (events : list (Event X * nat)) (st st' : Finding Collector),
  use_headers (fd_tests st) = false ->
  find_loop unicode_alphanumeric doc codes per_target extra fuel events st = Ret st' ->
  same_names (fd_tests st) (fd_tests st').
Proof.
  induction fuel as [|fuel IH]; intros events st st' Hu; [by intros [= <-]|].
  destruct events as [|[event start] events]; [by intros [= <-]|].
  destruct event as [t| |s| | | |]; cbn [find_loop]; try by apply IH.
  - destruct t as [|level| |kind| | | | | |]; try by apply IH.
    destruct (negb (rust _)); [by apply IH|]. destruct (take_texts events) as [test_s rest].
    destruct (str_slice _ _ _) as [part| |]; [|done..]. cbn [mbind outcome_bind add_test crate_collector Collector_Tester].
    unfold collector_add_test. destruct (persist_doctests _) as [p|]; cbn [mbind outcome_bind mret outcome_ret].
    + destruct (create_dir_all _ _) as [fs| |]; [|done..]. by intros H%IH.
    + by intros H%IH.
  - destruct (pending_header st) as [level|]; [|by apply IH].
    cbn [register_header crate_collector Collector_Tester]. unfold collector_register_header. rewrite Hu.
    by intros H%IH.
Qed.

Lemma testable_ind (P : Testable -> Prop) :
  (forall name attrs file line nested, Forall P nested -> P (mk_Testable name attrs file line nested)) ->
  forall item, P item.
Proof.
  intros Hstep. fix IH 1. intros [name attrs file line nested]. apply Hstep.
  induction nested as [|x nested IHn]; constructor; [apply IH|exact IHn].
Qed.

(** Each item leaves the names as they were. *)
Lemma visit_testable_names : forall item self self', use_headers self = false ->
  visit_testable unicode_id_start unicode_id_continue unicode_alphanumeric parser config codes item self = Ret self' ->
  same_names self self'.
Proof.
  intros item. induction item as [name attrs file line nested IH] using testable_ind. intros self self' Hu.
  cbn [visit_testable].
  destruct (from_ast _) as [[attrs' errs]| |]; [|done..]. cbn [mbind outcome_bind fst ts_name ts_nested].
  destruct (match cfg attrs' with Some cfg => negb (Cfg.matches config cfg) | None => false end); [by intros [= <-]|].
  set (self1 := if negb (String.eqb name EmptyString) then _ else self).
  assert (H1 : use_headers self1 = false) by (unfold self1; by destruct (negb _)).
  destruct (doc_tests _ _ _ _ _ _ _ self1) as [self2| |] eqn:H2; [|done..]. cbn [mbind outcome_bind].
  assert (Hs2 : same_names self1 self2).
  { unfold doc_tests in H2. destruct (collapse _) as [docs| |]; [|done..]. cbn [mbind outcome_bind] in H2.
    destruct (unindent_fragments docs) as [docs'| |]; [|done..]. cbn [mbind outcome_bind] in H2.
    destruct (collapsed_doc_value docs') as [doc|]; [|injection H2 as <-; by split].
    unfold find_testable_code in H2. destruct (find_loop _ _ _ _ _ _ _ _) as [st| |] eqn:Hf; [|done..].
    injection H2 as <-. by apply find_loop_names in Hf. }
  destruct (fold_loop _ nested self2) as [self3| |] eqn:H3; [|done..]. cbn [mbind outcome_bind mret outcome_ret].
  assert (Hs3 : same_names self2 self3).
  { clear -IH H3 Hs2. destruct Hs2 as [_ Hs2]. revert self2 Hs2 H3.
    induction IH as [|x nested IH _ IHn]; intros self2 Hu; cbn [fold_loop]; [intros [= <-]; by split|].
    destruct (visit_testable _ _ _ _ _ _ x self2) as [self4| |] eqn:Hx; [|done..]. cbn [mbind outcome_bind].
    apply IH in Hx as [Hn Hu4]; [|done]. intros [Hn' Hu']%IHn; [|done]. split; [congruence|done]. }
  destruct Hs2 as [Hn2 _], Hs3 as [Hn3 Hu3]. intros [= <-]. unfold self1 in Hn2.
  destruct (negb (String.eqb name EmptyString)); [|split; [congruence|done]].
  split; [|done]. cbn [set_names names] in Hn2 |- *. rewrite Hn3, Hn2. apply removelast_last.
Qed.
End walk.

(** ** Properties *)

(** C33: the tests of a Markdown file. When the blocks of the file that are tests begin at
    lines, one behind the other, and no file is in the way of the directories, the collection
    never panics, and the tests are exactly the Rust blocks in their order: each with the text
    of its block, its attributes, and the line behind the one where the block begins; its name
    is made of the sections that are open there, the last heading of each level that no
    higher one follows, or [_]. No two of the tests that are kept share a directory. *)
Theorem tests_of_a_markdown_file {X} (unicode_id_start unicode_id_continue unicode_alphanumeric : string -> bool)
    (parser : string -> list (Event X * nat)) (codes per_target : bool) (input doc : string)
    (options : CollectOptions) (fs : Fs)
    (Hdoc : str_utf8 doc)
    (Hfree : forall p, persist_doctests options = Some p -> no_file_around fs p) :
  let actions := plan unicode_alphanumeric codes per_target (length (parser doc)) None (parser doc) in
  well_placed doc 0 actions -> levels_positive actions ->
  returns (markdown_tests unicode_id_start unicode_id_continue unicode_alphanumeric parser codes input doc options
      per_target fs) (fun ts =>
    Forall2 (fun t a => t = collected (markdown_collector input options per_target fs) doc a (dt_outdir t)) ts
      (asked unicode_id_start unicode_id_continue [] actions) /\
    match persist_doctests options with
    | Some p => exists dirs, List.map dt_outdir ts = List.map Some dirs /\ NoDup dirs
    | None => Forall (fun t => dt_outdir t = None) ts
    end).
Proof.
  intros actions Hplaced Hlevels. unfold markdown_tests.
  pose proof (find_plan unicode_alphanumeric codes per_target (H := Collector_Tester unicode_id_start unicode_id_continue)
    parser doc false (markdown_collector input options per_target fs) Hdoc Hplaced) as Hrun.
  pose proof (perform_collects unicode_id_start unicode_id_continue doc actions
    (markdown_collector input options per_target fs) [] []) as Hc.
  destruct (proj1 (returns_exists _ _) (Hc eq_refl ltac:(by split; [|cbn; lia])
    ltac:(split; cbn; [by destruct (persist_doctests options)|constructor|by intros ? ? ? _ ?%elem_of_nil|by intros ? ? _ ?%elem_of_nil])
    Hfree Hlevels)) as (self' & Hself & keys & new & Hd & Ho & Ht & Hall).
  fold actions in Hrun. unfold collector in Hself. rewrite Hself in Hrun.
  destruct (find_testable_code _ _ _ _ _ _ _) as [r| |]; [|done..]. injection Hrun as Hrun.
  apply returns_ret. rewrite Hrun, Ht. cbn [markdown_collector set_position tests Collector_new app].
  split; [exact Hall|]. destruct Hd as [Hdt Hdd _ _]. rewrite Ho in Hdt, Hdd. rewrite Ht in Hdt.
  cbn [markdown_collector set_position co_options Collector_new tests app] in Hdt, Hdd.
  destruct (persist_doctests options) as [p|].
  - exists (List.map (key_path p) keys). rewrite map_map. split; [exact Hdt|]. apply persisted_distinct. by apply Hdd.
  - clear -Hdt. revert keys Hdt. induction new as [|t new IH]; intros keys Hdt; [constructor|].
    destruct keys as [|k keys]; [done|]. injection Hdt as Ht Hdt. constructor; [done|]. by eapply IH.
Qed.

(** A file with two headings, the first one with a blank, and a block below each. *)
Definition sample_markdown : string :=
  "# A b" +:+ nl +:+ "```" +:+ nl +:+ "f()" +:+ nl +:+ "```" +:+ nl +:+ "### C" +:+ nl
    +:+ "```no_run" +:+ nl +:+ "g()" +:+ nl +:+ "```" +:+ nl.
Definition sample_events (_ : string) : list (Event unit * nat) :=
  [(Start (Heading 1), 0); (Text "A b", 2); (End (Heading 1), 0);
   (Start (CodeBlock (Fenced EmptyString)), 6); (Text ("f()" +:+ nl), 10); (End (CodeBlock (Fenced EmptyString)), 6);
   (Start (Heading 3), 18); (Text "C", 22); (End (Heading 3), 18);
   (Start (CodeBlock (Fenced "no_run")), 24); (Text ("g()" +:+ nl), 34); (End (CodeBlock (Fenced "no_run")), 24)].
Definition sample_collect : CollectOptions := mk_CollectOptions Edition2018 "x86_64" (Some ["t"]).

Lemma tests_of_a_markdown_file_witness :
  exists ts, markdown_tests (fun _ => false) (fun _ => false) (fun _ => false) sample_events true "r.md"
      sample_markdown sample_collect true ∅ = Ret ts /\
    List.map dt_name ts = ["r.md - A_b (line 2)"; "r.md - A_b::_::C (line 6)"] /\
    exists dirs, List.map dt_outdir ts = List.map Some dirs /\ NoDup dirs.
Proof.
  assert (Hrun : exists ts, markdown_tests (fun _ => false) (fun _ => false) (fun _ => false) sample_events true "r.md"
      sample_markdown sample_collect true ∅ = Ret ts /\
    List.map dt_name ts = ["r.md - A_b (line 2)"; "r.md - A_b::_::C (line 6)"])
    by (eexists; split; vm_compute; reflexivity).
  destruct Hrun as (ts & Hts & Hnames). exists ts. split; [exact Hts|]. split; [exact Hnames|].
  assert (Hplan : plan (fun _ => false) true true (length (sample_events sample_markdown)) None (sample_events sample_markdown) =
    [Heading_ "A b" 1; RunTest "f()" all_false 6; Heading_ "C" 3;
     RunTest "g()" (parse (fun _ => false) "no_run" true true) 24]) by (vm_compute; reflexivity).
  pose proof (tests_of_a_markdown_file (fun _ => false) (fun _ => false) (fun _ => false) sample_events true true "r.md"
    sample_markdown sample_collect ∅) as H.
  cbv zeta in H. rewrite Hplan, Hts in H.
  apply H; [reflexivity|..].
  - intros p _ name n _. reflexivity.
  - cbn [well_placed]. split_and!; try (vm_compute; lia).
    + split; [vm_compute; lia|right]. exists "# A b", (str_drop 6 sample_markdown). by split.
    + split; [vm_compute; lia|right]. exists (str_take 23 sample_markdown), (str_drop 24 sample_markdown). by split.
  - repeat constructor.
Defined.

(** A heading without text of its own takes the next text of the file as its name. *)
Lemma headings_take_the_next_text :
  plan (fun _ => false) true true 6 None
    [(Start (Heading 1), 0); (Code "f", 2); (End (Heading 1), 0); (Start (X := unit) Paragraph, 6); (Text "Some words", 6);
     (End Paragraph, 6)] = [Heading_ "Some words" 1].
Proof. reflexivity. Qed.
