(* ===== verification/CrawlSpec.v ===== *)
(** What the crawl of the render cache records: the vocabulary of its specification, and
    the conditions on the tree under which it does not panic. *)

From S2P Require Import Prelude RustStd CleanTypes CleanItems DocFold Pruning.
From S2P Require Import Passes PassesCorrect ItemTree PassesSpec RenderCache.

(** ** The trees that the cleaning builds *)

(** The paths in a type have segments, as far as the index reads them. *)
Fixpoint path_named (t : Type_) : Prop :=
  match t with
  | ResolvedPath path _ _ _ => path_segments path <> []
  | BorrowedRef _ _ t => path_named t
  | _ => True
  end.
Definition type_named (t : Type_) : Prop :=
  path_named t /\ forall ts u, generics t = Some ts -> u ∈ ts -> path_named u.

Definition types_named (i : Item) : Prop :=
  match item_inner i with
  | FunctionItem f | MethodItem f | TyMethodItem f =>
      forall t k, (t, k) ∈ all_types f \/ (t, k) ∈ ret_types f -> type_named t
  | _ => True
  end.

(** Items that only stand inside an owner, and the owners. *)
Definition needs_owner (e : ItemEnum Item) : bool :=
  match e with
  | AssocTypeItem _ _ | TyMethodItem _ | StructFieldItem _ | VariantItem _ => true
  | _ => false
  end.
Definition owns (e : ItemEnum Item) : bool :=
  match e with
  | TraitItem _ | EnumItem _ | StructItem _ | UnionItem _ | VariantItem _ => true
  | _ => false
  end.

Inductive crawlable (i : Item) : Prop :=
| crawlable_item :
    (forall e, item_inner i = StrippedItem e -> stripped_enum e = false) ->
    types_named i ->
    (forall c, c ∈ members (item_inner i) -> crawlable c) ->
    (forall c, c ∈ members (item_inner i) -> needs_owner (item_inner c) = true ->
       owns (item_inner i) = true) ->
    crawlable i.

Lemma type_name_returns t b : path_named t -> returns (get_index_type_name t b) (fun _ => True).
Proof.
  induction t; cbn; try done.
  - intros Hp. destruct (last (path_segments path)) as [[name args]|] eqn:Hl; [done|].
    by apply last_None in Hl.
Qed.

Lemma index_type_returns t : type_named t -> returns (get_index_type t) (fun _ => True).
Proof.
  intros [Ht Hg]. unfold get_index_type. eapply returns_bind; [by apply type_name_returns|].
  intros name _. eapply returns_bind with (P := fun _ => True); [|intros ? _; by apply returns_ret].
  unfold get_generics. destruct (generics t) as [ts|] eqn:Hts; [|by apply returns_ret].
  eapply returns_bind; [|intros r _; by apply returns_ret].
  apply (fold_loop_returns _ (fun _ _ => True)); [done|].
  intros pre u post r Hl _. eapply returns_bind;
    [apply type_name_returns, (Hg ts u eq_refl); rewrite Hl; set_solver|].
  intros n _. by apply returns_ret.
Qed.

Lemma index_types_returns types :
  (forall t k, (t, k) ∈ types -> type_named t) -> returns (index_types types) (fun _ => True).
Proof.
  intros Ht. apply (fold_loop_returns _ (fun _ _ => True)); [done|].
  intros pre [t k] post r Hl _. eapply returns_bind;
    [apply index_type_returns, (Ht t k); rewrite Hl; set_solver|].
  intros n _. by apply returns_ret.
Qed.

Lemma search_type_returns i :
  types_named i ->
  returns (get_index_search_type i) (fun t => forall f, t = Some f -> index_output f <> Some []).
Proof.
  unfold types_named, get_index_search_type. intros Ht.
  assert (Hf : forall f : Function,
    (forall t k, (t, k) ∈ all_types f \/ (t, k) ∈ ret_types f -> type_named t) ->
    returns (inputs ← index_types (all_types f); output ← index_types (ret_types f);
      mret (Some (mk_IndexItemFunctionType inputs
                    (if bool_decide (output = []) then None else Some output))))
      (fun t => forall f, t = Some f -> index_output f <> Some [])).
  { intros f Hf. eapply returns_bind; [apply index_types_returns; eauto|]. intros ins _.
    eapply returns_bind; [apply index_types_returns; eauto|]. intros outs _.
    apply returns_ret. intros ? [= <-]. cbn. case_bool_decide; congruence. }
  destruct (item_inner i); try (by apply returns_ret); by apply Hf.
Qed.

(** ** What is recorded *)
Section spec.
Context `{HashOrder} {info : CacheInfo}.
Abbreviation Crawl := (Crawl info).

(** An item, with the names around it and whether it is in a stripped module. *)
Abbreviation located := (list string * bool * Item)%type.

Definition own_name (i : Item) : list string :=
  match item_name i with
  | Some n => if bool_decide (n = EmptyString) then [] else [n]
  | None => []
  end.

(** The place of the members of an item. *)
Definition place (x : located) (c : Item) : located :=
  (x.1.1 ++ own_name x.2, is_stripped_mod x.2 || x.1.2, c).

(** The items that the crawl visits; it stays out of the masked impls. *)
Inductive inside : located -> located -> Prop :=
| inside_here x : masked (info := info) x.2 = false -> inside x x
| inside_member x c y :
    masked (info := info) x.2 = false -> c ∈ members (item_inner x.2) ->
    inside (place x c) y -> inside x y.

(** The entry of an item in [paths]. *)
Definition path_entry (x : located) (did : DefId) (e : list string * ItemType) : Prop :=
  item_def_id x.2 = did /\ e.1 = x.1.1 ++ own_name x.2 /\ item_type x.2 = Ret e.2 /\
  ((exists p, item_inner x.2 = PrimitiveItem p) \/
   pathable (item_inner x.2) = true /\ x.1.2 = false).

Definition is_trait (x : located) (did : DefId) : Prop :=
  item_def_id x.2 = did /\ exists t, item_inner x.2 = TraitItem t.

Definition trait_id (imp : Impl Item) : option DefId := trait_ imp ≫= def_id unset_cache.

(** [im] is the impl [imp] of the place [x], without the impls below it. *)
Definition impl_at (x : located) (im : RenderImpl) (imp : Impl Item) : Prop :=
  item_inner (impl_item im) = ImplItem imp /\ pruned false (impl_item im) x.2.

Definition in_impls (s : Crawl) (did : DefId) (im : RenderImpl) : Prop :=
  exists ims, impls s !! did = Some ims /\ im ∈ ims.
Definition in_orphans (s : Crawl) (t did : DefId) (im : RenderImpl) : Prop :=
  exists dids, (t, dids, im) ∈ orphan_trait_impls s /\ did ∈ dids.

(** From [s] to [s'] the traits of [Vt], the paths of [Vp] and the impls of [Vi] are
    recorded, and nothing else. *)
Record crawled (Vt Vp Vi : located -> Prop) (s s' : Crawl) : Prop := {
  cr_traits : forall did, is_Some (traits s' !! did) <->
    is_Some (traits s !! did) \/ exists x, Vt x /\ is_trait x did;
  cr_paths : forall did e, paths s' !! did = Some e ->
    paths s !! did = Some e \/ exists x, Vp x /\ path_entry x did e;
  cr_all_paths : forall did,
    is_Some (paths s !! did) \/ (exists x e, Vp x /\ path_entry x did e) ->
    is_Some (paths s' !! did);
  cr_impls : forall did im, in_impls s' did im ->
    in_impls s did im \/ exists x imp, Vi x /\ impl_at x im imp /\ did ∈ impl_dids (info := info) imp /\
      forall t, trait_id imp = Some t -> is_Some (traits s' !! t);
  cr_orphans : forall t did im, in_orphans s' t did im ->
    in_orphans s t did im \/ exists x imp, Vi x /\ impl_at x im imp /\ did ∈ impl_dids (info := info) imp /\
      trait_id imp = Some t;
  cr_keep_impls : forall did im, in_impls s did im -> in_impls s' did im;
  cr_keep_orphans : forall t did im, in_orphans s t did im -> in_orphans s' t did im;
  cr_all_impls : forall x imp did, Vi x -> item_inner x.2 = ImplItem imp ->
    did ∈ impl_dids (info := info) imp -> exists im imp', impl_at x im imp' /\
      (in_impls s' did im \/ exists t, trait_id imp = Some t /\ in_orphans s' t did im)
}.

Lemma crawled_trans Vt Vp Vi Wt Wp Wi Ut Up Ui s1 s2 s3 :
  (forall x, Ut x <-> Vt x \/ Wt x) -> (forall x, Up x <-> Vp x \/ Wp x) ->
  (forall x, Ui x <-> Vi x \/ Wi x) ->
  crawled Vt Vp Vi s1 s2 -> crawled Wt Wp Wi s2 s3 -> crawled Ut Up Ui s1 s3.
Proof.
  intros HUt HUp HUi H12 H23. split.
  - intros did. rewrite (cr_traits _ _ _ _ _ H23), (cr_traits _ _ _ _ _ H12).
    setoid_rewrite HUt. split.
    + intros [[?|(x & ? & ?)]|(x & ? & ?)]; [by left|right; exists x; tauto..].
    + intros [?|(x & [?|?] & ?)]; [by left; left|left; right; by exists x|right; by exists x].
  - intros did e He. setoid_rewrite HUp.
    destruct (cr_paths _ _ _ _ _ H23 _ _ He) as [He'|(x & ? & ?)]; [|right; exists x; tauto].
    destruct (cr_paths _ _ _ _ _ H12 _ _ He') as [?|(x & ? & ?)]; [by left|right; exists x; tauto].
  - intros did He. apply (cr_all_paths _ _ _ _ _ H23).
    destruct He as [He|(x & e & [HV|HW]%HUp & He)]; [left|left|right; by exists x, e];
      apply (cr_all_paths _ _ _ _ _ H12); [by left|right; by exists x, e].
  - intros did im Hin. setoid_rewrite HUi.
    destruct (cr_impls _ _ _ _ _ H23 _ _ Hin) as [Hin'|(x & imp & ? & ?)];
      [|right; exists x, imp; tauto].
    destruct (cr_impls _ _ _ _ _ H12 _ _ Hin') as [?|(x & imp & HV & Hat & Hd & Ht)];
      [by left|right].
    exists x, imp. split_and!; [by left|done..|]. intros t Hti.
    apply (cr_traits _ _ _ _ _ H23). left. by apply Ht.
  - intros t did im Hin. setoid_rewrite HUi.
    destruct (cr_orphans _ _ _ _ _ H23 _ _ _ Hin) as [Hin'|(x & imp & ? & ?)];
      [|right; exists x, imp; tauto].
    destruct (cr_orphans _ _ _ _ _ H12 _ _ _ Hin') as [?|(x & imp & ? & ?)];
      [by left|right; exists x, imp; tauto].
  - intros did im Hin. by apply (cr_keep_impls _ _ _ _ _ H23), (cr_keep_impls _ _ _ _ _ H12).
  - intros t did im Hin. by apply (cr_keep_orphans _ _ _ _ _ H23), (cr_keep_orphans _ _ _ _ _ H12).
  - intros x imp did [HV|HW]%HUi Hi Hd; [|by eapply (cr_all_impls _ _ _ _ _ H23)].
    destruct (cr_all_impls _ _ _ _ _ H12 x imp did HV Hi Hd) as (im & imp' & Hat & Hcase).
    exists im, imp'. split; [done|]. destruct Hcase as [Hin|(t & Ht & Hin)].
    + left. by apply (cr_keep_impls _ _ _ _ _ H23).
    + right. exists t. split; [done|]. by apply (cr_keep_orphans _ _ _ _ _ H23).
Qed.

(** A step that touches none of this. *)
Lemma crawled_same s s' :
  traits s' = traits s -> paths s' = paths s -> impls s' = impls s ->
  orphan_trait_impls s' = orphan_trait_impls s ->
  crawled (fun _ => False) (fun _ => False) (fun _ => False) s s'.
Proof.
  intros Ht Hp Hi Ho.
  split; unfold in_impls, in_orphans; rewrite ?Ht, ?Hp, ?Hi, ?Ho; try tauto.
  - intros did. split; [by left|by intros [?|(? & [] & _)]].
  - intros did [?|(? & ? & [] & _)]. done.
Qed.

Lemma crawled_ext Vt Vp Vi Wt Wp Wi s s' :
  (forall x, Wt x <-> Vt x) -> (forall x, Wp x <-> Vp x) -> (forall x, Wi x <-> Vi x) ->
  crawled Vt Vp Vi s s' -> crawled Wt Wp Wi s s'.
Proof.
  intros HT HP HI Hc.
  eapply crawled_trans; [| | |exact Hc|by apply crawled_same]; cbn; intros x;
    [rewrite HT|rewrite HP|rewrite HI]; tauto.
Qed.
End spec.
