(* ===== verification/CacheCorrect.v ===== *)
(** Correctness of the render cache: its construction never panics on the trees that the
    cleaning builds, and the paths and impls it records are those of the crate. *)

From S2P Require Import Prelude RustStd CleanTypes CleanItems DocFold Pruning.
From S2P Require Import Passes PassesCorrect ItemTree PassesSpec RenderCache CrawlSpec.

(** ** The crawl only takes the impls out *)

Section prune.
Context `{HashOrder} `{Summary} {info : CacheInfo}.

Lemma hoard_result i (s : Crawl info) r s' :
  hoard_impl i s = Ret (r, s') -> is_impl i /\ r = None \/ ~ is_impl i /\ r = Some i.
Proof.
  unfold hoard_impl. destruct (item_inner i) eqn:Hi;
    try (intros [= <- _]; right; split; [intros [imp Himp]; congruence|done]).
  destruct (trait_did _) as [[t|]| |]; cbn [mbind outcome_bind]; [| |done..].
  - destruct (bool_decide _); intros [= <- _]; left; (split; [by eexists|done]).
  - intros [= <- _]. left. split; [by eexists|done].
Qed.

(** What the fold of an item returns is what the recursion returned. *)
Lemma crawl_result recur i (s : Crawl info) r s' :
  crawl_fold_item summary recur i s = Ret (r, s') ->
  masked (info := info) i = true /\ r = None \/
  exists s1 r1 s1', recur i s1 = Ret (r1, s1') /\
    (r = r1 /\ (forall i', r = Some i' -> ~ is_impl i') \/
     r = None /\ forall i', r1 = Some i' -> is_impl i').
Proof.
  unfold crawl_fold_item. destruct (masked i) eqn:Hm.
  { intros [= <- _]. by left. }
  destruct (index_item _ _ _) as [s1| |]; cbn [mbind outcome_bind]; [|done..].
  destruct (record_path _ _) as [s2| |]; cbn [mbind outcome_bind]; [|done..].
  destruct (parent_of i _) as [parent trait_impl].
  match goal with |- context [recur i ?s] => destruct (recur i s) as [[r1 s1']| |] eqn:Hr end;
    cbn [mbind outcome_bind fst snd]; [|done..].
  intros Hrest. right. eexists _, r1, s1'. split; [exact Hr|].
  destruct r1 as [i1|].
  2:{ cbn in Hrest. destruct (pop_expect _ (stack s1')); cbn in Hrest; [|done..].
      destruct (pop_expect _ (parent_stack s1')); cbn in Hrest; [|done..].
      injection Hrest as <- _. left. split; [done|]. by intros ? [=]. }
  destruct (hoard_impl i1 s1') as [[r2 s2']| |] eqn:Hh; cbn [mbind outcome_bind] in Hrest; [|done..].
  destruct (pop_expect _ (stack s2')); cbn in Hrest; [|done..].
  destruct (pop_expect _ (parent_stack s2')); cbn in Hrest; [|done..].
  injection Hrest as <- _. apply hoard_result in Hh as [[Hi ->]|[Hi ->]].
  - right. split; [done|]. by intros i' [= <-].
  - left. split; [done|]. by intros i' [= <-].
Qed.

Lemma masked_impl i : masked (info := info) i = true -> is_impl i.
Proof. unfold masked. destruct (item_inner i) eqn:Hi; try done. intros _. by eexists. Qed.

#[export] Program Instance Crawl_Pruner : Pruner (Crawl info) := {| wraps := false |}.
Next Obligation.
  intros recur i s r s' Hrec. change (override recur i s) with (crawl_fold_item summary recur i s).
  intros [[_ ->]|(s1 & r1 & s1' & Hr & [[-> _]|[-> _]])]%crawl_result i' Hi'; [done| |done].
  destruct (Hrec _ _ _ Hr) as (i0 & -> & Hp & _). by injection Hi' as <-.
Qed.

#[export] Program Instance Crawl_Sparing : Sparing is_impl (Crawl info).
Next Obligation.
  intros recur i s r s' Hrec. change (override recur i s) with (crawl_fold_item summary recur i s).
  intros [[Hm ->]|(s1 & r1 & s1' & Hr & Hcase)]%crawl_result.
  { split; [|done]. intros Hn. destruct Hn. by apply masked_impl. }
  destruct (Hrec _ _ _ Hr) as (i0 & -> & Hs & _). destruct Hcase as [[-> _]|[-> Hi0]].
  - split; [done|]. by intros ? [= <-].
  - split; [|done]. intros Hn. destruct Hn. destruct (Hi0 i0 eq_refl) as [imp Himp].
    destruct Hs as [(_ & Hsh & _)%pruned_inv _]. rewrite Himp in Hsh.
    destruct Hsh as [Hsh|(_ & Hsh & Hw)]; [|by destruct (item_inner i)].
    unfold is_impl. destruct (item_inner i) as [| | | | | | | | | | | | | | | | |v| | | | | | | | | |];
      try done; [by eexists|by destruct v].
Qed.

(** No impl is left in the tree. *)
Lemma crawl_no_impls i (s : Crawl info) i' s' :
  fold_item i s = Ret (Some i', s') -> all_below (fun d => ~ is_impl d) i'.
Proof.
  apply (fold_item_results (all_below (fun d => ~ is_impl d))). clear i s i' s'.
  intros recur i s i' s' Hrec. change (override recur i s) with (crawl_fold_item summary recur i s).
  intros [[_ ?]|(s1 & r1 & s1' & Hr & [[Heq Hni]|[? _]])]%crawl_result; [done| |done].
  subst r1. destruct (Hrec _ _ _ Hr) as (i0 & [= <-] & _ & _ & Hm).
  apply all_below_unfold. split; [by apply Hni|done].
Qed.
End prune.

(** ** The steps of the crawl *)
Section steps.
Context `{HashOrder} `{Summary} {info : CacheInfo}.
Abbreviation Crawl := (Crawl info).

(** Where the crawl stands. *)
Definition position (s : Crawl) : list string * list DefId * bool * bool :=
  (stack s, parent_stack s, parent_is_trait_impl s, stripped_mod s).

Definition orphan_ok (i : Item) : Prop :=
  is_Some (item_name i) /\ types_named i /\
  forall e, item_inner i = StrippedItem e -> stripped_enum e = false.

Definition index_ok (ps : gmap DefId (list string * ItemType)) (it : IndexItem) : Prop :=
  (forall d, index_parent it = Some d -> is_Some (ps !! d)) /\
  forall t, index_search_type it = Some t -> index_output t <> Some [].

Record inv (s : Crawl) : Prop := {
  inv_stack : stack s <> [];
  inv_paths : forall did fqp k, paths s !! did = Some (fqp, k) -> fqp <> [];
  inv_index : forall it, it ∈ search_index s -> index_ok (paths s) it;
  inv_orphans : forall d i, (d, i) ∈ orphan_impl_items s -> orphan_ok i
}.

(** The item on the top of the stack of parents has a path, unless it is in a stripped
    module. *)
Definition owned (s : Crawl) : Prop :=
  exists did, last (parent_stack s) = Some did /\
    (stripped_mod s = false -> is_Some (paths s !! did)).

Lemma without_last_returns {A} (v : list A) : v <> [] -> exists v', without_last v = Ret v'.
Proof. intros Hv. unfold without_last. rewrite decide_False by done. by eexists. Qed.

(** The owner of an item in the index. *)
Lemma owner_returns i s :
  inv s -> (needs_owner (item_inner i) = true -> owned s) ->
  returns (owner i s) (fun '(parent, path, inherent) =>
    (inherent = true -> is_Some parent) /\
    forall p, path = Some p -> inherent = true \/ stripped_mod s = false ->
      forall d, parent = Some d -> is_Some (paths s !! d)).
Proof.
  intros [Hst Hps _ _] Hown. unfold owner.
  set (assoc := match last (parent_stack s) with None => _ | Some _ => _ end).
  assert (Hassoc : returns assoc (fun '(parent, path, inherent) =>
    (inherent = true -> is_Some parent) /\
    forall p, path = Some p -> inherent = true \/ stripped_mod s = false ->
      forall d, parent = Some d -> is_Some (paths s !! d))).
  { unfold assoc. destruct (last (parent_stack s)) as [did|]; [|apply returns_ret; done].
    destruct (paths s !! did) as [[fqp k]|] eqn:Hp.
    - destruct (without_last_returns fqp) as [v Hv]; [by eapply Hps|].
      assert (Hk : exists path, (match k with
         | ItemType.Trait | ItemType.Struct | ItemType.Union_ | ItemType.Enum =>
             fqp ← without_last fqp; mret (Some fqp)
         | _ => mret (Some (stack s))
         end) = Ret path) by (destruct k; rewrite ?Hv; by eexists).
      destruct Hk as [path ->]. cbn [mbind outcome_bind]. apply returns_ret.
      split; [by eexists|]. intros p _ _ d [= <-]. by rewrite Hp.
    - apply returns_ret. split; [by eexists|]. done. }
  clearbody assoc.
  assert (Hnone : forall p, returns (mret (None, p, false)) (fun '(parent, path, inherent) =>
    (inherent = true -> is_Some (parent : option DefId)) /\
    forall q : list string, path = Some q -> inherent = true \/ stripped_mod s = false ->
      forall d, parent = Some d -> is_Some (paths s !! d))).
  { intros p. apply returns_ret. done. }
  assert (Hneeds : needs_owner (item_inner i) = true ->
    returns (parent ← unwrap (last (parent_stack s)); path ← without_last (stack s);
      mret (Some parent, Some path, false)) (fun '(parent, path, inherent) =>
    (inherent = true -> is_Some parent) /\
    forall p, path = Some p -> inherent = true \/ stripped_mod s = false ->
      forall d, parent = Some d -> is_Some (paths s !! d))).
  { intros Hn. destruct (Hown Hn) as (did & -> & Hd). cbn [unwrap mbind outcome_bind].
    destruct (without_last_returns (stack s) Hst) as [v ->]. apply returns_ret.
    split; [done|]. intros p _ [?|Hs] d [= <-]; [done|]. by apply Hd. }
  destruct (item_inner i) eqn:Hi; try apply Hnone; try (by apply Hneeds); try apply Hassoc.
  - destruct is_associated; [|apply Hnone]. destruct (parent_is_trait_impl s); apply Hnone.
  - destruct (parent_is_trait_impl s); [apply Hnone|apply Hassoc].
Qed.

Lemma add_index_returns i name path parent index al :
  types_named i -> (forall e, item_inner i = StrippedItem e -> stripped_enum e = false) ->
  returns (add_index summary i name path parent index al) (fun r =>
    exists it, r.1 = index ++ [it] /\ index_parent it = parent /\
      forall t, index_search_type it = Some t -> index_output t <> Some []).
Proof.
  intros Ht Hs. unfold add_index. destruct (item_type_returns i Hs) as [k ->].
  cbn [mbind outcome_bind]. eapply returns_bind; [by apply search_type_returns|].
  intros st Hst. apply returns_ret. cbn [fst]. eexists. split_and!; [reflexivity|done|exact Hst].
Qed.

Lemma index_item_returns i s :
  inv s -> (needs_owner (item_inner i) = true -> owned s) -> types_named i ->
  (forall e, item_inner i = StrippedItem e -> stripped_enum e = false) ->
  returns (index_item summary i s) (fun s' => inv s' /\ position s' = position s /\
    traits s' = traits s /\ paths s' = paths s /\ impls s' = impls s /\
    orphan_trait_impls s' = orphan_trait_impls s).
Proof.
  intros Hinv Hown Ht Hs. unfold index_item.
  destruct (item_name i) as [name|] eqn:Hname; [|by apply returns_ret].
  eapply returns_bind; [by apply owner_returns|]. intros [[parent path] inherent] [Hinh Hpar].
  assert (Hsame : returns (mret s) (fun s' => inv s' /\ position s' = position s /\
    traits s' = traits s /\ paths s' = paths s /\ impls s' = impls s /\
    orphan_trait_impls s' = orphan_trait_impls s)) by (by apply returns_ret).
  destruct path as [path|].
  - assert (Hgoal : returns (if inherent || negb (stripped_mod s) then
        if bool_decide (did_index (item_def_id i) <> CRATE_DEF_INDEX) then
          r ← add_index summary i name path parent (search_index s) (aliases s);
          mret (set_index s r.1 r.2) else mret s else mret s)
      (fun s' => inv s' /\ position s' = position s /\
         traits s' = traits s /\ paths s' = paths s /\ impls s' = impls s /\
         orphan_trait_impls s' = orphan_trait_impls s)); [|by destruct parent].
    destruct (inherent || negb (stripped_mod s)) eqn:Hi; [|done]. case_bool_decide; [|done].
    eapply returns_bind; [by apply add_index_returns|]. intros [idx al] (it & -> & Hp & Hout).
    apply returns_ret. split_and!; try done. destruct Hinv as [I1 I2 I3 I4]. split; try done.
    cbn. intros it' [Hit| ->%list_elem_of_singleton]%elem_of_app; [by apply I3|].
    split; [|done]. intros d Hd. rewrite Hp in Hd. eapply Hpar; [done| |done].
    apply orb_true_iff in Hi as [?|?%negb_true_iff]; auto.
  - destruct parent as [parent|]; [|done]. destruct inherent; [|done].
    apply returns_ret. split_and!; try done. destruct Hinv as [I1 I2 I3 I4]. split; try done.
    cbn. intros d j [Hj|[= -> ->]%list_elem_of_singleton]%elem_of_app; [by eapply I4|].
    split_and!; [by eexists|done..].
Qed.

(** Only the position, or nothing, of the invariant's fields changes. *)
Lemma inv_moved s st ps b1 b2 : st <> [] -> inv s -> inv (set_position s st ps b1 b2).
Proof. intros Hst [I1 I2 I3 I4]. by split. Qed.

Lemma record_trait_crawled x s :
  let s' := record_trait x.2 s in
  inv s -> inv s' /\ position s' = position s /\ paths s' = paths s /\
    crawled (info := info) (eq x) (fun _ => False) (fun _ => False) s s'.
Proof.
  intros s' Hinv. unfold s', record_trait.
  assert (Hother : (forall did, is_trait x did -> is_Some (traits s !! did)) ->
    crawled (info := info) (eq x) (fun _ => False) (fun _ => False) s s).
  { intros Hno. split; try tauto.
    - intros did. split; [by left|]. intros [?|(y & <- & Ht)]; [done|by apply Hno].
    - intros did [?|(? & ? & [] & _)]. done. }
  destruct (item_inner x.2) eqn:Hi;
    try (split_and!; [done..|apply Hother; intros did [_ [t0 Ht0]]; congruence]).
  destruct (traits s !! item_def_id x.2) eqn:Ht.
  { split_and!; [done..|]. apply Hother. intros did [<- _]. by rewrite Ht. }
  split_and!; [by destruct Hinv|done..|]. split; try tauto; cbn.
  - intros did. destruct (decide (item_def_id x.2 = did)) as [<-|Hne].
    + rewrite lookup_insert_eq. split; [|by intros _; eexists]. intros _. right. exists x.
      split; [done|]. split; [done|by eexists].
    + rewrite lookup_insert_ne by done. split; [by left|].
      intros [?|(y & <- & Hd & _)]; [done|]. congruence.
  - intros did [?|(? & ? & [] & _)]. done.
Qed.

Lemma record_implementor_crawled i s :
  let s' := record_implementor i s in
  inv s -> inv s' /\ position s' = position s /\ paths s' = paths s /\
    crawled (info := info) (fun _ => False) (fun _ => False) (fun _ => False) s s'.
Proof.
  intros s' Hinv. unfold s', record_implementor.
  assert (Hsame : inv s /\ position s = position s /\ paths s = paths s /\
    crawled (info := info) (fun _ => False) (fun _ => False) (fun _ => False) s s)
    by (split_and!; [done..|by apply crawled_same]).
  destruct (item_inner i); try exact Hsame. destruct (trait_ _ ≫= _); [|exact Hsame].
  destruct (bool_decide _); [|exact Hsame].
  split_and!; [by destruct Hinv|done..|by apply crawled_same].
Qed.

(** The path of the item is recorded: [current] are the names around the item. *)
Lemma record_path_returns current stripped i s :
  inv s -> (forall e, item_inner i = StrippedItem e -> stripped_enum e = false) ->
  stack s = current ++ own_name i -> stripped_mod s = is_stripped_mod i || stripped ->
  returns (record_path i s) (fun s' => inv s' /\ position s' = position s /\
    crawled (info := info) (fun _ => False) (eq (current, stripped, i)) (fun _ => False) s s' /\
    (pathable (item_inner i) = true -> stripped_mod s = false ->
     is_Some (paths s' !! item_def_id i))).
Proof.
  intros Hinv Hss Hst Hstr. destruct (item_type_returns i Hss) as [k Hk].
  assert (Hmod : pathable (item_inner i) = true -> is_stripped_mod i = false).
  { unfold is_stripped_mod. by destruct (item_inner i). }
  assert (Hinsert : ((exists p, item_inner i = PrimitiveItem p) \/
      pathable (item_inner i) = true /\ stripped = false) ->
    returns (kind ← item_type i;
      mret (set_paths s (<[item_def_id i := (stack s, kind)]> (paths s))))
    (fun s' => inv s' /\ position s' = position s /\
      crawled (info := info) (fun _ => False) (eq (current, stripped, i)) (fun _ => False) s s' /\
      (pathable (item_inner i) = true -> stripped_mod s = false ->
       is_Some (paths s' !! item_def_id i)))).
  { intros Hrec. rewrite Hk. cbn [mbind outcome_bind]. apply returns_ret.
    assert (Hgrow : forall did, is_Some (paths s !! did) ->
      is_Some (<[item_def_id i := (stack s, k)]> (paths s) !! did)).
    { intros did Hd. destruct (decide (item_def_id i = did)) as [<-|Hne];
        [rewrite lookup_insert_eq; by eexists|by rewrite lookup_insert_ne]. }
    split_and!; [|done| |].
    - destruct Hinv as [I1 I2 I3 I4]. split; [done| | |done]; cbn.
      + intros did fqp k' [[_ [= <- <-]]|[_ Hd]]%lookup_insert_Some; [done|by eapply I2].
      + intros it Hit. destruct (I3 it Hit) as [Hpa Ho]. split; [|done].
        intros d Hd. by apply Hgrow, Hpa.
    - split; try tauto; cbn.
      + intros did. split; [by left|by intros [?|(? & [] & _)]].
      + intros did e [[<- <-]|[_ Hd]]%lookup_insert_Some; [right|by left].
        eexists. split; [reflexivity|]. split_and!; [done|done|exact Hk|exact Hrec].
      + intros did [Hd|(y & e & <- & <- & _)]; [by apply Hgrow|].
        cbn. rewrite lookup_insert_eq. by eexists.
    - cbn. rewrite lookup_insert_eq. by eexists. }
  assert (Hkeep : ~ ((exists p, item_inner i = PrimitiveItem p) \/
      pathable (item_inner i) = true /\ stripped = false) \/
      is_Some (paths s !! item_def_id i) ->
    returns (mret s) (fun s' => inv s' /\ position s' = position s /\
      crawled (info := info) (fun _ => False) (eq (current, stripped, i)) (fun _ => False) s s' /\
      (pathable (item_inner i) = true -> stripped_mod s = false ->
       is_Some (paths s' !! item_def_id i)))).
  { intros Hno. apply returns_ret. split_and!; [done|done| |].
    - split; try tauto.
      + intros did. split; [by left|by intros [?|(? & [] & _)]].
      + intros did [?|(y & e & <- & Hd & _ & _ & Hpe)]; [done|]. cbn in *. subst did. tauto.
    - intros Hp Hsm. destruct Hno as [Hno|?]; [|done]. destruct Hno. right.
      split; [done|]. rewrite Hstr in Hsm. by apply orb_false_iff in Hsm as [_ ?]. }
  assert (Hrest : (forall p, item_inner i <> PrimitiveItem p) ->
    returns (if pathable (item_inner i) && negb (stripped_mod s) then
        if bool_decide (paths s !! item_def_id i = None)
           || is_public (access_levels info) (item_def_id i)
        then kind ← item_type i;
             mret (set_paths s (<[item_def_id i := (stack s, kind)]> (paths s)))
        else mret s
      else mret s)
    (fun s' => inv s' /\ position s' = position s /\
      crawled (info := info) (fun _ => False) (eq (current, stripped, i)) (fun _ => False) s s' /\
      (pathable (item_inner i) = true -> stripped_mod s = false ->
       is_Some (paths s' !! item_def_id i)))).
  { intros Hnp. destruct (pathable (item_inner i) && negb (stripped_mod s)) eqn:Hc.
    - apply andb_true_iff in Hc as [Hp Hsm%negb_true_iff].
      case_bool_decide as Hnone; cbn [orb]; [|destruct (is_public _ _)].
      1,2: apply Hinsert; right; rewrite Hstr in Hsm; by apply orb_false_iff in Hsm as [_ ?].
      apply Hkeep. right. by apply not_eq_None_Some.
    - apply Hkeep. left. intros [[p Hp]|[Hp Hs]]; [by eapply Hnp|].
      rewrite Hp, Hstr, Hs, (Hmod Hp) in Hc. done. }
  unfold record_path.
  destruct (item_inner i) eqn:Hi; try (apply Hrest; done). apply Hinsert. left. by eexists.
Qed.

Lemma push_entry_in {A} (m : gmap DefId (list A)) k x did y :
  (exists l, push_entry m k x !! did = Some l /\ y ∈ l) <->
  (exists l, m !! did = Some l /\ y ∈ l) \/ did = k /\ y = x.
Proof.
  unfold push_entry. destruct (decide (k = did)) as [<-|Hne].
  - rewrite lookup_insert_eq. split.
    + intros (l & [= <-] & [Hy| ->%list_elem_of_singleton]%elem_of_app); [left|by right].
      destruct (m !! k) as [l|]; [by exists l|by apply not_elem_of_nil in Hy].
    + intros [(l & -> & Hy)|[_ ->]]; eexists; (split; [reflexivity|]); set_solver.
  - rewrite lookup_insert_ne by done. split; [by left|]. intros [?|[-> _]]; done.
Qed.

Lemma push_impl_in dids im (m : gmap DefId (list RenderImpl)) did y :
  (exists l, push_impl dids im m !! did = Some l /\ y ∈ l) <->
  (exists l, m !! did = Some l /\ y ∈ l) \/ did ∈ dids /\ y = im.
Proof.
  unfold push_impl. rewrite <- (elem_of_hash_order 13). generalize (hash_order 13 dids). clear dids.
  intros l. revert m. induction l as [|d l IH]; intros m; cbn [foldl].
  - rewrite elem_of_nil. tauto.
  - rewrite IH, push_entry_in, elem_of_cons. tauto.
Qed.

Lemma impl_shape (a b : Impl Item) :
  shape (ImplItem a) = shape (ImplItem b) ->
  impl_dids (info := info) a = impl_dids (info := info) b /\ trait_id a = trait_id b.
Proof.
  destruct a, b. cbn. intros [=]. subst. done.
Qed.

(** An impl goes to the list of its types, or to the orphans when its trait is unknown. *)
Lemma hoard_returns x i s :
  inv s -> pruned false i x.2 ->
  returns (hoard_impl i s) (fun r => inv r.2 /\ position r.2 = position s /\
    paths r.2 = paths s /\
    crawled (info := info) (fun _ => False) (fun _ => False) (eq x) s r.2).
Proof.
  intros Hinv Hp. unfold hoard_impl.
  assert (Himpl : forall imp0, item_inner x.2 = ImplItem imp0 ->
    exists imp, item_inner i = ImplItem imp /\ shape (ImplItem imp) = shape (ImplItem imp0)).
  { intros imp0 Hx. pose proof Hp as (_ & [Hs|(? & _)] & _)%pruned_inv; [|done].
    rewrite Hx in Hs. destruct (item_inner i) as [| | | | | | | | | | | | |imp| | | |v| | | | | | | | | |] eqn:Hi;
      try done; [by exists imp|by destruct v]. }
  destruct (item_inner i) eqn:Hi;
    try (apply returns_ret; split_and!; [done..|]; split; try tauto;
         [by intros did; split; [left|intros [?|(? & [] & _)]]
         |by intros did [?|(? & ? & [] & _)]
         |intros y imp did <- Hy; destruct (Himpl _ Hy) as (? & ? & _); congruence]).
  match type of Hi with _ = ImplItem ?a => rename a into imp end.
  assert (Hat : impl_at x (mk_RenderImpl i) imp) by (by split).
  assert (Hall : forall imp0, item_inner x.2 = ImplItem imp0 ->
    impl_dids (info := info) imp = impl_dids (info := info) imp0 /\ trait_id imp = trait_id imp0).
  { intros imp0 Hx. destruct (Himpl _ Hx) as (imp1 & [= <-] & Hs). by apply impl_shape. }
  assert (Htrait : trait_did (mk_RenderImpl i) = Ret (trait_id imp)).
  { unfold trait_did, inner_impl. cbn. by rewrite Hi. }
  rewrite Htrait. cbn [mbind outcome_bind].
  assert (Hlist : (forall t, trait_id imp = Some t -> is_Some (traits s !! t)) ->
    let s' := set_impls s (push_impl (impl_dids (info := info) imp) (mk_RenderImpl i) (impls s)) in
    inv s' /\ position s' = position s /\ paths s' = paths s /\
    crawled (info := info) (fun _ => False) (fun _ => False) (eq x) s s').
  { intros Hknown s'. split_and!; [by destruct Hinv|done..|].
    assert (Hin : forall did im, in_impls s' did im <-> in_impls s did im \/
      did ∈ impl_dids (info := info) imp /\ im = mk_RenderImpl i)
      by (intros did im; apply push_impl_in).
    split; try tauto.
    - intros did. split; [by left|by intros [?|(? & [] & _)]].
    - intros did [?|(? & ? & [] & _)]. done.
    - intros did im [?|[Hd ->]]%Hin; [by left|right]. by exists x, imp.
    - intros did im ?. apply Hin. by left.
    - intros y imp0 did <- Hy Hd. destruct (Hall _ Hy) as [Heq _]. exists (mk_RenderImpl i), imp.
      split; [done|]. left. apply Hin. right. by rewrite Heq. }
  destruct (trait_id imp) as [t|] eqn:Ht.
  - case_bool_decide as Hk; apply returns_ret.
    { apply Hlist. by intros ? [= <-]. }
    cbn [snd]. split_and!; [by destruct Hinv|done..|].
    set (s' := set_orphans _ _ _).
    assert (Hin : forall t' did im, in_orphans s' t' did im <-> in_orphans s t' did im \/
      t' = t /\ did ∈ impl_dids (info := info) imp /\ im = mk_RenderImpl i).
    { intros t' did im. unfold in_orphans. cbn. setoid_rewrite elem_of_app.
      setoid_rewrite list_elem_of_singleton. split.
      - intros (dids & [?|[= -> -> ->]] & ?); [left; by exists dids|by right].
      - intros [(dids & ? & ?)|(-> & ? & ->)]; [exists dids; auto|by exists (impl_dids (info := info) imp); auto]. }
    split; try tauto.
    + intros did. split; [by left|by intros [?|(? & [] & _)]].
    + intros did [?|(? & ? & [] & _)]. done.
    + intros t' did im [?|(-> & Hd & ->)]%Hin; [by left|right]. by exists x, imp.
    + intros t' did im ?. apply Hin. by left.
    + intros y imp0 did <- Hy Hd. destruct (Hall _ Hy) as [Heq Heqt]. exists (mk_RenderImpl i), imp.
      split; [done|]. right. exists t. split; [congruence|]. apply Hin. right. by rewrite Heq.
  - apply returns_ret. apply Hlist. done.
Qed.

(** The names that are pushed are popped again. *)
Lemma pop_pushed i (st : list string) :
  let pushed := match item_name i with
                | Some n => negb (bool_decide (n = EmptyString))
                | None => false
                end in
  (if pushed then st ++ option_list (item_name i) else st) = st ++ own_name i /\
  pop_expect pushed (st ++ own_name i) = Ret st.
Proof.
  unfold own_name, pop_expect. destruct (item_name i) as [n|]; cbn; [|by rewrite app_nil_r].
  case_bool_decide; cbn; [by rewrite app_nil_r|]. split; [done|].
  rewrite decide_False by (by destruct st). unfold vec_pop. rewrite length_app. cbn.
  by rewrite Nat.add_sub, take_app_length.
Qed.

Lemma pop_parent (parent : option DefId) (ps : list DefId) :
  pop_expect (bool_decide (is_Some parent)) (ps ++ option_list parent) = Ret ps.
Proof.
  destruct parent as [d|]; cbn.
  - unfold pop_expect. rewrite decide_False by (by destruct ps). unfold vec_pop.
    rewrite length_app. cbn. by rewrite Nat.add_sub, take_app_length.
  - by rewrite app_nil_r.
Qed.

(** What a member that needs an owner finds. *)
Lemma parent_owns i s :
  owns (item_inner i) = true ->
  (stripped_mod s = false -> is_Some (paths s !! item_def_id i)) ->
  parent_of (info := info) i s = (Some (item_def_id i), false).
Proof. unfold parent_of. by destruct (item_inner i). Qed.

Lemma owns_pathable e : owns e = true -> pathable e = true.
Proof. by destruct e. Qed.

(** Two steps. *)
Lemma crawled_then Vt Vp Vi Wt Wp Wi (s1 s2 s3 : Crawl) :
  crawled (info := info) Vt Vp Vi s1 s2 -> crawled (info := info) Wt Wp Wi s2 s3 ->
  crawled (info := info) (fun x => Vt x \/ Wt x) (fun x => Vp x \/ Wp x) (fun x => Vi x \/ Wi x)
    s1 s3.
Proof. by apply crawled_trans. Qed.

Ltac and_then Hall step :=
  apply (fun h => crawled_then _ _ _ _ _ _ _ _ _ h step) in Hall.

Lemma crawled_none Vt Vp Vi (s : Crawl) :
  (forall x, ~ Vt x) -> (forall x, ~ Vp x) -> (forall x, ~ Vi x) ->
  crawled (info := info) Vt Vp Vi s s.
Proof.
  intros HT HP HI. eapply crawled_ext; [| | |by apply (crawled_same s s)]; intros x; split; try done.
  - intros Hx. by destruct (HT x).
  - intros Hx. by destruct (HP x).
  - intros Hx. by destruct (HI x).
Qed.

(** Moving only changes the position. *)
Lemma crawled_moved s st ps b1 b2 :
  crawled (info := info) (fun _ => False) (fun _ => False) (fun _ => False) s
    (set_position s st ps b1 b2).
Proof. by apply crawled_same. Qed.

Definition item_post (i : Item) (s : Crawl) (s' : Crawl) : Prop :=
  inv s' /\ position s' = position s /\
  let x := inside (info := info) (stack s, stripped_mod s, i) in crawled (info := info) x x x s s'.

(** The members, one after the other. *)
Lemma members_return i (s : Crawl) :
  inv s -> (forall e, item_inner i = StrippedItem e -> stripped_enum e = false) ->
  (forall c, c ∈ members (item_inner i) -> needs_owner (item_inner c) = true -> owned s) ->
  (forall c, c ∈ members (item_inner i) -> forall s, inv s ->
     (needs_owner (item_inner c) = true -> owned s) ->
     returns (fold_item c s) (fun r => item_post c s r.2)) ->
  returns (fold_item_recur fold_item i s) (fun r => exists i', r.1 = Some i' /\
    pruned false i' i /\ inv r.2 /\ position r.2 = position s /\
    let x := fun y => exists c, c ∈ members (item_inner i) /\
      inside (info := info) (stack s, stripped_mod s, c) y in
    crawled (info := info) x x x s r.2).
Proof.
  intros Hinv Hss Hown IH. apply returns_exists.
  set (V := fun (l : list Item) y => exists c, c ∈ l /\
    inside (info := info) (stack s, stripped_mod s, c) y).
  assert (Hr : returns (fold_item_recur fold_item i s) (fun r => exists i', r.1 = Some i' /\
    same_header i' i /\ shape (item_inner i') = shape (item_inner i) /\
    (inv r.2 /\ position r.2 = position s /\
     let x := V (members (item_inner i)) in crawled (info := info) x x x s r.2))).
  { apply (fold_item_recur_returns fold_item (fun l _ s' => inv s' /\ position s' = position s /\
      crawled (info := info) (V l) (V l) (V l) s s')); [done| |].
    - split_and!; [done..|]. apply crawled_none; intros y (c & Hc & _); by apply not_elem_of_nil in Hc.
    - intros l1 c l2 out s1 Hl (Hinv1 & Hpos1 & Hc1).
      assert (Hc : c ∈ members (item_inner i)) by (rewrite Hl; set_solver).
      assert (Hp1 := Hpos1). unfold position in Hp1. injection Hp1 as Hst Hps Hti Hsm.
      eapply returns_mono; [apply (IH c Hc s1 Hinv1)|].
      + intros Hn. destruct (Hown c Hc Hn) as (did & Hlast & Hpath). exists did.
        rewrite Hps, Hsm. split; [done|]. intros Hs. apply (cr_all_paths _ _ _ _ _ Hc1). left. by apply Hpath.
      + intros [r s2] (Hinv2 & Hpos2 & Hc2). cbn [snd] in *. rewrite Hst, Hsm in Hc2. split_and!; [done|by rewrite Hpos2|].
        assert (HV : forall y, V (l1 ++ [c]) y <-> V l1 y \/
          inside (info := info) (stack s, stripped_mod s, c) y).
        { intros y. unfold V. setoid_rewrite elem_of_app. setoid_rewrite list_elem_of_singleton.
          naive_solver. }
        by eapply crawled_trans; [exact HV..| |]. }
  apply returns_exists in Hr as ([r s'] & Hf & i' & Hi' & Hh & Hs & Hpost). cbn [fst snd] in *.
  subst r.
  exists (Some i', s'). split; [exact Hf|]. exists i'. split; [done|]. split; [|exact Hpost].
  assert (Hk : forall c (s : Crawl) r s', c ∈ members (item_inner i) ->
    fold_item c s = Ret (r, s') -> forall c', r = Some c' -> pruned false c' c).
  { intros c sa r sb _ Hfc. exact (fold_item_prunes c sa r sb Hfc). }
  destruct (fold_item_recur_kept _ _ _ _ _ _ Hk Hf) as (j & [= <-] & _ & _ & Hkept & _).
  constructor; [done|by left|done].
Qed.

Lemma inside_unfold x :
  masked (info := info) x.2 = false ->
  forall y, inside (info := info) x y <-> x = y \/
    exists c, c ∈ members (item_inner x.2) /\ inside (info := info) (place x c) y.
Proof.
  intros Hm y. split.
  - inversion 1; subst; eauto.
  - intros [<-|(c & Hc & Hy)]; [by constructor|by apply (inside_member x c)].
Qed.

(** The crawl of an item that is not masked. *)
Lemma unmasked_returns i s :
  masked (info := info) i = false -> crawlable i ->
  (forall c, c ∈ members (item_inner i) -> forall s, inv s ->
     (needs_owner (item_inner c) = true -> owned s) ->
     returns (fold_item c s) (fun r => item_post c s r.2)) ->
  inv s -> (needs_owner (item_inner i) = true -> owned s) ->
  returns (crawl_fold_item summary (fold_item_recur fold_item) i s)
    (fun r => item_post i s r.2).
Proof.
  intros Hmask [Hss Htypes _ Howners] IH Hinv Hown. unfold crawl_fold_item. rewrite Hmask.
  set (x := (stack s, stripped_mod s, i)).
  destruct (pop_pushed i (stack s)) as [Hpush Hpop].
  set (pushed := match item_name i with Some n => _ | None => false end) in *. cbn zeta in Hpush, Hpop.
  set (s1 := set_position s (stack s) (parent_stack s) (parent_is_trait_impl s)
    (is_stripped_mod i || stripped_mod s)).
  assert (Hinv1 : inv s1) by (apply inv_moved; [apply Hinv|done]).
  destruct (record_trait_crawled x s1 Hinv1) as (Hinv2 & Hpos2 & Hpath2 & Hc2).
  cbn [snd x] in Hinv2, Hpos2, Hpath2, Hc2. set (s2 := record_trait i s1) in *.
  destruct (record_implementor_crawled i s2 Hinv2) as (Hinv3 & Hpos3 & Hpath3 & Hc3).
  set (s3 := record_implementor i s2) in *.
  assert (Hpos31 : position s3 = position s1) by (by rewrite Hpos3).
  assert (Hown3 : needs_owner (item_inner i) = true -> owned s3).
  { intros Hn. destruct (Hown Hn) as (did & Hl & Hd). exists did.
    injection Hpos31 as _ -> _ ->. rewrite Hpath3, Hpath2. split; [done|].
    intros Hs. apply Hd. cbn in Hs. by apply orb_false_iff in Hs as [_ ?]. }
  eapply returns_bind; [by apply index_item_returns|].
  intros s4 (Hinv4 & Hpos4 & Ht4 & Hpt4 & Hi4 & Ho4).
  assert (Hp4 : position s4 = position s1) by (by rewrite Hpos4).
  injection Hp4 as Hst4 Hps4 Hti4 Hsm4. rewrite Hst4, Hps4, Hti4, Hsm4.
  cbn [stack parent_stack parent_is_trait_impl stripped_mod s1 set_position] in *.
  rewrite Hpush. set (s5 := set_position s4 _ _ _ _).
  assert (Hinv5 : inv s5).
  { apply inv_moved; [|done]. intros Hnil. apply app_eq_nil in Hnil as [Hnil _].
    by apply (inv_stack _ Hinv). }
  eapply returns_bind; [by apply (record_path_returns (stack s) (stripped_mod s))|].
  intros s6 (Hinv6 & Hpos6 & Hc6 & Hpath6). injection Hpos6 as Hst6 Hps6 Hti6 Hsm6.
  destruct (parent_of i s6) as [parent trait_impl] eqn:Hparent.
  rewrite Hst6, Hps6, Hsm6. cbn [stack parent_stack stripped_mod s5 set_position] in *.
  set (s7 := set_position s6 _ _ _ _).
  assert (Hinv7 : inv s7).
  { apply inv_moved; [|done]. intros Hnil. apply app_eq_nil in Hnil as [Hnil _].
    by apply (inv_stack _ Hinv). }
  eapply returns_bind.
  { apply members_return; [done|done| |done]. intros c Hc Hn. pose proof (Howners c Hc Hn) as Ho.
    rewrite parent_owns in Hparent; [|done|].
    - injection Hparent as <- <-. exists (item_def_id i). cbn.
      rewrite last_snoc. split; [done|]. intros Hs. apply Hpath6; [by apply owns_pathable|done].
    - intros Hs. rewrite Hsm6 in Hs. apply Hpath6; [by apply owns_pathable|done]. }
  intros [r s8] (i' & Hr & Hp & Hinv8 & Hpos8 & Hc8). cbn [fst snd] in *. subst r.
  eapply returns_bind; [by apply (hoard_returns x)|].
  intros [r s9] (Hinv9 & Hpos9 & _ & Hc9). cbn [fst snd] in *. rewrite Hpos8 in Hpos9.
  injection Hpos9 as Hst9 Hps9 _ _. rewrite Hst9, Hps9.
  cbn [stack parent_stack s7 set_position]. rewrite Hpop. cbn [mbind outcome_bind].
  rewrite pop_parent. cbn [mbind outcome_bind]. apply returns_ret. cbn [snd].
  split; [apply inv_moved; [apply Hinv|done]|]. split; [unfold position; cbn; by rewrite Hti6|].
  cbn zeta. fold x.
  assert (Hc4 : crawled (info := info) (fun _ => False) (fun _ => False) (fun _ => False) s3 s4)
    by (by apply crawled_same).
  set (C := fun y => exists c, c ∈ members (item_inner i) /\ inside (info := info) (place x c) y).
  assert (HU : forall y, inside (info := info) x y <-> x = y \/ C y)
    by (by apply inside_unfold).
  pose proof (crawled_then _ _ _ _ _ _ _ _ _ (crawled_moved s _ _ _ _) Hc2) as Hall.
  and_then Hall Hc3. and_then Hall Hc4.
  and_then Hall (crawled_moved s4 (stack s ++ own_name i) (parent_stack s)
    (parent_is_trait_impl s) (is_stripped_mod i || stripped_mod s)).
  and_then Hall Hc6.
  and_then Hall (crawled_moved s6 (stack s ++ own_name i) (parent_stack s ++ option_list parent)
    trait_impl (is_stripped_mod i || stripped_mod s)).
  and_then Hall Hc8. and_then Hall Hc9.
  and_then Hall (crawled_moved s9 (stack s) (parent_stack s) (parent_is_trait_impl s6)
    (stripped_mod s)).
  eapply crawled_ext; [| | |exact Hall]; intros y; cbn beta; rewrite HU; tauto.
Qed.

Lemma crawl_item_returns i : crawlable i -> forall s : Crawl, inv s ->
  (needs_owner (item_inner i) = true -> owned s) ->
  returns (fold_item i s) (fun r => item_post i s r.2).
Proof.
  induction i as [i IH] using item_members_ind. intros Hi s Hinv Hown. rewrite fold_item_unfold.
  change (override (fold_item_recur fold_item) i s)
    with (crawl_fold_item summary (fold_item_recur fold_item) i s).
  destruct (masked (info := info) i) eqn:Hm.
  - unfold crawl_fold_item. rewrite Hm. apply returns_ret. cbn [snd].
    destruct (masked_impl _ Hm) as [imp Himp].
    assert (Hno : forall y, ~ inside (info := info) (stack s, stripped_mod s, i) y).
    { intros y. inversion 1; subst; cbn in *; congruence. }
    split; [by apply inv_moved; [apply Hinv|]|]. unfold is_stripped_mod. rewrite Himp.
    split; [done|]. eapply crawled_ext; [| | |apply crawled_moved]; intros y; split; try done;
      intros Hy; by destruct (Hno y).
  - apply unmasked_returns; [done|done| |done|done]. intros c Hc s0 Hinv0 Hown0.
    apply IH; [done| |done|done]. destruct Hi as [_ _ Hcs _]. by apply Hcs.
Qed.
End steps.
