(* ===== verification/CacheBuild.v ===== *)
(** The construction of the render cache as a whole: [Cache::from_krate] returns, and what
    the cache and the crate hold afterwards. *)

From S2P Require Import Prelude RustStd CleanTypes CleanItems DocFold Pruning.
From S2P Require Import Passes PassesCorrect ItemTree ItemSamples PassesSpec PassesRun RenderCache.
From S2P Require Import CrawlSpec CacheCorrect.

Section build.
Context `{HashOrder} `{Summary} {info : CacheInfo} (to_json : CrateData -> string).
Abbreviation Crawl := (Crawl info).

(** ** The index *)

Definition numbered (it : IndexItem) : Prop :=
  (is_Some (index_parent it) <-> is_Some (index_parent_idx it)) /\
  forall t, index_search_type it = Some t -> index_output t <> Some [].

Lemma number_item_returns (c : Crawl) it st :
  inv c -> index_ok (paths c) it -> (forall i, i ∈ crate_items st -> numbered i) ->
  returns (number_item c it st) (fun st' => forall i, i ∈ crate_items st' -> numbered i).
Proof.
  intros Hinv [Hp Ht] Hst. unfold number_item.
  eapply returns_bind with (P := fun r => (is_Some (index_parent it) <-> is_Some r.1) /\
    crate_items r.2 = crate_items st).
  - unfold number_parent. destruct (index_parent it) as [d|]; [|by apply returns_ret; split; [split; intros [? ?]|]].
    assert (Hsome : forall n : nat, is_Some (Some d) <-> is_Some (Some n))
      by (intros n; split; by eexists).
    destruct (defid_to_pathid st !! d); [apply returns_ret; by split; [apply Hsome|]|].
    destruct (Hp d eq_refl) as [[fqp k] Hd]. rewrite Hd.
    destruct (last fqp) as [n|] eqn:Hl.
    + apply returns_ret. by split; [apply Hsome|].
    + apply last_None in Hl. by destruct (inv_paths _ Hinv _ _ _ Hd).
  - intros [idx st1] [Hidx Hitems]. apply returns_ret. cbn [fst snd crate_items] in *.
    rewrite Hitems. intros i [Hi| ->%list_elem_of_singleton]%elem_of_app; [by apply Hst|].
    split; [exact Hidx|exact Ht].
Qed.

Lemma index_orphan_returns (c : Crawl) d i st :
  inv c -> orphan_ok i -> (forall it, it ∈ st.1 -> index_ok (paths c) it) ->
  returns (index_orphan c (d, i) st) (fun st' => forall it, it ∈ st'.1 -> index_ok (paths c) it).
Proof.
  intros Hinv ([name Hname] & Ht & Hs) Hst. unfold index_orphan.
  destruct (paths c !! d) as [[fqp k]|] eqn:Hd; [|by apply returns_ret].
  rewrite Hname. cbn [unwrap mbind outcome_bind].
  destruct (without_last_returns fqp) as [v ->]; [by eapply inv_paths|]. cbn [mbind outcome_bind].
  eapply returns_mono; [by apply add_index_returns|].
  intros [idx al] (it & -> & Hp & Hout). cbn [fst].
  intros it' [Hi| ->%list_elem_of_singleton]%elem_of_app; [by apply Hst|].
  split; [|exact Hout]. intros d' Hd'. rewrite Hp in Hd'. injection Hd' as <-. by rewrite Hd.
Qed.

Lemma serialize_returns it : numbered it -> returns (serialize_item it) (fun _ => True).
Proof.
  intros [Hp Ht]. unfold serialize_item. rewrite bool_decide_eq_true_2 by exact Hp.
  destruct (index_search_type it) as [t|]; [|done]. unfold serialize_search_type.
  specialize (Ht t eq_refl). by destruct (index_output t) as [[|]|].
Qed.

Lemma build_index_returns krate (c : Crawl) :
  inv c -> returns (build_index to_json krate c) (fun r =>
    paths r.2 = paths c /\ impls r.2 = impls c /\ traits r.2 = traits c).
Proof.
  intros Hinv. unfold build_index. eapply returns_bind.
  { apply (fold_loop_returns _ (fun _ st => forall it, it ∈ st.1 -> index_ok (paths c) it)).
    - apply Hinv.
    - intros pre [d i] post st Hl Hst. apply index_orphan_returns; [done| |done].
      apply (inv_orphans _ Hinv d). rewrite Hl. set_solver. }
  intros [idx al] Hidx. cbn [fst snd] in *. eapply returns_bind.
  { apply (fold_loop_returns _ (fun _ st => forall i, i ∈ crate_items st -> numbered i)).
    - intros i Hi. by apply not_elem_of_nil in Hi.
    - intros pre it post st Hl Hst. apply number_item_returns; [done| |done].
      apply Hidx. rewrite Hl. set_solver. }
  intros st Hst. cbn beta in Hst. eapply returns_bind.
  { apply (fold_loop_returns _ (fun _ _ => True)); [done|].
    intros pre it post [] Hl _. apply serialize_returns, Hst. rewrite Hl. set_solver. }
  intros [] _. by apply returns_ret.
Qed.

(** ** The orphan impls *)

Definition known (c : Crawl) (t : DefId) : Prop := is_Some (traits c !! t).

Lemma adopt_impls_spec (c : Crawl) :
  inv c -> inv (adopt_impls c) /\ paths (adopt_impls c) = paths c /\
  traits (adopt_impls c) = traits c /\
  forall did im, in_impls (adopt_impls c) did im <->
    in_impls c did im \/ exists t, known c t /\ in_orphans c t did im.
Proof.
  intros Hinv. unfold adopt_impls, known, in_orphans.
  assert (Hgen : forall l (c0 : Crawl), traits c0 = traits c -> inv c0 -> paths c0 = paths c ->
    let c1 := foldl adopt_impl c0 l in
    inv c1 /\ paths c1 = paths c /\ traits c1 = traits c /\
    orphan_impl_items c1 = orphan_impl_items c0 /\
    forall did im, in_impls c1 did im <-> in_impls c0 did im \/
      exists t, is_Some (traits c !! t) /\ exists dids, (t, dids, im) ∈ l /\ did ∈ dids).
  { induction l as [|[[t dids] im0] l IH]; intros c0 Ht0 Hi0 Hp0 c1; subst c1; cbn [foldl].
    { split_and!; [done..|]. intros did im. setoid_rewrite elem_of_nil. naive_solver. }
    assert (Hstep : let c1 := adopt_impl c0 (t, dids, im0) in
      traits c1 = traits c /\ inv c1 /\ paths c1 = paths c /\
      orphan_impl_items c1 = orphan_impl_items c0 /\
      forall did im, in_impls c1 did im <-> in_impls c0 did im \/
        is_Some (traits c !! t) /\ did ∈ dids /\ im = im0).
    { unfold adopt_impl. case_bool_decide as Hk; rewrite Ht0 in Hk; cbn.
      - split_and!; [done|by destruct Hi0|done..|]. intros did im.
        unfold in_impls. cbn. rewrite push_impl_in. tauto.
      - split_and!; [done..|]. tauto. }
    destruct Hstep as (Ht1 & Hi1 & Hp1 & Ho1 & Him1).
    destruct (IH _ Ht1 Hi1 Hp1) as (Hi2 & Hp2 & Ht2 & Ho2 & Him2).
    split_and!; [done..|congruence|]. intros did im. rewrite Him2, Him1.
    setoid_rewrite elem_of_cons. split.
    - intros [[?|(Hk & Hd & ->)]|(t' & Hk & dids' & Hin & Hd)]; [by left| |].
      + right. exists t. split; [done|]. exists dids. auto.
      + right. exists t'. split; [done|]. exists dids'. auto.
    - intros [?|(t' & Hk & dids' & [[= -> -> ->]|Hin] & Hd)]; [by left; left|left; right; auto|].
      right. exists t'. split; [done|]. by exists dids'. }
  destruct (Hgen (orphan_trait_impls c) c eq_refl Hinv eq_refl) as (Hi & Hp & Ht & Ho & Him).
  split_and!; [|exact Hp|exact Ht|exact Him].
  destruct Hi as [I1 I2 I3 I4]. split; try done. cbn. apply Hinv.
Qed.
End build.

(** ** [Cache::from_krate] *)
Section from_krate.
Context `{HashOrder} `{Summary} (to_json : CrateData -> string) (is_dir : string -> bool).
Context (renderinfo : RenderInfo) (private : bool) (urls : gmap string string).
Context (krate : Crate) (root : Item).

Abbreviation info := (initial_info is_dir renderinfo private urls krate).

(** The items that are not in a masked impl. *)
Definition visited (x : list string * bool * Item) : Prop :=
  inside (info := info) ([krate_name krate], false, root) x.

(** The traits of the crate and of the other crates. *)
Definition known_trait (t : DefId) : Prop :=
  is_Some (external_traits krate !! t) \/ exists x, visited x /\ is_trait x t.

Definition trait_known (imp : Impl Item) : Prop :=
  forall t, trait_id imp = Some t -> known_trait t.

(** What the cache and the crate hold. *)
Record cache_spec (c' : Crate) (cache : Crawl info) : Prop := {
  cs_name : krate_name c' = krate_name krate;
  cs_root : exists root', rooted c' root' /\ pruned false root' root /\
    all_below (fun d => ~ is_impl d) root';
  cs_functions : forall path d, free_function c' path d <-> free_function krate path d;
  cs_paths : forall did e, paths cache !! did = Some e ->
    exists x, visited x /\ path_entry x did e;
  cs_all_paths : forall x did e, visited x -> path_entry x did e -> is_Some (paths cache !! did);
  cs_impls : forall did im, in_impls cache did im ->
    exists x imp, visited x /\ impl_at x im imp /\ did ∈ impl_dids (info := info) imp /\
      trait_known imp;
  cs_all_impls : forall x imp did, visited x -> item_inner x.2 = ImplItem imp ->
    trait_known imp -> did ∈ impl_dids (info := info) imp ->
    exists im imp', impl_at x im imp' /\ in_impls cache did im
}.

Lemma initial_inv : inv (initial_crawl info krate).
Proof.
  split; cbn; [done|..].
  - intros did fqp k Hd. by rewrite lookup_empty in Hd.
  - intros it Hit. by apply not_elem_of_nil in Hit.
  - intros d i Hi. by apply not_elem_of_nil in Hi.
Qed.

Lemma taken_wf : crate_wf krate -> crate_wf (taken krate).
Proof.
  intros [[Hm Ht] [r [Hr Hmod]]]. split; [|by exists r].
  split; [done|]. intros k t i Hk. cbn in Hk. by rewrite lookup_empty in Hk.
Qed.

Lemma crawl_crate_returns :
  rooted krate root -> crawlable root ->
  returns (fold_crate (taken krate) (initial_crawl info krate)) (fun r => inv r.2 /\
    krate_name r.1 = krate_name krate /\
    (exists root', rooted r.1 root' /\ pruned false root' root /\
       all_below (fun d => ~ is_impl d) root') /\
    (forall path d, free_function r.1 path d <-> free_function krate path d) /\
    crawled (info := info) visited visited visited (initial_crawl info krate) r.2).
Proof.
  intros [Hr Hmod] Hcrawl. apply returns_exists.
  pose proof (crawl_item_returns root Hcrawl (initial_crawl info krate) initial_inv) as Hitem.
  assert (Hno : needs_owner (item_inner root) = true -> owned (initial_crawl info krate)).
  { intros Hn. destruct Hmod as [its (m & _ & [Hm|Hm])%module_items_inv]; by rewrite Hm in Hn. }
  specialize (Hitem Hno). apply returns_exists in Hitem as ([r s] & Hf & Hinv & _ & Hc).
  cbn [fst snd] in *. set (c' := mk_Crate (krate_name krate) None (krate_src krate) r (krate_externs krate)
    (krate_primitives krate) ∅ ∅).
  assert (Heq : fold_crate (taken krate) (initial_crawl info krate) = Ret (c', s)).
  { unfold fold_crate. cbn [krate_module taken]. rewrite Hr, Hf. cbn [mbind outcome_bind snd].
    replace (map_order 11 (external_traits (taken krate))) with (@nil (DefId * Trait Item)); [done|].
    symmetry. apply elem_of_nil_inv. intros [k t]. rewrite elem_of_map_order. cbn.
    by rewrite lookup_empty. }
  exists (c', s). split; [exact Heq|]. cbn [fst snd].
  assert (Hrt : rooted (taken krate) root) by (by split).
  destruct (fold_crate_functions is_impl (taken krate) _ c' s root Hrt
    (fun z _ => impl_module z.2) Heq) as [(root' & Hroot' & Hsurv) Hfun].
  pose proof (fold_crate_prunes _ _ _ _ Heq) as Hp. change (pruned_crate false c' (taken krate)) in Hp.
  split_and!; [exact Hinv|done| | |exact Hc].
  - exists root'. split; [done|]. destruct Hroot' as [Hr' _]. cbn in Hr'. subst r.
    split; [exact (fold_item_prunes _ _ _ _ Hf root' eq_refl)|by eapply crawl_no_impls].
  - intros path d. split; [by apply (pruned_functions false c' (taken krate))|].
    intros Hd. apply Hfun; [done|]. destruct (function_of _ _ _ Hd) as [f Hfd].
    intros [imp Hi]. congruence.
Qed.

Lemma from_krate_returns :
  rooted krate root -> crawlable root ->
  returns (from_krate to_json is_dir renderinfo private urls krate)
    (fun r => exists cache, r.2 = mk_Cache info cache /\ cache_spec r.1.1 cache).
Proof.
  intros Hroot Hcrawl. unfold from_krate. eapply returns_bind; [by apply crawl_crate_returns|].
  intros [c' s] (Hinv & Hname & Hroot' & Hfun & Hc). cbn [fst snd] in *.
  destruct (adopt_impls_spec s Hinv) as (Hinv2 & Hp2 & Ht2 & Hi2).
  eapply returns_bind; [by apply build_index_returns|].
  intros [index cache] (Hp3 & Hi3 & Ht3). apply returns_ret. cbn [fst snd] in *.
  exists cache. split; [done|].
  assert (Hin : forall did im, in_impls cache did im <-> in_impls s did im \/
    exists t, known s t /\ in_orphans s t did im).
  { intros did im. rewrite <- Hi2. unfold in_impls. by rewrite Hi3. }
  assert (Hknown : forall t, is_Some (traits s !! t) <-> known_trait t).
  { intros t. rewrite (cr_traits _ _ _ _ _ Hc). done. }
  assert (Hempty : forall did im, ~ in_impls (initial_crawl info krate) did im).
  { intros did im (l & Hl & _). cbn in Hl. by rewrite lookup_empty in Hl. }
  assert (Hemptyo : forall t did im, ~ in_orphans (initial_crawl info krate) t did im).
  { intros t did im (l & Hl & _). cbn in Hl. by apply not_elem_of_nil in Hl. }
  split; [done..| | | |].
  - intros did e He. rewrite Hp3, Hp2 in He.
    destruct (cr_paths _ _ _ _ _ Hc did e He) as [Hn|Hx]; [|done]. cbn in Hn. by rewrite lookup_empty in Hn.
  - intros x did e Hx He. rewrite Hp3, Hp2. apply (cr_all_paths _ _ _ _ _ Hc). right. by exists x, e.
  - intros did im [Him|(t & Hk & Ho)]%Hin.
    + destruct (cr_impls _ _ _ _ _ Hc did im Him) as [Hn|(x & imp & Hx & Hat & Hd & Ht)];
        [by destruct (Hempty did im)|]. exists x, imp. split_and!; [done..|].
      intros t Hti. by apply Hknown, Ht.
    + destruct (cr_orphans _ _ _ _ _ Hc t did im Ho) as [Hn|(x & imp & Hx & Hat & Hd & Ht)];
        [by destruct (Hemptyo t did im)|]. exists x, imp. split_and!; [done..|].
      intros t' Ht'. assert (t' = t) as -> by congruence. by apply Hknown.
  - intros x imp did Hx Hi Hk Hd.
    destruct (cr_all_impls _ _ _ _ _ Hc x imp did Hx Hi Hd) as (im & imp' & Hat & Hcase).
    exists im, imp'. split; [done|]. apply Hin. destruct Hcase as [?|(t & Ht & Ho)]; [by left|].
    right. exists t. split; [|done]. by apply Hknown, Hk.
Qed.
End from_krate.

(** ** Properties *)

(** C16: the construction of the render cache never panics on a crate that the cleaning
    builds (a root module, parts of types only inside their owners, named paths). The
    crate keeps its name and its functions and has no impl left. The cache has a path for
    every type, function or module that is visited outside stripped modules and for every
    primitive, and only such paths: the names around the item and its kind; and an impl
    is listed, under every id that it concerns, exactly when its trait is a trait of the
    crate or of a crate that is known. *)
Theorem cache_records_the_crate `{HashOrder} `{Summary} (to_json : CrateData -> string)
    (is_dir : string -> bool) (renderinfo : RenderInfo) (private : bool)
    (urls : gmap string string) (krate : Crate) (root : Item)
    (Hroot : rooted krate root) (Hcrawl : crawlable root) :
  returns (from_krate to_json is_dir renderinfo private urls krate) (fun r =>
    exists cache, r.2 = mk_Cache (initial_info is_dir renderinfo private urls krate) cache /\
      cache_spec is_dir renderinfo private urls krate root r.1.1 cache).
Proof. by apply from_krate_returns. Qed.

Definition sample_renderinfo : RenderInfo := mk_RenderInfo ∅ ∅ sample_levels None None None.

(** What [crawlable] asks of an item alone. *)
Definition crawlable_here (i : Item) : Prop :=
  is_stripped i = false /\ types_named i /\
  Forall (fun c => needs_owner (item_inner c) = true -> owns (item_inner i) = true)
    (members (item_inner i)).

Lemma crawlable_below i : all_below crawlable_here i -> crawlable i.
Proof.
  induction i as [i IH] using item_members_ind. intros [(Hi & Ht & Ho) Hm]%all_below_unfold.
  constructor; [|done|..].
  - intros e He. unfold is_stripped in Hi. by rewrite He in Hi.
  - intros c Hc. by apply IH, Hm.
  - rewrite Forall_forall in Ho. exact Ho.
Qed.

Lemma sample_crawlable : crawlable sample_root.
Proof.
  apply crawlable_below, sample_below. intros i Hi. unfold sample_items in Hi.
  each Hi; (split_and!; [done| |by repeat constructor]); unfold types_named; cbn; try done;
    intros t k [Hin|Hin]; by apply not_elem_of_nil in Hin.
Qed.

Lemma cache_records_the_crate_witness :
  returns (from_krate (H := canonical_order) (H0 := fun _ => EmptyString) (fun _ => EmptyString)
             (fun _ => false) sample_renderinfo false ∅ sample_krate) (fun r =>
    is_Some (paths (cache_crawl r.2) !! mk_DefId 0 4) /\
    exists im, in_impls (cache_crawl r.2) sample_did im).
Proof.
  pose proof (cache_records_the_crate (H := canonical_order) (H0 := fun _ => EmptyString)
    (fun _ => EmptyString) (fun _ => false) sample_renderinfo false ∅ sample_krate sample_root
    (sample_rooted "c") sample_crawlable) as Hr.
  apply (returns_mono _ _ _ Hr). intros [[c' index] cache0] (cache & Hc & Hspec).
  cbn [fst snd] in *. subst cache0. cbn [cache_crawl].
  assert (Hin : forall c, c ∈ members (item_inner sample_root) ->
    masked (info := initial_info (fun _ => false) sample_renderinfo false ∅ sample_krate) c = false ->
    visited (fun _ => false) sample_renderinfo false ∅ sample_krate sample_root (["c"], false, c)).
  { intros c Hc Hm. eapply inside_member; [reflexivity|exact Hc|]. by constructor. }
  split.
  - apply (cs_all_paths _ _ _ _ _ _ _ _ Hspec (["c"], false, sample_free) (mk_DefId 0 4)
      (["c"; "f"], ItemType.Function_)).
    + apply Hin; [|reflexivity]. do 2 apply list_elem_of_further. apply list_elem_of_here.
    + split_and!; try reflexivity. right. split; reflexivity.
  - destruct (cs_all_impls _ _ _ _ _ _ _ _ Hspec (["c"], false, sample_impl_item) sample_impl
      sample_did) as (im & _ & _ & Him).
    + apply Hin; [|reflexivity]. apply list_elem_of_further. apply list_elem_of_here.
    + reflexivity.
    + intros t Ht. discriminate Ht.
    + apply (bool_decide_unpack _). vm_compute. exact I.
    + by exists im.
Defined.
