(* ===== verification/CallTypes.v ===== *)
(** How a generated call uses a value ([fuzz_target/call_type.rs]): the call types, the
    expression they print, and their split at the calls of the unwrap helpers. *)

From S2P Require Import Prelude RustStd CleanTypes.

(** [enum ApiUnsafety] of [api_function.rs]. *)
Module ApiUnsafety.
Inductive ApiUnsafety := Unsafe | Normal.

Definition _is_unsafe (u : ApiUnsafety) : bool :=
  match u with
  | Unsafe => true
  | Normal => false
  end.

(** The argument is [fn_header.unsafety]. *)
Definition _get_unsafety_from_fnheader (unsafety : Unsafety) : ApiUnsafety :=
  match unsafety with
  | CleanTypes.Unsafe => Unsafe
  | CleanTypes.Normal => Normal
  end.
End ApiUnsafety.
Abbreviation ApiUnsafety := ApiUnsafety.ApiUnsafety.

Inductive CallType :=
| _NotCompatible
| _DirectCall
| _BorrowedRef (inner : CallType)
| _MutBorrowedRef (inner : CallType)
| _ConstRawPointer (inner : CallType) (ty : Type_)
| _MutRawPointer (inner : CallType) (ty : Type_)
| _AsConvert (str_ : string)
| _UnsafeDeref (inner : CallType)
| _Deref (inner : CallType)
| _UnwrapResult (inner : CallType)
| _ToResult (inner : CallType)
| _UnwrapOption (inner : CallType)
| _ToOption (inner : CallType).

#[export] Instance CallType_eq_dec : EqDecision CallType.
Proof. solve_decision. Defined.

Section to_call_string.
Variable cache : gmap PrimitiveType DefId.
Variable full_name_map : FullNameMap.

Fixpoint _to_call_string (self : CallType) (variable_name : string) : string :=
  match self with
  | _NotCompatible => ""
  | _DirectCall => variable_name
  | _BorrowedRef inner => "&(" +:+ _to_call_string inner variable_name +:+ ")"
  | _MutBorrowedRef inner => "&mut (" +:+ _to_call_string inner variable_name +:+ ")"
  | _ConstRawPointer inner ty =>
      "&(" +:+ _to_call_string inner variable_name +:+ ") as *const "
        +:+ _type_name cache full_name_map ty
  | _MutRawPointer inner ty =>
      "&(" +:+ _to_call_string inner variable_name +:+ ") as *mut "
        +:+ _type_name cache full_name_map ty
  | _AsConvert str_ => variable_name +:+ " as " +:+ str_
  | _UnsafeDeref inner | _Deref inner =>
      "*(" +:+ _to_call_string inner variable_name +:+ ")"
  | _UnwrapResult inner => "_unwrap_result(" +:+ _to_call_string inner variable_name +:+ ")"
  | _UnwrapOption inner => "_unwrap_option(" +:+ _to_call_string inner variable_name +:+ ")"
  | _ToOption inner => "Some(" +:+ _to_call_string inner variable_name +:+ ")"
  | _ToResult inner => "Ok(" +:+ _to_call_string inner variable_name +:+ ")"
  end.
End to_call_string.

Definition unsafe_call_type (self : CallType) : ApiUnsafety :=
  match self with
  | _UnsafeDeref _ => ApiUnsafety.Unsafe
  | _ => ApiUnsafety.Normal
  end.

Definition _is_unwrap_call_type (self : CallType) : bool :=
  match self with
  | _UnwrapOption _ | _UnwrapResult _ => true
  | _ => false
  end.

Fixpoint _contains_unwrap_call_type (self : CallType) : bool :=
  match self with
  | _NotCompatible | _DirectCall | _AsConvert _ => false
  | _UnwrapOption _ | _UnwrapResult _ => true
  | _BorrowedRef call_type | _MutBorrowedRef call_type
  | _ConstRawPointer call_type _ | _MutRawPointer call_type _
  | _UnsafeDeref call_type | _Deref call_type
  | _ToOption call_type | _ToResult call_type => _contains_unwrap_call_type call_type
  end.

Definition _contains_move_call_type (self : CallType) : bool :=
  _contains_unwrap_call_type self.

Fixpoint _call_type_to_array (self : CallType) : list CallType :=
  match self with
  | _NotCompatible | _DirectCall | _AsConvert _ => [self]
  | _UnwrapOption call_type | _UnwrapResult call_type
  | _BorrowedRef call_type | _MutBorrowedRef call_type
  | _ConstRawPointer call_type _ | _MutRawPointer call_type _
  | _UnsafeDeref call_type | _Deref call_type
  | _ToOption call_type | _ToResult call_type =>
      self :: _call_type_to_array call_type
  end.

(** [_inner_array_to_call_type a start], on the part of the array from [start] on. *)
Fixpoint _inner_array_to_call_type (call_type_array : list CallType) : CallType :=
  match call_type_array with
  | [] => _NotCompatible
  | [last] => last
  | current_type :: rest =>
      let inner_type := _inner_array_to_call_type rest in
      match current_type with
      | _DirectCall | _AsConvert _ | _NotCompatible => _NotCompatible
      | _BorrowedRef _ => _BorrowedRef inner_type
      | _MutBorrowedRef _ => _MutBorrowedRef inner_type
      | _ConstRawPointer _ type_ => _ConstRawPointer inner_type type_
      | _MutRawPointer _ type_ => _MutRawPointer inner_type type_
      | _UnsafeDeref _ => _UnsafeDeref inner_type
      | _Deref _ => _Deref inner_type
      | _UnwrapOption _ => _UnwrapOption inner_type
      | _ToOption _ => _ToOption inner_type
      | _UnwrapResult _ => _UnwrapResult inner_type
      | _ToResult _ => _ToResult inner_type
      end
  end.

Definition _array_to_call_type (call_type_array : list CallType) : CallType :=
  _inner_array_to_call_type call_type_array.

(** The loop of [_split_at_unwrap_call_type] over the rest of the array. *)
Fixpoint split_at_unwrap_loop (raw_array : list CallType) (res : list (list CallType))
    (one_split : list CallType) : list (list CallType) :=
  match raw_array with
  | [] => res
  | current_call_type :: rest =>
      if negb (_is_unwrap_call_type current_call_type) then
        let one_split := one_split ++ [current_call_type] in
        let res := match rest with [] => res ++ [one_split] | _ => res end in
        split_at_unwrap_loop rest res one_split
      else
        let res :=
          if 0 <? length one_split then res ++ [one_split ++ [_DirectCall]] else res in
        split_at_unwrap_loop rest res [current_call_type]
  end.

Definition _split_at_unwrap_call_type (self : CallType) : outcome (list CallType) :=
  if negb (_contains_unwrap_call_type self) then mret [self]
  else
    let raw_array := _call_type_to_array self in
    let res := split_at_unwrap_loop raw_array [] [] in
    let call_types := rev (_array_to_call_type <$> res) in
    last_call_type ← unwrap (last call_types);
    mret (if _is_unwrap_call_type last_call_type then call_types ++ [_DirectCall]
          else call_types).

(** ** Frames

    A call type is a spine of frames over a leaf. *)
Definition is_leaf (c : CallType) : bool :=
  match c with
  | _NotCompatible | _DirectCall | _AsConvert _ => true
  | _ => false
  end.

(** The frame [c] with another inner call type. *)
Definition with_inner (c inner : CallType) : CallType :=
  match c with
  | _DirectCall | _AsConvert _ | _NotCompatible => c
  | _BorrowedRef _ => _BorrowedRef inner
  | _MutBorrowedRef _ => _MutBorrowedRef inner
  | _ConstRawPointer _ ty => _ConstRawPointer inner ty
  | _MutRawPointer _ ty => _MutRawPointer inner ty
  | _UnsafeDeref _ => _UnsafeDeref inner
  | _Deref _ => _Deref inner
  | _UnwrapOption _ => _UnwrapOption inner
  | _ToOption _ => _ToOption inner
  | _UnwrapResult _ => _UnwrapResult inner
  | _ToResult _ => _ToResult inner
  end.

Definition plug (frames : list CallType) (leaf : CallType) : CallType :=
  foldr with_inner leaf frames.

Section run_stages.
Variable cache : gmap PrimitiveType DefId.
Variable m : FullNameMap.

(** Running the stages one after the other, each on the name bound by the one
    before it. *)
Definition run_stages (stages : list CallType) (v : string) : string :=
  foldl (fun name stage => _to_call_string cache m stage name) v stages.

End run_stages.

Lemma plug_cons f frames leaf : plug (f :: frames) leaf = with_inner f (plug frames leaf).
Proof. done. Qed.

Lemma call_type_spine (c : CallType) :
  exists frames leaf,
    _call_type_to_array c = frames ++ [leaf] /\ is_leaf leaf = true /\
    Forall (fun f => is_leaf f = false) frames /\ plug frames leaf = c.
Proof.
  induction c as [| |c IH|c IH|c IH ty|c IH ty| |c IH|c IH|c IH|c IH|c IH|c IH];
    try (by exists [], _NotCompatible); try (by exists [], _DirectCall);
    try (by eexists [], _);
    destruct IH as (frames & leaf & Harr & Hleaf & Hframes & Hplug);
    (eexists (_ :: frames), leaf; cbn [_call_type_to_array]; rewrite Harr;
     split_and!; [done|done|by constructor|by rewrite plug_cons, Hplug]).
Qed.

Lemma array_of_frames frames leaf :
  Forall (fun f => is_leaf f = false) frames ->
  _array_to_call_type (frames ++ [leaf]) = plug frames leaf.
Proof.
  unfold _array_to_call_type. induction 1 as [|f frames Hf _ IH]; [done|].
  rewrite plug_cons, <- IH. by destruct frames, f.
Qed.

Lemma plug_app f1 f2 leaf : plug (f1 ++ f2) leaf = plug f1 (plug f2 leaf).
Proof. unfold plug. apply foldr_app. Qed.

Section compose.
Variable cache : gmap PrimitiveType DefId.
Variable m : FullNameMap.

(** The expression of a frame depends on the inner call type through its
    expression only. *)
Lemma to_call_string_frame f c d v w :
  is_leaf f = false ->
  _to_call_string cache m c v = _to_call_string cache m d w ->
  _to_call_string cache m (with_inner f c) v = _to_call_string cache m (with_inner f d) w.
Proof. intros Hf Heq. destruct f; cbn in *; try done; by rewrite Heq. Qed.

Lemma to_call_string_plug frames c v :
  Forall (fun f => is_leaf f = false) frames ->
  _to_call_string cache m (plug frames c) v =
  _to_call_string cache m (plug frames _DirectCall) (_to_call_string cache m c v).
Proof.
  induction 1 as [|f frames Hf _ IH]; [done|]. cbn. by apply to_call_string_frame.
Qed.

Lemma split_loop_acc raw res one :
  split_at_unwrap_loop raw res one = res ++ split_at_unwrap_loop raw [] one.
Proof.
  revert res one. induction raw as [|c raw IH]; intros res one; cbn.
  { by rewrite app_nil_r. }
  destruct (_is_unwrap_call_type c); cbn.
  - rewrite IH. symmetry. rewrite IH. destruct one; cbn; by rewrite <- ?app_assoc.
  - destruct raw as [|c' raw]; [done|]. apply IH.
Qed.

Lemma split_loop_stages raw one leaf v :
  Forall (fun f => is_leaf f = false) raw -> Forall (fun f => is_leaf f = false) one ->
  is_leaf leaf = true ->
  run_stages cache m (rev (_array_to_call_type <$> split_at_unwrap_loop (raw ++ [leaf]) [] one)) v
  = _to_call_string cache m (plug (one ++ raw) leaf) v.
Proof.
  intros Hraw. revert one. induction Hraw as [|c raw Hc Hraw IH]; intros one Hone Hleaf.
  - cbn [app]. rewrite app_nil_r. cbn.
    replace (_is_unwrap_call_type leaf) with false by (by destruct leaf). cbn.
    by rewrite array_of_frames.
  - cbn [app split_at_unwrap_loop]. destruct (_is_unwrap_call_type c) eqn:Hu; cbn [negb].
    + rewrite split_loop_acc, fmap_app, rev_app_distr. unfold run_stages.
      rewrite foldl_app. fold (run_stages cache m (rev
        (_array_to_call_type <$> split_at_unwrap_loop (raw ++ [leaf]) [] [c])) v).
      rewrite IH; [|by repeat constructor|done].
      destruct one as [|o one]; [done|].
      change (o :: one ++ [_DirectCall]) with ((o :: one) ++ [_DirectCall]).
      cbn [length Nat.ltb Nat.leb fmap list_fmap rev app foldl].
      change (o :: one ++ [_DirectCall]) with ((o :: one) ++ [_DirectCall]).
      rewrite array_of_frames by done.
      change (o :: one ++ c :: raw) with ((o :: one) ++ ([c] ++ raw)).
      rewrite (plug_app (o :: one)). symmetry. by apply to_call_string_plug.
    + destruct (raw ++ [leaf]) eqn:Hnil; [by destruct raw|].
      rewrite IH; [|by apply Forall_app; repeat constructor|done].
      by rewrite <- app_assoc.
Qed.

Lemma split_loop_nonempty raw one leaf :
  is_leaf leaf = true -> split_at_unwrap_loop (raw ++ [leaf]) [] one <> [].
Proof.
  intros Hleaf. revert one. induction raw as [|c raw IH]; intros one; cbn.
  - by replace (_is_unwrap_call_type leaf) with false by (by destruct leaf).
  - destruct (_is_unwrap_call_type c); cbn.
    + rewrite split_loop_acc. intros [_ Hn]%app_eq_nil. by apply (IH [c]).
    + destruct (raw ++ [leaf]) eqn:Hnil; [by destruct raw|]. apply IH.
Qed.

Lemma split_unwrap_returns c (Q : list CallType -> Prop) :
  (_contains_unwrap_call_type c = false -> Q [c]) ->
  (forall frames leaf stages,
     _contains_unwrap_call_type c = true -> c = plug frames leaf ->
     is_leaf leaf = true -> Forall (fun f => is_leaf f = false) frames ->
     stages = rev (_array_to_call_type <$> split_at_unwrap_loop (frames ++ [leaf]) [] []) ->
     Q stages /\ Q (stages ++ [_DirectCall])) ->
  returns (_split_at_unwrap_call_type c) Q.
Proof.
  intros Hno Hyes. unfold _split_at_unwrap_call_type.
  destruct (_contains_unwrap_call_type c) eqn:Hc; cbn [negb]; [|by apply returns_ret, Hno].
  destruct (call_type_spine c) as (frames & leaf & Harr & Hleaf & Hframes & Hplug).
  rewrite Harr. set (stages := rev _).
  destruct (Hyes frames leaf stages) as [H1 H2]; try done.
  assert (Hne : is_Some (last stages)).
  { apply last_is_Some. unfold stages. intros Hnil.
    apply (f_equal length) in Hnil. rewrite length_rev, length_fmap in Hnil.
    apply length_zero_iff_nil in Hnil. by eapply split_loop_nonempty. }
  destruct Hne as [x Hx]. apply (returns_bind_unwrap _ x); [done|].
  destruct (_is_unwrap_call_type x); by apply returns_ret.
Qed.


Lemma split_nonempty c : returns (_split_at_unwrap_call_type c) (fun stages => stages <> []).
Proof.
  apply split_unwrap_returns; [done|].
  intros frames leaf stages _ _ Hleaf _ ->. split; [|by destruct (rev _)].
  intros Hnil. apply (f_equal length) in Hnil. rewrite length_rev, length_fmap in Hnil.
  apply length_zero_iff_nil in Hnil. by eapply split_loop_nonempty.
Qed.
End compose.

(** Every group of the loop has an unwrap call at its head only. *)
Lemma split_loop_heads raw one :
  Forall (fun f => _is_unwrap_call_type f = false) (tail one) ->
  Forall (fun g => Forall (fun f => _is_unwrap_call_type f = false) (tail g))
    (split_at_unwrap_loop raw [] one).
Proof.
  revert one. induction raw as [|c raw IH]; intros one Hone; cbn; [constructor|].
  assert (Htl : forall f, _is_unwrap_call_type f = false ->
    Forall (fun f => _is_unwrap_call_type f = false) (tail (one ++ [f]))).
  { intros f Hf. destruct one; cbn; [constructor|]. apply Forall_app; auto. }
  destruct (_is_unwrap_call_type c) eqn:Hc; cbn.
  - rewrite split_loop_acc. apply Forall_app. split; [|apply IH; constructor].
    destruct one as [|o one]; repeat constructor. by apply (Htl _DirectCall).
  - rewrite split_loop_acc. apply Forall_app.
    split; [|apply IH, Htl, Hc]. destruct raw; repeat constructor. by apply Htl.
Qed.

(** The groups are arrays of call types: frames, then a leaf. *)
Definition array_shape (g : list CallType) : Prop :=
  exists frames leaf, g = frames ++ [leaf] /\ is_leaf leaf = true /\
    Forall (fun f => is_leaf f = false) frames.

Lemma split_loop_shape raw leaf one :
  Forall (fun f => is_leaf f = false) raw -> Forall (fun f => is_leaf f = false) one ->
  is_leaf leaf = true -> Forall array_shape (split_at_unwrap_loop (raw ++ [leaf]) [] one).
Proof.
  intros Hraw. revert one. induction Hraw as [|c raw Hc Hraw IH]; intros one Hone Hleaf; cbn.
  - replace (_is_unwrap_call_type leaf) with false by (by destruct leaf). cbn.
    repeat constructor. by exists one, leaf.
  - destruct (_is_unwrap_call_type c); cbn.
    + rewrite split_loop_acc. apply Forall_app.
      split; [|by apply IH; [repeat constructor|]].
      destruct one as [|o one]; repeat constructor. by exists (o :: one), _DirectCall.
    + destruct (raw ++ [leaf]) eqn:Hnil; [by destruct raw|].
      by apply IH; [apply Forall_app; repeat constructor|].
Qed.

Lemma array_shape_heads g :
  array_shape g ->
  Forall (fun f => _is_unwrap_call_type f = false) (tail g) ->
  Forall (fun f => _is_unwrap_call_type f = false)
    (tail (_call_type_to_array (_array_to_call_type g))).
Proof.
  intros (frames & leaf & -> & Hleaf & Hframes). rewrite array_of_frames by done.
  assert (Hall : forall fs, Forall (fun f => is_leaf f = false) fs ->
    Forall (fun f => _is_unwrap_call_type f = false) (fs ++ [leaf]) ->
    Forall (fun f => _is_unwrap_call_type f = false) (_call_type_to_array (plug fs leaf))).
  { induction 1 as [|f fs Hf _ IH]; intros Hu.
    - by destruct leaf; try (repeat constructor).
    - cbn [app] in Hu. apply Forall_cons in Hu as [Hu1 Hu2]. rewrite plug_cons.
      destruct f; cbn in *; try done; constructor; auto. }
  destruct Hframes as [|f fs Hf Hfs]; intros Ht.
  - by destruct leaf; try (repeat constructor).
  - rewrite plug_cons. cbn [app tail] in Ht. specialize (Hall fs Hfs Ht).
    by destruct f.
Qed.

(** ** Properties *)

(** Putting the array of a call type together again gives the call
    type back. *)
Lemma array_of_call_type_roundtrip (c : CallType) :
  _array_to_call_type (_call_type_to_array c) = c.
Proof.
  destruct (call_type_spine c) as (frames & leaf & -> & _ & Hframes & <-).
  by apply array_of_frames.
Qed.

(** The split returns at least one stage, and running the stages one
    after the other, each on the variable bound by the one before, prints the same
    expression as the whole call type. *)
Lemma split_preserves_expression cache m (c : CallType) :
  returns (_split_at_unwrap_call_type c) (fun stages =>
    stages <> [] /\
    forall v, run_stages cache m stages v = _to_call_string cache m c v).
Proof.
  apply split_unwrap_returns; [done|].
  intros frames leaf stages _ -> Hleaf Hframes ->.
  pose proof (fun v => split_loop_stages cache m frames [] leaf v Hframes
    (Forall_nil_2 _) Hleaf) as Hrun.
  pose proof (split_loop_nonempty frames [] leaf Hleaf) as Hne.
  set (groups := split_at_unwrap_loop _ _ _) in *.
  split; split; try done.
  - intros Hnil. apply (f_equal length) in Hnil.
    rewrite length_rev, length_fmap in Hnil. by apply length_zero_iff_nil in Hnil.
  - by destruct (rev _).
  - intros v. unfold run_stages. rewrite foldl_app. apply Hrun.
Qed.

(** Every stage of the split calls an unwrap helper at its outermost
    position only: the value of each unwrap is bound to a variable of its own. *)
Lemma split_unwraps_outermost (c : CallType) :
  returns (_split_at_unwrap_call_type c) (Forall (fun stage =>
    Forall (fun f => _is_unwrap_call_type f = false) (tail (_call_type_to_array stage)))).
Proof.
  apply split_unwrap_returns.
  - intros Hc. constructor; [|done].
    induction c; cbn in *; try done; try (by constructor).
    all: destruct c; cbn in *; try done; constructor; auto.
  - intros frames leaf stages _ -> Hleaf Hframes ->.
    set (groups := split_at_unwrap_loop _ _ _).
    assert (Hall : Forall (fun stage => Forall (fun f => _is_unwrap_call_type f = false)
      (tail (_call_type_to_array stage))) (rev (_array_to_call_type <$> groups))).
    { apply Forall_rev, Forall_fmap, Forall_forall. intros g Hg.
      apply array_shape_heads.
      - revert g Hg. apply Forall_forall. by apply split_loop_shape.
      - revert g Hg. apply Forall_forall. apply split_loop_heads. constructor. }
    split; [done|]. apply Forall_app. split; [done|]. by repeat constructor.
Qed.
