(* ===== verification/PreludeTypes.v ===== *)
(** Prelude types ([fuzz_target/prelude_type.rs]): [Option] and [Result] are seen
    through their type arguments; the other types are taken as they are. The file
    also holds the helper functions a target needs to unwrap them. *)

From S2P Require Import Prelude RustStd CleanTypes CallTypes.

(** [static ref PRELUDED_TYPE]. *)
Definition PRELUDED_TYPE : gmap string string :=
  <["core::option::Option" := "Option"]>
  (<["core::result::Result" := "Result"]>
  (<["alloc::string::String" := "String"]> ∅)).

Definition _OPTION : string := "Option".
Definition _RESULT : string := "Result".
Definition _STRING : string := "String".

Definition is_preluded_type (type_name : string) : bool :=
  match PRELUDED_TYPE !! type_name with Some _ => true | None => false end.

Definition get_all_preluded_type : gset string := dom PRELUDED_TYPE.

(** [type_.def_id().unwrap()] on the resolved paths this is called for. *)
Definition preluded_type (cache : gmap PrimitiveType DefId) (type_ : Type_)
    (full_name_map : FullNameMap) : outcome bool :=
  def_id ← unwrap (def_id cache type_);
  mret match _get_full_name full_name_map def_id with
       | Some type_name => if is_preluded_type type_name then true else false
       | None => false
       end.

Definition to_strip_type_name (type_name : string) : string :=
  match PRELUDED_TYPE !! type_name with
  | Some stripped => stripped
  | None => type_name
  end.

Module PreludeType.
Inductive PreludeType :=
| NotPrelude (t : Type_)
| PreludeOption (t : Type_)
| PreludeResult (ok_type err_type : Type_).

#[export] Instance eq_dec : EqDecision PreludeType.
Proof. solve_decision. Defined.
End PreludeType.
Export (hints) PreludeType.
Abbreviation PreludeType := PreludeType.PreludeType.
Abbreviation NotPrelude := PreludeType.NotPrelude.
Abbreviation PreludeOption := PreludeType.PreludeOption.
Abbreviation PreludeResult := PreludeType.PreludeResult.

(** The loop over the segments of [extract_option], from the current segment on. *)
Fixpoint extract_option_loop (segments : list PathSegment) (type_ : Type_) : PreludeType :=
  match segments with
  | [] => NotPrelude type_
  | path_segment :: rest =>
      match segment_args path_segment with
      | AngleBracketed args _ =>
          match args with
          | [arg] =>
              match arg with
              | GenericArg_Type inner => PreludeOption inner
              | _ => extract_option_loop rest type_
              end
          | _ => extract_option_loop rest type_
          end
      | Parenthesized _ _ => extract_option_loop rest type_
      end
  end.

Definition extract_option (path : Path) (type_ : Type_) : PreludeType :=
  extract_option_loop (path_segments path) type_.

Fixpoint extract_result_loop (segments : list PathSegment) (type_ : Type_) : PreludeType :=
  match segments with
  | [] => NotPrelude type_
  | path_segment :: rest =>
      match segment_args path_segment with
      | AngleBracketed args _ =>
          match args with
          | [ok_arg; err_arg] =>
              match ok_arg, err_arg with
              | GenericArg_Type ok_type, GenericArg_Type err_type =>
                  PreludeResult ok_type err_type
              | _, _ => extract_result_loop rest type_
              end
          | _ => extract_result_loop rest type_
          end
      | Parenthesized _ _ => extract_result_loop rest type_
      end
  end.

Definition extract_result (path : Path) (type_ : Type_) : PreludeType :=
  extract_result_loop (path_segments path) type_.

(** [PreludeType::from_type]. The definition id of a resolved path does not depend on
    the cache, and the [unwrap]s of the source are those of a resolved path with a
    full name: the last branch is not reached ([from_type_unwraps]). *)
Definition from_type (type_ : Type_) (full_name_map : FullNameMap) : PreludeType :=
  match type_ with
  | ResolvedPath path _ did _ =>
      match preluded_type ∅ type_ full_name_map, _get_full_name full_name_map did with
      | Ret true, Some type_full_name =>
          let strip_type_name := to_strip_type_name type_full_name in
          if decide (_OPTION = strip_type_name) then extract_option path type_
          else if decide (_RESULT = strip_type_name) then extract_result path type_
          else NotPrelude type_
      | Ret false, _ => NotPrelude type_
      | _, _ => NotPrelude type_
      end
  | _ => NotPrelude type_
  end.

Definition _to_type_name (cache : gmap PrimitiveType DefId) (self : PreludeType)
    (full_name_map : FullNameMap) : string :=
  match self with
  | NotPrelude type_ => _type_name cache full_name_map type_
  | PreludeOption type_ => "Option<" +:+ _type_name cache full_name_map type_ +:+ ">"
  | PreludeResult ok_type err_type =>
      "Result<" +:+ _type_name cache full_name_map ok_type +:+ ", "
        +:+ _type_name cache full_name_map err_type +:+ ">"
  end.

Definition _is_final_type (self : PreludeType) : bool :=
  match self with
  | NotPrelude _ => true
  | PreludeResult _ _ | PreludeOption _ => false
  end.

Definition _get_final_type (self : PreludeType) : Type_ :=
  match self with
  | NotPrelude type_ => type_
  | PreludeOption type_ => type_
  | PreludeResult ok_type _ => ok_type
  end.

Definition _unwrap_call_type (self : PreludeType) (inner_call_type : CallType) : CallType :=
  match self with
  | NotPrelude _ => inner_call_type
  | PreludeOption _ => _UnwrapOption inner_call_type
  | PreludeResult _ _ => _UnwrapResult inner_call_type
  end.

Definition _to_call_type (self : PreludeType) (inner_call_type : CallType) : CallType :=
  match self with
  | NotPrelude _ => inner_call_type
  | PreludeOption _ => _ToOption inner_call_type
  | PreludeResult _ _ => _ToResult inner_call_type
  end.

Definition _prelude_type_need_special_dealing (type_ : Type_) (full_name_map : FullNameMap)
    : bool :=
  let final_type := _get_final_type (from_type type_ full_name_map) in
  if decide (final_type = type_) then false else true.

(** ** Helper functions of the generated file *)
Module PreludeHelper.
Inductive _PreludeHelper := _ResultHelper | _OptionHelper.

#[export] Instance eq_dec : EqDecision _PreludeHelper.
Proof. solve_decision. Defined.
#[export] Instance countable : Countable _PreludeHelper.
Proof.
  apply (inj_countable' (fun h => match h with _ResultHelper => true | _ => false end)
    (fun b => if b : bool then _ResultHelper else _OptionHelper)). by intros [].
Defined.

Fixpoint _from_call_type (call_type : CallType) : gset _PreludeHelper :=
  match call_type with
  | _DirectCall | _NotCompatible | _AsConvert _ => ∅
  | _BorrowedRef inner | _ConstRawPointer inner _ | _MutBorrowedRef inner
  | _MutRawPointer inner _ | _Deref inner | _ToOption inner | _ToResult inner
  | _UnsafeDeref inner => _from_call_type inner
  | _UnwrapOption inner => {[_OptionHelper]} ∪ _from_call_type inner
  | _UnwrapResult inner => {[_ResultHelper]} ∪ _from_call_type inner
  end.

Definition _unwrap_result_function : string :=
  "fn _unwrap_result<T, E>(_res: Result<T, E>) -> T {
    match _res {
        Ok(_t) => _t,
        Err(_) => {
            use std::process;
            process::exit(0);
        },
    }
}
".

Definition _unwrap_option_function : string :=
  "fn _unwrap_option<T>(_opt: Option<T>) -> T {
    match _opt {
        Some(_t) => _t,
        None => {
            use std::process;
            process::exit(0);
        }
    }
}
".

Definition _to_helper_function (self : _PreludeHelper) : string :=
  match self with
  | _ResultHelper => _unwrap_result_function
  | _OptionHelper => _unwrap_option_function
  end.
End PreludeHelper.
Export (hints) PreludeHelper.

(** ** Lemmas *)

(** The [unwrap]s of [from_type] succeed. *)
Lemma from_type_unwraps cache path names did gen m :
  preluded_type cache (ResolvedPath path names did gen) m = Ret true ->
  is_Some (_get_full_name m did).
Proof.
  unfold preluded_type. cbn. destruct (_get_full_name m did); [by eexists|done].
Qed.

Lemma extract_option_cases segments t :
  extract_option_loop segments t = NotPrelude t \/
  exists s seg, extract_option_loop segments t = PreludeOption s /\
    seg ∈ segments /\ s ∈ args_types (segment_args seg).
Proof.
  induction segments as [|seg segments IH]; cbn; [by left|].
  assert (Hrest : extract_option_loop segments t = NotPrelude t \/
    exists s seg', extract_option_loop segments t = PreludeOption s /\
      seg' ∈ seg :: segments /\ s ∈ args_types (segment_args seg')).
  { destruct IH as [?|(s & seg' & ? & ? & ?)]; [by left|right].
    exists s, seg'. split_and!; [done|by constructor|done]. }
  destruct (segment_args seg) as [[|[| |] [|]] ?|] eqn:Hseg; auto.
  right. exists t0, seg. split_and!; [done|constructor|].
  rewrite Hseg. cbn. set_solver.
Qed.

Lemma extract_result_cases segments t :
  extract_result_loop segments t = NotPrelude t \/
  exists ok err seg, extract_result_loop segments t = PreludeResult ok err /\
    seg ∈ segments /\ ok ∈ args_types (segment_args seg) /\
    err ∈ args_types (segment_args seg).
Proof.
  induction segments as [|seg segments IH]; cbn; [by left|].
  assert (Hrest : extract_result_loop segments t = NotPrelude t \/
    exists ok err seg', extract_result_loop segments t = PreludeResult ok err /\
      seg' ∈ seg :: segments /\ ok ∈ args_types (segment_args seg') /\
      err ∈ args_types (segment_args seg')).
  { destruct IH as [?|(ok & err & seg' & ? & ? & ?)]; [by left|right].
    exists ok, err, seg'. split_and!; [done|by constructor|naive_solver..]. }
  destruct (segment_args seg) as [[|[| |] [|[| |] [|]]] ?|] eqn:Hseg; auto.
  right. exists t0, t1, seg. split_and!; [done|constructor|rewrite Hseg; cbn; set_solver..].
Qed.

(** What [from_type] returns: the type itself, or component types of it. *)
Lemma from_type_cases t m :
  from_type t m = NotPrelude t \/
  (exists s, from_type t m = PreludeOption s /\ s ∈ type_children t) \/
  (exists ok err, from_type t m = PreludeResult ok err /\
     ok ∈ type_children t /\ err ∈ type_children t).
Proof.
  destruct t as [path names did gen| | | | | | | | | | | |]; try by left.
  cbn [from_type type_children]. destruct (preluded_type _ _ _) as [[|]| |]; try by left.
  destruct (_get_full_name m did); [|by left].
  case_decide; [|case_decide; [|by left]].
  - destruct (extract_option_cases (path_segments path) (ResolvedPath path names did gen))
      as [?|(u & seg & ? & ? & ?)]; [by left|right; left].
    exists u. split; [done|]. apply elem_of_path_types. eauto.
  - destruct (extract_result_cases (path_segments path) (ResolvedPath path names did gen))
      as [?|(ok & err & seg & ? & ? & ? & ?)]; [by left|right; right].
    exists ok, err. split; [done|]. rewrite !elem_of_path_types. eauto 10.
Qed.

Lemma final_type_cases t m :
  _get_final_type (from_type t m) = t \/ _get_final_type (from_type t m) ∈ type_children t.
Proof.
  destruct (from_type_cases t m) as [->|[(s & -> & ?)|(ok & err & -> & ? & ?)]]; cbn; auto.
Qed.

Lemma final_type_smaller t m :
  _prelude_type_need_special_dealing t m = true ->
  type_size (_get_final_type (from_type t m)) < type_size t.
Proof.
  unfold _prelude_type_need_special_dealing. cbn zeta.
  case_decide; [done|]. intros _.
  destruct (final_type_cases t m); [done|]. by apply child_size.
Qed.

Lemma need_special_dealing_spec t m :
  _prelude_type_need_special_dealing t m = true <-> _is_final_type (from_type t m) = false.
Proof.
  unfold _prelude_type_need_special_dealing. cbn zeta.
  destruct (from_type_cases t m) as [->|[(s & -> & Hs)|(ok & err & -> & Hs & ?)]]; cbn;
    case_decide; try done; subst; apply child_size in Hs; lia.
Qed.

#[export] Hint Resolve final_type_smaller : clean.

(** The helper functions emitted for a call type are exactly those of the unwrap
    calls it prints: each unwrap of an [Option] (a [Result]) in the call type brings
    the definition of [_unwrap_option] ([_unwrap_result]), and no other does. *)
Lemma helpers_are_the_unwraps (c : CallType) :
  (PreludeHelper._OptionHelper ∈ PreludeHelper._from_call_type c <->
   exists inner, _UnwrapOption inner ∈ _call_type_to_array c) /\
  (PreludeHelper._ResultHelper ∈ PreludeHelper._from_call_type c <->
   exists inner, _UnwrapResult inner ∈ _call_type_to_array c).
Proof.
  induction c; cbn; try set_solver.
Qed.
