(* ===== verification/FuzzableTypes.v ===== *)
(** Fuzzable parameters ([fuzz_target/fuzzable_type.rs]): which types can be built from
    raw bytes, the type of the value that is decoded, how it is passed on, and how
    many bytes it needs. *)

From S2P Require Import Prelude RustStd CleanTypes CallTypes PreludeTypes.

Module FuzzableCallType.
Inductive FuzzableCallType :=
| NoFuzzable
| Primitive (p : PrimitiveType)
| Tuple (types : list FuzzableCallType)
| Slice (inner : FuzzableCallType)
| Array (inner : FuzzableCallType)
| ConstRawPoiner (inner : FuzzableCallType) (ty : Type_)
| MutRawPoiner (inner : FuzzableCallType) (ty : Type_)
| STR
| BorrowedRef (inner : FuzzableCallType)
| MutBorrowedRef (inner : FuzzableCallType)
| ToOption (inner : FuzzableCallType).
End FuzzableCallType.
Abbreviation FuzzableCallType := FuzzableCallType.FuzzableCallType.

Module FuzzableType.
Inductive FuzzableType :=
| NoFuzzable
| Primitive (p : PrimitiveType)
| RefSlice (inner : FuzzableType)
| RefStr
| Tuple (types : list FuzzableType).

Definition is_NoFuzzable (t : FuzzableType) : bool :=
  match t with NoFuzzable => true | _ => false end.

Fixpoint eq_dec_ (x y : FuzzableType) {struct x} : {x = y} + {x <> y}.
Proof.
  decide equality; first [solve [exact (decide (_ = _))] | by apply list_dec].
Defined.
#[export] Instance eq_dec : EqDecision FuzzableType := eq_dec_.

Fixpoint _is_fixed_length (self : FuzzableType) : bool :=
  match self with
  | NoFuzzable => true
  | Primitive _ => true
  | RefSlice _ => false
  | RefStr => false
  | Tuple inner_fuzzables => forallb _is_fixed_length inner_fuzzables
  end.

Definition primitive_min_length (p : PrimitiveType) : nat :=
  match p with
  | PrimitiveType.I8 | PrimitiveType.U8 | PrimitiveType.Bool => 1
  | PrimitiveType.I16 | PrimitiveType.U16 => 2
  | PrimitiveType.I32 | PrimitiveType.U32 | PrimitiveType.Char | PrimitiveType.F32 => 4
  | PrimitiveType.I64 | PrimitiveType.U64 | PrimitiveType.F64 | PrimitiveType.Usize
  | PrimitiveType.Isize => 8
  | PrimitiveType.I128 | PrimitiveType.U128 => 16
  | _ => 0
  end.

Fixpoint _min_length (self : FuzzableType) : nat :=
  match self with
  | NoFuzzable => 0
  | Primitive primitive_type => primitive_min_length primitive_type
  | RefSlice inner_fuzzable => _min_length inner_fuzzable
  | RefStr => 1
  | Tuple inner_fuzzables => sum_list_with _min_length inner_fuzzables
  end.

Fixpoint _fixed_part_length (self : FuzzableType) : nat :=
  if _is_fixed_length self then _min_length self
  else
    match self with
    | RefStr => 0
    | RefSlice _ => 0
    | Tuple inner_fuzzables => sum_list_with _fixed_part_length inner_fuzzables
    | _ => _min_length self
    end.

Fixpoint _dynamic_length_param_number (self : FuzzableType) : nat :=
  if _is_fixed_length self then 0
  else
    match self with
    | RefStr => 1
    | RefSlice _ => 1
    | Tuple inner_fuzzables => sum_list_with _dynamic_length_param_number inner_fuzzables
    | _ => 0
    end.

Fixpoint _is_multiple_dynamic_length (self : FuzzableType) : bool :=
  match self with
  | RefSlice inner_fuzzable => if negb (_is_fixed_length inner_fuzzable) then true else false
  | Tuple inner_fuzzables => existsb _is_multiple_dynamic_length inner_fuzzables
  | _ => false
  end.

Fixpoint _to_type_string (self : FuzzableType) : string :=
  match self with
  | NoFuzzable => "nofuzzable"
  | Primitive primitive => PrimitiveType.as_str primitive
  | RefSlice inner_ => "&[" +:+ _to_type_string inner_ +:+ "]"
  | RefStr => "&str"
  | Tuple inner_types => "(" +:+ join " ," (List.map _to_type_string inner_types) +:+ ")"
  end.

(** Induction through tuples. *)
Fixpoint FuzzableType_nested_ind (P : FuzzableType -> Prop)
    (HNo : P NoFuzzable) (HPrim : forall p, P (Primitive p))
    (HSlice : forall t, P t -> P (RefSlice t)) (HStr : P RefStr)
    (HTuple : forall ts, Forall P ts -> P (Tuple ts)) (t : FuzzableType) : P t :=
  match t with
  | NoFuzzable => HNo
  | Primitive p => HPrim p
  | RefSlice t => HSlice t (FuzzableType_nested_ind P HNo HPrim HSlice HStr HTuple t)
  | RefStr => HStr
  | Tuple ts =>
      HTuple ts
        ((fix go (ts : list FuzzableType) : Forall P ts :=
            match ts with
            | [] => Forall_nil_2 P
            | t :: ts =>
                Forall_cons_2 P t ts
                  (FuzzableType_nested_ind P HNo HPrim HSlice HStr HTuple t) (go ts)
            end) ts)
  end.
End FuzzableType.
Export (hints) FuzzableType.
Abbreviation FuzzableType := FuzzableType.FuzzableType.

(** ** [generate_fuzzable_type_and_call_type] *)

Definition no_target : FuzzableType * CallType := (FuzzableType.NoFuzzable, _NotCompatible).

(** The two checks [if let NoFuzzable = .. else if let _NotCompatible = ..] and the
    result when both pass. *)
Definition wrap_target (inner : FuzzableType * CallType)
    (f : FuzzableType -> FuzzableType) (g : CallType -> CallType)
    : FuzzableType * CallType :=
  match inner with
  | (FuzzableType.NoFuzzable, _) => no_target
  | (_, _NotCompatible) => no_target
  | (fuzzable_type, inner_call_type) => (f fuzzable_type, g inner_call_type)
  end.

(** The loop over the components of a tuple, with its early returns. *)
Definition tuple_targets (rec : FuzzableCallType -> FuzzableType * CallType)
    : list FuzzableCallType -> list FuzzableType -> FuzzableType * CallType :=
  fix go types fuzzable_types :=
    match types with
    | [] => (FuzzableType.Tuple fuzzable_types, _DirectCall)
    | type_ :: rest =>
        let '(fuzzable_type, call_type) := rec type_ in
        if FuzzableType.is_NoFuzzable fuzzable_type then no_target
        else
          match call_type with
          | _DirectCall => go rest (fuzzable_types ++ [fuzzable_type])
          | _ => no_target
          end
    end.

Fixpoint generate_fuzzable_type_and_call_type (self : FuzzableCallType)
    : FuzzableType * CallType :=
  match self with
  | FuzzableCallType.NoFuzzable => no_target
  | FuzzableCallType.Primitive primitive => (FuzzableType.Primitive primitive, _DirectCall)
  | FuzzableCallType.Tuple types =>
      tuple_targets generate_fuzzable_type_and_call_type types []
  | FuzzableCallType.ConstRawPoiner inner type_ =>
      wrap_target (generate_fuzzable_type_and_call_type inner) id
        (fun c => _ConstRawPointer c type_)
  | FuzzableCallType.MutRawPoiner inner type_ =>
      wrap_target (generate_fuzzable_type_and_call_type inner) id
        (fun c => _MutRawPointer c type_)
  | FuzzableCallType.BorrowedRef (FuzzableCallType.Slice slice_inner) =>
      wrap_target (generate_fuzzable_type_and_call_type slice_inner) FuzzableType.RefSlice
        (fun _ => _DirectCall)
  | FuzzableCallType.BorrowedRef inner_type =>
      wrap_target (generate_fuzzable_type_and_call_type inner_type) id _BorrowedRef
  | FuzzableCallType.MutBorrowedRef inner_type =>
      wrap_target (generate_fuzzable_type_and_call_type inner_type) id _MutBorrowedRef
  | FuzzableCallType.STR => (FuzzableType.RefStr, _DirectCall)
  | FuzzableCallType.ToOption inner =>
      wrap_target (generate_fuzzable_type_and_call_type inner) id _ToOption
  | FuzzableCallType.Array _ | FuzzableCallType.Slice _ => no_target
  end.

(** ** [fuzzable_call_type] *)

Definition is_NoFuzzable (t : FuzzableCallType) : bool :=
  match t with FuzzableCallType.NoFuzzable => true | _ => false end.

(** [match inner_fuzzable { NoFuzzable => NoFuzzable, _ => .. }]. *)
Definition unless_NoFuzzable (inner : FuzzableCallType)
    (f : FuzzableCallType -> FuzzableCallType) : FuzzableCallType :=
  if is_NoFuzzable inner then FuzzableCallType.NoFuzzable else f inner.

(** The loop over the components of a tuple, with its early return. *)
Fixpoint tuple_fuzzables (rec : Type_ -> FuzzableCallType) (types : list Type_)
    (vec : list FuzzableCallType) : FuzzableCallType :=
  match types with
  | [] => FuzzableCallType.Tuple vec
  | inner_type :: rest =>
      unless_NoFuzzable (rec inner_type) (fun inner_fuzzable =>
        tuple_fuzzables rec rest (vec ++ [inner_fuzzable]))
  end.

Definition is_static_lifetime (lifetime : option Lifetime) : bool :=
  match lifetime with
  | Some l => bool_decide (lifetime_name l = "'static")
  | None => false
  end.

(** The body of [fuzzable_call_type]; [rec] is the recursive call. *)
Definition fuzzable_call_type_body (full_name_map : FullNameMap)
    (rec : Type_ -> FuzzableCallType) (ty_ : Type_) : FuzzableCallType :=
  match ty_ with
  | ResolvedPath _ _ _ _ =>
      match from_type ty_ full_name_map with
      | PreludeType.NotPrelude _ | PreludeType.PreludeResult _ _ =>
          FuzzableCallType.NoFuzzable
      | PreludeType.PreludeOption inner_type_ =>
          unless_NoFuzzable (rec inner_type_) FuzzableCallType.ToOption
      end
  | Generic _ => FuzzableCallType.NoFuzzable
  | Primitive primitive_type => FuzzableCallType.Primitive primitive_type
  | BareFunction _ => FuzzableCallType.NoFuzzable
  | Tuple types => tuple_fuzzables rec types []
  | Slice inner_type => unless_NoFuzzable (rec inner_type) FuzzableCallType.Slice
  | Array inner_type _ => unless_NoFuzzable (rec inner_type) FuzzableCallType.Array
  | RawPointer mutability inner_type =>
      unless_NoFuzzable (rec inner_type) (fun inner_fuzzable =>
        match mutability with
        | Mut => FuzzableCallType.MutRawPoiner inner_fuzzable inner_type
        | Not => FuzzableCallType.ConstRawPoiner inner_fuzzable inner_type
        end)
  | BorrowedRef lifetime mutability inner_type =>
      if decide (inner_type = Primitive PrimitiveType.Str /\ mutability = Not) then
        if is_static_lifetime lifetime then FuzzableCallType.NoFuzzable
        else FuzzableCallType.STR
      else
        unless_NoFuzzable (rec inner_type) (fun inner_fuzzable =>
          match mutability with
          | Mut => FuzzableCallType.MutBorrowedRef inner_fuzzable
          | Not => FuzzableCallType.BorrowedRef inner_fuzzable
          end)
  | QPath _ _ _ => FuzzableCallType.NoFuzzable
  | ImplTrait _ => FuzzableCallType.NoFuzzable
  | Never | Infer => FuzzableCallType.NoFuzzable
  end.

Definition fuzzable_call_type (ty_ : Type_) (full_name_map : FullNameMap)
    : FuzzableCallType :=
  fixm type_size (fuzzable_call_type_body full_name_map) FuzzableCallType.NoFuzzable ty_.

(** ** The leaves of a fuzzable type

    A parameter is laid out as the sequence of its leaves: a primitive takes a fixed
    number of bytes, a [&str] or a slice takes a part of the dynamic region. *)
Inductive leaf := FixedLeaf (width : nat) | DynamicLeaf.

Fixpoint leaves (t : FuzzableType) : list leaf :=
  match t with
  | FuzzableType.NoFuzzable => []
  | FuzzableType.Primitive p => [FixedLeaf (FuzzableType.primitive_min_length p)]
  | FuzzableType.RefSlice _ | FuzzableType.RefStr => [DynamicLeaf]
  | FuzzableType.Tuple ts => concat (List.map leaves ts)
  end.

Definition leaf_width (l : leaf) : nat :=
  match l with FixedLeaf width => width | DynamicLeaf => 0 end.
Definition leaf_dynamic (l : leaf) : nat :=
  match l with FixedLeaf _ => 0 | DynamicLeaf => 1 end.

(** ** Recursion of [fuzzable_call_type] *)

Lemma tuple_fuzzables_ext f g types vec :
  (forall t, t ∈ types -> f t = g t) ->
  tuple_fuzzables f types vec = tuple_fuzzables g types vec.
Proof.
  revert vec. induction types as [|t types IH]; intros vec Heq; [done|]. cbn.
  rewrite (Heq t) by constructor. unfold unless_NoFuzzable.
  destruct (is_NoFuzzable (g t)); [done|]. apply IH. intros. apply Heq. by constructor.
Qed.

Lemma fuzzable_call_type_contractive m :
  contractive type_size (fuzzable_call_type_body m).
Proof.
  intros f g t Heq.
  assert (Hch : forall s, s ∈ type_children t -> f s = g s).
  { intros s Hs. by apply Heq, child_size. }
  unfold fuzzable_call_type_body.
  destruct t as [path names did gen| | | |types| | | | | | | |]; try done;
    try (by rewrite Hch by (cbn; constructor)).
  - destruct (from_type_cases (ResolvedPath path names did gen) m)
      as [->|[(u & -> & Hu)|(ok & err & -> & _)]]; try done.
    by rewrite Hch.
  - by apply tuple_fuzzables_ext.
Qed.

Lemma fuzzable_call_type_unfold ty m :
  fuzzable_call_type ty m =
  fuzzable_call_type_body m (fun t => fuzzable_call_type t m) ty.
Proof. apply fixm_unfold, fuzzable_call_type_contractive. Qed.

(** ** Lengths *)

Lemma sum_list_with_zero {A} (f : A -> nat) l :
  sum_list_with f l = 0 <-> Forall (fun x => f x = 0) l.
Proof.
  induction l as [|x l IH]; simpl; [done|]. rewrite Forall_cons, <- IH. lia.
Qed.

Lemma sum_list_with_ext {A} (f g : A -> nat) l :
  Forall (fun x => f x = g x) l -> sum_list_with f l = sum_list_with g l.
Proof. induction 1; simpl; lia. Qed.

Lemma sum_list_with_le {A} (f g : A -> nat) l :
  Forall (fun x => f x <= g x) l -> sum_list_with f l <= sum_list_with g l.
Proof. induction 1; simpl; lia. Qed.

Lemma sum_list_with_concat {A B} (f : B -> nat) (g : A -> list B) l :
  sum_list_with f (concat (List.map g l)) = sum_list_with (fun x => sum_list_with f (g x)) l.
Proof. induction l; simpl; [done|]. rewrite sum_list_with_app. lia. Qed.

Lemma forallb_Forall_true {A} (f : A -> bool) l :
  forallb f l = true <-> Forall (fun x => f x = true) l.
Proof. rewrite forallb_forall, Forall_forall. setoid_rewrite list_elem_of_In. done. Qed.

Lemma dynamic_number_leaves t :
  FuzzableType._dynamic_length_param_number t = sum_list_with leaf_dynamic (leaves t) /\
  (FuzzableType._is_fixed_length t = true <->
   FuzzableType._dynamic_length_param_number t = 0).
Proof.
  induction t as [| | | |ts IH] using FuzzableType.FuzzableType_nested_ind; try done.
  assert (Hd : sum_list_with FuzzableType._dynamic_length_param_number ts =
    sum_list_with leaf_dynamic (leaves (FuzzableType.Tuple ts))).
  { cbn. rewrite sum_list_with_concat. apply sum_list_with_ext.
    eapply Forall_impl; [exact IH|]. by intros x [? _]. }
  assert (Hf : forallb FuzzableType._is_fixed_length ts = true <->
    sum_list_with FuzzableType._dynamic_length_param_number ts = 0).
  { rewrite forallb_Forall_true, sum_list_with_zero, !Forall_forall.
    rewrite Forall_forall in IH. naive_solver. }
  cbn [FuzzableType._dynamic_length_param_number FuzzableType._is_fixed_length].
  destruct (forallb _ ts); rewrite <- Hd; intuition lia.
Qed.

Lemma fixed_part_leaves t :
  FuzzableType._fixed_part_length t = sum_list_with leaf_width (leaves t) /\
  (FuzzableType._is_fixed_length t = true ->
   FuzzableType._min_length t = sum_list_with leaf_width (leaves t)) /\
  sum_list_with leaf_width (leaves t) <= FuzzableType._min_length t.
Proof.
  induction t as [|p| | |ts IH] using FuzzableType.FuzzableType_nested_ind;
    try (cbn; lia).
  rewrite Forall_forall in IH.
  assert (Hmin : FuzzableType._is_fixed_length (FuzzableType.Tuple ts) = true ->
    sum_list_with FuzzableType._min_length ts =
    sum_list_with leaf_width (leaves (FuzzableType.Tuple ts))).
  { intros Hf. cbn in Hf |- *. rewrite forallb_Forall_true, Forall_forall in Hf.
    rewrite sum_list_with_concat. apply sum_list_with_ext, Forall_forall. naive_solver. }
  assert (Hfix : sum_list_with FuzzableType._fixed_part_length ts =
    sum_list_with leaf_width (leaves (FuzzableType.Tuple ts))).
  { cbn. rewrite sum_list_with_concat. apply sum_list_with_ext, Forall_forall. naive_solver. }
  assert (Hle : sum_list_with leaf_width (leaves (FuzzableType.Tuple ts)) <=
    sum_list_with FuzzableType._min_length ts).
  { cbn. rewrite sum_list_with_concat. apply sum_list_with_le, Forall_forall. naive_solver. }
  cbn [FuzzableType._fixed_part_length FuzzableType._min_length].
  destruct (FuzzableType._is_fixed_length (FuzzableType.Tuple ts)) eqn:Hf; naive_solver.
Qed.

(** ** Targets *)

Lemma wrap_target_inv inner f g ft ct :
  wrap_target inner f g = (ft, ct) ->
  (ft = FuzzableType.NoFuzzable /\ ct = _NotCompatible) \/
  (exists ft' ct', inner = (ft', ct') /\ ft' <> FuzzableType.NoFuzzable /\
     ct' <> _NotCompatible /\ ft = f ft' /\ ct = g ct').
Proof.
  destruct inner as [ft' ct']. unfold wrap_target, no_target.
  destruct ft' eqn:Hft; [intros [= <- <-]; by left|..];
    destruct ct' eqn:Hct; intros [= <- <-];
    first [by left | right; do 2 eexists; by split_and!].
Qed.

(** The call types of decoded values: borrows, raw pointers and [Some] around the
    value itself. *)
Fixpoint target_call_type (ct : CallType) : bool :=
  match ct with
  | _DirectCall => true
  | _BorrowedRef c | _MutBorrowedRef c | _ConstRawPointer c _ | _MutRawPointer c _
  | _ToOption c => target_call_type c
  | _ => false
  end.

Lemma tuple_targets_inv rec types acc ft ct :
  tuple_targets rec types acc = (ft, ct) ->
  (ft = FuzzableType.NoFuzzable /\ ct = _NotCompatible) \/
  (exists fts, ft = FuzzableType.Tuple (acc ++ fts) /\ ct = _DirectCall /\
     Forall2 (fun t ft => rec t = (ft, _DirectCall) /\ ft <> FuzzableType.NoFuzzable)
       types fts).
Proof.
  revert acc. induction types as [|t types IH]; intros acc; cbn.
  { intros [= <- <-]. right. exists []. by rewrite app_nil_r. }
  destruct (rec t) as [ft' ct'] eqn:Hrec.
  destruct (FuzzableType.is_NoFuzzable ft') eqn:Hno; [intros [= <- <-]; by left|].
  destruct ct'; try (intros [= <- <-]; by left).
  intros [?|(fts & -> & -> & Hfts)]%IH; [by left|right].
  exists (ft' :: fts). rewrite <- app_assoc. split_and!; [done..|].
  constructor; [|done]. split; [done|]. by destruct ft'.
Qed.

(** Induction on fuzzable call types, through tuples. *)
Fixpoint FuzzableCallType_nested_ind (P : FuzzableCallType -> Prop)
    (HNo : P FuzzableCallType.NoFuzzable)
    (HPrim : forall p, P (FuzzableCallType.Primitive p))
    (HTuple : forall ts, Forall P ts -> P (FuzzableCallType.Tuple ts))
    (HSlice : forall t, P t -> P (FuzzableCallType.Slice t))
    (HArray : forall t, P t -> P (FuzzableCallType.Array t))
    (HConst : forall t ty, P t -> P (FuzzableCallType.ConstRawPoiner t ty))
    (HMut : forall t ty, P t -> P (FuzzableCallType.MutRawPoiner t ty))
    (HStr : P FuzzableCallType.STR)
    (HRef : forall t, P t -> P (FuzzableCallType.BorrowedRef t))
    (HMutRef : forall t, P t -> P (FuzzableCallType.MutBorrowedRef t))
    (HOpt : forall t, P t -> P (FuzzableCallType.ToOption t))
    (t : FuzzableCallType) : P t :=
  let rec := FuzzableCallType_nested_ind P HNo HPrim HTuple HSlice HArray HConst HMut HStr
    HRef HMutRef HOpt in
  match t with
  | FuzzableCallType.NoFuzzable => HNo
  | FuzzableCallType.Primitive p => HPrim p
  | FuzzableCallType.Tuple ts =>
      HTuple ts
        ((fix go (ts : list FuzzableCallType) : Forall P ts :=
            match ts with
            | [] => Forall_nil_2 P
            | t :: ts => Forall_cons_2 P t ts (rec t) (go ts)
            end) ts)
  | FuzzableCallType.Slice t => HSlice t (rec t)
  | FuzzableCallType.Array t => HArray t (rec t)
  | FuzzableCallType.ConstRawPoiner t ty => HConst t ty (rec t)
  | FuzzableCallType.MutRawPoiner t ty => HMut t ty (rec t)
  | FuzzableCallType.STR => HStr
  | FuzzableCallType.BorrowedRef t => HRef t (rec t)
  | FuzzableCallType.MutBorrowedRef t => HMutRef t (rec t)
  | FuzzableCallType.ToOption t => HOpt t (rec t)
  end.

(** What a pair of the generator looks like. *)
Definition target_ok (r : FuzzableType * CallType) : Prop :=
  (r.1 = FuzzableType.NoFuzzable /\ r.2 = _NotCompatible) \/
  (r.1 <> FuzzableType.NoFuzzable /\ target_call_type r.2 = true).

Lemma wrap_target_ok inner f g :
  target_ok inner ->
  (forall ft, ft <> FuzzableType.NoFuzzable -> f ft <> FuzzableType.NoFuzzable) ->
  (forall ct, target_call_type ct = true -> target_call_type (g ct) = true) ->
  target_ok (wrap_target inner f g).
Proof.
  intros Hok Hf Hg. destruct (wrap_target inner f g) as [ft ct] eqn:Hw.
  apply wrap_target_inv in Hw
    as [[-> ->]|(ft' & ct' & -> & Hft & Hct & -> & ->)]; [by left|right].
  destruct Hok as [[? ?]|[? ?]]; naive_solver.
Qed.

Lemma wrap_target_frame_ok inner g :
  target_ok inner ->
  (forall ct, target_call_type (g ct) = target_call_type ct) ->
  target_ok (wrap_target inner id g).
Proof. intros Hok Hg. apply wrap_target_ok; [done|done|]. intros ct. by rewrite Hg. Qed.

Lemma generate_target_ok c : target_ok (generate_fuzzable_type_and_call_type c).
Proof.
  enough (target_ok (generate_fuzzable_type_and_call_type c) /\
    forall s, c = FuzzableCallType.Slice s ->
      target_ok (generate_fuzzable_type_and_call_type s)) by tauto.
  induction c as [|p|ts IH|t IH|t IH|t ty IH|t ty IH| |t IH|t IH|t IH]
    using FuzzableCallType_nested_ind; (split; [|naive_solver]).
  all: try (by left); try (by right).
  - cbn. destruct (tuple_targets _ ts []) as [ft ct] eqn:Hgo.
    apply tuple_targets_inv in Hgo as [[-> ->]|(fts & -> & -> & _)]; [by left|by right].
  - by apply wrap_target_frame_ok; [exact (proj1 IH)|].
  - by apply wrap_target_frame_ok; [exact (proj1 IH)|].
  - destruct IH as [IH IHslice].
    destruct t as [| | |u| | | | | | |]; try (by apply wrap_target_frame_ok).
    apply wrap_target_ok; [by apply IHslice|done..].
  - by apply wrap_target_frame_ok; [exact (proj1 IH)|].
  - by apply wrap_target_frame_ok; [exact (proj1 IH)|].
Qed.

(** ** Properties *)

(** The recursion of [fuzzable_call_type] terminates on every type: the function
    satisfies its recursive equation, so its fuel never runs out. *)
Lemma fuzzable_call_type_terminates (ty : Type_) (m : FullNameMap) :
  fuzzable_call_type ty m =
  fuzzable_call_type_body m (fun t => fuzzable_call_type t m) ty.
Proof. apply fuzzable_call_type_unfold. Qed.

(** The lengths computed for a parameter are those of its layout: the fixed part
    is the total width of its primitive leaves, the dynamic number counts its
    strings and slices (so it is positive unless the length is fixed: the emitted
    division by it is defined), and the minimal length covers the fixed part. *)
Lemma lengths_of_the_layout (t : FuzzableType) :
  FuzzableType._fixed_part_length t = sum_list_with leaf_width (leaves t) /\
  FuzzableType._dynamic_length_param_number t = sum_list_with leaf_dynamic (leaves t) /\
  (FuzzableType._is_fixed_length t = false <->
   0 < FuzzableType._dynamic_length_param_number t) /\
  FuzzableType._fixed_part_length t <= FuzzableType._min_length t /\
  (FuzzableType._is_fixed_length t = true ->
   FuzzableType._fixed_part_length t = FuzzableType._min_length t).
Proof.
  destruct (fixed_part_leaves t) as (-> & Hmin & Hle).
  destruct (dynamic_number_leaves t) as [Hd Hf]. split_and!; [done|done| |done|].
  - destruct (FuzzableType._is_fixed_length t); intuition (try done; lia).
  - intros H. by rewrite Hmin.
Qed.

(** The generator of a decoded value fails in both components or in none, and when
    it succeeds the value is passed on by borrows, raw pointers and [Some] only: no
    cast, no dereference and no unwrap helper is ever applied to a decoded value. *)
Lemma generate_target_shape (c : FuzzableCallType) :
  let '(ft, ct) := generate_fuzzable_type_and_call_type c in
  (ft = FuzzableType.NoFuzzable <-> ct = _NotCompatible) /\
  (ft <> FuzzableType.NoFuzzable ->
   target_call_type ct = true /\ _contains_unwrap_call_type ct = false).
Proof.
  pose proof (generate_target_ok c) as Hok.
  destruct (generate_fuzzable_type_and_call_type c) as [ft ct].
  destruct Hok as [[Hft Hct]|[Hft Hct]]; cbn in *; subst; [done|].
  split; [split; [done|by intros ->]|].
  intros _. split; [done|]. clear Hft. by induction ct; cbn in *; auto.
Qed.
