(* ===== verification/AflHelpers.v ===== *)
(** The decoding helpers of a generated file ([fuzz_target/afl_util.rs]): which helper
    decodes a parameter, the helpers it depends on, their text, and the statement
    that initialises a parameter. *)

From S2P Require Import Prelude RustStd CleanTypes FuzzableTypes.

Inductive _AflHelpers :=
| _NoHelper
| _U8 | _I8 | _U16 | _I16 | _U32 | _I32 | _F32 | _U64 | _I64 | _F64 | _U128 | _I128
| _Usize | _Isize | _Char | _Bool | _Str
| _Slice (inner : _AflHelpers)
| _Tuple (inner_helpers : list _AflHelpers).

Fixpoint AflHelpers_eq_dec_ (x y : _AflHelpers) {struct x} : {x = y} + {x <> y}.
Proof. decide equality; by apply list_dec. Defined.
#[export] Instance AflHelpers_eq_dec : EqDecision _AflHelpers := AflHelpers_eq_dec_.

Fixpoint _new_from_fuzzable (fuzzable : FuzzableType) : _AflHelpers :=
  match fuzzable with
  | FuzzableType.NoFuzzable => _NoHelper
  | FuzzableType.RefStr => _Str
  | FuzzableType.Primitive primitive_type =>
      match primitive_type with
      | PrimitiveType.U8 => _U8
      | PrimitiveType.I8 => _I8
      | PrimitiveType.U16 => _U16
      | PrimitiveType.I16 => _I16
      | PrimitiveType.U32 => _U32
      | PrimitiveType.I32 => _I32
      | PrimitiveType.U64 => _U64
      | PrimitiveType.I64 => _I64
      | PrimitiveType.U128 => _U128
      | PrimitiveType.I128 => _I128
      | PrimitiveType.Usize => _Usize
      | PrimitiveType.Isize => _Isize
      | PrimitiveType.Char => _Char
      | PrimitiveType.Bool => _Bool
      | PrimitiveType.F32 => _F32
      | PrimitiveType.F64 => _F64
      | _ => _NoHelper
      end
  | FuzzableType.RefSlice inner_fuzzable => _Slice (_new_from_fuzzable inner_fuzzable)
  | FuzzableType.Tuple inner_fuzzables => _Tuple (List.map _new_from_fuzzable inner_fuzzables)
  end.

(** How many further helpers a helper goes through: the measure of the recursion. *)
Fixpoint helper_rank (h : _AflHelpers) : nat :=
  match h with
  | _NoHelper | _U8 | _I8 | _F32 | _F64 | _Str | _Slice _ => 0
  | _Bool | _U16 | _I16 => 1
  | _U32 | _I32 => 2
  | _U64 | _I64 | _Char => 3
  | _U128 | _I128 | _Usize | _Isize => 4
  | _Tuple hs => S (sum_list_with helper_rank hs)
  end.

(** The body of [_get_all_dependent_afl_helpers]; [rec] is the recursive call. *)
Definition dependent_helpers_body (rec : _AflHelpers -> list _AflHelpers)
    (self : _AflHelpers) : list _AflHelpers :=
  match self with
  | _Tuple inner_helpers => concat (List.map rec inner_helpers)
  | _ =>
      [self] ++
      match self with
      | _U8 | _I8 | _NoHelper | _Slice _ | _Str | _F32 | _F64 => []
      | _Bool => rec _U8
      | _U16 => rec _U8
      | _I16 => rec _I8
      | _U32 => rec _U16
      | _I32 => rec _I16
      | _U64 => rec _U32
      | _I64 => rec _I32
      | _U128 => rec _U64
      | _I128 => rec _I64
      | _Usize => rec _U64
      | _Isize => rec _I64
      | _Char => rec _U32
      | _Tuple _ => []
      end
  end.

Definition _get_all_dependent_afl_helpers (self : _AflHelpers) : list _AflHelpers :=
  fixm helper_rank dependent_helpers_body [] self.

(** ** The text of the helpers *)

Definition _data_to_u8 : string :=
"fn _to_u8(data:&[u8], index:usize)->u8 {
    data[index]
}
".

Definition _data_to_i8 : string :=
"fn _to_i8(data:&[u8], index:usize)->i8 {    
    data[index] as i8
}
".

Definition _data_to_u16 : string :=
"fn _to_u16(data:&[u8], index:usize)->u16 {
    let data0 = _to_u8(data, index) as u16;
    let data1 = _to_u8(data, index+1) as u16;
    data0 << 8 | data1
}
".

Definition _data_to_i16 : string :=
"fn _to_i16(data:&[u8], index:usize)->i16 {
    let data0 = _to_i8(data, index) as i16;
    let data1 = _to_i8(data, index+1) as i16;
    data0 << 8 | data1
}
".

Definition _data_to_u32 : string :=
"fn _to_u32(data:&[u8], index:usize)->u32 {
    let data0 = _to_u16(data, index) as u32;
    let data1 = _to_u16(data, index+2) as u32;
    data0 << 16 | data1
}
".

Definition _data_to_i32 : string :=
"fn _to_i32(data:&[u8], index:usize)->i32 {
    let data0 = _to_i16(data, index) as i32;
    let data1 = _to_i16(data, index+2) as i32;
    data0 << 16 | data1
}
".

Definition _data_to_f32 : string :=
"fn _to_f32(data:&[u8], index: usize) -> f32 {
    let data_slice = &data[index..index+4];
    use std::convert::TryInto;
    let data_array:[u8;4] = data_slice.try_into().expect(" +:+ dquote
  +:+ "slice with incorrect length" +:+ dquote +:+ ");
    f32::from_le_bytes(data_array)
}
".

Definition _data_to_u64 : string :=
"fn _to_u64(data:&[u8], index:usize)->u64 {
    let data0 = _to_u32(data, index) as u64;
    let data1 = _to_u32(data, index+4) as u64;
    data0 << 32 | data1
}
".

Definition _data_to_i64 : string :=
"fn _to_i64(data:&[u8], index:usize)->i64 {
    let data0 = _to_i32(data, index) as i64;
    let data1 = _to_i32(data, index+4) as i64;
    data0 << 32 | data1
}
".

Definition _data_to_f64 : string :=
"fn _to_f64(data:&[u8], index: usize) -> f64 {
    let data_slice = &data[index..index+8];
    use std::convert::TryInto;
    let data_array:[u8;8] = data_slice.try_into().expect(" +:+ dquote
  +:+ "slice with incorrect length" +:+ dquote +:+ ");
    f64::from_le_bytes(data_array)
}
".

Definition _data_to_u128 : string :=
"fn _to_u128(data:&[u8], index:usize)->u128 {
    let data0 = _to_u64(data, index) as u128;
    let data1 = _to_u64(data, index+8) as u128;
    data0 << 64 | data1
}
".

Definition _data_to_i128 : string :=
"fn _to_i128(data:&[u8], index:usize)->i128 {
    let data0 = _to_i64(data, index) as i128;
    let data1 = _to_i64(data, index+8) as i128;
    data0 << 64 | data1
}
".

Definition _data_to_usize : string :=
"fn _to_usize(data:&[u8], index:usize)->usize {
    _to_u64(data, index) as usize
}
".

Definition _data_to_isize : string :=
"fn _to_isize(data:&[u8], index:usize)->isize {
    _to_i64(data, index) as isize
}
".

Definition _data_to_char : string :=
"fn _to_char(data:&[u8], index: usize)->char {
    let char_value = _to_u32(data,index);
    match char::from_u32(char_value) {
        Some(c)=>c,
        None=>{
            use std::process;
            process::exit(0);
        }
    }
}
".

Definition _data_to_bool : string :=
"fn _to_bool(data:&[u8], index: usize)->bool {
    let bool_value = _to_u8(data, index);
    if bool_value %2 == 0 {
        true
    } else {
        false
    }
}
".

Definition _data_to_str : string :=
"fn _to_str(data:&[u8], start_index: usize, end_index: usize)->&str {
    let data_slice = &data[start_index..end_index];
    use std::str;
    match str::from_utf8(data_slice) {
        Ok(s)=>s,
        Err(_)=>{
            use std::process;
            process::exit(0);
        }
    }
}
".

Definition _data_to_slice : string :=
"fn _to_slice<T>(data:&[u8], start_index: usize, end_index: usize)->&[T] {
    let data_slice = &data[start_index..end_index];
    let (_, shorts, _) = unsafe {data_slice.align_to::<T>()};
    shorts
}
".

Definition _to_full_function (self : _AflHelpers) : string :=
  match self with
  | _NoHelper => "afl no helper"
  | _U8 => _data_to_u8
  | _I8 => _data_to_i8
  | _U16 => _data_to_u16
  | _I16 => _data_to_i16
  | _U32 => _data_to_u32
  | _I32 => _data_to_i32
  | _F32 => _data_to_f32
  | _U64 => _data_to_u64
  | _I64 => _data_to_i64
  | _F64 => _data_to_f64
  | _U128 => _data_to_u128
  | _I128 => _data_to_i128
  | _Usize => _data_to_usize
  | _Isize => _data_to_isize
  | _Char => _data_to_char
  | _Bool => _data_to_bool
  | _Str => _data_to_str
  | _Slice _ => _data_to_slice
  | _Tuple _ => ""
  end.

Fixpoint helper_type_name (self : _AflHelpers) : string :=
  match self with
  | _NoHelper => "afl no helper"
  | _U8 => "u8"
  | _I8 => "i8"
  | _U16 => "u16"
  | _I16 => "i16"
  | _U32 => "u32"
  | _I32 => "i32"
  | _F32 => "f32"
  | _U64 => "u64"
  | _I64 => "i64"
  | _F64 => "f64"
  | _U128 => "u128"
  | _I128 => "i128"
  | _Usize => "usize"
  | _Isize => "isize"
  | _Bool => "bool"
  | _Char => "char"
  | _Str => "str"
  | _Slice _ => "slice"
  | _Tuple inner_afl_helpers =>
      "(" +:+ join " ," (List.map helper_type_name inner_afl_helpers) +:+ ")"
  end.

Definition _to_function_name (self : _AflHelpers) : string :=
  match self with
  | _Slice inner_afl_helpers =>
      "_to_" +:+ helper_type_name self +:+ "::<" +:+ helper_type_name inner_afl_helpers +:+ ">"
  | _Tuple _ => ""
  | _ => "_to_" +:+ helper_type_name self
  end.

Definition _feature_gate (self : _AflHelpers) : option string :=
  match self with
  | _Char => Some "#![feature(assoc_char_funcs)]"
  | _ => None
  end.

Definition _is_slice (self : _AflHelpers) : bool :=
  match self with _Slice _ => true | _ => false end.

Definition _is_tuple (self : _AflHelpers) : bool :=
  match self with _Tuple _ => true | _ => false end.

(** ** The initialisation of a parameter *)

(** [a - b] on [usize]: a release build wraps around. *)
Definition usize_sub (a b : nat) : Z := Z.modulo (Z.of_nat a - Z.of_nat b) (2 ^ 64).

Section param_initial_rhs.
Variable dynamic_start_index : nat.
Variable total_dynamic_param_numbers : nat.
Variable dynamic_param_length : string.

(** The text of a read of the dynamic region. *)
Definition dynamic_rhs (self : _AflHelpers) (dynamic_param_index : nat) : string :=
  let latter_index :=
    if Z.eqb (Z.of_nat dynamic_param_index) (usize_sub total_dynamic_param_numbers 1) then
      "data.len()"
    else
      usize_to_string dynamic_start_index +:+ " + "
        +:+ usize_to_string (dynamic_param_index + 1) +:+ " * " +:+ dynamic_param_length in
  _to_function_name self +:+ "(data, " +:+ usize_to_string dynamic_start_index +:+ " + "
    +:+ usize_to_string dynamic_param_index +:+ " * " +:+ dynamic_param_length +:+ ", "
    +:+ latter_index +:+ ")".

(** The loop over the components of a tuple: [i] is the loop counter, [helpers] the
    rest of the helpers. *)
Definition tuple_rhs_loop
    (rec : _AflHelpers -> nat -> nat -> FuzzableType -> outcome string)
    (inner_fuzzables : list FuzzableType)
    : list _AflHelpers -> nat -> string -> nat -> nat -> outcome string :=
  fix go helpers i res inner_fixed_start_index inner_dynamic_param_index :=
    match helpers with
    | [] => mret res
    | inner_afl_helper :: rest =>
        let res := if decide (i = 0) then res else res +:+ ", " in
        inner_origin_fuzzable_type ← inner_fuzzables.[i];
        inner_rhs ← rec inner_afl_helper inner_fixed_start_index inner_dynamic_param_index
                      inner_origin_fuzzable_type;
        go rest (S i) (res +:+ inner_rhs)
          (inner_fixed_start_index
             + FuzzableType._fixed_part_length inner_origin_fuzzable_type)
          (inner_dynamic_param_index
             + FuzzableType._dynamic_length_param_number inner_origin_fuzzable_type)
    end.

Fixpoint _generate_param_initial_rhs (self : _AflHelpers)
    (fixed_start_index dynamic_param_index : nat) (origin_fuzzable_type : FuzzableType)
    : outcome string :=
  match self with
  | _Bool | _U8 | _I8 | _U16 | _I16 | _U32 | _I32 | _Char | _U64 | _I64 | _U128 | _I128
  | _Usize | _Isize | _F32 | _F64 =>
      mret (_to_function_name self +:+ "(data, " +:+ usize_to_string fixed_start_index +:+ ")")
  | _Str | _Slice _ => mret (dynamic_rhs self dynamic_param_index)
  | _Tuple inner_afl_helpers =>
      match origin_fuzzable_type with
      | FuzzableType.Tuple inner_fuzzables =>
          res ← tuple_rhs_loop _generate_param_initial_rhs inner_fuzzables inner_afl_helpers
                  0 "(" fixed_start_index dynamic_param_index;
          mret (res +:+ ")")
      | _ => mret "Type not match in afl_util"
      end
  | _NoHelper => mret "No helper"
  end.

Definition _generate_param_initial_statement (self : _AflHelpers) (param_index : nat)
    (fixed_start_index dynamic_param_index : nat) (origin_fuzzable_type : FuzzableType)
    : outcome string :=
  match self with
  | _NoHelper => mret "No helper"
  | _ =>
      rhs ← _generate_param_initial_rhs self fixed_start_index dynamic_param_index
              origin_fuzzable_type;
      mret ("let _param" +:+ usize_to_string param_index +:+ " = " +:+ rhs +:+ ";")
  end.
End param_initial_rhs.

(** ** The helpers of a sequence

    [#[derive(Hash)]]: helpers are kept in hash sets. *)
Fixpoint helper_tree (h : _AflHelpers) : gen_tree nat :=
  match h with
  | _NoHelper => GenLeaf 0
  | _U8 => GenLeaf 1 | _I8 => GenLeaf 2 | _U16 => GenLeaf 3 | _I16 => GenLeaf 4
  | _U32 => GenLeaf 5 | _I32 => GenLeaf 6 | _F32 => GenLeaf 7 | _U64 => GenLeaf 8
  | _I64 => GenLeaf 9 | _F64 => GenLeaf 10 | _U128 => GenLeaf 11 | _I128 => GenLeaf 12
  | _Usize => GenLeaf 13 | _Isize => GenLeaf 14 | _Char => GenLeaf 15 | _Bool => GenLeaf 16
  | _Str => GenLeaf 17
  | _Slice inner => GenNode 0 [helper_tree inner]
  | _Tuple inner_helpers => GenNode 1 (List.map helper_tree inner_helpers)
  end.

Definition leaf_helpers : list _AflHelpers :=
  [_NoHelper; _U8; _I8; _U16; _I16; _U32; _I32; _F32; _U64; _I64; _F64; _U128; _I128;
   _Usize; _Isize; _Char; _Bool; _Str].

Fixpoint tree_helper (t : gen_tree nat) : _AflHelpers :=
  match t with
  | GenLeaf n => default _NoHelper (leaf_helpers !! n)
  | GenNode 0 [inner] => _Slice (tree_helper inner)
  | GenNode _ inner_helpers => _Tuple (List.map tree_helper inner_helpers)
  end.

Fixpoint AflHelpers_nested_ind (P : _AflHelpers -> Prop)
    (Hleaf : forall n h, leaf_helpers !! n = Some h -> P h)
    (HSlice : forall h, P h -> P (_Slice h)) (HTuple : forall hs, Forall P hs -> P (_Tuple hs))
    (h : _AflHelpers) : P h :=
  match h with
  | _Slice h => HSlice h (AflHelpers_nested_ind P Hleaf HSlice HTuple h)
  | _Tuple hs =>
      HTuple hs
        ((fix go (hs : list _AflHelpers) : Forall P hs :=
            match hs with
            | [] => Forall_nil_2 P
            | h :: hs =>
                Forall_cons_2 P h hs (AflHelpers_nested_ind P Hleaf HSlice HTuple h) (go hs)
            end) hs)
  | _NoHelper => Hleaf 0 _ eq_refl
  | _U8 => Hleaf 1 _ eq_refl
  | _I8 => Hleaf 2 _ eq_refl
  | _U16 => Hleaf 3 _ eq_refl
  | _I16 => Hleaf 4 _ eq_refl
  | _U32 => Hleaf 5 _ eq_refl
  | _I32 => Hleaf 6 _ eq_refl
  | _F32 => Hleaf 7 _ eq_refl
  | _U64 => Hleaf 8 _ eq_refl
  | _I64 => Hleaf 9 _ eq_refl
  | _F64 => Hleaf 10 _ eq_refl
  | _U128 => Hleaf 11 _ eq_refl
  | _I128 => Hleaf 12 _ eq_refl
  | _Usize => Hleaf 13 _ eq_refl
  | _Isize => Hleaf 14 _ eq_refl
  | _Char => Hleaf 15 _ eq_refl
  | _Bool => Hleaf 16 _ eq_refl
  | _Str => Hleaf 17 _ eq_refl
  end.

Lemma tree_helper_tree h : tree_helper (helper_tree h) = h.
Proof.
  induction h as [n h Hn|h IH|hs IH] using AflHelpers_nested_ind; cbn.
  - do 18 (destruct n as [|n]; [by injection Hn as <-|]). done.
  - by rewrite IH.
  - f_equal. rewrite map_map. induction IH as [|h hs Hh _ IH]; [done|]. cbn. by f_equal.
Qed.

#[export] Instance AflHelpers_countable : Countable _AflHelpers.
Proof. exact (inj_countable' helper_tree tree_helper tree_helper_tree). Defined.

(** The double loop of insertions. *)
Definition _get_all_dependent_afl_helpers_of_sequence (fuzzable_params : list FuzzableType)
    : gset _AflHelpers :=
  foldl (fun res fuzzable_param =>
    foldl (fun res dependency => {[dependency]} ∪ res) res
      (_get_all_dependent_afl_helpers (_new_from_fuzzable fuzzable_param)))
    ∅ fuzzable_params.

Section of_sequence.
Context `{HashOrder}.

(** The loop over the set, with its flag. *)
Fixpoint helpers_functions_loop (afl_helpers : list _AflHelpers) (contains_slice_flag : bool)
    (afl_helper_functions : list string) : list string :=
  match afl_helpers with
  | [] => afl_helper_functions
  | afl_helper :: rest =>
      if negb contains_slice_flag && _is_slice afl_helper then
        helpers_functions_loop rest true
          (afl_helper_functions ++ [_to_full_function afl_helper])
      else
        helpers_functions_loop rest contains_slice_flag
          (afl_helper_functions ++ [_to_full_function afl_helper])
  end.

Definition _get_afl_helpers_functions_of_sequence (fuzzable_params : list FuzzableType)
    : option (list string) :=
  let afl_helpers := _get_all_dependent_afl_helpers_of_sequence fuzzable_params in
  if size afl_helpers <? 1 then None
  else Some (helpers_functions_loop (hash_order 0 afl_helpers) false []).

Definition _get_feature_gates_of_sequence (fuzzable_params : list FuzzableType)
    : option (list string) :=
  let all_afl_helpers := _get_all_dependent_afl_helpers_of_sequence fuzzable_params in
  let feature_gates : gset string :=
    foldl (fun gates afl_helper =>
      match _feature_gate afl_helper with
      | Some feature_gate => {[feature_gate]} ∪ gates
      | None => gates
      end) ∅ (hash_order 1 all_afl_helpers) in
  if size feature_gates <? 1 then None
  else Some (hash_order 2 feature_gates).
End of_sequence.

(** ** Lemmas *)

Lemma dependent_helpers_contractive : contractive helper_rank dependent_helpers_body.
Proof.
  intros f g h Heq. destruct h as [| | | | | | | | | | | | | | | | | | |hs]; cbn; try done;
    try (by rewrite Heq by (cbn; lia)).
  f_equal. apply map_ext_in. intros h Hh. apply Heq. cbn.
  apply list_elem_of_In, (sum_list_with_elem helper_rank) in Hh. lia.
Qed.

Lemma dependent_helpers_unfold h :
  _get_all_dependent_afl_helpers h =
  dependent_helpers_body _get_all_dependent_afl_helpers h.
Proof. apply fixm_unfold, dependent_helpers_contractive. Qed.

Lemma elem_of_helpers_of_sequence params h :
  h ∈ _get_all_dependent_afl_helpers_of_sequence params <->
  exists p, p ∈ params /\ h ∈ _get_all_dependent_afl_helpers (_new_from_fuzzable p).
Proof.
  unfold _get_all_dependent_afl_helpers_of_sequence.
  assert (Hin : forall (l : list _AflHelpers) (s : gset _AflHelpers),
    h ∈ foldl (fun res d => {[d]} ∪ res) s l <-> h ∈ s \/ h ∈ l).
  { induction l as [|d l IH]; intros s; cbn; [set_solver|]. rewrite IH. set_solver. }
  assert (Hgen : forall s : gset _AflHelpers,
    h ∈ foldl (fun res p => foldl (fun res d => {[d]} ∪ res) res
      (_get_all_dependent_afl_helpers (_new_from_fuzzable p))) s params <->
    h ∈ s \/ exists p, p ∈ params /\ h ∈ _get_all_dependent_afl_helpers (_new_from_fuzzable p)).
  { induction params as [|p params IH]; intros s; cbn; [set_solver|].
    rewrite IH, Hin. set_solver. }
  rewrite Hgen. set_solver.
Qed.

Lemma helpers_functions_loop_spec afl_helpers flag acc :
  helpers_functions_loop afl_helpers flag acc = acc ++ List.map _to_full_function afl_helpers.
Proof.
  revert flag acc. induction afl_helpers as [|h hs IH]; intros flag acc; cbn.
  { by rewrite app_nil_r. }
  destruct (negb flag && _is_slice h); rewrite IH, <- app_assoc; done.
Qed.

(** A leaf helper by its position. *)
Lemma leaf_helper_in n h : leaf_helpers !! n = Some h -> h ∈ leaf_helpers.
Proof. apply list_elem_of_lookup_2. Qed.

(** The dependencies of a dependency are dependencies. *)
Lemma dependent_helpers_trans k h g :
  h ∈ _get_all_dependent_afl_helpers k -> g ∈ _get_all_dependent_afl_helpers h ->
  g ∈ _get_all_dependent_afl_helpers k.
Proof.
  revert h. induction k as [n k Hn|k _|ks IH] using AflHelpers_nested_ind; intros h.
  - intros Hh Hg. apply leaf_helper_in in Hn.
    assert (Hall : Forall (fun k => Forall (fun h => Forall (fun g =>
        g ∈ _get_all_dependent_afl_helpers k) (_get_all_dependent_afl_helpers h))
      (_get_all_dependent_afl_helpers k)) leaf_helpers).
    { apply (bool_decide_unpack _). vm_compute. exact I. }
    rewrite Forall_forall in Hall. specialize (Hall k Hn).
    rewrite Forall_forall in Hall. specialize (Hall h Hh).
    rewrite Forall_forall in Hall. by apply Hall.
  - rewrite (dependent_helpers_unfold (_Slice k)). cbn [dependent_helpers_body app].
    intros ->%list_elem_of_singleton. by rewrite dependent_helpers_unfold.
  - rewrite (dependent_helpers_unfold (_Tuple ks)). cbn [dependent_helpers_body].
    rewrite !list_elem_of_In, !in_concat. intros (l & Hl & Hh) Hg.
    apply in_map_iff in Hl as (k & <- & Hk).
    rewrite Forall_forall in IH. apply list_elem_of_In in Hk, Hh, Hg.
    exists (_get_all_dependent_afl_helpers k). split.
    + apply in_map, list_elem_of_In, Hk.
    + apply list_elem_of_In. by apply (IH k Hk h).
Qed.

(** No tuple helper is emitted: it has no function. *)
Lemma dependent_helpers_no_tuple k h :
  h ∈ _get_all_dependent_afl_helpers k -> h ∈ leaf_helpers \/ exists inner, h = _Slice inner.
Proof.
  induction k as [n k Hn|k _|ks IH] using AflHelpers_nested_ind.
  - intros Hh. left. apply leaf_helper_in in Hn.
    assert (Hall : Forall (fun k => Forall (fun h => h ∈ leaf_helpers)
      (_get_all_dependent_afl_helpers k)) leaf_helpers).
    { apply (bool_decide_unpack _). vm_compute. exact I. }
    rewrite Forall_forall in Hall. specialize (Hall k Hn).
    rewrite Forall_forall in Hall. by apply Hall.
  - rewrite dependent_helpers_unfold. cbn [dependent_helpers_body app]. intros ->%list_elem_of_singleton. by right; exists k.
  - rewrite dependent_helpers_unfold. cbn [dependent_helpers_body]. rewrite list_elem_of_In, in_concat.
    intros (l & Hl & Hh). apply in_map_iff in Hl as (k & <- & Hk).
    rewrite Forall_forall in IH. apply list_elem_of_In in Hk, Hh. by apply (IH k).
Qed.

(** The text of a helper only names the helpers it depends on. *)
Lemma called_helper_is_dependent h g :
  h ∈ leaf_helpers \/ (exists inner, h = _Slice inner) -> g ∈ leaf_helpers ->
  str_contains (_to_full_function h) (_to_function_name g +:+ "(data") = true ->
  g ∈ _get_all_dependent_afl_helpers h.
Proof.
  intros [Hh|(inner & ->)] Hg Hc.
  - assert (Hall : forallb (fun h => forallb (fun g =>
        negb (str_contains (_to_full_function h) (_to_function_name g +:+ "(data"))
        || bool_decide (g ∈ _get_all_dependent_afl_helpers h)) leaf_helpers) leaf_helpers = true)
      by (vm_compute; reflexivity).
    rewrite forallb_forall in Hall. specialize (Hall h (proj1 (list_elem_of_In _ _) Hh)).
    rewrite forallb_forall in Hall. specialize (Hall g (proj1 (list_elem_of_In _ _) Hg)).
    rewrite Hc in Hall. by apply bool_decide_eq_true in Hall.
  - exfalso.
    assert (Hall : forallb (fun g =>
        negb (str_contains _data_to_slice (_to_function_name g +:+ "(data"))) leaf_helpers = true)
      by (vm_compute; reflexivity).
    rewrite forallb_forall in Hall. specialize (Hall g (proj1 (list_elem_of_In _ _) Hg)).
    cbn [_to_full_function] in Hc. by rewrite Hc in Hall.
Qed.

Lemma self_is_dependent h : _is_tuple h = false -> h ∈ _get_all_dependent_afl_helpers h.
Proof. rewrite dependent_helpers_unfold. destruct h; cbn; try done; intros _; left. Qed.

Lemma emitted_functions `{HashOrder} params l :
  _get_afl_helpers_functions_of_sequence params = Some l ->
  exists hs, hs ≡ₚ elements (_get_all_dependent_afl_helpers_of_sequence params) /\
    l = List.map _to_full_function hs.
Proof.
  unfold _get_afl_helpers_functions_of_sequence. destruct (_ <? 1); [done|].
  intros [= <-]. eexists. rewrite helpers_functions_loop_spec. split; [|done].
  apply hash_order_perm.
Qed.

(** ** Properties *)

(** The emitted helpers are closed under calls. Every helper that a parameter needs
    at its top level is emitted, and whenever the text of an emitted helper names
    another helper applied to the data, that helper is emitted too, so the generated
    file never calls an undefined decoder. *)
Lemma emitted_helpers_are_closed `{HashOrder} (params : list FuzzableType) :
  let emitted := _get_all_dependent_afl_helpers_of_sequence params in
  (forall p, p ∈ params -> _is_tuple (_new_from_fuzzable p) = false ->
     _new_from_fuzzable p ∈ emitted) /\
  (forall h g, h ∈ emitted -> g ∈ leaf_helpers ->
     str_contains (_to_full_function h) (_to_function_name g +:+ "(data") = true ->
     g ∈ emitted) /\
  (forall l, _get_afl_helpers_functions_of_sequence params = Some l ->
     forall h, h ∈ emitted -> _to_full_function h ∈ l).
Proof.
  intros emitted. split_and!.
  - intros p Hp Ht. apply elem_of_helpers_of_sequence. exists p.
    split; [done|]. by apply self_is_dependent.
  - intros h g (p & Hp & Hh)%elem_of_helpers_of_sequence Hg Hc.
    apply elem_of_helpers_of_sequence. exists p. split; [done|].
    eapply dependent_helpers_trans; [done|].
    apply called_helper_is_dependent; [by eapply dependent_helpers_no_tuple|done..].
  - intros l (hs & Hperm & ->)%emitted_functions h Hh.
    apply list_elem_of_fmap_2. by rewrite Hperm, elem_of_elements.
Qed.

(** The emission repeats [_to_slice] when a sequence has slices of two element
    types: the flag of the loop does not keep the second copy of the generic function
    out, whatever the iteration order of the set. *)
Lemma slice_helper_is_repeated `{HashOrder} (params : list FuzzableType)
    (t1 t2 : FuzzableType)
    (H1 : FuzzableType.RefSlice t1 ∈ params) (H2 : FuzzableType.RefSlice t2 ∈ params)
    (Hne : _new_from_fuzzable t1 <> _new_from_fuzzable t2) :
  exists l i j, _get_afl_helpers_functions_of_sequence params = Some l /\
    i <> j /\ l !! i = Some _data_to_slice /\ l !! j = Some _data_to_slice.
Proof.
  assert (Hin : forall t, FuzzableType.RefSlice t ∈ params ->
    _Slice (_new_from_fuzzable t) ∈ _get_all_dependent_afl_helpers_of_sequence params).
  { intros t Ht. apply elem_of_helpers_of_sequence. exists (FuzzableType.RefSlice t).
    split; [done|]. by apply self_is_dependent. }
  destruct (_get_afl_helpers_functions_of_sequence params) as [l|] eqn:Hl.
  - destruct (emitted_functions _ _ Hl) as (hs & Hperm & ->).
    apply Hin in H1, H2. rewrite <- elem_of_elements, <- Hperm in H1, H2.
    apply list_elem_of_lookup_1 in H1 as [i Hi], H2 as [j Hj].
    exists (List.map _to_full_function hs), i, j. split; [done|].
    split; [by intros ->; simplify_eq|].
    by rewrite !list_lookup_fmap, Hi, Hj.
  - exfalso. unfold _get_afl_helpers_functions_of_sequence in Hl.
    apply Hin in H1. destruct (Nat.ltb_spec (size (_get_all_dependent_afl_helpers_of_sequence params)) 1)
      as [Hs|]; [|done].
    assert (size (_get_all_dependent_afl_helpers_of_sequence params) = 0) as H0 by lia.
    apply size_empty_inv in H0. set_solver.
Qed.

Lemma slice_helper_is_repeated_witness :
  exists l i j, _get_afl_helpers_functions_of_sequence (H := canonical_order)
      [FuzzableType.RefSlice (FuzzableType.Primitive PrimitiveType.U8);
       FuzzableType.RefSlice (FuzzableType.Primitive PrimitiveType.U16)] = Some l /\
    i <> j /\ l !! i = Some _data_to_slice /\ l !! j = Some _data_to_slice.
Proof.
  apply (slice_helper_is_repeated (H := canonical_order) _
    (FuzzableType.Primitive PrimitiveType.U8) (FuzzableType.Primitive PrimitiveType.U16)).
  - apply list_elem_of_here.
  - apply list_elem_of_further, list_elem_of_here.
  - done.
Defined.
