(* ===== verification/AflDecode.v ===== *)
(** What the generated decoding code does when it runs: the layout of the input bytes
    that the emitted initialisers follow, and the values that the emitted helper
    functions ([_data_to_*] of [fuzz_target/afl_util.rs]) compute from them. *)

From S2P Require Import Prelude RustStd CleanTypes FuzzableTypes AflHelpers.

(** ** The reads of an initialiser

    The right-hand side of an emitted [let _param = ..] as a tree: a helper applied
    at a fixed index, a helper applied to the [k]-th part of the dynamic region, or a
    tuple of such reads. *)
Inductive rhs_expr :=
| RFixed (h : _AflHelpers) (index : nat)
| RDynamic (h : _AflHelpers) (k : nat)
| RTuple (es : list rhs_expr)
| RNone.

Fixpoint rhs_expr_of (t : FuzzableType) (fixed dyn : nat) : rhs_expr :=
  match t with
  | FuzzableType.NoFuzzable => RNone
  | FuzzableType.Primitive p =>
      match _new_from_fuzzable t with
      | _NoHelper => RNone
      | h => RFixed h fixed
      end
  | FuzzableType.RefSlice _ | FuzzableType.RefStr => RDynamic (_new_from_fuzzable t) dyn
  | FuzzableType.Tuple ts =>
      RTuple
        ((fix go (ts : list FuzzableType) (fixed dyn : nat) : list rhs_expr :=
            match ts with
            | [] => []
            | t :: rest =>
                rhs_expr_of t fixed dyn ::
                go rest (fixed + FuzzableType._fixed_part_length t)
                   (dyn + FuzzableType._dynamic_length_param_number t)
            end) ts fixed dyn)
  end.

Fixpoint rhs_exprs_of (ts : list FuzzableType) (fixed dyn : nat) : list rhs_expr :=
  match ts with
  | [] => []
  | t :: rest =>
      rhs_expr_of t fixed dyn ::
      rhs_exprs_of rest (fixed + FuzzableType._fixed_part_length t)
        (dyn + FuzzableType._dynamic_length_param_number t)
  end.

(** The Rust text of a tree. *)
Section print_rhs.
Variable dynamic_start_index total_dynamic_param_numbers : nat.
Variable dynamic_param_length : string.

Fixpoint print_rhs (e : rhs_expr) : string :=
  match e with
  | RFixed h index => _to_function_name h +:+ "(data, " +:+ usize_to_string index +:+ ")"
  | RDynamic h k =>
      dynamic_rhs dynamic_start_index total_dynamic_param_numbers dynamic_param_length h k
  | RTuple es => "(" +:+ join ", " (List.map print_rhs es) +:+ ")"
  | RNone => "No helper"
  end.
End print_rhs.

(** ** The byte ranges *)

(** A read of [width] bytes at a fixed index, or of the [k]-th dynamic part. *)
Inductive access := AFixed (index width : nat) | ADynamic (k : nat).

Definition helper_width (h : _AflHelpers) : nat :=
  match h with
  | _U8 | _I8 | _Bool => 1
  | _U16 | _I16 => 2
  | _U32 | _I32 | _Char | _F32 => 4
  | _U64 | _I64 | _F64 | _Usize | _Isize => 8
  | _U128 | _I128 => 16
  | _ => 0
  end.

Fixpoint accesses (e : rhs_expr) : list access :=
  match e with
  | RFixed h index => [AFixed index (helper_width h)]
  | RDynamic _ k => [ADynamic k]
  | RTuple es => concat (List.map accesses es)
  | RNone => []
  end.

(** The layout of a sequence of leaves: the primitives one after the other from
    [fixed], the dynamic parts numbered from [dyn]. *)
Fixpoint layout (ls : list leaf) (fixed dyn : nat) : list access :=
  match ls with
  | [] => []
  | FixedLeaf 0 :: rest => layout rest fixed dyn
  | FixedLeaf width :: rest => AFixed fixed width :: layout rest (fixed + width) dyn
  | DynamicLeaf :: rest => ADynamic dyn :: layout rest fixed (dyn + 1)
  end.

(** The range [start..stop] of the bytes an access reads, on an input of [len] bytes
    where [dynamic_length] is what the emitted division computes. *)
Definition access_range (len dynamic_start total dynamic_length : nat) (a : access)
    : nat * nat :=
  match a with
  | AFixed index width => (index, index + width)
  | ADynamic k =>
      (dynamic_start + k * dynamic_length,
       if decide (k + 1 = total) then len else dynamic_start + (k + 1) * dynamic_length)
  end.

(** ** The values *)

Definition byte (z : Z) : Prop := (0 <= z < 256)%Z.

(** [z as uN] and [z as iN]. *)
Definition as_unsigned (bits z : Z) : Z := Z.modulo z (2 ^ bits).
Definition as_signed (bits z : Z) : Z :=
  let w := Z.modulo z (2 ^ bits) in
  if Z.ltb w (2 ^ (bits - 1)) then w else (w - 2 ^ bits)%Z.

Section decode.
Open Scope Z_scope.
Variable data : list Z.

Definition _to_u8 (index : nat) : outcome Z := data.[index].

Definition _to_i8 (index : nat) : outcome Z :=
  b ← data.[index]; mret (as_signed 8 b).

Definition _to_u16 (index : nat) : outcome Z :=
  data0 ← _to_u8 index;
  data1 ← _to_u8 (index + 1)%nat;
  mret (Z.lor (as_unsigned 16 (Z.shiftl data0 8)) data1).

Definition _to_i16 (index : nat) : outcome Z :=
  data0 ← _to_i8 index;
  data1 ← _to_i8 (index + 1)%nat;
  mret (Z.lor (as_signed 16 (Z.shiftl data0 8)) data1).

Definition _to_u32 (index : nat) : outcome Z :=
  data0 ← _to_u16 index;
  data1 ← _to_u16 (index + 2)%nat;
  mret (Z.lor (as_unsigned 32 (Z.shiftl data0 16)) data1).

Definition _to_i32 (index : nat) : outcome Z :=
  data0 ← _to_i16 index;
  data1 ← _to_i16 (index + 2)%nat;
  mret (Z.lor (as_signed 32 (Z.shiftl data0 16)) data1).

Definition _to_u64 (index : nat) : outcome Z :=
  data0 ← _to_u32 index;
  data1 ← _to_u32 (index + 4)%nat;
  mret (Z.lor (as_unsigned 64 (Z.shiftl data0 32)) data1).

Definition _to_i64 (index : nat) : outcome Z :=
  data0 ← _to_i32 index;
  data1 ← _to_i32 (index + 4)%nat;
  mret (Z.lor (as_signed 64 (Z.shiftl data0 32)) data1).

Definition _to_u128 (index : nat) : outcome Z :=
  data0 ← _to_u64 index;
  data1 ← _to_u64 (index + 8)%nat;
  mret (Z.lor (as_unsigned 128 (Z.shiftl data0 64)) data1).

Definition _to_i128 (index : nat) : outcome Z :=
  data0 ← _to_i64 index;
  data1 ← _to_i64 (index + 8)%nat;
  mret (Z.lor (as_signed 128 (Z.shiftl data0 64)) data1).

Definition _to_usize (index : nat) : outcome Z :=
  v ← _to_u64 index; mret (as_unsigned 64 v).

Definition _to_isize (index : nat) : outcome Z :=
  v ← _to_i64 index; mret (as_signed 64 v).

(** [char::from_u32]: a Unicode scalar value. *)
Definition char_from_u32 (v : Z) : option Z :=
  if (v <? 55296) || ((57343 <? v) && (v <? 1114112)) then Some v else None.

Definition _to_char (index : nat) : outcome Z :=
  char_value ← _to_u32 index;
  match char_from_u32 char_value with
  | Some c => mret c
  | None => Exited 0
  end.

Definition _to_bool (index : nat) : outcome bool :=
  bool_value ← _to_u8 index;
  mret (if bool_value mod 2 =? 0 then true else false).

(** [&data[start..end]]. *)
Definition data_slice (start_index end_index : nat) : outcome (list Z) :=
  if decide (start_index <= end_index /\ end_index <= length data)%nat then
    mret (take (end_index - start_index) (drop start_index data))
  else Panicked.

(** The bits of [f32::from_le_bytes] and [f64::from_le_bytes]. *)
Definition from_le_bytes (bytes : list Z) : Z :=
  foldr (fun b acc => b + 256 * acc) 0 bytes.

Definition _to_f32 (index : nat) : outcome Z :=
  bytes ← data_slice index (index + 4); mret (from_le_bytes bytes).

Definition _to_f64 (index : nat) : outcome Z :=
  bytes ← data_slice index (index + 8); mret (from_le_bytes bytes).
End decode.

(** The value of a helper that reads at a fixed index, as an integer. *)
Definition decode_fixed (h : _AflHelpers) (data : list Z) (index : nat) : outcome Z :=
  match h with
  | _U8 => _to_u8 data index
  | _I8 => _to_i8 data index
  | _U16 => _to_u16 data index
  | _I16 => _to_i16 data index
  | _U32 => _to_u32 data index
  | _I32 => _to_i32 data index
  | _U64 => _to_u64 data index
  | _I64 => _to_i64 data index
  | _U128 => _to_u128 data index
  | _I128 => _to_i128 data index
  | _Usize => _to_usize data index
  | _Isize => _to_isize data index
  | _Char => _to_char data index
  | _Bool => b ← _to_bool data index; mret (if b : bool then 1%Z else 0%Z)
  | _F32 => _to_f32 data index
  | _F64 => _to_f64 data index
  | _ => Panicked
  end.

(** Big-endian value and encoding of a sequence of bytes. *)
Definition be_value (bytes : list Z) : Z :=
  foldl (fun acc b => (256 * acc + b)%Z) 0%Z bytes.

Fixpoint be_bytes (n : nat) (v : Z) : list Z :=
  match n with
  | O => []
  | S k => be_bytes k (v / 256) ++ [Z.modulo v 256]
  end.

(** ** The printed text is the text of the tree *)

Lemma rhs_expr_tuple ts fixed dyn :
  rhs_expr_of (FuzzableType.Tuple ts) fixed dyn = RTuple (rhs_exprs_of ts fixed dyn).
Proof. reflexivity. Qed.

Section text.
Variable dynamic_start total : nat.
Variable name : string.

Let text := _generate_param_initial_rhs dynamic_start total name.
Let print := print_rhs dynamic_start total name.

(** The rest of the loop of a tuple, after [length pre] components. *)
Lemma tuple_rhs_loop_rest pre ts res fixed dyn :
  Forall (fun t => forall f d, text (_new_from_fuzzable t) f d t =
    Ret (print (rhs_expr_of t f d))) ts ->
  pre <> [] ->
  tuple_rhs_loop text (pre ++ ts) (List.map _new_from_fuzzable ts) (length pre) res fixed dyn =
  Ret (foldl (fun acc e => acc +:+ ", " +:+ print e) res (rhs_exprs_of ts fixed dyn)).
Proof.
  intros Hts. revert pre res fixed dyn.
  induction Hts as [|t ts Ht _ IH]; intros pre res fixed dyn Hpre; [done|].
  cbn [List.map tuple_rhs_loop rhs_exprs_of foldl].
  destruct (decide (length pre = 0)) as [H0|_]; [by destruct pre|].
  unfold vec_index. rewrite list_lookup_middle by done. cbn [unwrap mbind outcome_bind].
  rewrite Ht. cbn [mbind outcome_bind].
  specialize (IH (pre ++ [t])). rewrite length_app, <- app_assoc in IH.
  cbn [length app] in IH. rewrite Nat.add_1_r in IH. rewrite IH by (by destruct pre).
  by rewrite str_app_assoc.
Qed.

Lemma foldl_join (es : list string) res :
  foldl (fun acc e => acc +:+ ", " +:+ e) res es =
  match es with [] => res | _ => res +:+ ", " +:+ join ", " es end.
Proof.
  revert res. induction es as [|e es IH]; intros res; [done|]. cbn [foldl].
  rewrite IH. destruct es as [|e' es]; [done|].
  rewrite (join_cons ", " e (e' :: es)) by done.
  by rewrite !str_app_assoc.
Qed.

Lemma foldl_map_list {A B C} (f : C -> B -> C) (g : A -> B) (l : list A) c :
  foldl (fun acc a => f acc (g a)) c l = foldl f c (List.map g l).
Proof. revert c. induction l; intros c; cbn; auto. Qed.

Lemma rhs_text t fixed dyn :
  text (_new_from_fuzzable t) fixed dyn t = Ret (print (rhs_expr_of t fixed dyn)).
Proof.
  revert fixed dyn.
  induction t as [|p|t IH| |ts IH] using FuzzableType.FuzzableType_nested_ind;
    intros fixed dyn; try done; [by destruct p|].
  rewrite rhs_expr_tuple. unfold text, print.
  cbn [_new_from_fuzzable _generate_param_initial_rhs print_rhs]. fold text.
  destruct IH as [|t ts Ht IH]; [done|].
  cbn [List.map tuple_rhs_loop rhs_exprs_of].
  rewrite decide_True by done. unfold vec_index. cbn [lookup list_lookup unwrap mbind outcome_bind].
  rewrite Ht. cbn [mbind outcome_bind].
  rewrite (tuple_rhs_loop_rest [t] ts) by done. cbn [mbind outcome_bind].
  unfold mret, outcome_ret. f_equal. fold print. rewrite (foldl_map_list (fun acc e => acc +:+ ", " +:+ e)).
  rewrite foldl_join.
  destruct (List.map print (rhs_exprs_of ts _ _)) as [|e es]; [by rewrite <- !str_app_assoc|].
  rewrite (join_cons ", " (print (rhs_expr_of t fixed dyn)) (e :: es)) by done.
  by rewrite <- !str_app_assoc.
Qed.
End text.

(** ** The reads of a parameter are its layout *)

Lemma layout_app ls1 ls2 fixed dyn :
  layout (ls1 ++ ls2) fixed dyn =
  layout ls1 fixed dyn ++
  layout ls2 (fixed + sum_list_with leaf_width ls1) (dyn + sum_list_with leaf_dynamic ls1).
Proof.
  revert fixed dyn. induction ls1 as [|[[|w]|] ls1 IH]; intros fixed dyn; cbn.
  - by rewrite !Nat.add_0_r.
  - by rewrite IH.
  - by rewrite IH, <- Nat.add_assoc, <- Nat.add_succ_comm.
  - by rewrite IH, <- Nat.add_assoc.
Qed.

Lemma accesses_layout t fixed dyn :
  accesses (rhs_expr_of t fixed dyn) = layout (leaves t) fixed dyn.
Proof.
  revert fixed dyn.
  induction t as [|p| | |ts IH] using FuzzableType.FuzzableType_nested_ind;
    intros fixed dyn; try done; [by destruct p|].
  rewrite rhs_expr_tuple. cbn [accesses leaves]. revert fixed dyn.
  induction IH as [|t ts Ht _ IHts]; intros fixed dyn; [done|].
  cbn [rhs_exprs_of List.map concat]. rewrite Ht, layout_app, IHts.
  by rewrite (proj1 (fixed_part_leaves t)), (proj1 (dynamic_number_leaves t)).
Qed.

Lemma accesses_layout_list ts fixed dyn :
  concat (List.map accesses (rhs_exprs_of ts fixed dyn)) =
  layout (concat (List.map leaves ts)) fixed dyn.
Proof.
  revert fixed dyn. induction ts as [|t ts IH]; intros fixed dyn; [done|].
  cbn [rhs_exprs_of List.map concat]. rewrite accesses_layout, layout_app, IH.
  by rewrite (proj1 (fixed_part_leaves t)), (proj1 (dynamic_number_leaves t)).
Qed.

(** The fixed reads of a layout follow one another from [fixed] on, the dynamic ones
    are numbered from [dyn] on. *)
Lemma layout_bounds ls fixed dyn a :
  a ∈ layout ls fixed dyn ->
  match a with
  | AFixed index width =>
      fixed <= index /\ index + width <= fixed + sum_list_with leaf_width ls
  | ADynamic k => dyn <= k < dyn + sum_list_with leaf_dynamic ls
  end.
Proof.
  revert fixed dyn. induction ls as [|[[|w]|] ls IH]; intros fixed dyn; cbn;
    [by intros ?%not_elem_of_nil|apply IH| |].
  - intros [->|Ha]%elem_of_cons; [lia|]. apply IH in Ha. destruct a; lia.
  - intros [->|Ha]%elem_of_cons; [lia|]. apply IH in Ha. destruct a; lia.
Qed.

(** The part of the dynamic region that goes to each dynamic parameter. *)
Lemma dynamic_part_bounds len start total k :
  k < total -> start <= len ->
  let dynamic_length := (len - start) / total in
  start + k * dynamic_length <=
    (if decide (k + 1 = total) then len else start + (k + 1) * dynamic_length) /\
  (if decide (k + 1 = total) then len else start + (k + 1) * dynamic_length) <= len.
Proof.
  intros Hk Hle dl.
  assert (Hmul : total * dl <= len - start) by (apply Nat.Div0.mul_div_le).
  assert ((k + 1) * dl <= total * dl) by (apply Nat.mul_le_mono_r; lia).
  destruct (decide (k + 1 = total)); nia.
Qed.

(** ** Decoded values *)

(** [-2^k <= a < 2^k]: the bits from [k] on are all equal. *)
Lemma shiftr_range a k :
  (0 <= k)%Z ->
  (- 2 ^ k <= a < 2 ^ k)%Z <-> (Z.shiftr a k = 0 \/ Z.shiftr a k = -1)%Z.
Proof.
  intros Hk. rewrite Z.shiftr_div_pow2 by done.
  assert (0 < 2 ^ k)%Z by (apply Z.pow_pos_nonneg; lia).
  pose proof (Z.div_mod a (2 ^ k)) as Hdm. pose proof (Z.mod_pos_bound a (2 ^ k)) as Hm.
  split; [|intros [Hq|Hq]; rewrite Hq in Hdm; nia].
  intros Ha. destruct (decide (0 <= a)%Z).
  - left. apply Z.div_small. lia.
  - right. symmetry. apply (Z.div_unique _ _ _ (a + 2 ^ k)); lia.
Qed.

Lemma lor_range a b k :
  (0 <= k)%Z -> (- 2 ^ k <= a < 2 ^ k)%Z -> (- 2 ^ k <= b < 2 ^ k)%Z ->
  (- 2 ^ k <= Z.lor a b < 2 ^ k)%Z.
Proof.
  intros Hk. rewrite !shiftr_range, Z.shiftr_lor by done.
  intros [-> | ->] [-> | ->]; cbn; auto.
Qed.

Lemma as_signed_range bits z :
  (1 <= bits)%Z -> (- 2 ^ (bits - 1) <= as_signed bits z < 2 ^ (bits - 1))%Z.
Proof.
  intros Hb. unfold as_signed.
  assert (H2 : (2 ^ bits = 2 * 2 ^ (bits - 1))%Z).
  { rewrite <- Z.pow_succ_r by lia. f_equal. lia. }
  assert (0 < 2 ^ (bits - 1))%Z by (apply Z.pow_pos_nonneg; lia).
  pose proof (Z.mod_pos_bound z (2 ^ bits)).
  destruct (Z.ltb_spec (z mod 2 ^ bits) (2 ^ (bits - 1))); lia.
Qed.

(** Disjoint bits: the [or] of the emitted code is a sum. *)
Lemma lor_shifted hi lo k :
  (0 <= k)%Z -> (0 <= lo < 2 ^ k)%Z -> Z.lor (Z.shiftl hi k) lo = (hi * 2 ^ k + lo)%Z.
Proof.
  intros Hk Hlo. rewrite <- Z.shiftl_mul_pow2 by done.
  symmetry.
  enough (Z.land (Z.shiftl hi k) lo = 0)%Z as H0.
  { by rewrite Z.add_nocarry_lxor, Z.lxor_lor. }
  apply Z.bits_inj'. intros n Hn. rewrite Z.land_spec, Z.bits_0.
  destruct (decide (n < k)%Z).
  - rewrite Z.shiftl_spec_low by lia. done.
  - rewrite andb_comm. replace (Z.testbit lo n) with false; [done|].
    symmetry. destruct (decide (lo = 0)%Z) as [->|]; [by rewrite Z.bits_0|].
    apply Z.bits_above_log2; [lia|].
    apply Z.log2_lt_pow2; [lia|]. apply (Z.lt_le_trans _ (2 ^ k)); [lia|].
    apply Z.pow_le_mono_r; lia.
Qed.

Lemma be_value_app l1 l2 :
  be_value (l1 ++ l2) = (be_value l1 * 256 ^ Z.of_nat (length l2) + be_value l2)%Z.
Proof.
  unfold be_value. rewrite foldl_app.
  generalize (foldl (fun acc b => (256 * acc + b)%Z) 0%Z l1) as v.
  induction l2 as [|b l2 IH] using rev_ind; intros v; [cbn; lia|].
  rewrite !foldl_app, length_app, Nat2Z.inj_add, Z.pow_add_r by lia. cbn. rewrite IH. lia.
Qed.

Lemma be_value_bound l :
  Forall byte l -> (0 <= be_value l < 256 ^ Z.of_nat (length l))%Z.
Proof.
  induction l as [|b l IH] using rev_ind; [done|].
  rewrite Forall_app, Forall_singleton. intros [Hl Hb]. apply IH in Hl. unfold byte in Hb.
  rewrite be_value_app, length_app, Nat2Z.inj_add, Z.pow_add_r by lia. cbn. lia.
Qed.

Lemma length_be_bytes n v : length (be_bytes n v) = n.
Proof. revert v. induction n; intros v; cbn; [done|]. rewrite length_app, IHn. cbn. lia. Qed.

Lemma be_bytes_bytes n v : Forall byte (be_bytes n v).
Proof.
  revert v. induction n; intros v; cbn; [constructor|].
  apply Forall_app_2, Forall_singleton; [apply IHn|]. apply Z.mod_pos_bound. lia.
Qed.

Lemma be_value_be_bytes n v :
  (0 <= v < 256 ^ Z.of_nat n)%Z -> be_value (be_bytes n v) = v.
Proof.
  revert v. induction n as [|n IH]; intros v; [cbn; lia|].
  rewrite Nat2Z.inj_succ, Z.pow_succ_r by lia. intros Hv. cbn [be_bytes].
  rewrite be_value_app, IH.
  - cbn. pose proof (Z.div_mod v 256). lia.
  - split; [apply Z.div_pos; lia|]. apply Z.div_lt_upper_bound; lia.
Qed.

Section reads.
Variable data : list Z.
Hypothesis Hbytes : Forall byte data.

Let at_ (i w : nat) : list Z := take w (drop i data).

Lemma at_bytes i w : Forall byte (at_ i w).
Proof using Hbytes. by apply Forall_take, Forall_drop. Qed.

Lemma length_at i w : i + w <= length data -> length (at_ i w) = w.
Proof. unfold at_. rewrite length_take, length_drop. lia. Qed.

Lemma at_double i w : at_ i (w + w) = at_ i w ++ at_ (i + w) w.
Proof. unfold at_. by rewrite <- take_take_drop, drop_drop. Qed.

(** Two unsigned reads of [w] bytes make one of [2 * w]. *)
Lemma unsigned_double (f : nat -> outcome Z) (w : nat) (k : Z) :
  (forall i, i + w <= length data -> f i = Ret (be_value (at_ i w))) ->
  k = (8 * Z.of_nat w)%Z ->
  forall i, i + (w + w) <= length data ->
  (data0 ← f i; data1 ← f (i + w);
   mret (Z.lor (as_unsigned (2 * k) (Z.shiftl data0 k)) data1)) =
  Ret (be_value (at_ i (w + w))).
Proof using Hbytes.
  intros Hf -> i Hi. rewrite !Hf by lia. cbn [mbind outcome_bind mret outcome_ret].
  pose proof (be_value_bound _ (at_bytes i w)) as Hhi.
  pose proof (be_value_bound _ (at_bytes (i + w) w)) as Hlo.
  rewrite length_at in Hhi, Hlo by lia.
  rewrite at_double, be_value_app, length_at by lia.
  assert (Hp : (256 ^ Z.of_nat w = 2 ^ (8 * Z.of_nat w))%Z).
  { by rewrite Z.pow_mul_r by lia. }
  rewrite Hp in *. unfold as_unsigned. rewrite Z.mod_small.
  - rewrite lor_shifted; [done|lia|lia].
  - rewrite Z.shiftl_mul_pow2 by lia. replace (2 * (8 * Z.of_nat w))%Z
      with (8 * Z.of_nat w + 8 * Z.of_nat w)%Z by lia.
    rewrite Z.pow_add_r by lia. nia.
Qed.

Lemma u8_value i : i + 1 <= length data -> _to_u8 data i = Ret (be_value (at_ i 1)).
Proof.
  intros Hi. unfold _to_u8, vec_index. destruct (data !! i) as [b|] eqn:Hb.
  - unfold at_. erewrite drop_S by done. done.
  - apply lookup_ge_None in Hb. lia.
Qed.

Lemma u16_value i : i + 2 <= length data -> _to_u16 data i = Ret (be_value (at_ i 2)).
Proof using Hbytes. exact (unsigned_double _ 1 8 u8_value eq_refl i). Qed.
Lemma u32_value i : i + 4 <= length data -> _to_u32 data i = Ret (be_value (at_ i 4)).
Proof using Hbytes. exact (unsigned_double _ 2 16 u16_value eq_refl i). Qed.
Lemma u64_value i : i + 8 <= length data -> _to_u64 data i = Ret (be_value (at_ i 8)).
Proof using Hbytes. exact (unsigned_double _ 4 32 u32_value eq_refl i). Qed.
Lemma u128_value i : i + 16 <= length data -> _to_u128 data i = Ret (be_value (at_ i 16)).
Proof using Hbytes. exact (unsigned_double _ 8 64 u64_value eq_refl i). Qed.

Lemma usize_value i : i + 8 <= length data -> _to_usize data i = Ret (be_value (at_ i 8)).
Proof using Hbytes.
  intros Hi. unfold _to_usize. rewrite u64_value by done. cbn. f_equal.
  pose proof (be_value_bound _ (at_bytes i 8)) as Hv. rewrite length_at in Hv by lia.
  apply Z.mod_small. exact Hv.
Qed.

(** Two signed reads of [w] bytes make one whose value is in range. *)
Definition in_signed (bits : Z) (v : Z) : Prop := (- 2 ^ (bits - 1) <= v < 2 ^ (bits - 1))%Z.

Lemma signed_double (f : nat -> outcome Z) (w : nat) (k : Z) :
  (1 <= k)%Z ->
  (forall i, i + w <= length data -> returns (f i) (in_signed k)) ->
  forall i, i + (w + w) <= length data ->
  returns (data0 ← f i; data1 ← f (i + w);
    mret (Z.lor (as_signed (2 * k) (Z.shiftl data0 k)) data1)) (in_signed (2 * k)).
Proof.
  intros Hk Hf i Hi. eapply returns_bind; [apply Hf; lia|]. intros d0 _.
  eapply returns_bind; [apply Hf; lia|]. intros d1 Hd1. apply returns_ret.
  unfold in_signed in *. apply lor_range; [lia|apply as_signed_range; lia|].
  assert (2 ^ (k - 1) <= 2 ^ (2 * k - 1))%Z by (apply Z.pow_le_mono_r; lia). lia.
Qed.

Lemma i8_range i : i + 1 <= length data -> returns (_to_i8 data i) (in_signed 8).
Proof.
  intros Hi. unfold _to_i8. eapply returns_bind.
  - apply (returns_index _ _ (fun _ => True)); [lia|done].
  - intros b _. apply returns_ret. by apply as_signed_range.
Qed.
Lemma i16_range i : i + 2 <= length data -> returns (_to_i16 data i) (in_signed 16).
Proof. by apply (signed_double _ 1 8), i8_range. Qed.
Lemma i32_range i : i + 4 <= length data -> returns (_to_i32 data i) (in_signed 32).
Proof. by apply (signed_double _ 2 16), i16_range. Qed.
Lemma i64_range i : i + 8 <= length data -> returns (_to_i64 data i) (in_signed 64).
Proof. by apply (signed_double _ 4 32), i32_range. Qed.
Lemma i128_range i : i + 16 <= length data -> returns (_to_i128 data i) (in_signed 128).
Proof. by apply (signed_double _ 8 64), i64_range. Qed.
End reads.

(** The values of the type that a helper decodes. *)
Definition helper_range (h : _AflHelpers) (v : Z) : Prop :=
  match h with
  | _I8 | _I16 | _I32 | _I64 | _I128 | _Isize => in_signed (8 * Z.of_nat (helper_width h)) v
  | _Char => char_from_u32 v = Some v
  | _Bool => (0 <= v < 2)%Z
  | _ => (0 <= v < 256 ^ Z.of_nat (helper_width h))%Z
  end.

Lemma layout_ordered ls fixed dyn i j a b :
  i < j -> layout ls fixed dyn !! i = Some a -> layout ls fixed dyn !! j = Some b ->
  match a, b with
  | AFixed index1 width1, AFixed index2 _ => index1 + width1 <= index2
  | ADynamic k1, ADynamic k2 => k1 < k2
  | _, _ => True
  end.
Proof.
  revert fixed dyn i j.
  induction ls as [|[[|w]|] ls IH]; intros fixed dyn i j Hij; cbn; [done|by apply IH| |].
  all: destruct j as [|j]; [lia|]; destruct i as [|i]; cbn; [|apply IH; lia].
  all: intros [= <-] Hb; apply list_elem_of_lookup_2, layout_bounds in Hb; destruct b; lia.
Qed.

Lemma le_value_bound l :
  Forall byte l -> (0 <= from_le_bytes l < 256 ^ Z.of_nat (length l))%Z.
Proof.
  induction 1 as [|b l Hb _ IH]; [done|]. unfold byte in Hb.
  cbn [from_le_bytes foldr length]. fold (from_le_bytes l).
  rewrite Nat2Z.inj_succ, Z.pow_succ_r by lia. lia.
Qed.

Lemma data_slice_returns data i w :
  i + w <= length data -> data_slice data i (i + w) = Ret (take w (drop i data)).
Proof.
  intros Hi. unfold data_slice. rewrite decide_True by lia. do 2 f_equal. lia.
Qed.

(** What the guard that opens the emitted closure lets through. *)
Definition length_guard (ts : list FuzzableType) (len : nat) : Prop :=
  if forallb FuzzableType._is_fixed_length ts
  then len = sum_list_with FuzzableType._min_length ts
  else sum_list_with FuzzableType._min_length ts <= len.

#[export] Instance length_guard_dec ts len : Decision (length_guard ts len).
Proof. unfold length_guard. destruct (forallb _ ts); apply _. Defined.

(** Two ranges of bytes without a common byte. *)
Definition ranges_disjoint (r1 r2 : nat * nat) : Prop := r1.2 <= r2.1 \/ r2.2 <= r1.1.

Lemma params_lengths ts :
  sum_list_with FuzzableType._fixed_part_length ts =
    sum_list_with leaf_width (concat (List.map leaves ts)) /\
  sum_list_with FuzzableType._dynamic_length_param_number ts =
    sum_list_with leaf_dynamic (concat (List.map leaves ts)) /\
  sum_list_with FuzzableType._fixed_part_length ts <=
    sum_list_with FuzzableType._min_length ts /\
  (forallb FuzzableType._is_fixed_length ts = false <->
   0 < sum_list_with FuzzableType._dynamic_length_param_number ts).
Proof.
  rewrite !sum_list_with_concat.
  induction ts as [|t ts IH]; cbn; [split_and!; [done..|split; [done|lia]]|].
  destruct (fixed_part_leaves t) as (Hf & _ & Hle).
  destruct (dynamic_number_leaves t) as [Hd Hfix].
  destruct IH as (? & ? & ? & IHf). split_and!; try lia.
  rewrite andb_false_iff, IHf. destruct (FuzzableType._is_fixed_length t); intuition (try done; lia).
Qed.

(** A dynamic part starts behind the fixed region and behind the earlier parts. *)
Lemma dynamic_parts_ordered len start total dl k1 k2 :
  k1 < k2 -> k2 < total ->
  (if decide (k1 + 1 = total) then len else start + (k1 + 1) * dl) <= start + k2 * dl.
Proof.
  intros H1 H2. destruct (decide (k1 + 1 = total)); [lia|].
  assert ((k1 + 1) * dl <= k2 * dl) by (apply Nat.mul_le_mono_r; lia). lia.
Qed.

(** A helper at a fixed index, on an input long enough. *)
Lemma decode_fixed_in_range (h : _AflHelpers) (data : list Z) (index : nat) :
  Forall byte data -> 0 < helper_width h -> index + helper_width h <= length data ->
  match decode_fixed h data index with
  | Ret v => helper_range h v
  | Exited code => h = _Char /\ code = 0%Z /\
      char_from_u32 (be_value (take 4 (drop index data))) = None
  | Panicked => False
  end.
Proof.
  intros Hbytes Hwidth Hlen. unfold helper_range.
  assert (Hbe := be_value_bound _ (at_bytes data Hbytes index (helper_width h))).
  rewrite length_at in Hbe by done.
  assert (Hle := le_value_bound _ (at_bytes data Hbytes index (helper_width h))).
  rewrite length_at in Hle by done.
  destruct h; cbn in Hwidth; try lia; cbn [decode_fixed helper_width] in *.
  - by rewrite u8_value.
  - pose proof (i8_range data index Hlen). by destruct (_to_i8 _ _).
  - by rewrite u16_value.
  - pose proof (i16_range data index Hlen). by destruct (_to_i16 _ _).
  - by rewrite u32_value.
  - pose proof (i32_range data index Hlen). by destruct (_to_i32 _ _).
  - unfold _to_f32. by rewrite data_slice_returns.
  - by rewrite u64_value.
  - pose proof (i64_range data index Hlen). by destruct (_to_i64 _ _).
  - unfold _to_f64. by rewrite data_slice_returns.
  - by rewrite u128_value.
  - pose proof (i128_range data index Hlen). by destruct (_to_i128 _ _).
  - by rewrite usize_value.
  - unfold _to_isize. pose proof (i64_range data index Hlen) as Hr.
    destruct (_to_i64 _ _); try done. by apply as_signed_range.
  - unfold _to_char. rewrite u32_value by done. cbn [mbind outcome_bind].
    destruct (char_from_u32 _) as [c|] eqn:Hc; [|done]. cbn [mret outcome_ret].
    by assert (be_value (take 4 (drop index data)) = c) as <-
      by (unfold char_from_u32 in Hc; case_match; congruence).
  - unfold _to_bool. rewrite u8_value by done. cbn. by case_match; cbn.
Qed.

(** The reads after the length guard. *)
Lemma guarded_reads (ts : list FuzzableType) (len : nat)
    (Hguard : length_guard ts len) :
  let start := sum_list_with FuzzableType._fixed_part_length ts in
  let total := sum_list_with FuzzableType._dynamic_length_param_number ts in
  let range := access_range len start total ((len - start) / total) in
  let reads := concat (List.map accesses (rhs_exprs_of ts 0 0)) in
  start <= len /\
  (forallb FuzzableType._is_fixed_length ts = false -> 0 < total) /\
  (forall a, a ∈ reads -> (range a).1 <= (range a).2 <= len) /\
  (forall i j a b, reads !! i = Some a -> reads !! j = Some b -> i < j ->
     ranges_disjoint (range a) (range b)).
Proof.
  intros start total range reads.
  destruct (params_lengths ts) as (Hfix & Hdyn & Hle & Hpos).
  fold start in Hfix, Hle. fold total in Hdyn, Hpos.
  assert (Hstart : start <= len).
  { unfold length_guard in Hguard. destruct (forallb _ ts); lia. }
  assert (Hreads : reads = layout (concat (List.map leaves ts)) 0 0)
    by apply accesses_layout_list.
  assert (Hin : forall a, a ∈ reads ->
    match a with AFixed i w => i + w <= start | ADynamic k => k < total end).
  { intros a. rewrite Hreads. intros Ha%layout_bounds. destruct a; lia. }
  split_and!; [done|by intros ?%Hpos|..].
  - intros a Ha%Hin. destruct a as [i w|k]; cbn; [lia|].
    by apply dynamic_part_bounds.
  - intros i j a b Ha Hb Hij. pose proof Ha as Ha'. pose proof Hb as Hb'.
    apply list_elem_of_lookup_2, Hin in Ha'. apply list_elem_of_lookup_2, Hin in Hb'.
    rewrite Hreads in Ha, Hb. pose proof (layout_ordered _ _ _ _ _ _ _ Hij Ha Hb) as Ho.
    unfold ranges_disjoint. destruct a as [i1 w1|k1], b as [i2 w2|k2]; cbn; try lia.
    left. by apply dynamic_parts_ordered.
Qed.

(** ** Properties *)

(** The initialiser of a parameter never panics on the helper chosen for it, its
    text is the printed tree of reads, and the bytes it reads are exactly the layout
    of the parameter: its primitive leaves one after the other from the fixed index,
    its strings and slices numbered from the dynamic index. *)
Lemma initial_rhs_reads_the_layout
    (t : FuzzableType) (dynamic_start total fixed dyn : nat) (name : string) :
  _generate_param_initial_rhs dynamic_start total name (_new_from_fuzzable t) fixed dyn t =
    Ret (print_rhs dynamic_start total name (rhs_expr_of t fixed dyn)) /\
  accesses (rhs_expr_of t fixed dyn) = layout (leaves t) fixed dyn.
Proof. split; [apply rhs_text|apply accesses_layout]. Qed.

(** C4: the emitted closure reads its input safely. Once the length guard has let the
    input through, the subtraction and the division that compute the dynamic length
    are defined, every read of every parameter is a valid range of the input, and no
    two reads share a byte. *)
Theorem guarded_reads_are_safe (ts : list FuzzableType) (len : nat)
    (Hguard : length_guard ts len) :
  let start := sum_list_with FuzzableType._fixed_part_length ts in
  let total := sum_list_with FuzzableType._dynamic_length_param_number ts in
  let range := access_range len start total ((len - start) / total) in
  let reads := concat (List.map accesses (rhs_exprs_of ts 0 0)) in
  start <= len /\
  (forallb FuzzableType._is_fixed_length ts = false -> 0 < total) /\
  (forall a, a ∈ reads -> (range a).1 <= (range a).2 <= len) /\
  (forall i j a b, reads !! i = Some a -> reads !! j = Some b -> i < j ->
     ranges_disjoint (range a) (range b)).
Proof. by apply guarded_reads. Qed.

Lemma guarded_reads_are_safe_witness :
  let ts := [FuzzableType.Primitive PrimitiveType.U16; FuzzableType.RefStr;
             FuzzableType.Tuple [FuzzableType.Primitive PrimitiveType.U8;
                                 FuzzableType.RefSlice (FuzzableType.Primitive PrimitiveType.U8)]] in
  length_guard ts 9 /\
  forall a, a ∈ concat (List.map accesses (rhs_exprs_of ts 0 0)) ->
    (access_range 9 3 2 3 a).1 <= (access_range 9 3 2 3 a).2 <= 9.
Proof.
  split; [cbv; lia|].
  pose proof (guarded_reads_are_safe
    [FuzzableType.Primitive PrimitiveType.U16; FuzzableType.RefStr;
     FuzzableType.Tuple [FuzzableType.Primitive PrimitiveType.U8;
                         FuzzableType.RefSlice (FuzzableType.Primitive PrimitiveType.U8)]]
    9 ltac:(cbv; lia)) as (_ & _ & H & _).
  exact H.
Defined.



(** C39: every value of an unsigned type can be fuzzed: the helper that decodes it
    reads back, at any index, the big-endian encoding of the value. *)
Theorem unsigned_helpers_roundtrip (h : _AflHelpers) (pre post : list Z) (v : Z)
    (Hh : h ∈ [_U8; _U16; _U32; _U64; _U128; _Usize])
    (Hbytes : Forall byte (pre ++ post))
    (Hv : (0 <= v < 256 ^ Z.of_nat (helper_width h))%Z) :
  decode_fixed h (pre ++ be_bytes (helper_width h) v ++ post) (length pre) = Ret v.
Proof.
  apply Forall_app in Hbytes as [Hpre Hpost].
  set (data := pre ++ be_bytes (helper_width h) v ++ post).
  assert (Hdata : Forall byte data).
  { apply Forall_app_2, Forall_app_2; [done|apply be_bytes_bytes|done]. }
  assert (Hlen : length pre + helper_width h <= length data).
  { unfold data. rewrite !length_app, length_be_bytes. lia. }
  assert (Hat : be_value (take (helper_width h) (drop (length pre) data)) = v).
  { unfold data. rewrite drop_app_length, take_app_length' by (by rewrite length_be_bytes).
    by apply be_value_be_bytes. }
  clearbody data.
  repeat (apply elem_of_cons in Hh as [->|Hh]); [..|by apply not_elem_of_nil in Hh];
    cbn [decode_fixed helper_width] in *;
    rewrite ?u8_value, ?u16_value, ?u32_value, ?u64_value, ?u128_value, ?usize_value by done;
    by rewrite Hat.
Qed.

Lemma unsigned_helpers_roundtrip_witness :
  decode_fixed _U16 ([7] ++ be_bytes 2 513 ++ [9])%Z 1 = Ret 513%Z.
Proof.
  exact (unsigned_helpers_roundtrip _U16 [7]%Z [9]%Z 513%Z
    ltac:(do 1 apply list_elem_of_further; constructor)
    ltac:(repeat constructor; unfold byte; lia) ltac:(cbn; lia)).
Defined.

(** The signed helpers lose the high half of their input: when the second byte is
    at least 128 its sign extension overwrites the first byte, so the decoded [i16]
    does not depend on the first byte and is one of only 128 negative values. *)
Lemma i16_sign_extension_hides_the_high_byte (data : list Z) (index : nat) (b0 b1 : Z)
    (H0 : data !! index = Some b0) (H1 : data !! (index + 1) = Some b1)
    (Hb0 : byte b0) (Hb1 : (128 <= b1 < 256)%Z) :
  decode_fixed _I16 data index = Ret (b1 - 256)%Z.
Proof.
  cbn. unfold _to_i16, _to_i8, vec_index. rewrite H0, H1. cbn.
  assert (H8 : as_signed 8 b1 = (b1 - 256)%Z).
  { unfold as_signed. rewrite Z.mod_small by (cbn; lia).
    destruct (Z.ltb_spec b1 (2 ^ (8 - 1))); [cbn in *; lia|done]. }
  rewrite H8. f_equal. unfold byte in Hb0.
  assert (Hall : forallb (fun c0 => forallb (fun c1 =>
      Z.eqb (Z.lor (as_signed 16 (Z.shiftl (as_signed 8 c0) 8)) (c1 - 256)) (c1 - 256))
      (List.map (fun n => Z.of_nat n + 128)%Z (seq 0 128)))
    (List.map Z.of_nat (seq 0 256)) = true) by (vm_compute; reflexivity).
  rewrite forallb_forall in Hall. apply Z.eqb_eq.
  assert (Hin0 : In b0 (List.map Z.of_nat (seq 0 256))).
  { apply in_map_iff. exists (Z.to_nat b0). rewrite in_seq. split; lia. }
  specialize (Hall b0 Hin0). rewrite forallb_forall in Hall. apply Hall.
  apply in_map_iff. exists (Z.to_nat (b1 - 128)). rewrite in_seq. split; lia.
Qed.

Lemma i16_sign_extension_hides_the_high_byte_witness :
  decode_fixed _I16 [1; 200]%Z 0 = Ret (-56)%Z /\ decode_fixed _I16 [77; 200]%Z 0 = Ret (-56)%Z.
Proof.
  split; [exact (i16_sign_extension_hides_the_high_byte [1; 200]%Z 0 1 200 eq_refl eq_refl
                   ltac:(unfold byte; lia) ltac:(lia))
         |exact (i16_sign_extension_hides_the_high_byte [77; 200]%Z 0 77 200 eq_refl eq_refl
                   ltac:(unfold byte; lia) ltac:(lia))].
Defined.
