(* ===== verification/ApiUtil.v ===== *)
(** The analysis of types ([fuzz_target/api_util.rs]): when the result of one function
    can be passed to another and with which call type, which types are copied, which
    calls move or borrow their argument. *)

From S2P Require Import Prelude RustStd CleanTypes CallTypes PreludeTypes.
From S2P Require Import FuzzableTypes.

(** ** Signatures *)

Definition argument_type (argument : Argument) : Type_ :=
  match argument with mk_Argument type_ _ => type_ end.

Definition _extract_input_types (inputs : Arguments_) : list Type_ :=
  match inputs with mk_Arguments values => List.map argument_type values end.

Definition _extract_output_type (output : FnRetTy) : option Type_ :=
  match output with
  | Return_ ty => Some ty
  | DefaultReturn => None
  end.

(** ** Classification of types *)

Fixpoint _is_generic_type (ty : Type_) : bool :=
  match ty with
  | Generic _ => true
  | ResolvedPath (mk_Path _ _ segments) _ _ is_generic =>
      if is_generic then true
      else
        existsb (fun segment =>
          match segment with
          | mk_PathSegment _ (AngleBracketed args _) =>
              existsb (fun generic_arg =>
                match generic_arg with
                | GenericArg_Type inner_ty => _is_generic_type inner_ty
                | _ => false
                end) args
          | mk_PathSegment _ (Parenthesized inputs output) =>
              existsb _is_generic_type inputs
              || match output with
                 | Some output_ty => _is_generic_type output_ty
                 | None => false
                 end
          end) segments
  | Tuple types => existsb _is_generic_type types
  | Slice inner_type | Array inner_type _ | RawPointer _ inner_type
  | BorrowedRef _ _ inner_type => _is_generic_type inner_type
  | _ => false
  end.

(** The body of [_is_end_type]; [rec] is the recursive call. *)
Definition is_end_type_body (full_name_map : FullNameMap) (rec : Type_ -> bool)
    (ty : Type_) : bool :=
  match ty with
  | ResolvedPath _ _ _ _ =>
      if _prelude_type_need_special_dealing ty full_name_map then
        if rec (_get_final_type (from_type ty full_name_map)) then true else false
      else false
  | Generic _ => false
  | Primitive _ => true
  | Never => true
  | BareFunction _ => false
  | Tuple inner => forallb rec inner
  | Slice inner_type | Array inner_type _ | RawPointer _ inner_type => rec inner_type
  | BorrowedRef _ _ inner_type => rec inner_type
  | QPath _ _ _ => false
  | Infer => false
  | ImplTrait _ => false
  end.

Definition _is_end_type (ty : Type_) (full_name_map : FullNameMap) : bool :=
  fixm type_size (is_end_type_body full_name_map) false ty.

Definition copy_primitive (p : PrimitiveType) : bool :=
  match p with
  | PrimitiveType.Isize | PrimitiveType.I8 | PrimitiveType.I16 | PrimitiveType.I32
  | PrimitiveType.I64 | PrimitiveType.I128 | PrimitiveType.Usize | PrimitiveType.U8
  | PrimitiveType.U16 | PrimitiveType.U32 | PrimitiveType.U64 | PrimitiveType.U128
  | PrimitiveType.F32 | PrimitiveType.F64 | PrimitiveType.Char | PrimitiveType.Bool => true
  | _ => false
  end.

Fixpoint _copy_type (type_ : Type_) : bool :=
  match type_ with
  | ResolvedPath _ _ _ _ => false
  | Generic _ => false
  | Primitive primitive_type => copy_primitive primitive_type
  | BareFunction _ | Never | Infer => false
  | Tuple types => forallb _copy_type types
  | Slice _ => false
  | Array inner_type _ => if _copy_type inner_type then true else false
  | RawPointer _ _ => true
  | BorrowedRef _ mutability _ =>
      match mutability with
      | Mut => false
      | Not => true
      end
  | QPath _ _ _ => false
  | ImplTrait _ => false
  end.

Definition is_fuzzable_type (ty_ : Type_) (full_name_map : FullNameMap) : bool :=
  match fuzzable_call_type ty_ full_name_map with
  | FuzzableCallType.NoFuzzable => false
  | _ => true
  end.

(** ** Equality of named types up to their lifetime arguments *)

Definition without_lifetimes (args : list GenericArg) : list GenericArg :=
  foldl (fun new_args arg =>
    match arg with
    | GenericArg_Lifetime _ => new_args
    | GenericArg_Const _ | GenericArg_Type _ => new_args ++ [arg]
    end) [] args.

Definition new_segments_without_lifetime (old_path_segments : list PathSegment)
    : list PathSegment :=
  foldl (fun res old_path_segment =>
    match old_path_segment with
    | mk_PathSegment segment_name (AngleBracketed args bindings) =>
        res ++ [mk_PathSegment segment_name (AngleBracketed (without_lifetimes args) bindings)]
    | _ => res ++ [old_path_segment]
    end) [] old_path_segments.

(** The loop [for i in 0..lsegment_len] compares the segments pairwise. *)
Fixpoint segments_agree (l r : list PathSegment) : bool :=
  match l, r with
  | x :: l', y :: r' => if decide (x <> y) then false else segments_agree l' r'
  | _, _ => true
  end.

Definition _resolved_path_equal_without_lifetime (ltype rtype : Type_) : bool :=
  match ltype, rtype with
  | ResolvedPath (mk_Path lglobal lres lsegments) _ ldid lis_generic,
    ResolvedPath (mk_Path rglobal rres rsegments) _ rdid ris_generic =>
      if lis_generic || ris_generic then false
      else if decide (ldid <> rdid) then false
      else if decide (lglobal <> rglobal \/ lres <> rres
                      \/ length lsegments <> length rsegments) then false
      else
        segments_agree (new_segments_without_lifetime lsegments)
          (new_segments_without_lifetime rsegments)
  | _, _ => false
  end.

(** ** Compatibility of an output type with an input type *)

(** [match inner { _NotCompatible => _NotCompatible, _ => .. }]. *)
Definition unless_NotCompatible (inner : CallType) (f : CallType -> CallType) : CallType :=
  match inner with
  | _NotCompatible => _NotCompatible
  | _ => f inner
  end.

(** The number types of [_same_type_primitive]. *)
Definition number_primitive (p : PrimitiveType) : bool :=
  match p with
  | PrimitiveType.Isize | PrimitiveType.I8 | PrimitiveType.I16 | PrimitiveType.I32
  | PrimitiveType.I64 | PrimitiveType.I128 | PrimitiveType.Usize | PrimitiveType.U8
  | PrimitiveType.U16 | PrimitiveType.U32 | PrimitiveType.U64 | PrimitiveType.U128
  | PrimitiveType.F32 | PrimitiveType.F64 => true
  | _ => false
  end.

Definition _same_type_primitive (primitive_type : PrimitiveType) (input_type : Type_)
    : CallType :=
  if number_primitive primitive_type then
    match input_type with
    | Primitive input_primitive_type =>
        if decide (primitive_type = input_primitive_type) then _DirectCall
        else if number_primitive input_primitive_type then
          _AsConvert (PrimitiveType.as_str input_primitive_type)
        else
          match input_primitive_type with
          | PrimitiveType.Char =>
              if decide (primitive_type = PrimitiveType.U8) then
                _AsConvert (PrimitiveType.as_str input_primitive_type)
              else _NotCompatible
          | _ => _NotCompatible
          end
    | _ => _NotCompatible
    end
  else
    match primitive_type with
    | PrimitiveType.Char =>
        match input_type with
        | Primitive PrimitiveType.Char => _DirectCall
        | Primitive PrimitiveType.U8 => _AsConvert (PrimitiveType.as_str PrimitiveType.U8)
        | _ => _NotCompatible
        end
    | _ => _NotCompatible
    end.

Section same_type.
Variable full_name_map : FullNameMap.

(** [rec] is the recursive call of [_same_type_hard_mode]. *)
Section body.
Variable rec : Type_ -> Type_ -> CallType.

Definition _same_type_resolved_path (output_type input_type : Type_) : CallType :=
  if _prelude_type_need_special_dealing output_type full_name_map then
    let output_prelude_type := from_type output_type full_name_map in
    unless_NotCompatible (rec (_get_final_type output_prelude_type) input_type)
      (_unwrap_call_type output_prelude_type)
  else
    match input_type with
    | ResolvedPath _ _ _ _ =>
        if decide (output_type = input_type) then _DirectCall
        else if _resolved_path_equal_without_lifetime output_type input_type then _DirectCall
        else _NotCompatible
    | _ => _NotCompatible
    end.

Definition _same_type_raw_pointer (inner_type input_type : Type_) : CallType :=
  unless_NotCompatible (rec inner_type input_type) _UnsafeDeref.

Definition _same_type_borrowed_ref (inner_type input_type : Type_) : CallType :=
  unless_NotCompatible (rec inner_type input_type) (fun inner_compatible =>
    if _copy_type inner_type then _Deref inner_compatible else _NotCompatible).

Definition _borrowed_ref_in_same_type (mutability : Mutability) (inner_type output_type : Type_)
    : CallType :=
  unless_NotCompatible (rec output_type inner_type) (fun inner_compatible =>
    match mutability with
    | Mut => _MutBorrowedRef inner_compatible
    | Not => _BorrowedRef inner_compatible
    end).

Definition _raw_pointer_in_same_type (mutability : Mutability) (inner_type output_type : Type_)
    : CallType :=
  unless_NotCompatible (rec output_type inner_type) (fun inner_compatible =>
    match mutability with
    | Mut => _MutRawPointer inner_compatible inner_type
    | Not => _ConstRawPointer inner_compatible inner_type
    end).

(** The end of the function: the cases on the output type. *)
Definition same_type_by_output (output_type input_type : Type_) : CallType :=
  match output_type with
  | ResolvedPath _ _ _ _ => _same_type_resolved_path output_type input_type
  | Generic _ => _NotCompatible
  | Primitive primitive_type => _same_type_primitive primitive_type input_type
  | BareFunction _ => _NotCompatible
  | Tuple _ => _NotCompatible
  | Slice _ => _NotCompatible
  | Array _ _ => _NotCompatible
  | Never | Infer => _NotCompatible
  | RawPointer _ inner_type => _same_type_raw_pointer inner_type input_type
  | BorrowedRef _ _ inner_type => _same_type_borrowed_ref inner_type input_type
  | QPath _ _ _ => _NotCompatible
  | ImplTrait _ => _NotCompatible
  end.

Definition same_type_hard_mode_body (output_type input_type : Type_) : CallType :=
  if decide (output_type = input_type) then _DirectCall
  else
    match input_type with
    | BorrowedRef _ mutability inner_type =>
        _borrowed_ref_in_same_type mutability inner_type output_type
    | RawPointer mutability inner_type =>
        _raw_pointer_in_same_type mutability inner_type output_type
    | _ =>
        if _prelude_type_need_special_dealing input_type full_name_map then
          let input_prelude_type := from_type input_type full_name_map in
          unless_NotCompatible (rec output_type (_get_final_type input_prelude_type))
            (_to_call_type input_prelude_type)
        else same_type_by_output output_type input_type
    end.
End body.

Definition _same_type_hard_mode (output_type input_type : Type_) : CallType :=
  fixm (fun p => type_size p.1 + type_size p.2)
    (fun rec p => same_type_hard_mode_body (fun o i => rec (o, i)) p.1 p.2)
    _NotCompatible (output_type, input_type).

Definition _same_type (output_type input_type : Type_) (hard_mode : bool) : CallType :=
  if hard_mode then _same_type_hard_mode output_type input_type
  else _NotCompatible.
End same_type.

(** ** Moves and borrows *)

Definition _move_condition (input_type : Type_) (call_type : CallType) : bool :=
  if _contains_move_call_type call_type then true
  else if negb (_copy_type input_type) then
    match call_type with
    | _DirectCall | _Deref _ | _UnsafeDeref _ | _UnwrapOption _ | _UnwrapResult _ => true
    | _ => false
    end
  else false.

Definition _is_mutable_borrow_occurs (input_type_ : Type_) (call_type : CallType) : bool :=
  if _contains_move_call_type call_type then false
  else
    match input_type_ with
    | BorrowedRef _ Mut _ | RawPointer Mut _ =>
        match call_type with
        | _DirectCall | _MutBorrowedRef _ | _MutRawPointer _ _ => true
        | _ => false
        end
    | _ => false
    end.

Definition _is_immutable_borrow_occurs (input_type : Type_) (call_type : CallType) : bool :=
  match input_type with
  | BorrowedRef _ Not _ | RawPointer Not _ =>
      match call_type with
      | _DirectCall | _BorrowedRef _ | _ConstRawPointer _ _ => true
      | _ => false
      end
  | _ => false
  end.

Definition _need_mut_tag (call_type : CallType) : bool :=
  match call_type with
  | _MutBorrowedRef _ | _MutRawPointer _ _ => true
  | _ => false
  end.

(** ** Lemmas *)

Lemma is_end_type_contractive m : contractive type_size (is_end_type_body m).
Proof.
  intros f g t Heq. unfold is_end_type_body.
  assert (Hch : forall s, s ∈ type_children t -> f s = g s).
  { intros s Hs. by apply Heq, child_size. }
  destruct t; try done; try (by rewrite Hch by (cbn; constructor)).
  - destruct (_prelude_type_need_special_dealing _ m) eqn:Hn; [|done].
    rewrite Heq; [done|]. by apply final_type_smaller.
  - cbn in Hch. induction types as [|x types IH]; [done|]. cbn.
    rewrite Hch by constructor. f_equal. apply IH.
    + intros y Hy. apply Heq. cbn in *. lia.
    + intros s Hs. apply Hch. by constructor.
Qed.

Lemma is_end_type_unfold t m :
  _is_end_type t m = is_end_type_body m (fun t => _is_end_type t m) t.
Proof. apply fixm_unfold, is_end_type_contractive. Qed.

Lemma same_type_contractive m :
  contractive (fun p => type_size p.1 + type_size p.2)
    (fun rec p => same_type_hard_mode_body m (fun o i => rec (o, i)) p.1 p.2).
Proof.
  intros f g [o i] Heq. cbn [fst snd] in *.
  assert (Hsi : forall s, s ∈ type_children i -> f (o, s) = g (o, s)).
  { intros s Hs%child_size. apply Heq. cbn. lia. }
  assert (Hso : forall s, s ∈ type_children o -> f (s, i) = g (s, i)).
  { intros s Hs%child_size. apply Heq. cbn. lia. }
  assert (Hpi : _prelude_type_need_special_dealing i m = true ->
    f (o, _get_final_type (from_type i m)) = g (o, _get_final_type (from_type i m))).
  { intros Hn%final_type_smaller. apply Heq. cbn. lia. }
  assert (Hpo : _prelude_type_need_special_dealing o m = true ->
    f (_get_final_type (from_type o m), i) = g (_get_final_type (from_type o m), i)).
  { intros Hn%final_type_smaller. apply Heq. cbn. lia. }
  assert (Hout : same_type_by_output m (fun o i => f (o, i)) o i =
                 same_type_by_output m (fun o i => g (o, i)) o i).
  { assert (Hres : _same_type_resolved_path m (fun o i => f (o, i)) o i =
                   _same_type_resolved_path m (fun o i => g (o, i)) o i).
    { unfold _same_type_resolved_path.
      destruct (_prelude_type_need_special_dealing o m); [by rewrite Hpo|done]. }
    destruct o; try done; cbn [same_type_by_output].
    - unfold _same_type_raw_pointer. by rewrite Hso by constructor.
    - unfold _same_type_borrowed_ref. by rewrite Hso by constructor. }
  unfold same_type_hard_mode_body. destruct (decide (o = i)); [done|].
  rewrite Hout.
  assert (Hin : forall a b,
    (if _prelude_type_need_special_dealing i m
     then unless_NotCompatible (f (o, _get_final_type (from_type i m))) a else b) =
    (if _prelude_type_need_special_dealing i m
     then unless_NotCompatible (g (o, _get_final_type (from_type i m))) a else b)).
  { intros a b. destruct (_prelude_type_need_special_dealing i m); [by rewrite Hpi|done]. }
  destruct i; try apply Hin.
  - unfold _raw_pointer_in_same_type. by rewrite Hsi by constructor.
  - unfold _borrowed_ref_in_same_type. by rewrite Hsi by constructor.
Qed.

Lemma same_type_unfold m o i :
  _same_type_hard_mode m o i = same_type_hard_mode_body m (_same_type_hard_mode m) o i.
Proof.
  unfold _same_type_hard_mode at 1.
  by rewrite fixm_unfold by apply same_type_contractive.
Qed.

Lemma unless_NotCompatible_inv inner f c :
  unless_NotCompatible inner f = c -> c <> _NotCompatible ->
  inner <> _NotCompatible /\ c = f inner.
Proof. intros <- Hne. by destruct inner. Qed.
