(* ===== verification/CallTyping.v ===== *)
(** The typing of the printed argument expressions: a judgement for call types, the
    types of decoded values, and what [_same_type] and the fuzzable generator promise
    with respect to them. *)

From stdpp Require Import relations.
From S2P Require Import Prelude RustStd CleanTypes CallTypes PreludeTypes.
From S2P Require Import FuzzableTypes ApiUtil.

(** ** Types up to lifetimes *)

Fixpoint erase_lifetimes (t : Type_) : Type_ :=
  match t with
  | BorrowedRef _ mutability type_ => BorrowedRef None mutability (erase_lifetimes type_)
  | RawPointer mutability type_ => RawPointer mutability (erase_lifetimes type_)
  | Tuple types => Tuple (List.map erase_lifetimes types)
  | Slice type_ => Slice (erase_lifetimes type_)
  | Array type_ len => Array (erase_lifetimes type_) len
  | _ => t
  end.

Definition type_agrees (t u : Type_) : Prop :=
  erase_lifetimes t = erase_lifetimes u \/ _resolved_path_equal_without_lifetime t u = true.

(** [x as q] for [x : p] where the generator emits it. *)
Definition castable (p q : PrimitiveType) : bool :=
  match p, q with
  | PrimitiveType.U8, PrimitiveType.Char | PrimitiveType.Char, PrimitiveType.U8 => true
  | _, _ => number_primitive p && number_primitive q
  end.

(** ** The judgement

    [has_type m c T U]: the expression that [c] prints for a variable of type [T] has
    the Rust type [U]. There is no rule for [_MutRawPointer]: it prints a cast of a
    shared borrow to a mutable raw pointer, which Rust rejects. *)
Inductive has_type (m : FullNameMap) : CallType -> Type_ -> Type_ -> Prop :=
| ht_direct T : has_type m _DirectCall T T
| ht_agrees c T U V : has_type m c T U -> type_agrees U V -> has_type m c T V
| ht_ref c T U l : has_type m c T U -> has_type m (_BorrowedRef c) T (BorrowedRef l Not U)
| ht_mut_ref c T U l : has_type m c T U -> has_type m (_MutBorrowedRef c) T (BorrowedRef l Mut U)
| ht_const_pointer c T U :
    has_type m c T U -> has_type m (_ConstRawPointer c U) T (RawPointer Not U)
| ht_as p q :
    castable p q = true ->
    has_type m (_AsConvert (PrimitiveType.as_str q)) (Primitive p) (Primitive q)
| ht_deref c T l mu U :
    has_type m c T (BorrowedRef l mu U) -> _copy_type U = true -> has_type m (_Deref c) T U
| ht_unsafe_deref c T mu U :
    has_type m c T (RawPointer mu U) -> has_type m (_UnsafeDeref c) T U
| ht_unwrap_option c T V U :
    has_type m c T V -> from_type V m = PreludeOption U -> has_type m (_UnwrapOption c) T U
| ht_unwrap_result c T V U E :
    has_type m c T V -> from_type V m = PreludeResult U E -> has_type m (_UnwrapResult c) T U
| ht_to_option c T U V :
    has_type m c T U -> from_type V m = PreludeOption U -> has_type m (_ToOption c) T V
| ht_to_result c T U E V :
    has_type m c T U -> from_type V m = PreludeResult U E -> has_type m (_ToResult c) T V.

(** ** Conversions of the output

    The frames that look through the output type, and the cast. *)
Fixpoint conversions (c : CallType) : nat :=
  match c with
  | _NotCompatible | _DirectCall => 0
  | _AsConvert _ => 1
  | _Deref c | _UnsafeDeref c | _UnwrapOption c | _UnwrapResult c => S (conversions c)
  | _BorrowedRef c | _MutBorrowedRef c | _ConstRawPointer c _ | _MutRawPointer c _
  | _ToOption c | _ToResult c => conversions c
  end.

Fixpoint no_mut_raw_pointer (c : CallType) : bool :=
  match c with
  | _MutRawPointer _ _ => false
  | _NotCompatible | _DirectCall | _AsConvert _ => true
  | _Deref c | _UnsafeDeref c | _UnwrapOption c | _UnwrapResult c
  | _BorrowedRef c | _MutBorrowedRef c | _ConstRawPointer c _
  | _ToOption c | _ToResult c => no_mut_raw_pointer c
  end.

(** ** Decoded values *)

(** The Rust type that [FuzzableType::_to_type_string] prints. *)
Fixpoint fuzz_type (t : FuzzableType) : Type_ :=
  match t with
  | FuzzableType.NoFuzzable => Never
  | FuzzableType.Primitive p => Primitive p
  | FuzzableType.RefSlice t => BorrowedRef None Not (Slice (fuzz_type t))
  | FuzzableType.RefStr => BorrowedRef None Not (Primitive PrimitiveType.Str)
  | FuzzableType.Tuple ts => Tuple (List.map fuzz_type ts)
  end.

(** The elements of the slices are passed on as they are decoded, and there is no
    mutable raw pointer. *)
Fixpoint plain (c : FuzzableCallType) : bool :=
  match c with
  | FuzzableCallType.MutRawPoiner _ _ => false
  | FuzzableCallType.BorrowedRef (FuzzableCallType.Slice t) =>
      plain t && bool_decide ((generate_fuzzable_type_and_call_type t).2 = _DirectCall)
  | FuzzableCallType.NoFuzzable | FuzzableCallType.Primitive _ | FuzzableCallType.STR => true
  | FuzzableCallType.Tuple ts => forallb plain ts
  | FuzzableCallType.Slice t | FuzzableCallType.Array t | FuzzableCallType.ConstRawPoiner t _
  | FuzzableCallType.BorrowedRef t | FuzzableCallType.MutBorrowedRef t
  | FuzzableCallType.ToOption t => plain t
  end.

(** ** Lemmas *)

Lemma type_agrees_refl t : type_agrees t t.
Proof. by left. Qed.

Lemma has_type_agrees m T U : type_agrees T U -> has_type m _DirectCall T U.
Proof. apply ht_agrees, ht_direct. Qed.

#[export] Hint Resolve type_agrees_refl has_type_agrees : clean.

(** An input that [_same_type] takes as it is. *)
Definition plain_input (m : FullNameMap) (i : Type_) : Prop :=
  match i with BorrowedRef _ _ _ | RawPointer _ _ => False | _ => True end /\
  _prelude_type_need_special_dealing i m = false.

#[export] Instance plain_input_dec m i : Decision (plain_input m i).
Proof. unfold plain_input. apply and_dec; [destruct i; apply _|apply _]. Defined.

Lemma plain_input_primitive m p : plain_input m (Primitive p).
Proof.
  split; [done|]. unfold _prelude_type_need_special_dealing. cbn. by rewrite decide_True.
Qed.

Lemma same_type_plain_input m o i :
  plain_input m i ->
  _same_type_hard_mode m o i =
  if decide (o = i) then _DirectCall else same_type_by_output m (_same_type_hard_mode m) o i.
Proof.
  intros [Hi Hn]. rewrite same_type_unfold. unfold same_type_hard_mode_body.
  destruct (decide (o = i)); [done|]. rewrite Hn. by destruct i.
Qed.

Lemma resolved_path_plain m rec o i c :
  _prelude_type_need_special_dealing o m = false ->
  _same_type_resolved_path m rec o i = c -> c <> _NotCompatible ->
  c = _DirectCall /\ type_agrees o i.
Proof.
  unfold _same_type_resolved_path. intros ->.
  destruct i; try done. case_decide; [subst; by auto with clean|].
  destruct (_resolved_path_equal_without_lifetime _ _) eqn:He; [|by intros <-].
  intros <- _. split; [done|by right].
Qed.

Lemma same_type_primitive_typed m p i c :
  _same_type_primitive p i = c -> c <> _NotCompatible ->
  has_type m c (Primitive p) i /\ (conversions c = 0 -> c = _DirectCall /\ Primitive p = i).
Proof.
  destruct i as [| |q| | | | | | | | | |]; try (destruct p; cbn; by intros <-).
  destruct (decide (p = q)) as [->|Hne].
  - intros <- Hc. assert (_same_type_primitive q (Primitive q) = _DirectCall) as ->.
    { destruct q; try reflexivity; by destruct Hc. }
    split; [constructor|done].
  - intros <- Hc. enough (exists s, _same_type_primitive p (Primitive q) =
      _AsConvert (PrimitiveType.as_str s) /\ s = q /\ castable p q = true) as (s & -> & -> & ?)
      by (split; [by constructor|done]).
    exists q. clear m. destruct p, q; first [done|by destruct Hc].
Qed.

(** Without conversion, a plain input is passed directly. *)
Lemma same_type_direct m o i c :
  plain_input m i -> _same_type_hard_mode m o i = c -> c <> _NotCompatible ->
  conversions c = 0 -> c = _DirectCall /\ type_agrees o i.
Proof.
  intros Hi. rewrite same_type_plain_input by done.
  destruct (decide (o = i)) as [->|Hne]; [intros <-; by auto with clean|].
  destruct o as [path names did gen| |p| | | | | |mu t|l mu t| | |]; cbn [same_type_by_output];
    try (by intros <-).
  - destruct (_prelude_type_need_special_dealing (ResolvedPath path names did gen) m) eqn:Hn.
    + unfold _same_type_resolved_path. rewrite Hn. cbn zeta.
      apply need_special_dealing_spec in Hn.
      intros Hc Hnc. destruct (unless_NotCompatible_inv _ _ _ Hc Hnc) as [_ ->].
      by destruct (from_type _ _).
    + intros Hc Hnc _. by eapply resolved_path_plain.
  - intros Hc Hnc H0. destruct (same_type_primitive_typed m p i c Hc Hnc) as [_ Hd].
    destruct (Hd H0) as [-> <-]. by auto with clean.
  - unfold _same_type_raw_pointer. intros Hc Hnc.
    by destruct (unless_NotCompatible_inv _ _ _ Hc Hnc) as [_ ->].
  - unfold _same_type_borrowed_ref. intros Hc Hnc.
    destruct (unless_NotCompatible_inv _ _ _ Hc Hnc) as [_ ->]. by destruct (_copy_type t).
Qed.

(** One look through the output type, then the value itself. *)
Lemma by_output_typed m o i c :
  plain_input m i -> same_type_by_output m (_same_type_hard_mode m) o i = c ->
  c <> _NotCompatible -> conversions c <= 1 -> has_type m c o i.
Proof.
  intros Hi. destruct o as [path names did gen| |p| | | | | |mu t|l mu t| | |];
    cbn [same_type_by_output]; try (by intros <-).
  - destruct (_prelude_type_need_special_dealing (ResolvedPath path names did gen) m) eqn:Hn.
    + unfold _same_type_resolved_path. rewrite Hn. cbn zeta.
      apply need_special_dealing_spec in Hn. intros Hc Hnc.
      destruct (unless_NotCompatible_inv _ _ _ Hc Hnc) as [Hin ->]. intros H1.
      remember (_same_type_hard_mode m _ i) as c' eqn:Hc'. symmetry in Hc'.
      destruct (from_type (ResolvedPath path names did gen) m) as [|u|u e] eqn:Hft; [done|..];
        cbn in H1, Hc' |- *;
        destruct (same_type_direct m u i c' Hi Hc' Hin ltac:(lia)) as [-> Ha];
        (eapply ht_agrees; [|exact Ha]); econstructor; by first [apply ht_direct | exact Hft].
    + intros Hc Hnc _. destruct (resolved_path_plain m _ _ _ _ Hn Hc Hnc) as [-> ?].
      by auto with clean.
  - intros Hc Hnc _. by apply same_type_primitive_typed.
  - unfold _same_type_raw_pointer. intros Hc Hnc.
    destruct (unless_NotCompatible_inv _ _ _ Hc Hnc) as [Hin ->]. intros H1. cbn [conversions] in H1.
    destruct (same_type_direct m t i _ Hi eq_refl Hin ltac:(lia)) as [-> Ha].
    eapply ht_agrees; [|exact Ha]. eapply ht_unsafe_deref, ht_direct.
  - unfold _same_type_borrowed_ref. intros Hc Hnc.
    destruct (unless_NotCompatible_inv _ _ _ Hc Hnc) as [Hin ->].
    destruct (_copy_type t) eqn:Hcopy; [|done]. intros H1. cbn [conversions] in H1.
    destruct (same_type_direct m t i _ Hi eq_refl Hin ltac:(lia)) as [-> Ha].
    eapply ht_agrees; [|exact Ha]. eapply ht_deref; [apply ht_direct|done].
Qed.

Lemma same_type_typed m o i :
  _same_type_hard_mode m o i <> _NotCompatible ->
  no_mut_raw_pointer (_same_type_hard_mode m o i) = true ->
  conversions (_same_type_hard_mode m o i) <= 1 ->
  has_type m (_same_type_hard_mode m o i) o i.
Proof.
  induction i as [i IH] using (induction_ltof1 _ type_size). unfold ltof in IH.
  destruct (decide (plain_input m i)) as [Hi|Hi].
  { rewrite same_type_plain_input by done. destruct (decide (o = i)) as [->|].
    - intros. apply ht_direct.
    - intros. by apply by_output_typed. }
  rewrite same_type_unfold. unfold same_type_hard_mode_body.
  destruct (decide (o = i)) as [->|Hne]; [intros; apply ht_direct|].
  assert (Hch : forall s, s ∈ type_children i -> type_size s < type_size i)
    by (intros s Hs; by apply child_size).
  assert (Hprelude : _prelude_type_need_special_dealing i m = true ->
    let c := unless_NotCompatible (_same_type_hard_mode m o (_get_final_type (from_type i m)))
               (_to_call_type (from_type i m)) in
    c <> _NotCompatible -> no_mut_raw_pointer c = true -> conversions c <= 1 ->
    has_type m c o i).
  { intros Hn c Hc. pose proof (final_type_smaller _ _ Hn) as Hsm.
    apply need_special_dealing_spec in Hn.
    destruct (unless_NotCompatible_inv _ _ c eq_refl Hc) as [Hin Hceq]. rewrite Hceq.
    specialize (IH _ Hsm Hin).
    destruct (from_type i m) as [|u|u e] eqn:Hft; [done|..]; cbn; intros;
      [eapply ht_to_option|eapply ht_to_result]; by first [apply IH | exact Hft]. }
  destruct i as [path names did gen| | | | | | | |mu t|l mu t| | |];
    try (destruct (_prelude_type_need_special_dealing _ m) eqn:Hn in |- *;
         [by apply Hprelude|by exfalso; apply Hi]).
  - unfold _raw_pointer_in_same_type. intros Hnc.
    destruct (unless_NotCompatible_inv _ _ _ eq_refl Hnc) as [Hin ->].
    specialize (IH t (Hch t (list_elem_of_here _ _)) Hin).
    destruct mu; cbn; [done|]. intros. by apply ht_const_pointer, IH.
  - unfold _borrowed_ref_in_same_type. intros Hnc.
    destruct (unless_NotCompatible_inv _ _ _ eq_refl Hnc) as [Hin ->].
    specialize (IH t (Hch t (list_elem_of_here _ _)) Hin).
    destruct mu; cbn; intros; constructor; by apply IH.
Qed.

(** What the printed expressions need of the variable. *)
Lemma has_type_as_inv m s T U : has_type m (_AsConvert s) T U -> exists p, T = Primitive p.
Proof. intros H. remember (_AsConvert s) as c. induction H; simplify_eq; eauto. Qed.

Lemma has_type_deref_inv m c T U : has_type m (_Deref c) T U -> exists V, has_type m c T V.
Proof. intros H. remember (_Deref c) as d. induction H; simplify_eq; eauto. Qed.

Lemma has_type_unwrap_option_inv m c T U :
  has_type m (_UnwrapOption c) T U -> exists V, has_type m c T V.
Proof. intros H. remember (_UnwrapOption c) as d. induction H; simplify_eq; eauto. Qed.

Lemma has_type_direct_inv m T U : has_type m _DirectCall T U -> rtc type_agrees T U.
Proof.
  intros H. remember _DirectCall as d. induction H; simplify_eq; [done|].
  eapply rtc_r; [by apply IHhas_type|done].
Qed.

(** Only named types agree without being equal up to lifetimes. *)
Lemma type_agrees_borrowed v u :
  rtc type_agrees v u ->
  match v with BorrowedRef _ _ _ => True | _ => False end ->
  erase_lifetimes v = erase_lifetimes u.
Proof.
  induction 1 as [|v w u [Ha|Ha] _ IH]; [done|..].
  - intros Hv. rewrite Ha. apply IH. destruct v; try done. by destruct w.
  - intros Hv. by destruct v.
Qed.

(** ** Decoded values *)

(** What the generator of a parameter promises. *)
Definition decoded_ok (m : FullNameMap) (ty : Type_) (r : FuzzableType * CallType) : Prop :=
  r.1 <> FuzzableType.NoFuzzable ->
  has_type m r.2 (fuzz_type r.1) ty /\
  (r.2 = _DirectCall -> erase_lifetimes (fuzz_type r.1) = erase_lifetimes ty).

Lemma decoded_wrap m ty ty' inner g :
  decoded_ok m ty' inner ->
  (forall c T, has_type m c T ty' -> has_type m (g c) T ty) ->
  (forall c, g c <> _DirectCall) ->
  decoded_ok m ty (wrap_target inner id g).
Proof.
  intros Hin Hg Hd. destruct (wrap_target inner id g) as [ft ct] eqn:Hw.
  apply wrap_target_inv in Hw as [[-> ->]|(ft' & ct' & -> & Hft & Hct & -> & ->)]; [done|].
  intros _. destruct (Hin Hft) as [Hty _]. cbn in *. split; [by apply Hg|]. by intros ?%Hd.
Qed.

Lemma tuple_fuzzables_inv rec types vec c :
  tuple_fuzzables rec types vec = c -> c <> FuzzableCallType.NoFuzzable ->
  c = FuzzableCallType.Tuple (vec ++ List.map rec types).
Proof.
  revert vec. induction types as [|t types IH]; intros vec; cbn.
  { intros <- _. by rewrite app_nil_r. }
  unfold unless_NoFuzzable. destruct (is_NoFuzzable (rec t)); [by intros <-|].
  intros Hc Hne. rewrite (IH _ Hc Hne). by rewrite <- app_assoc.
Qed.

Lemma decoded_tuple m (f : Type_ -> FuzzableCallType) types :
  Forall (fun t => decoded_ok m t (generate_fuzzable_type_and_call_type (f t))) types ->
  decoded_ok m (Tuple types)
    (tuple_targets generate_fuzzable_type_and_call_type (List.map f types) []).
Proof.
  intros Hts. destruct (tuple_targets _ _ _) as [ft ct] eqn:Hgo.
  apply tuple_targets_inv in Hgo as [[-> ->]|(fts & -> & -> & Hfts)]; [done|].
  intros _. cbn [fst snd app].
  assert (He : List.map erase_lifetimes (List.map fuzz_type fts) =
    List.map erase_lifetimes types).
  { revert fts Hfts. induction Hts as [|t types Ht _ IH]; intros fts Hfts; inversion Hfts as
      [|? ft ? fts' [Hg Hne] Hrest]; subst; [done|].
    cbn. f_equal; [|by apply IH]. unfold decoded_ok in Ht. rewrite Hg in Ht. by apply Ht. }
  split; [|intros _; cbn; by rewrite He].
  apply has_type_agrees. left. cbn. by rewrite He.
Qed.

Lemma unless_NoFuzzable_inv inner f c :
  unless_NoFuzzable inner f = c -> c <> FuzzableCallType.NoFuzzable ->
  inner <> FuzzableCallType.NoFuzzable /\ c = f inner.
Proof. intros <- Hne. unfold unless_NoFuzzable in *. by destruct inner. Qed.

(** A slice behind a borrow. *)
Lemma decoded_slice m l t c :
  decoded_ok m t (generate_fuzzable_type_and_call_type c) ->
  (generate_fuzzable_type_and_call_type c).2 = _DirectCall ->
  decoded_ok m (BorrowedRef l Not (Slice t))
    (wrap_target (generate_fuzzable_type_and_call_type c) FuzzableType.RefSlice
      (fun _ => _DirectCall)).
Proof.
  intros Hin Hd. destruct (wrap_target _ _ _) as [ft ct] eqn:Hw.
  apply wrap_target_inv in Hw as [[-> ->]|(ft' & ct' & Hg & Hft & Hct & -> & ->)]; [done|].
  unfold decoded_ok in Hin. rewrite Hg in Hin, Hd. destruct (Hin Hft) as [_ He].
  cbn in *. intros _. cbn. rewrite (He Hd). split; [|done]. apply has_type_agrees. left. cbn.
  by rewrite (He Hd).
Qed.

(** Only a slice type gives a slice. *)
Lemma fuzzable_slice_inv t m c :
  fuzzable_call_type t m = FuzzableCallType.Slice c ->
  exists t', t = Slice t' /\ fuzzable_call_type t' m = c.
Proof.
  rewrite fuzzable_call_type_unfold. unfold fuzzable_call_type_body.
  destruct t as [path names did gen| | | |types|t|t len| |mu t|l mu t| | |]; try done.
  - destruct (from_type _ _); try done. unfold unless_NoFuzzable.
    by destruct (is_NoFuzzable _).
  - intros Hc. apply tuple_fuzzables_inv in Hc; done.
  - unfold unless_NoFuzzable. destruct (is_NoFuzzable _); [done|]. intros [= <-]. eauto.
  - unfold unless_NoFuzzable. by destruct (is_NoFuzzable _).
  - unfold unless_NoFuzzable. destruct (is_NoFuzzable _); [done|]. by destruct mu.
  - case_decide; [by destruct (is_static_lifetime l)|].
    unfold unless_NoFuzzable. destruct (is_NoFuzzable _); [done|]. by destruct mu.
Qed.

(** The case of a shared borrow. *)
Lemma decoded_borrow m l t :
  let c := fuzzable_call_type t m in
  plain (FuzzableCallType.BorrowedRef c) = true ->
  (forall s, type_size s <= type_size t -> plain (fuzzable_call_type s m) = true ->
     decoded_ok m s (generate_fuzzable_type_and_call_type (fuzzable_call_type s m))) ->
  decoded_ok m (BorrowedRef l Not t)
    (generate_fuzzable_type_and_call_type (FuzzableCallType.BorrowedRef c)).
Proof.
  intros c Hp IH.
  assert (Hdec : (exists c', c = FuzzableCallType.Slice c') \/
                 ~ exists c', c = FuzzableCallType.Slice c').
  { destruct c; try (right; by intros [? ?]). left. eauto. }
  destruct Hdec as [[c' Hc]|Hc].
  - unfold c in Hc, Hp |- *. rewrite Hc in Hp |- *.
    apply fuzzable_slice_inv in Hc as (t' & -> & <-).
    cbn [plain] in Hp. apply andb_true_iff in Hp as [Hp Hd].
    apply decoded_slice; [|by apply bool_decide_eq_true in Hd].
    apply IH; [cbn; lia|done].
  - assert (Hpl : plain (FuzzableCallType.BorrowedRef c) = plain c).
    { destruct c; try done. exfalso. eauto. }
    rewrite Hpl in Hp.
    assert (generate_fuzzable_type_and_call_type (FuzzableCallType.BorrowedRef c) =
      wrap_target (generate_fuzzable_type_and_call_type c) id _BorrowedRef) as ->.
    { destruct c; try done. exfalso. eauto. }
    eapply decoded_wrap; [by apply IH|by constructor|done].
Qed.

Lemma is_NoFuzzable_dec c :
  {c = FuzzableCallType.NoFuzzable} + {c <> FuzzableCallType.NoFuzzable}.
Proof. by destruct c; [left|right..]. Qed.

Lemma decoded_typed m ty :
  plain (fuzzable_call_type ty m) = true ->
  decoded_ok m ty (generate_fuzzable_type_and_call_type (fuzzable_call_type ty m)).
Proof.
  induction ty as [ty IH] using (induction_ltof1 _ type_size). unfold ltof in IH.
  assert (Hch : forall s, s ∈ type_children ty -> type_size s < type_size ty)
    by (intros s Hs; by apply child_size).
  destruct (is_NoFuzzable_dec (fuzzable_call_type ty m)) as [->|Hne]; [done|].
  rewrite fuzzable_call_type_unfold in Hne |- *. unfold fuzzable_call_type_body in *.
  destruct ty as [path names did gen| | | |types|t|t len| |mu t|l mu t| | |]; try done.
  - destruct (from_type_cases (ResolvedPath path names did gen) m)
      as [Hf|[(u & Hf & Hu)|(ok & err & Hf & _)]]; rewrite Hf in Hne |- *; try done.
    destruct (unless_NoFuzzable_inv _ _ _ eq_refl Hne) as [_ ->]. cbn [plain]. intros Hp.
    eapply decoded_wrap; [apply (IH u); [by apply Hch|done]|intros; by eapply ht_to_option|done].
  - intros _ _. split; [apply ht_direct|done].
  - assert (Htu := tuple_fuzzables_inv _ _ _ _ eq_refl Hne). cbn [app] in Htu. rewrite Htu.
    cbn [plain]. intros Hp. apply decoded_tuple. rewrite Forall_forall. intros t Ht.
    apply IH; [by apply Hch|]. rewrite forallb_forall in Hp. apply Hp.
    by apply (in_map (fun t => fuzzable_call_type t m)), list_elem_of_In.
  - destruct (unless_NoFuzzable_inv _ _ _ eq_refl Hne) as [_ ->]. done.
  - destruct (unless_NoFuzzable_inv _ _ _ eq_refl Hne) as [_ ->]. done.
  - destruct (unless_NoFuzzable_inv _ _ _ eq_refl Hne) as [_ ->]. destruct mu; [done|].
    cbn [plain]. intros Hp.
    eapply decoded_wrap; [apply (IH t); [apply Hch; constructor|done]|by constructor|done].
  - case_decide as Hstr.
    + destruct Hstr as [-> ->]. destruct (is_static_lifetime l); [done|]. intros _ _.
      split; [|done]. apply has_type_agrees. by left.
    + destruct (unless_NoFuzzable_inv _ _ _ eq_refl Hne) as [_ ->]. destruct mu; cbn [plain].
      * intros Hp.
        eapply decoded_wrap; [apply (IH t); [apply Hch; constructor|done]|by constructor|done].
      * intros Hp. apply decoded_borrow; [exact Hp|]. intros s Hs. apply IH. cbn. lia.
Qed.

(** ** Properties *)

(** The recursion of [_same_type_hard_mode] and of [_is_end_type] terminates on
    every pair of types: both functions satisfy their recursive equations. *)
Lemma same_type_terminates (m : FullNameMap) (o i : Type_) :
  _same_type_hard_mode m o i = same_type_hard_mode_body m (_same_type_hard_mode m) o i /\
  _is_end_type o m = is_end_type_body m (fun t => _is_end_type t m) o.
Proof. split; [apply same_type_unfold|apply is_end_type_unfold]. Qed.



(** Two conversions are printed in the wrong order. For an output behind a borrow,
    or in an [Option], whose value is cast to another number type, [_same_type] accepts
    the pair but prints [*(x as q)] (or [_unwrap_option(x as q)]): the cast is applied
    to the reference or to the [Option] itself, and the expression has no type. *)
Lemma cast_is_applied_before_the_dereference
    (m : FullNameMap) (p q : PrimitiveType) (l : option Lifetime) (o : Type_)
    (Hp : number_primitive p = true) (Hq : number_primitive q = true) (Hpq : p <> q)
    (Ho : o = BorrowedRef l Not (Primitive p) \/ from_type o m = PreludeOption (Primitive p)) :
  _same_type m o (Primitive q) true <> _NotCompatible /\
  forall U, ~ has_type m (_same_type m o (Primitive q) true) o U.
Proof.
  assert (Hin : _same_type_hard_mode m (Primitive p) (Primitive q) =
    _AsConvert (PrimitiveType.as_str q)).
  { rewrite same_type_plain_input, decide_False by (intros [= ?] || apply plain_input_primitive; done).
    cbn [same_type_by_output]. unfold _same_type_primitive.
    by rewrite Hp, decide_False, Hq by done. }
  destruct Ho as [-> | Ho].
  - assert (_same_type m (BorrowedRef l Not (Primitive p)) (Primitive q) true =
      _Deref (_AsConvert (PrimitiveType.as_str q))) as ->.
    { unfold _same_type.
      rewrite same_type_plain_input, decide_False by (done || apply plain_input_primitive).
      cbn [same_type_by_output]. unfold _same_type_borrowed_ref. rewrite Hin. cbn.
      clear -Hp. by destruct p. }
    split; [done|]. by intros U (V & (r & Hr)%has_type_as_inv)%has_type_deref_inv.
  - assert (exists path names did gen, o = ResolvedPath path names did gen)
      as (path & names & did & gen & ->).
    { destruct o; try discriminate Ho. by do 4 eexists. }
    assert (_same_type m (ResolvedPath path names did gen) (Primitive q) true =
      _UnwrapOption (_AsConvert (PrimitiveType.as_str q))) as ->.
    { unfold _same_type.
      rewrite same_type_plain_input, decide_False by (done || apply plain_input_primitive).
      cbn [same_type_by_output]. unfold _same_type_resolved_path.
      rewrite (proj2 (need_special_dealing_spec _ _)) by (by rewrite Ho).
      cbn zeta. rewrite Ho. cbn [_get_final_type _unwrap_call_type]. by rewrite Hin. }
    split; [done|]. by intros U (V & (r & Hr)%has_type_as_inv)%has_type_unwrap_option_inv.
Qed.

Lemma cast_is_applied_before_the_dereference_witness :
  _same_type FullNameMap_new (BorrowedRef None Not (Primitive PrimitiveType.U8))
    (Primitive PrimitiveType.U16) true = _Deref (_AsConvert "u16") /\
  forall U, ~ has_type FullNameMap_new
    (_same_type FullNameMap_new (BorrowedRef None Not (Primitive PrimitiveType.U8))
      (Primitive PrimitiveType.U16) true)
    (BorrowedRef None Not (Primitive PrimitiveType.U8)) U.
Proof.
  split; [vm_compute; reflexivity|].
  exact (proj2 (cast_is_applied_before_the_dereference FullNameMap_new
    PrimitiveType.U8 PrimitiveType.U16 None _ eq_refl eq_refl ltac:(discriminate)
    (or_introl eq_refl))).
Defined.

(** A fuzzable parameter gets a value of its type. The value decoded for a parameter,
    passed on with the call type of the generator, has the type of the parameter up to
    lifetimes, provided the elements of its slices are passed on as they are decoded and
    it has no mutable raw pointer. *)
Lemma decoded_value_has_the_parameter_type (m : FullNameMap) (ty : Type_)
    (ft : FuzzableType) (ct : CallType)
    (Hplain : plain (fuzzable_call_type ty m) = true)
    (Hgen : generate_fuzzable_type_and_call_type (fuzzable_call_type ty m) = (ft, ct))
    (Hft : ft <> FuzzableType.NoFuzzable) :
  has_type m ct (fuzz_type ft) ty.
Proof. pose proof (decoded_typed m ty Hplain) as Hok. rewrite Hgen in Hok. by apply Hok. Qed.

Lemma decoded_value_has_the_parameter_type_witness :
  has_type FullNameMap_new (_BorrowedRef _DirectCall)
    (Tuple [Primitive PrimitiveType.U8; BorrowedRef None Not (Slice (Primitive PrimitiveType.U16))])
    (BorrowedRef None Not (Tuple [Primitive PrimitiveType.U8;
      BorrowedRef None Not (Slice (Primitive PrimitiveType.U16))])).
Proof.
  exact (decoded_value_has_the_parameter_type FullNameMap_new
    (BorrowedRef None Not (Tuple [Primitive PrimitiveType.U8;
      BorrowedRef None Not (Slice (Primitive PrimitiveType.U16))]))
    (FuzzableType.Tuple [FuzzableType.Primitive PrimitiveType.U8;
      FuzzableType.RefSlice (FuzzableType.Primitive PrimitiveType.U16)]) (_BorrowedRef _DirectCall)
    ltac:(vm_compute; reflexivity) ltac:(vm_compute; reflexivity) ltac:(discriminate)).
Defined.

(** The call type of slice elements is dropped: for a parameter [&[&p]] the generator
    decodes a [&[p]] and passes it directly, an argument of the wrong type. *)
Lemma slice_of_references_is_ill_typed (m : FullNameMap) (p : PrimitiveType)
    (l l' : option Lifetime) (Hp : p <> PrimitiveType.Str) :
  let ty := BorrowedRef l Not (Slice (BorrowedRef l' Not (Primitive p))) in
  let '(ft, ct) := generate_fuzzable_type_and_call_type (fuzzable_call_type ty m) in
  ft = FuzzableType.RefSlice (FuzzableType.Primitive p) /\
  ~ has_type m ct (fuzz_type ft) ty.
Proof.
  intros ty.
  assert (fuzzable_call_type ty m = FuzzableCallType.BorrowedRef
    (FuzzableCallType.Slice (FuzzableCallType.BorrowedRef (FuzzableCallType.Primitive p)))) as ->.
  { unfold ty. rewrite fuzzable_call_type_unfold. cbn [fuzzable_call_type_body].
    rewrite decide_False by (intros [? ?]; done).
    rewrite fuzzable_call_type_unfold. cbn [fuzzable_call_type_body].
    rewrite fuzzable_call_type_unfold. cbn [fuzzable_call_type_body].
    rewrite decide_False by (intros [[= ?] ?]; done).
    by rewrite fuzzable_call_type_unfold. }
  cbn. split; [done|]. intros Ht%has_type_direct_inv.
  by apply type_agrees_borrowed in Ht.
Qed.

Lemma slice_of_references_is_ill_typed_witness :
  generate_fuzzable_type_and_call_type (fuzzable_call_type
    (BorrowedRef None Not (Slice (BorrowedRef None Not (Primitive PrimitiveType.U8))))
    FullNameMap_new) =
    (FuzzableType.RefSlice (FuzzableType.Primitive PrimitiveType.U8), _DirectCall) /\
  ~ has_type FullNameMap_new _DirectCall
      (fuzz_type (FuzzableType.RefSlice (FuzzableType.Primitive PrimitiveType.U8)))
      (BorrowedRef None Not (Slice (BorrowedRef None Not (Primitive PrimitiveType.U8)))).
Proof.
  split; [vm_compute; reflexivity|].
  exact (proj2 (slice_of_references_is_ill_typed FullNameMap_new PrimitiveType.U8 None None
    ltac:(discriminate))).
Defined.
