(* ===== verification/ModVisibility.v ===== *)
(** The visibility of modules ([fuzz_target/mod_visibility.rs]): which modules of the
    crate cannot be named from outside. *)

From S2P Require Import Prelude RustStd CleanTypes.

Record ModVisibity := mk_ModVisibity {
  crate_name : string;
  inner : gmap string Visibility
}.

Definition ModVisibity_new (crate_name_ : string) : ModVisibity :=
  {| crate_name := crate_name_; inner := ∅ |}.

Definition add_one_mod (self : ModVisibity) (mod_name : string) (visibility : Visibility)
    : ModVisibity :=
  {| crate_name := crate_name self; inner := <[mod_name := visibility]> (inner self) |}.

Definition get_parent_mod_name (mod_name : string) : option string :=
  if negb (str_contains mod_name "::") then None
  else
    let mod_split := split_str mod_name "::" in
    let mod_split := vec_pop mod_split in
    let parent_mod_name := join "::" mod_split in
    Some parent_mod_name.

Section get_invisible_mods.
Context `{HashOrder}.
Variable self : ModVisibity.

(** The body of the inner loop, on one entry of [self.inner]. *)
Definition visit_mod (entry : string * Visibility) (new_mod_visibility : gmap string bool)
    : outcome (gmap string bool) :=
  let '(mod_name, visibility) := entry in
  match new_mod_visibility !! mod_name with
  | Some _ => mret new_mod_visibility
  | None =>
      parent_mod_name ← unwrap (get_parent_mod_name mod_name);
      match new_mod_visibility !! parent_mod_name with
      | None => mret new_mod_visibility
      | Some _ =>
          parent_visibility ← unwrap (new_mod_visibility !! parent_mod_name);
          if bool_decide (Visibility.Public = visibility) && parent_visibility then
            mret (<[mod_name := true]> new_mod_visibility)
          else mret (<[mod_name := false]> new_mod_visibility)
      end
  end.

(** One round of the outer loop; [round] identifies the iteration over the map. *)
Definition visit_round (round : nat) (new_mod_visibility : gmap string bool)
    : outcome (flow (gmap string bool) Empty_set) :=
  new_mod_visibility ← fold_loop visit_mod (map_order round (inner self)) new_mod_visibility;
  if decide (size new_mod_visibility = size (inner self)) then mret (Break new_mod_visibility)
  else mret (Next new_mod_visibility).

Definition get_invisible_mods : outcome (list string) :=
  let mod_number := size (inner self) in
  match inner self !! crate_name self with
  | None => Panicked
  | Some _ =>
      new_mod_visibility ← run_loop visit_round (seq 0 mod_number)
                             {[crate_name self := true]};
      mret (foldl (fun res entry =>
              let '(mod_name, visibility) := entry in
              if negb (visibility : bool) then res ++ [mod_name] else res) []
            (map_order mod_number new_mod_visibility))
  end.

(** ** Specification

    A module is known when the chain of its parents reaches the crate, and visible when
    moreover every module of the chain below the crate is public. *)
Inductive known : string -> Prop :=
| known_crate : known (crate_name self)
| known_child name parent visibility :
    inner self !! name = Some visibility -> get_parent_mod_name name = Some parent ->
    name <> crate_name self -> known parent -> known name.

Inductive visible : string -> Prop :=
| visible_crate : visible (crate_name self)
| visible_child name parent :
    inner self !! name = Some Visibility.Public -> get_parent_mod_name name = Some parent ->
    name <> crate_name self -> visible parent -> visible name.

(** What the loops maintain: the entries are known modules with their visibility. *)
Definition sound (m : gmap string bool) : Prop :=
  m !! crate_name self = Some true /\
  forall name b, m !! name = Some b -> known name /\ (b = true <-> visible name).

Context (Hcrate : is_Some (inner self !! crate_name self)).
Context (Hparents : forall name, is_Some (inner self !! name) -> name <> crate_name self ->
  is_Some (get_parent_mod_name name)).

Lemma known_inner name : known name -> is_Some (inner self !! name).
Proof using Hcrate. destruct 1; [done|eauto]. Qed.

Lemma visible_inv name visibility parent :
  inner self !! name = Some visibility -> get_parent_mod_name name = Some parent ->
  name <> crate_name self ->
  visible name <-> visibility = Visibility.Public /\ visible parent.
Proof.
  intros Hin Hp Hne. split.
  - intros Hv. inversion Hv; subst; [done|]. simplify_eq. done.
  - intros [-> Hv]. by econstructor.
Qed.

Lemma visit_mod_sound name visibility m :
  inner self !! name = Some visibility -> sound m ->
  returns (visit_mod (name, visibility) m) (fun m' =>
    sound m' /\ m ⊆ m' /\
    (forall parent, get_parent_mod_name name = Some parent -> is_Some (m !! parent) ->
       is_Some (m' !! name))).
Proof using Hparents.
  intros Hin Hs. unfold visit_mod. destruct (m !! name) as [b|] eqn:Hm.
  { apply returns_ret. split_and!; [done|done|]. intros. eauto. }
  assert (Hne : name <> crate_name self) by (intros ->; destruct Hs as [Hc _]; congruence).
  destruct (Hparents name) as [parent Hp]; [eauto|done|].
  eapply returns_bind_unwrap; [exact Hp|].
  destruct (m !! parent) as [pv|] eqn:Hpm.
  2:{ apply returns_ret. split_and!; [done|done|]. intros p' Hp' [x Hx]. congruence. }
  eapply returns_bind_unwrap; [reflexivity|].
  destruct (proj2 Hs _ _ Hpm) as [Hk Hv].
  assert (Hnew : forall b, (b = true <-> visible name) ->
    sound (<[name := b]> m) /\ m ⊆ <[name := b]> m /\
    (forall p, get_parent_mod_name name = Some p -> is_Some (m !! p) ->
       is_Some (<[name := b]> m !! name))).
  { intros b Hb. split_and!.
    - split; [rewrite lookup_insert_ne by done; apply Hs|].
      intros n b' [[<- <-]|[Hn Hb']]%lookup_insert_Some; [|by apply Hs].
      split; [by econstructor|done].
    - by apply insert_subseteq.
    - intros. rewrite lookup_insert_eq. eauto. }
  pose proof (visible_inv name visibility parent Hin Hp Hne) as Hvi.
  case_bool_decide as Hpub; cbn [andb].
  - destruct pv; apply returns_ret, Hnew; naive_solver.
  - apply returns_ret, Hnew. naive_solver.
Qed.

Lemma visit_entries_sound entries m :
  (forall name visibility, (name, visibility) ∈ entries ->
     inner self !! name = Some visibility) ->
  sound m ->
  returns (fold_loop visit_mod entries m) (fun m' =>
    sound m' /\ m ⊆ m' /\
    (forall name visibility parent, (name, visibility) ∈ entries ->
       get_parent_mod_name name = Some parent -> is_Some (m !! parent) ->
       is_Some (m' !! name))).
Proof using Hparents.
  revert m. induction entries as [|[name visibility] entries IH]; intros m Hin Hs.
  { apply returns_ret. split_and!; [done|done|]. by intros ??? ?%not_elem_of_nil. }
  cbn [fold_loop]. eapply returns_bind; [apply visit_mod_sound; [|done]; apply Hin; constructor|].
  intros m1 (Hs1 & Hle1 & Hadd). eapply returns_mono; [apply IH; [|done]|].
  { intros n v Hn. apply Hin. by constructor. }
  intros m2 (Hs2 & Hle2 & Hadd2). split_and!; [done|by etrans|].
  intros n v p [Hnv|Hnv]%elem_of_cons Hp Hpm.
  - simplify_eq. destruct (Hadd p Hp Hpm) as [b Hb]. exists b. by eapply lookup_weaken.
  - eapply Hadd2; [done..|]. destruct Hpm as [b Hb]. exists b. by eapply lookup_weaken.
Qed.

(** Every known module has an entry. *)
Definition complete (m : gmap string bool) : Prop :=
  forall name, known name -> is_Some (m !! name).

Lemma sound_size m : sound m -> size m <= size (inner self).
Proof using Hcrate.
  intros Hs. rewrite <- !size_dom. apply subseteq_size. intros name [b Hb]%elem_of_dom.
  apply elem_of_dom, known_inner. by eapply Hs.
Qed.

Lemma full_complete m : sound m -> size m = size (inner self) -> complete m.
Proof using Hcrate.
  intros Hs Hsize name Hk. apply elem_of_dom.
  assert (Hdom : dom m ⊆ dom (inner self)).
  { intros n [b Hb]%elem_of_dom. apply elem_of_dom, known_inner. by eapply Hs. }
  assert (dom m = dom (inner self)) as ->.
  { apply leibniz_equiv, set_subseteq_size_equiv; [done|]. rewrite !size_dom. lia. }
  by apply elem_of_dom, known_inner.
Qed.

(** A round that adds nothing has nothing to add. *)
Lemma stable_complete round m :
  sound m -> fold_loop visit_mod (map_order round (inner self)) m = Ret m -> complete m.
Proof using Hparents.
  intros Hs Hround name Hk. induction Hk as [|name parent visibility Hin Hp Hne Hk IH].
  - destruct Hs as [Hs _]. eauto.
  - assert (Hret := visit_entries_sound (map_order round (inner self)) m
      ltac:(intros n v; by rewrite elem_of_map_order) Hs).
    rewrite Hround in Hret. destruct Hret as (_ & _ & Hadd).
    eapply Hadd; [by apply elem_of_map_order|done|done].
Qed.

Lemma rounds_complete :
  returns (run_loop visit_round (seq 0 (size (inner self))) {[crate_name self := true]})
    (fun m => sound m /\ complete m).
Proof using Hcrate Hparents.
  apply (run_loop_returns _ (fun done m => sound m /\ (length done < size m \/ complete m))).
  - split; [|left; rewrite map_size_singleton; cbn; lia].
    split; [by rewrite lookup_singleton_eq|].
    intros n b [<- <-]%lookup_singleton_Some. split; [constructor|].
    split; [by constructor|done].
  - intros pre round post m _ [Hs Hprog]. unfold visit_round.
    pose proof (visit_entries_sound (map_order round (inner self)) m
      ltac:(intros n v; by rewrite elem_of_map_order) Hs) as Hround.
    apply returns_exists in Hround as (m' & Hm' & Hs' & Hle & _). rewrite Hm'.
    cbn [mbind outcome_bind]. case_decide as Hsize; apply returns_ret.
    + split; [done|by apply full_complete].
    + split; [done|]. destruct Hprog as [Hlt|Hc].
      * destruct (decide (size m = size m')) as [Heq|Hne].
        -- right. assert (m = m') as <- by (by apply map_subseteq_size_eq; [|lia]).
           by eapply stable_complete.
        -- left. rewrite length_app. cbn. pose proof (map_subseteq_size _ _ Hle). lia.
      * right. intros n Hn. destruct (Hc n Hn) as [b Hb]. exists b. by eapply lookup_weaken.
  - intros m [Hs [Hlt|Hc]]; [|done]. rewrite length_seq in Hlt.
    apply sound_size in Hs. lia.
Qed.

End get_invisible_mods.

(** The final loop keeps the names with entry [false]. *)
Lemma collect_invisible (entries : list (string * bool)) (acc : list string) (name : string) :
  name ∈ foldl (fun res entry => let '(mod_name, visibility) := entry in
    if negb (visibility : bool) then res ++ [mod_name] else res) acc entries <->
  name ∈ acc \/ (name, false) ∈ entries.
Proof.
  revert acc. induction entries as [|[n b] entries IH]; intros acc; cbn; [set_solver|].
  rewrite IH. destruct b; cbn; set_solver.
Qed.

(** The analysis returns the modules with a non-public module above them. *)
Lemma invisible_mods_returns `{HashOrder} (self : ModVisibity) :
  is_Some (inner self !! crate_name self) ->
  (forall name, is_Some (inner self !! name) -> name <> crate_name self ->
     is_Some (get_parent_mod_name name)) ->
  returns (get_invisible_mods self) (fun res =>
    forall name, name ∈ res <-> known self name /\ ~ visible self name).
Proof.
  intros Hcrate Hparents.
  pose proof (rounds_complete self Hcrate Hparents) as Hrounds.
  unfold get_invisible_mods. destruct Hcrate as [v Hv]. rewrite Hv.
  eapply returns_bind; [exact Hrounds|].
  intros m [Hs Hc]. apply returns_ret. intros name.
  rewrite collect_invisible, elem_of_map_order. split.
  - intros [?%not_elem_of_nil|Hm]; [done|]. destruct (proj2 Hs _ _ Hm) as [Hk Hvis].
    split; [done|]. intros Hn. by apply Hvis in Hn.
  - intros [Hk Hn]. right. destruct (Hc name Hk) as [b Hb].
    destruct b; [|done]. exfalso. apply Hn. by apply (proj2 Hs _ _ Hb).
Qed.

(** ** Properties *)

(** C15: whatever the iteration order of the two hash maps, the analysis of the modules
    returns, its rounds reach every module below the crate, and the result is exactly
    the set of modules that have a non-public module among themselves and their
    ancestors below the crate. *)
Theorem invisible_mods_are_those_below_a_private_one `{HashOrder} (self : ModVisibity)
    (Hcrate : is_Some (inner self !! crate_name self))
    (Hparents : forall name, is_Some (inner self !! name) -> name <> crate_name self ->
      is_Some (get_parent_mod_name name)) :
  returns (get_invisible_mods self) (fun res =>
    forall name, name ∈ res <-> known self name /\ ~ visible self name).
Proof. by apply invisible_mods_returns. Qed.

Lemma invisible_mods_are_those_below_a_private_one_witness :
  let self := add_one_mod (add_one_mod (add_one_mod (ModVisibity_new "c")
    "c" Visibility.Public) "c::a" Visibility.Inherited) "c::a::b" Visibility.Public in
  known self "c::a::b" /\ ~ visible self "c::a::b".
Proof.
  intros self.
  assert (Hres : get_invisible_mods (H := canonical_order) self = Ret ["c::a::b"; "c::a"])
    by (vm_compute; reflexivity).
  assert (Hcrate : is_Some (inner self !! crate_name self)) by (vm_compute; eauto).
  assert (Hparents : forall name, is_Some (inner self !! name) -> name <> crate_name self ->
    is_Some (get_parent_mod_name name)).
  { intros name Hin Hne.
    assert (Hall : Forall (fun n => n = "c" \/ is_Some (get_parent_mod_name n))
      (map_to_list (inner self)).*1).
    { apply (bool_decide_unpack _). vm_compute. exact I. }
    rewrite Forall_forall in Hall. destruct Hin as [v Hv].
    destruct (Hall name) as [Hc|Hs]; [|by destruct Hne|exact Hs].
    apply list_elem_of_fmap. exists (name, v). split; [done|]. by apply elem_of_map_to_list. }
  pose proof (invisible_mods_are_those_below_a_private_one (H := canonical_order)
    self Hcrate Hparents) as Hr.
  rewrite Hres in Hr. exact (proj1 (Hr "c::a::b") (list_elem_of_here _ _)).
Defined.

(** Without an entry for the crate itself the analysis panics, and an entry for a
    top-level name that is not the crate makes it panic in the [unwrap] of its missing
    parent. *)
Lemma visibility_analysis_panics `{HashOrder} (self : ModVisibity) :
  (inner self !! crate_name self = None -> get_invisible_mods self = Panicked) /\
  (forall name v, is_Some (inner self !! crate_name self) -> inner self !! name = Some v ->
     name <> crate_name self -> str_contains name "::" = false ->
     get_invisible_mods self = Panicked).
Proof.
  split; [intros Hn; unfold get_invisible_mods; by rewrite Hn|].
  intros name v [vc Hc] Hin Hne Htop. unfold get_invisible_mods. rewrite Hc.
  assert (Hpanic : forall entries m, (name, v) ∈ entries -> m !! name = None ->
    (forall n b, (n, b) ∈ entries -> inner self !! n = Some b) ->
    fold_loop visit_mod entries m = Panicked).
  { induction entries as [|[n b] entries IH]; intros m Hel Hm Hsub;
      [by apply not_elem_of_nil in Hel|].
    assert (Hrest : forall n b, (n, b) ∈ entries -> inner self !! n = Some b).
    { intros. apply Hsub. by constructor. }
    assert (Hb : inner self !! n = Some b) by (apply Hsub; constructor).
    cbn [fold_loop visit_mod]. destruct (decide (n = name)) as [->|Hnn].
    - rewrite Hm. unfold get_parent_mod_name. by rewrite Htop.
    - assert (Hel' : (name, v) ∈ entries) by (apply elem_of_cons in Hel; naive_solver).
      destruct (m !! n); [by apply IH|]. destruct (get_parent_mod_name n); [|done].
      cbn [unwrap mbind outcome_bind]. destruct (m !! s) as [pv|] eqn:Hpv; [|by apply IH].
      cbn [unwrap mbind outcome_bind].
      destruct (_ && _); cbn [mret outcome_ret mbind outcome_bind]; apply IH; try done;
        by rewrite lookup_insert_ne. }
  assert (Hsize : size (inner self) <> 0).
  { intros Hz%map_size_empty_inv. by rewrite Hz, lookup_empty in Hin. }
  destruct (size (inner self)) as [|k]; [done|].
  assert (Hround : visit_round self 0 {[crate_name self := true]} = Panicked).
  { unfold visit_round. rewrite Hpanic; [done|by apply elem_of_map_order| |].
    - by rewrite lookup_singleton_ne.
    - intros n b. by rewrite elem_of_map_order. }
  unfold run_loop. cbn [seq for_loop]. by rewrite Hround.
Qed.
