(* ===== verification/ApiFunction.v ===== *)
(** The functions of the analysed crate ([fuzz_target/api_function.rs],
    [fuzz_target/generic_function.rs]) and the questions the generator asks of them. *)

From S2P Require Import Prelude RustStd CleanTypes CallTypes PreludeTypes.
From S2P Require Import FuzzableTypes ApiUtil.

Record ApiFunction := mk_ApiFunction {
  full_name : string;
  generics : Generics;
  inputs : list Type_;
  output : option Type_;
  _trait_full_path : option string;
  _unsafe_tag : ApiUnsafety
}.

Section impl_ApiFunction.
Variable self : ApiFunction.

Definition is_mut_borrow (input_type : Type_) : bool :=
  match input_type with
  | BorrowedRef _ Mut _ | RawPointer Mut _ => true
  | _ => false
  end.

Definition contains_mut_borrow : bool :=
  if length (inputs self) <=? 0 then false
  else existsb is_mut_borrow (inputs self).

Definition _is_end_function (full_name_map : FullNameMap) : bool :=
  if contains_mut_borrow then false
  else
    match output self with
    | Some ty => if _is_end_type ty full_name_map then true else false
    | None => true
    end.

(** [&] of two [bool]s evaluates both sides. *)
Definition is_defined_on_prelude_type (prelude_types : list string) : bool :=
  let function_name_contains_prelude_type :=
    existsb (fun prelude_type => starts_with (full_name self) prelude_type) prelude_types in
  let trait_contains_prelude_type :=
    match _trait_full_path self with
    | Some trait_name =>
        existsb (fun prelude_type => starts_with trait_name prelude_type) prelude_types
    | None => false
    end in
  andb (negb function_name_contains_prelude_type) (negb trait_contains_prelude_type).

Definition _is_start_function (full_name_map : FullNameMap) : bool :=
  forallb (fun ty => _is_end_type ty full_name_map) (inputs self).

Definition _is_generic_function : bool :=
  if existsb _is_generic_type (inputs self) then true
  else
    match output self with
    | Some ty => if _is_generic_type ty then true else false
    | None => false
    end.

Definition _has_no_output : bool :=
  match output self with
  | None => true
  | Some _ => false
  end.

Definition _pretty_print (cache : gmap PrimitiveType DefId) (full_name_map : FullNameMap)
    : string :=
  "fn " +:+ full_name self +:+ "("
    +:+ join " ," (List.map (_type_name cache full_name_map) (inputs self)) +:+ ")"
    +:+ match output self with
        | Some ty_ => "->" +:+ _type_name cache full_name_map ty_
        | None => ""
        end.

(** The body of the loop of [contains_unsupported_fuzzable_type]. *)
Definition unsupported_fuzzable_type (full_name_map : FullNameMap) (input_ty_ : Type_) : bool :=
  if is_fuzzable_type input_ty_ full_name_map then
    let '(fuzzable_type, call_type) :=
      generate_fuzzable_type_and_call_type (fuzzable_call_type input_ty_ full_name_map) in
    if FuzzableType.is_NoFuzzable fuzzable_type then true
    else if FuzzableType._is_multiple_dynamic_length fuzzable_type then true
    else match call_type with _NotCompatible => true | _ => false end
  else false.

Definition contains_unsupported_fuzzable_type (full_name_map : FullNameMap) : bool :=
  existsb (unsupported_fuzzable_type full_name_map) (inputs self).
End impl_ApiFunction.

(** ** Generic functions *)
Record GenericFunction := mk_GenericFunction {
  api_function : ApiFunction;
  generic_substitute : gmap string Type_
}.

Definition GenericFunction_from (api_function : ApiFunction) : GenericFunction :=
  {| api_function := api_function; generic_substitute := ∅ |}.

(** ** Lemmas *)

Lemma existsb_exists_elem {A} (f : A -> bool) l :
  existsb f l = true <-> exists x, x ∈ l /\ f x = true.
Proof. rewrite existsb_exists. setoid_rewrite list_elem_of_In. done. Qed.

Lemma existsb_false_elem {A} (f : A -> bool) l :
  existsb f l = false <-> forall x, x ∈ l -> f x = false.
Proof.
  rewrite <- not_true_iff_false, existsb_exists_elem. split.
  - intros H x Hx. destruct (f x) eqn:Hf; [|done]. exfalso. eauto.
  - intros H (x & Hx & Hf). rewrite (H x Hx) in Hf. done.
Qed.

(** A supported function has a decoded value for each of its fuzzable inputs. *)
Lemma supported_fuzzable_input self m ty :
  contains_unsupported_fuzzable_type self m = false -> ty ∈ inputs self ->
  is_fuzzable_type ty m = true ->
  let r := generate_fuzzable_type_and_call_type (fuzzable_call_type ty m) in
  r.1 <> FuzzableType.NoFuzzable /\ r.2 <> _NotCompatible /\
  FuzzableType._is_multiple_dynamic_length r.1 = false.
Proof.
  intros Hun Hty Hf. apply (proj1 (existsb_false_elem _ _) Hun) in Hty.
  unfold unsupported_fuzzable_type in Hty. rewrite Hf in Hty.
  destruct (generate_fuzzable_type_and_call_type _) as [ft ct]. cbn.
  destruct (FuzzableType.is_NoFuzzable ft) eqn:Hno; [done|].
  destruct (FuzzableType._is_multiple_dynamic_length ft); [done|].
  split_and!; [by intros ->|by intros ->|done].
Qed.

Lemma mut_borrow_spec self :
  contains_mut_borrow self = true <-> exists ty, ty ∈ inputs self /\ is_mut_borrow ty = true.
Proof.
  unfold contains_mut_borrow. rewrite <- existsb_exists_elem.
  by destruct (inputs self) as [|ty tys].
Qed.

(** ** Occurrences of generics

    A generic parameter, or a path marked generic, somewhere in the components of the
    type; the components of a qualified path are not looked at. *)
Inductive mentions_generic : Type_ -> Prop :=
| mg_generic s : mentions_generic (Generic s)
| mg_path path names did : mentions_generic (ResolvedPath path names did true)
| mg_child t s :
    match t with QPath _ _ _ => False | _ => True end ->
    s ∈ type_children t -> mentions_generic s -> mentions_generic t.

Lemma existsb_bind {A B} (f : B -> bool) (g : A -> list B) l :
  existsb f (l ≫= g) = existsb (fun x => existsb f (g x)) l.
Proof. induction l; csimpl; [done|]. rewrite existsb_app. by f_equal. Qed.

Lemma existsb_ext_fun {A} (f g : A -> bool) l :
  (forall x, f x = g x) -> existsb f l = existsb g l.
Proof. intros Heq. induction l; cbn; [done|]. by rewrite Heq, IHl. Qed.

Lemma is_generic_type_step t :
  _is_generic_type t =
  match t with
  | Generic _ | ResolvedPath _ _ _ true => true
  | QPath _ _ _ => false
  | _ => existsb _is_generic_type (type_children t)
  end.
Proof.
  destruct t as [[global res segments] names did gen| | | | | | | | | | | |]; try done;
    try (cbn; by rewrite orb_false_r).
  destruct gen; [done|]. cbn. unfold path_types. rewrite existsb_bind.
  apply existsb_ext_fun. intros [name [args bindings|ins out]]; cbn.
  - rewrite existsb_bind. apply existsb_ext_fun. intros []; cbn; by rewrite ?orb_false_r.
  - rewrite existsb_app. f_equal. destruct out; cbn; by rewrite ?orb_false_r.
Qed.

Lemma is_generic_type_spec t : _is_generic_type t = true <-> mentions_generic t.
Proof.
  induction t as [t IH] using type_children_ind. rewrite is_generic_type_step.
  assert (Hch : match t with QPath _ _ _ => False | _ => True end ->
    existsb _is_generic_type (type_children t) = true <->
    exists s, s ∈ type_children t /\ mentions_generic s).
  { intros _. rewrite existsb_exists_elem. split; intros (s & Hs & Hg); exists s;
      (split; [done|]); by apply (IH s). }
  split.
  - intros Ht. destruct t as [path names did [|]| | | | | | | | | | | |]; try constructor;
      try done; apply Hch in Ht as (s & Hs & Hg); try done; by eapply mg_child.
  - intros Hm. destruct t as [path names did [|]| | | | | | | | | | | |]; try done;
      inversion Hm; subst; try done; apply Hch; eauto.
Qed.

(** ** Properties *)

(** A function counts as generic exactly when a generic parameter occurs anywhere in
    the components of one of its inputs or of its output, however deeply nested in
    tuples, slices, pointers, references and path arguments. *)
Lemma generic_functions_are_found (self : ApiFunction) :
  _is_generic_function self = true <->
  exists ty, (ty ∈ inputs self \/ output self = Some ty) /\ mentions_generic ty.
Proof.
  unfold _is_generic_function. setoid_rewrite <- is_generic_type_spec.
  destruct (existsb _is_generic_type (inputs self)) eqn:He.
  - split; [intros _|done]. apply existsb_exists_elem in He as (ty & ? & ?). eauto.
  - assert (Hno := proj1 (existsb_false_elem _ _) He).
    split.
    + destruct (output self) as [ty|]; [|done]. destruct (_is_generic_type ty) eqn:Hty; [|done].
      intros _. exists ty. auto.
    + intros (ty & [Hin|Hout] & Hty); [by rewrite Hno in Hty|]. by rewrite Hout, Hty.
Qed.
