(* ===== verification/ApiSequence.v ===== *)
(** Call sequences ([fuzz_target/api_sequence.rs]): the data of a fuzz target, the
    operations that build it, and the merge of sequences. *)

From S2P Require Import Prelude RustStd CleanTypes CallTypes PreludeTypes.
From S2P Require Import FuzzableTypes.

(** [enum ApiType] of [api_graph.rs]. *)
Inductive ApiType := ApiType_BareFunction.
#[export] Instance ApiType_eq_dec : EqDecision ApiType.
Proof. solve_decision. Defined.

Module ParamType.
Inductive ParamType := _FunctionReturn | _FuzzableType.
#[export] Instance eq_dec : EqDecision ParamType.
Proof. solve_decision. Defined.
End ParamType.
Export (hints) ParamType.
Abbreviation ParamType := ParamType.ParamType.

Record ApiCall := mk_ApiCall {
  func : ApiType * nat;
  params : list (ParamType * nat * CallType)
}.
#[export] Instance ApiCall_eq_dec : EqDecision ApiCall.
Proof. solve_decision. Defined.

Definition ApiCall_new_without_params (api_type : ApiType) (index : nat) : ApiCall :=
  {| func := (api_type, index); params := [] |}.

Definition ApiCall_new (fun_index : nat) : ApiCall :=
  {| func := (ApiType_BareFunction, fun_index); params := [] |}.

Definition _add_param (self : ApiCall) (param_type : ParamType) (param_index : nat)
    (call_type : CallType) : ApiCall :=
  {| func := func self; params := params self ++ [(param_type, param_index, call_type)] |}.

Record ApiSequence := mk_ApiSequence {
  functions : list ApiCall;
  fuzzable_params : list FuzzableType;
  _using_traits : list string;
  _unsafe_tag : bool;
  _moved : gset nat;
  _fuzzable_mut_tag : gset nat;
  _function_mut_tag : gset nat;
  _covered_dependencies : gset nat
}.
#[export] Instance ApiSequence_eq_dec : EqDecision ApiSequence.
Proof. solve_decision. Defined.

Definition ApiSequence_new : ApiSequence :=
  {| functions := []; fuzzable_params := []; _using_traits := []; _unsafe_tag := false;
     _moved := ∅; _fuzzable_mut_tag := ∅; _function_mut_tag := ∅;
     _covered_dependencies := ∅ |}.

Section impl_ApiSequence.
Variable self : ApiSequence.

(** ** Updates *)

(** [self.functions.push(api_call)]. *)
Definition _add_fn (api_call : ApiCall) : ApiSequence :=
  {| functions := functions self ++ [api_call]; fuzzable_params := fuzzable_params self;
     _using_traits := _using_traits self; _unsafe_tag := _unsafe_tag self;
     _moved := _moved self; _fuzzable_mut_tag := _fuzzable_mut_tag self;
     _function_mut_tag := _function_mut_tag self;
     _covered_dependencies := _covered_dependencies self |}.

(** [self.fuzzable_params.push(fuzzable_type)]. *)
Definition push_fuzzable (fuzzable_type : FuzzableType) : ApiSequence :=
  {| functions := functions self; fuzzable_params := fuzzable_params self ++ [fuzzable_type];
     _using_traits := _using_traits self; _unsafe_tag := _unsafe_tag self;
     _moved := _moved self; _fuzzable_mut_tag := _fuzzable_mut_tag self;
     _function_mut_tag := _function_mut_tag self;
     _covered_dependencies := _covered_dependencies self |}.

Definition _add_dependency (dependency : nat) : ApiSequence :=
  {| functions := functions self; fuzzable_params := fuzzable_params self;
     _using_traits := _using_traits self; _unsafe_tag := _unsafe_tag self;
     _moved := _moved self; _fuzzable_mut_tag := _fuzzable_mut_tag self;
     _function_mut_tag := _function_mut_tag self;
     _covered_dependencies := {[dependency]} ∪ _covered_dependencies self |}.

Definition _insert_move_index (index : nat) : ApiSequence :=
  {| functions := functions self; fuzzable_params := fuzzable_params self;
     _using_traits := _using_traits self; _unsafe_tag := _unsafe_tag self;
     _moved := {[index]} ∪ _moved self; _fuzzable_mut_tag := _fuzzable_mut_tag self;
     _function_mut_tag := _function_mut_tag self;
     _covered_dependencies := _covered_dependencies self |}.

Definition _insert_fuzzable_mut_tag (index : nat) : ApiSequence :=
  {| functions := functions self; fuzzable_params := fuzzable_params self;
     _using_traits := _using_traits self; _unsafe_tag := _unsafe_tag self;
     _moved := _moved self; _fuzzable_mut_tag := {[index]} ∪ _fuzzable_mut_tag self;
     _function_mut_tag := _function_mut_tag self;
     _covered_dependencies := _covered_dependencies self |}.

Definition _insert_function_mut_tag (index : nat) : ApiSequence :=
  {| functions := functions self; fuzzable_params := fuzzable_params self;
     _using_traits := _using_traits self; _unsafe_tag := _unsafe_tag self;
     _moved := _moved self; _fuzzable_mut_tag := _fuzzable_mut_tag self;
     _function_mut_tag := {[index]} ∪ _function_mut_tag self;
     _covered_dependencies := _covered_dependencies self |}.

Definition set_unsafe : ApiSequence :=
  {| functions := functions self; fuzzable_params := fuzzable_params self;
     _using_traits := _using_traits self; _unsafe_tag := true;
     _moved := _moved self; _fuzzable_mut_tag := _fuzzable_mut_tag self;
     _function_mut_tag := _function_mut_tag self;
     _covered_dependencies := _covered_dependencies self |}.

Definition add_trait (trait_full_path : string) : ApiSequence :=
  {| functions := functions self; fuzzable_params := fuzzable_params self;
     _using_traits := _using_traits self ++ [trait_full_path]; _unsafe_tag := _unsafe_tag self;
     _moved := _moved self; _fuzzable_mut_tag := _fuzzable_mut_tag self;
     _function_mut_tag := _function_mut_tag self;
     _covered_dependencies := _covered_dependencies self |}.

Definition _add_fn_without_params (api_type : ApiType) (index : nat) : ApiSequence :=
  _add_fn (ApiCall_new_without_params api_type index).

(** ** Queries *)

Definition len : nat := length (functions self).

Definition _has_no_fuzzables : bool :=
  if length (fuzzable_params self) <=? 0 then true else false.

Definition _last_api_func_index : outcome (option nat) :=
  if len =? 0 then mret None
  else
    last_api_call ← unwrap (last (functions self));
    let '(api_type, index) := func last_api_call in
    match api_type with ApiType_BareFunction => mret (Some index) end.

Definition _contains_api_function (index : nat) : bool :=
  existsb (fun api_call => index =? (func api_call).2) (functions self).

Definition _get_contained_api_functions : list nat :=
  foldl (fun res api_call =>
    let '(_, func_index) := func api_call in
    if negb (existsb (Nat.eqb func_index) res) then res ++ [func_index] else res)
    [] (functions self).

Definition _is_moved (index : nat) : bool :=
  if decide (index ∈ _moved self) then true else false.
Definition _is_fuzzable_need_mut_tag (index : nat) : bool :=
  if decide (index ∈ _fuzzable_mut_tag self) then true else false.
Definition _is_function_need_mut_tag (index : nat) : bool :=
  if decide (index ∈ _function_mut_tag self) then true else false.

Definition _is_fuzzables_fixed_length : bool :=
  forallb FuzzableType._is_fixed_length (fuzzable_params self).

Definition _fuzzables_min_length : nat :=
  foldl (fun total_length fuzzable_param =>
    total_length + FuzzableType._min_length fuzzable_param) 0 (fuzzable_params self).

Definition _contains_multi_dynamic_length_fuzzable : bool :=
  existsb FuzzableType._is_multiple_dynamic_length (fuzzable_params self).

Definition _fuzzable_fixed_part_length : nat :=
  foldl (fun total_length fuzzable_param =>
    total_length + FuzzableType._fixed_part_length fuzzable_param) 0 (fuzzable_params self).

Definition sequence_dynamic_length_param_number : nat :=
  foldl (fun total_number fuzzable_param =>
    total_number + FuzzableType._dynamic_length_param_number fuzzable_param)
    0 (fuzzable_params self).

(** ** Merging *)

(** The new index of a parameter of the other sequence. *)
Definition shift_param (first_func_number first_fuzzable_number : nat)
    (p : ParamType * nat * CallType) : ParamType * nat * CallType :=
  let '(param_type, index, call_type) := p in
  let new_index :=
    match param_type with
    | ParamType._FuzzableType => index + first_fuzzable_number
    | ParamType._FunctionReturn => index + first_func_number
    end in
  (param_type, new_index, call_type).

Definition shift_call (first_func_number first_fuzzable_number : nat) (other_function : ApiCall)
    : ApiCall :=
  {| func := func other_function;
     params := List.map (shift_param first_func_number first_fuzzable_number)
                 (params other_function) |}.

(** A loop that inserts [tag + n] for every [tag] of a hash set. *)
Definition insert_shifted (n : nat) (tags res : gset nat) : gset nat :=
  set_map (fun tag => tag + n) tags ∪ res.

Definition _merge_another_sequence (other : ApiSequence) : ApiSequence :=
  let first_func_number := length (functions self) in
  let first_fuzzable_number := length (fuzzable_params self) in
  {| functions := functions self ++
       List.map (shift_call first_func_number first_fuzzable_number) (functions other);
     fuzzable_params := fuzzable_params self ++ fuzzable_params other;
     _using_traits := _using_traits self ++ _using_traits other;
     _unsafe_tag := if _unsafe_tag other then _unsafe_tag other else _unsafe_tag self;
     _moved := insert_shifted first_func_number (_moved other) (_moved self);
     _fuzzable_mut_tag :=
       insert_shifted first_fuzzable_number (_fuzzable_mut_tag other) (_fuzzable_mut_tag self);
     _function_mut_tag :=
       insert_shifted first_func_number (_function_mut_tag other) (_function_mut_tag self);
     _covered_dependencies := _covered_dependencies self |}.
End impl_ApiSequence.

Definition _merge_sequences (sequences : list ApiSequence) : outcome ApiSequence :=
  let sequences_len := length sequences in
  if sequences_len <=? 0 then mret ApiSequence_new
  else
    basic_sequence ← unwrap (head sequences);
    fold_loop (fun i basic_sequence =>
      other_sequence ← sequences.[i];
      mret (_merge_another_sequence basic_sequence other_sequence))
      (seq 1 (sequences_len - 1)) basic_sequence.

(** ** Lemmas *)

Lemma foldl_sum {A} (f : A -> nat) l acc :
  foldl (fun total x => total + f x) acc l = acc + sum_list_with f l.
Proof. revert acc. induction l as [|x l IH]; intros acc; cbn; [lia|]. rewrite IH. lia. Qed.

Lemma fuzzables_min_length_sum s :
  _fuzzables_min_length s = sum_list_with FuzzableType._min_length (fuzzable_params s).
Proof. exact (foldl_sum _ _ 0). Qed.
Lemma fuzzable_fixed_part_sum s :
  _fuzzable_fixed_part_length s =
  sum_list_with FuzzableType._fixed_part_length (fuzzable_params s).
Proof. exact (foldl_sum _ _ 0). Qed.
Lemma dynamic_length_number_sum s :
  sequence_dynamic_length_param_number s =
  sum_list_with FuzzableType._dynamic_length_param_number (fuzzable_params s).
Proof. exact (foldl_sum _ _ 0). Qed.

(** [_get_contained_api_functions] lists the called functions without repetition. *)
Lemma contained_functions_spec s :
  NoDup (_get_contained_api_functions s) /\
  forall i, i ∈ _get_contained_api_functions s <->
    exists c, c ∈ functions s /\ (func c).2 = i.
Proof.
  unfold _get_contained_api_functions.
  assert (Hgen : forall cs acc, NoDup acc ->
    let l := foldl (fun res api_call =>
      let '(_, func_index) := func api_call in
      if negb (existsb (Nat.eqb func_index) res) then res ++ [func_index] else res) acc cs in
    NoDup l /\ forall i, i ∈ l <-> i ∈ acc \/ exists c, c ∈ cs /\ (func c).2 = i).
  { induction cs as [|c cs IH]; intros acc Hacc; cbn.
    { split; [done|]. set_solver. }
    destruct (func c) as [t k] eqn:Hc.
    assert (Hk : existsb (Nat.eqb k) acc = true <-> k ∈ acc).
    { rewrite existsb_exists. setoid_rewrite <- list_elem_of_In.
      split; [by intros (x & Hx & ->%Nat.eqb_eq)|]. intros. exists k. by rewrite Nat.eqb_refl. }
    destruct (existsb (Nat.eqb k) acc); cbn [negb].
    - destruct (IH acc Hacc) as [Hn Hin]. split; [exact Hn|]. intros i. rewrite Hin.
      split; [set_solver|]. intros [?|(c' & [->|?]%elem_of_cons & <-)]; [by left| |right; eauto].
      left. rewrite Hc. by apply Hk.
    - destruct (IH (acc ++ [k])) as [Hn Hin].
      { apply NoDup_app. split_and!; [done| |by apply NoDup_singleton].
        intros x Hx ->%list_elem_of_singleton. by apply Hk in Hx. }
      split; [exact Hn|]. intros i. rewrite Hin, elem_of_app, list_elem_of_singleton.
      setoid_rewrite elem_of_cons. split.
      + intros [[Hi|Hi]|(c' & Hc' & Hi)]; [by left|right|right; eauto].
        exists c. rewrite Hc. auto.
      + intros [Hi|(c' & [Hi|Hc'] & Hi')]; [auto| |eauto]. subst c'. rewrite Hc in Hi'. auto. }
  destruct (Hgen (functions s) [] (NoDup_nil_2)) as [Hn Hin]. split; [exact Hn|].
  intros i. rewrite Hin. set_solver.
Qed.

Lemma last_api_func_returns s (Q : option nat -> Prop) :
  (forall c, last (functions s) = Some c -> Q (Some (func c).2)) ->
  (functions s = [] -> Q None) ->
  returns (_last_api_func_index s) Q.
Proof.
  intros Hs Hn. unfold _last_api_func_index, len.
  destruct (functions s) as [|c cs] eqn:Hf; [by apply returns_ret, Hn|].
  cbn [length Nat.eqb]. rewrite <- Hf in Hs |- *.
  destruct (last (functions s)) as [c'|] eqn:Hl; [|apply last_None in Hl; congruence].
  eapply returns_bind_unwrap; [done|]. specialize (Hs c' eq_refl).
  destruct (func c') as [[] i]. by apply returns_ret.
Qed.
