(* ===== verification/ApiGraph.v ===== *)
(** The graph of functions and dependencies ([fuzz_target/api_graph.rs], the data, the
    filters, the search for dependencies and the extension of a sequence by a call). *)

From S2P Require Import Prelude RustStd CleanTypes CallTypes PreludeTypes.
From S2P Require Import FuzzableTypes ApiUtil ModVisibility ApiFunction ApiSequence.

Record ApiDependency := mk_ApiDependency {
  output_fun : ApiType * nat;
  input_fun : ApiType * nat;
  input_param_index : nat;
  dep_call_type : CallType
}.
#[export] Instance ApiDependency_eq_dec : EqDecision ApiDependency.
Proof. solve_decision. Defined.

Record ApiGraph := mk_ApiGraph {
  _crate_name : string;
  api_functions : list ApiFunction;
  api_functions_visited : list bool;
  api_dependencies : list ApiDependency;
  api_sequences : list ApiSequence;
  full_name_map : FullNameMap;
  mod_visibility : ModVisibity;
  generic_functions : list GenericFunction;
  functions_with_unsupported_fuzzable_types : gset string
}.

Definition ApiGraph_new (crate_name_ : string) : ApiGraph :=
  {| _crate_name := crate_name_; api_functions := []; api_functions_visited := [];
     api_dependencies := []; api_sequences := []; full_name_map := FullNameMap_new;
     mod_visibility := ModVisibity_new crate_name_; generic_functions := [];
     functions_with_unsupported_fuzzable_types := ∅ |}.

(** The assignments to the fields of [self]. *)
Definition with_functions (g : ApiGraph) (fs : list ApiFunction) : ApiGraph :=
  {| _crate_name := _crate_name g; api_functions := fs;
     api_functions_visited := api_functions_visited g; api_dependencies := api_dependencies g;
     api_sequences := api_sequences g; full_name_map := full_name_map g;
     mod_visibility := mod_visibility g; generic_functions := generic_functions g;
     functions_with_unsupported_fuzzable_types :=
       functions_with_unsupported_fuzzable_types g |}.
Definition with_visited (g : ApiGraph) (visited : list bool) : ApiGraph :=
  {| _crate_name := _crate_name g; api_functions := api_functions g;
     api_functions_visited := visited; api_dependencies := api_dependencies g;
     api_sequences := api_sequences g; full_name_map := full_name_map g;
     mod_visibility := mod_visibility g; generic_functions := generic_functions g;
     functions_with_unsupported_fuzzable_types :=
       functions_with_unsupported_fuzzable_types g |}.
Definition with_dependencies (g : ApiGraph) (deps : list ApiDependency) : ApiGraph :=
  {| _crate_name := _crate_name g; api_functions := api_functions g;
     api_functions_visited := api_functions_visited g; api_dependencies := deps;
     api_sequences := api_sequences g; full_name_map := full_name_map g;
     mod_visibility := mod_visibility g; generic_functions := generic_functions g;
     functions_with_unsupported_fuzzable_types :=
       functions_with_unsupported_fuzzable_types g |}.
Definition with_sequences (g : ApiGraph) (sequences : list ApiSequence) : ApiGraph :=
  {| _crate_name := _crate_name g; api_functions := api_functions g;
     api_functions_visited := api_functions_visited g; api_dependencies := api_dependencies g;
     api_sequences := sequences; full_name_map := full_name_map g;
     mod_visibility := mod_visibility g; generic_functions := generic_functions g;
     functions_with_unsupported_fuzzable_types :=
       functions_with_unsupported_fuzzable_types g |}.

Definition set_full_name_map (g : ApiGraph) (m : FullNameMap) : ApiGraph :=
  {| _crate_name := _crate_name g; api_functions := api_functions g;
     api_functions_visited := api_functions_visited g; api_dependencies := api_dependencies g;
     api_sequences := api_sequences g; full_name_map := m;
     mod_visibility := mod_visibility g; generic_functions := generic_functions g;
     functions_with_unsupported_fuzzable_types :=
       functions_with_unsupported_fuzzable_types g |}.

Definition add_mod_visibility (g : ApiGraph) (mod_name : string) (visibility : Visibility)
    : ApiGraph :=
  {| _crate_name := _crate_name g; api_functions := api_functions g;
     api_functions_visited := api_functions_visited g; api_dependencies := api_dependencies g;
     api_sequences := api_sequences g; full_name_map := full_name_map g;
     mod_visibility := add_one_mod (mod_visibility g) mod_name visibility;
     generic_functions := generic_functions g;
     functions_with_unsupported_fuzzable_types :=
       functions_with_unsupported_fuzzable_types g |}.

Definition add_api_function (g : ApiGraph) (api_fun : ApiFunction) : ApiGraph :=
  if _is_generic_function api_fun then
    {| _crate_name := _crate_name g; api_functions := api_functions g;
       api_functions_visited := api_functions_visited g;
       api_dependencies := api_dependencies g; api_sequences := api_sequences g;
       full_name_map := full_name_map g; mod_visibility := mod_visibility g;
       generic_functions := generic_functions g ++ [GenericFunction_from api_fun];
       functions_with_unsupported_fuzzable_types :=
         functions_with_unsupported_fuzzable_types g |}
  else if contains_unsupported_fuzzable_type api_fun (full_name_map g) then
    {| _crate_name := _crate_name g; api_functions := api_functions g;
       api_functions_visited := api_functions_visited g;
       api_dependencies := api_dependencies g; api_sequences := api_sequences g;
       full_name_map := full_name_map g; mod_visibility := mod_visibility g;
       generic_functions := generic_functions g;
       functions_with_unsupported_fuzzable_types :=
         {[full_name api_fun]} ∪ functions_with_unsupported_fuzzable_types g |}
  else with_functions g (api_functions g ++ [api_fun]).

(** ** Filters *)
Section filters.
Context `{HashOrder}.

Definition filter_functions_defined_on_prelude_type (g : ApiGraph) : ApiGraph :=
  let prelude_types := get_all_preluded_type in
  if size prelude_types <=? 0 then g
  else
    with_functions g
      (List.filter (fun api_function =>
         is_defined_on_prelude_type api_function (hash_order 3 prelude_types))
       (api_functions g)).

(** The inner loop over the invisible modules, with its [break]s. *)
Definition invisible_flag (api_func : ApiFunction) (invisible_mods : list string) : bool :=
  existsb (fun invisible_mod =>
    starts_with (full_name api_func) invisible_mod
    || match _trait_full_path api_func with
       | Some trait_name_ => starts_with trait_name_ invisible_mod
       | None => false
       end) invisible_mods.

Definition filter_api_functions_by_mod_visibility (g : ApiGraph) : outcome ApiGraph :=
  invisible_mods ← get_invisible_mods (mod_visibility g);
  if length invisible_mods <=? 0 then mret g
  else
    mret (with_functions g
      (List.filter (fun api_func => negb (invisible_flag api_func invisible_mods))
        (api_functions g))).

Definition filter_functions (g : ApiGraph) : outcome ApiGraph :=
  filter_api_functions_by_mod_visibility (filter_functions_defined_on_prelude_type g).
End filters.

(** ** Dependencies *)

(** The loop over the parameters of the second function. *)
Definition dependencies_of_params (g : ApiGraph) (i j : nat) (output_type : Type_)
    (input_params : list Type_) : outcome (list ApiDependency) :=
  fold_loop (fun k deps =>
    input_param ← input_params.[k];
    let call_type := _same_type (full_name_map g) output_type input_param true in
    match call_type with
    | _NotCompatible => mret deps
    | _ =>
        mret (deps ++ [{| output_fun := (ApiType_BareFunction, i);
                          input_fun := (ApiType_BareFunction, j);
                          input_param_index := k; dep_call_type := call_type |}])
    end) (seq 0 (length input_params)) [].

(** The loop over the second functions. *)
Definition dependencies_of_output (g : ApiGraph) (i : nat) (output_type : Type_)
    : outcome (list ApiDependency) :=
  fold_loop (fun j deps =>
    second_fun ← (api_functions g).[j];
    if _is_start_function second_fun (full_name_map g) then mret deps
    else
      new ← dependencies_of_params g i j output_type (inputs second_fun);
      mret (deps ++ new)) (seq 0 (length (api_functions g))) [].

Definition find_all_dependencies (g : ApiGraph) : outcome ApiGraph :=
  deps ← fold_loop (fun i deps =>
    first_fun ← (api_functions g).[i];
    if _is_end_function first_fun (full_name_map g) then mret deps
    else
      match output first_fun with
      | Some ty_ => new ← dependencies_of_output g i ty_; mret (deps ++ new)
      | None => mret deps
      end) (seq 0 (length (api_functions g))) [];
  mret (with_dependencies g deps).

(** ** Visited functions *)

Definition reset_visited (g : ApiGraph) : ApiGraph :=
  with_visited g (replicate (length (api_functions g)) false).

Definition CAN_COVER_NODES : gmap string nat :=
  {["regex" := 96; "serde_json" := 41; "clap" := 66]}.

Definition check_all_visited (g : ApiGraph) : bool :=
  let visited_nodes :=
    foldl (fun visited_nodes visited =>
      if visited : bool then visited_nodes + 1 else visited_nodes) 0 (api_functions_visited g) in
  match CAN_COVER_NODES !! _crate_name g with
  | Some to_cover_nodes => if visited_nodes =? to_cover_nodes then true else false
  | None => if visited_nodes =? length (api_functions_visited g) then true else false
  end.

Definition _visited_nodes_num (g : ApiGraph) : nat :=
  length (List.filter (fun x => bool_decide (x = true)) (api_functions_visited g)).

(** ** Extension of a sequence *)

(** The index of the first dependency equal to the given one up to its call type. *)
Fixpoint check_dependency_loop (deps : list ApiDependency) (index : nat)
    (out_fun in_fun : ApiType * nat) (param_index : nat) : option nat :=
  match deps with
  | [] => None
  | dependency :: rest =>
      let tmp_dependency :=
        {| output_fun := out_fun; input_fun := in_fun; input_param_index := param_index;
           dep_call_type := dep_call_type dependency |} in
      if decide (tmp_dependency = dependency) then Some index
      else check_dependency_loop rest (S index) out_fun in_fun param_index
  end.

Definition check_dependency (g : ApiGraph) (output_type : ApiType) (output_index : nat)
    (input_type : ApiType) (input_index input_param_index_ : nat) : option nat :=
  check_dependency_loop (api_dependencies g) 0 (output_type, output_index)
    (input_type, input_index) input_param_index_.

Definition is_sequence_ended (g : ApiGraph) (api_sequence : ApiSequence) : outcome bool :=
  match last (functions api_sequence) with
  | None => mret false
  | Some api_call =>
      let '(api_type, index) := func api_call in
      match api_type with
      | ApiType_BareFunction =>
          last_func ← (api_functions g).[index];
          mret (if _is_end_function last_func (full_name_map g) then true else false)
      end
  end.

(** The local variables of [is_fun_satisfied]. *)
Record satisfy_state := mk_satisfy {
  new_sequence : ApiSequence;
  api_call : ApiCall;
  _moved_indexes : gset nat;
  _multi_mut : gset nat;
  _immutable_borrow : gset nat
}.

Section is_fun_satisfied.
Variable g : ApiGraph.
Variable input_type : ApiType.
Variable input_fun_index : nat.

(** A parameter that can be decoded from bytes; [None] is the early [return None]. *)
Definition satisfy_fuzzable (current_ty : Type_) (st : satisfy_state) : option satisfy_state :=
  let current_fuzzable_index := length (fuzzable_params (new_sequence st)) in
  let '(fuzzable_type, call_type) :=
    generate_fuzzable_type_and_call_type (fuzzable_call_type current_ty (full_name_map g)) in
  if FuzzableType.is_NoFuzzable fuzzable_type then None
  else
    let sequence :=
      if _need_mut_tag call_type
      then _insert_fuzzable_mut_tag (new_sequence st) current_fuzzable_index
      else new_sequence st in
    Some {| new_sequence := push_fuzzable sequence fuzzable_type;
            api_call := _add_param (api_call st) ParamType._FuzzableType
                          current_fuzzable_index call_type;
            _moved_indexes := _moved_indexes st; _multi_mut := _multi_mut st;
            _immutable_borrow := _immutable_borrow st |}.

(** The body of the loop over the functions of the sequence, after a dependency with
    call type [call_type] has been found: [Next] is a [continue], [Break] a [break]. *)
Definition use_dependency (current_ty : Type_) (function_index dependency_index : nat)
    (call_type : CallType) (st : satisfy_state)
    : flow (satisfy_state * bool) Empty_set :=
  let sequence := _add_dependency (new_sequence st) dependency_index in
  let already_borrowed :=
    bool_decide (function_index ∈ _multi_mut st)
    || bool_decide (function_index ∈ _immutable_borrow st) in
  let st := {| new_sequence := sequence; api_call := api_call st;
               _moved_indexes := _moved_indexes st; _multi_mut := _multi_mut st;
               _immutable_borrow := _immutable_borrow st |} in
  if _move_condition current_ty call_type && already_borrowed then Next (st, false)
  else
    let moved_indexes :=
      if _move_condition current_ty call_type then {[function_index]} ∪ _moved_indexes st
      else _moved_indexes st in
    let st := {| new_sequence := sequence; api_call := api_call st;
                 _moved_indexes := moved_indexes; _multi_mut := _multi_mut st;
                 _immutable_borrow := _immutable_borrow st |} in
    if _is_mutable_borrow_occurs current_ty call_type && already_borrowed
    then Next (st, false)
    else
      let multi_mut :=
        if _is_mutable_borrow_occurs current_ty call_type
        then {[function_index]} ∪ _multi_mut st else _multi_mut st in
      let st := {| new_sequence := sequence; api_call := api_call st;
                   _moved_indexes := moved_indexes; _multi_mut := multi_mut;
                   _immutable_borrow := _immutable_borrow st |} in
      if _is_immutable_borrow_occurs current_ty call_type
         && bool_decide (function_index ∈ multi_mut)
      then Next (st, false)
      else
        let immutable_borrow :=
          if _is_immutable_borrow_occurs current_ty call_type
          then {[function_index]} ∪ _immutable_borrow st else _immutable_borrow st in
        let sequence :=
          if _need_mut_tag call_type then _insert_function_mut_tag sequence function_index
          else sequence in
        let sequence :=
          if ApiUnsafety._is_unsafe (unsafe_call_type call_type) then set_unsafe sequence
          else sequence in
        Break ({| new_sequence := sequence;
                  api_call := _add_param (api_call st) ParamType._FunctionReturn
                                function_index call_type;
                  _moved_indexes := moved_indexes; _multi_mut := multi_mut;
                  _immutable_borrow := immutable_borrow |}, true).

(** The body of the loop over the functions of the sequence. *)
Definition satisfy_by_function (current_ty : Type_) (i : nat) (function_index : nat)
    (s : satisfy_state * bool) : outcome (flow (satisfy_state * bool) Empty_set) :=
  let '(st, dependency_flag) := s in
  if _is_moved (new_sequence st) function_index
     || bool_decide (function_index ∈ _moved_indexes st)
  then mret (Next (st, dependency_flag))
  else
    found_function ← (functions (new_sequence st)).[function_index];
    let '(api_type, index) := func found_function in
    match check_dependency g api_type index input_type input_fun_index i with
    | None => mret (Next (st, dependency_flag))
    | Some dependency_index =>
        dependency_ ← (api_dependencies g).[dependency_index];
        mret (use_dependency current_ty function_index dependency_index
                (dep_call_type dependency_) st)
    end.

(** The body of the loop over the parameters. *)
Definition satisfy_param (input_params : list Type_) (functions_in_sequence_len : nat)
    (i : nat) (st : satisfy_state) : outcome (flow satisfy_state (option ApiSequence)) :=
  current_ty ← input_params.[i];
  if is_fuzzable_type current_ty (full_name_map g) then
    match satisfy_fuzzable current_ty st with
    | None => mret (Return None)
    | Some st => mret (Next st)
    end
  else
    r ← run_loop (satisfy_by_function current_ty i) (seq 0 functions_in_sequence_len)
          (st, false);
    let '(st, dependency_flag) := (r : satisfy_state * bool) in
    if negb dependency_flag then mret (Return None) else mret (Next st).

(** [for move_index in _moved_indexes { new_sequence._insert_move_index(move_index) }]. *)
Definition insert_moves (moves : gset nat) (s : ApiSequence) : ApiSequence :=
  {| functions := functions s; fuzzable_params := fuzzable_params s;
     _using_traits := _using_traits s; _unsafe_tag := ApiSequence._unsafe_tag s;
     _moved := moves ∪ _moved s; _fuzzable_mut_tag := _fuzzable_mut_tag s;
     _function_mut_tag := _function_mut_tag s;
     _covered_dependencies := _covered_dependencies s |}.

(** The new sequence before the loop over the parameters. *)
Definition start_sequence (input_function : ApiFunction) (sequence : ApiSequence)
    : ApiSequence :=
  let new_sequence :=
    if ApiUnsafety._is_unsafe (ApiFunction._unsafe_tag input_function)
    then set_unsafe sequence else sequence in
  match _trait_full_path input_function with
  | Some trait_full_path => add_trait new_sequence trait_full_path
  | None => new_sequence
  end.

Definition is_fun_satisfied (sequence : ApiSequence) : outcome (option ApiSequence) :=
  match input_type with
  | ApiType_BareFunction =>
      input_function ← (api_functions g).[input_fun_index];
      let new_sequence := start_sequence input_function sequence in
      let api_call := ApiCall_new input_fun_index in
      let input_params := inputs input_function in
      let input_params_num := length input_params in
      if input_params_num =? 0 then mret (Some (_add_fn new_sequence api_call))
      else
        r ← for_loop (satisfy_param input_params (length (functions sequence)))
              (seq 0 input_params_num)
              {| new_sequence := new_sequence; api_call := api_call;
                 _moved_indexes := ∅; _multi_mut := ∅; _immutable_borrow := ∅ |};
        match (r : satisfy_state + option ApiSequence) with
        | inr res => mret res
        | inl st =>
            let new_sequence := _add_fn (ApiGraph.new_sequence st) (ApiGraph.api_call st) in
            let new_sequence := insert_moves (_moved_indexes st) new_sequence in
            if _contains_multi_dynamic_length_fuzzable new_sequence then mret None
            else mret (Some new_sequence)
        end
  end.
End is_fun_satisfied.
