(* ===== verification/Samples.v ===== *)
(** A small crate, used to instantiate the theorems: a type with a constructor, two
    methods that borrow it, one that consumes it, and a module. *)

From S2P Require Import Prelude RustStd CleanTypes CallTypes PreludeTypes.
From S2P Require Import FuzzableTypes ApiUtil ModVisibility ApiFunction ApiSequence.
From S2P Require Import ItemSamples ApiGraph.

Definition sample_function (name : string) (ins : list Type_) (out : option Type_)
    : ApiFunction :=
  {| full_name := name; generics := no_generics;
     inputs := ins; output := out; _trait_full_path := None;
     ApiFunction._unsafe_tag := ApiUnsafety.Normal |}.

Definition sample_functions : list ApiFunction :=
  [ sample_function "c::T::new" [Primitive PrimitiveType.U16] (Some sample_type);
    sample_function "c::T::get" [BorrowedRef None Not sample_type]
      (Some (Primitive PrimitiveType.U8));
    sample_function "c::T::set" [BorrowedRef None Mut sample_type;
      BorrowedRef None Not (Primitive PrimitiveType.Str)] None;
    sample_function "c::T::merge" [sample_type; sample_type] (Some sample_type) ].

(** The functions are added as the crate is read, then the dependencies are searched. *)
Definition sample_base : ApiGraph :=
  foldl add_api_function
    (set_full_name_map (ApiGraph_new "c")
      (push_mapping FullNameMap_new sample_did "c::T" ItemType.Struct))
    sample_functions.

Definition ret_or {A} (default : A) (o : outcome A) : A :=
  match o with Ret a => a | _ => default end.

Definition sample_graph : ApiGraph := ret_or sample_base (find_all_dependencies sample_base).

(** [new; get], [new; set] and [new; new; merge], as the search builds them. *)
Definition sample_extend (s : ApiSequence) (fi : nat) : ApiSequence :=
  default s (ret_or None (is_fun_satisfied sample_graph ApiType_BareFunction fi s)).
Definition sample_new : ApiSequence := sample_extend ApiSequence_new 0.
Definition sample_get : ApiSequence := sample_extend sample_new 1.
Definition sample_set : ApiSequence := sample_extend sample_new 2.
Definition sample_merge : ApiSequence := sample_extend (sample_extend sample_new 0) 3.

Example sample_dependencies : length (api_dependencies sample_graph) = 8.
Proof. vm_compute. reflexivity. Qed.

Example sample_lengths :
  (len sample_new, len sample_get, len sample_set, len sample_merge) = (1, 2, 2, 3).
Proof. vm_compute. reflexivity. Qed.
