(* ===== verification/SequenceWf.v ===== *)
(** Well-formed dependencies and sequences: the contract between the search, which
    extends and merges sequences, and the emission of code, which prints them. *)

From S2P Require Import Prelude RustStd CleanTypes CallTypes PreludeTypes.
From S2P Require Import FuzzableTypes ApiUtil ModVisibility ApiFunction ApiSequence.
From S2P Require Import ApiGraph.

(** ** Dependencies *)

(** A dependency names a function with an output, a parameter of a function, and the
    call type that makes the output fit the parameter. *)
Definition dep_ok (g : ApiGraph) (d : ApiDependency) : Prop :=
  exists f1 f2 T I,
    api_functions g !! (output_fun d).2 = Some f1 /\ output f1 = Some T /\
    api_functions g !! (input_fun d).2 = Some f2 /\
    inputs f2 !! input_param_index d = Some I /\
    dep_call_type d = _same_type (full_name_map g) T I true /\
    dep_call_type d <> _NotCompatible.

Definition deps_ok (g : ApiGraph) : Prop := Forall (dep_ok g) (api_dependencies g).

(** ** Uses of returned values in one call *)

Definition use_of (p : ParamType * nat * CallType) (I : Type_)
    : option (nat * (Type_ * CallType)) :=
  match p with
  | (ParamType._FunctionReturn, x, ct) => Some (x, (I, ct))
  | (ParamType._FuzzableType, _, _) => None
  end.

Definition call_uses (ps : list (ParamType * nat * CallType)) (tys : list Type_)
    : list (nat * (Type_ * CallType)) :=
  omap (fun p => use_of p.1 p.2) (zip ps tys).

Definition use_moves (u : Type_ * CallType) : bool := _move_condition u.1 u.2.
Definition use_borrows_mut (u : Type_ * CallType) : bool := _is_mutable_borrow_occurs u.1 u.2.
Definition use_borrows (u : Type_ * CallType) : bool := _is_immutable_borrow_occurs u.1 u.2.

(** What Rust asks of two uses of the same value in the arguments of one call: nothing
    after a move, no other borrow and no move next to a mutable borrow, no move of a
    borrowed value. *)
Definition uses_compatible (u1 u2 : Type_ * CallType) : Prop :=
  use_moves u1 = false /\
  (use_borrows_mut u1 = true ->
   use_moves u2 = false /\ use_borrows_mut u2 = false /\ use_borrows u2 = false) /\
  (use_borrows u1 = true -> use_moves u2 = false /\ use_borrows_mut u2 = false).

Definition uses_ok (us : list (nat * (Type_ * CallType))) : Prop :=
  forall i j x u1 u2, i < j -> us !! i = Some (x, u1) -> us !! j = Some (x, u2) ->
    uses_compatible u1 u2.

(** ** Sequences *)

Section wf.
Variable g : ApiGraph.

(** A parameter of the [k]-th call of [s], for an input of type [I]: decoded from a
    fuzzable parameter of the right type, or, if [I] cannot be decoded, the result of an
    earlier call that is compatible with [I]; with the tags it needs. *)
Definition param_ok (s : ApiSequence) (k : nat) (p : ParamType * nat * CallType) (I : Type_)
    : Prop :=
  match p with
  | (ParamType._FuzzableType, idx, ct) =>
      exists ft, fuzzable_params s !! idx = Some ft /\
        generate_fuzzable_type_and_call_type (fuzzable_call_type I (full_name_map g)) = (ft, ct) /\
        ft <> FuzzableType.NoFuzzable /\
        (_need_mut_tag ct = true -> idx ∈ _fuzzable_mut_tag s)
  | (ParamType._FunctionReturn, idx, ct) =>
      idx < k /\
      (exists c f T, functions s !! idx = Some c /\
        api_functions g !! (func c).2 = Some f /\ output f = Some T /\
        ct = _same_type (full_name_map g) T I true /\ ct <> _NotCompatible) /\
      (_need_mut_tag ct = true -> idx ∈ _function_mut_tag s) /\
      (unsafe_call_type ct = ApiUnsafety.Unsafe -> ApiSequence._unsafe_tag s = true) /\
      is_fuzzable_type I (full_name_map g) = false
  end.

Definition call_ok (s : ApiSequence) (k : nat) (c : ApiCall) : Prop :=
  exists f, api_functions g !! (func c).2 = Some f /\
    Forall2 (param_ok s k) (params c) (inputs f) /\
    uses_ok (call_uses (params c) (inputs f)) /\
    (ApiFunction._unsafe_tag f = ApiUnsafety.Unsafe -> ApiSequence._unsafe_tag s = true) /\
    (forall t, _trait_full_path f = Some t -> t ∈ _using_traits s).

(** The [k]-th call uses (moves) the value returned by the call [x]. *)
Definition uses_value (s : ApiSequence) (k x : nat) : Prop :=
  exists c f u, functions s !! k = Some c /\ api_functions g !! (func c).2 = Some f /\
    (x, u) ∈ call_uses (params c) (inputs f).
Definition moves_value (s : ApiSequence) (k x : nat) : Prop :=
  exists c f u, functions s !! k = Some c /\ api_functions g !! (func c).2 = Some f /\
    (x, u) ∈ call_uses (params c) (inputs f) /\ use_moves u = true.

(** The fuzzable parameters that the calls use, in order. *)
Definition fuzz_index (p : ParamType * nat * CallType) : option nat :=
  match p with
  | (ParamType._FuzzableType, idx, _) => Some idx
  | (ParamType._FunctionReturn, _, _) => None
  end.
Definition call_fuzzables (c : ApiCall) : list nat := omap fuzz_index (params c).
Definition fuzz_indices (s : ApiSequence) : list nat := functions s ≫= call_fuzzables.

Record wf_sequence (s : ApiSequence) : Prop := {
  wf_calls : forall k c, functions s !! k = Some c -> call_ok s k c;
  wf_moved : forall x, x ∈ _moved s <-> exists k, moves_value s k x;
  wf_use_after_move : forall k1 k2 x, k1 < k2 -> moves_value s k1 x -> ~ uses_value s k2 x;
  wf_fuzzables : fuzz_indices s = seq 0 (length (fuzzable_params s));
  wf_dynamic : _contains_multi_dynamic_length_fuzzable s = false;
  wf_covered : forall d, d ∈ _covered_dependencies s -> d < length (api_dependencies g)
}.

(** [s'] continues [s]. *)
Record extends (s s' : ApiSequence) : Prop := {
  ext_functions : functions s `prefix_of` functions s';
  ext_fuzzables : fuzzable_params s `prefix_of` fuzzable_params s';
  ext_unsafe : ApiSequence._unsafe_tag s = true -> ApiSequence._unsafe_tag s' = true;
  ext_traits : _using_traits s ⊆ _using_traits s';
  ext_fuzzable_mut : _fuzzable_mut_tag s ⊆ _fuzzable_mut_tag s';
  ext_function_mut : _function_mut_tag s ⊆ _function_mut_tag s'
}.
End wf.

Create HintDb wf discriminated.

#[export] Instance extends_preorder : PreOrder extends.
Proof.
  split.
  - intros s. by split.
  - intros s1 s2 s3 [] []. split; try (by etrans); auto.
Qed.

Section lemmas.
Context (g : ApiGraph).

Lemma param_ok_extends s s' k p I : extends s s' -> param_ok g s k p I -> param_ok g s' k p I.
Proof.
  intros [Hf Hz Hu Ht Hm1 Hm2]. destruct p as [[[] idx] ct]; cbn.
  - intros (Hk & (c & f & T & Hc & Hrest) & Hmut & Huns & Hnf).
    split_and!; [done| |intros; by apply Hm2, Hmut|by auto|done].
    exists c, f, T. split; [eapply prefix_lookup_Some; [exact Hc|exact Hf]|done].
  - intros (ft & Hft & Hgen & Hne & Hmut). exists ft.
    split_and!; [eapply prefix_lookup_Some; [exact Hft|exact Hz]|done|done|intros; by apply Hm1, Hmut].
Qed.

Lemma call_ok_extends s s' k c : extends s s' -> call_ok g s k c -> call_ok g s' k c.
Proof.
  intros He (f & Hf & Hps & Hus & Hun & Htr). exists f. split_and!; try done.
  - eapply Forall2_impl; [exact Hps|]. intros p I. by apply param_ok_extends.
  - intros. by apply (ext_unsafe _ _ He), Hun.
  - intros. by apply (ext_traits _ _ He), Htr.
Qed.

Lemma call_uses_snoc ps tys p I :
  length ps = length tys ->
  call_uses (ps ++ [p]) (tys ++ [I]) = call_uses ps tys ++ option_list (use_of p I).
Proof.
  intros Hlen. unfold call_uses.
  assert (zip (ps ++ [p]) (tys ++ [I]) = zip ps tys ++ [(p, I)]) as ->.
  { revert tys Hlen. induction ps as [|q ps IH]; intros [|ty tys] Hlen; try done.
    cbn. f_equal. apply IH. by injection Hlen. }
  rewrite omap_app. cbn. by destruct (use_of p I).
Qed.

Lemma uses_ok_snoc us x u :
  uses_ok us -> (forall u', (x, u') ∈ us -> uses_compatible u' u) -> uses_ok (us ++ [(x, u)]).
Proof.
  intros Hus Hnew i j y u1 u2 Hij Hi Hj.
  apply lookup_snoc_Some in Hj as [[Hlt Hj]|[-> [= <- <-]]].
  - rewrite lookup_app_l in Hi by lia. exact (Hus i j y u1 u2 Hij Hi Hj).
  - rewrite lookup_app_l in Hi by lia. by apply Hnew, (list_elem_of_lookup_2 _ i).
Qed.

Lemma uses_ok_nil : uses_ok [].
Proof. intros i j x u1 u2 _ Hi. by rewrite lookup_nil in Hi. Qed.

(** ** [check_dependency] *)

Lemma check_dependency_loop_spec deps index o i k n :
  check_dependency_loop deps index o i k = Some n ->
  exists d, index <= n /\ deps !! (n - index) = Some d /\ output_fun d = o /\ input_fun d = i /\
    input_param_index d = k.
Proof.
  revert index. induction deps as [|d deps IH]; intros index; cbn; [done|].
  case_decide as Hd.
  - intros [= <-]. exists d. rewrite Nat.sub_diag. destruct d; cbn in *. naive_solver.
  - intros (d' & Hle & Hn & Hrest)%IH. exists d'. split; [lia|]. split; [|done].
    replace (n - index) with (S (n - S index)) by lia. done.
Qed.

Lemma check_dependency_Some ot oi it ii k n :
  check_dependency g ot oi it ii k = Some n ->
  exists d, api_dependencies g !! n = Some d /\ output_fun d = (ot, oi) /\
    input_fun d = (it, ii) /\ input_param_index d = k.
Proof.
  intros (d & _ & Hn & Hrest)%check_dependency_loop_spec. exists d.
  rewrite Nat.sub_0_r in Hn. done.
Qed.

Lemma check_dependency_None ot oi it ii k :
  check_dependency g ot oi it ii k = None ->
  forall d, d ∈ api_dependencies g -> output_fun d = (ot, oi) -> input_fun d = (it, ii) ->
    input_param_index d = k -> False.
Proof.
  unfold check_dependency. generalize 0 as index.
  induction (api_dependencies g) as [|d deps IH]; intros index; cbn;
    [by intros _ ? ?%not_elem_of_nil|].
  case_decide as Hd; [done|]. intros Hn d' [->|Hin]%elem_of_cons; [|by eapply IH].
  intros Ho Hi Hk. apply Hd. destruct d; cbn in *. by subst.
Qed.
End lemmas.

Lemma new_wf g : wf_sequence g ApiSequence_new.
Proof.
  split; cbn.
  - intros k c Hc. by destruct k.
  - intros x. split; [set_solver|]. intros (k & c & f & u & Hc & _). by destruct k.
  - intros k1 k2 x _ (c & f & u & Hc & _). by destruct k1.
  - done.
  - done.
  - set_solver.
Qed.
