(* ===== verification/Satisfy.v ===== *)
(** Correctness of the graph: the dependencies found are exactly the compatible pairs,
    and a call added to a sequence keeps it well formed and respects moves and borrows. *)

From S2P Require Import Prelude RustStd CleanTypes CallTypes PreludeTypes.
From S2P Require Import FuzzableTypes ApiUtil CallTyping ModVisibility ApiFunction.
From S2P Require Import ApiSequence ApiGraph ItemSamples Samples SequenceWf.

(** A set of indices that records the uses with a property. *)
Lemma tag_step (P : Type_ * CallType -> bool) us x u (tags : gset nat) :
  (forall y, y ∈ tags <-> exists u', (y, u') ∈ us /\ P u' = true) ->
  forall y, y ∈ (if P u then {[x]} else ∅) ∪ tags <->
    exists u', (y, u') ∈ us ++ [(x, u)] /\ P u' = true.
Proof.
  intros Htags y. rewrite elem_of_union, Htags. setoid_rewrite elem_of_app.
  setoid_rewrite list_elem_of_singleton. split.
  - intros [Hy|(u' & Hu & HP)]; [|eauto]. destruct (P u) eqn:HP; [|set_solver].
    apply elem_of_singleton in Hy as ->. eauto.
  - intros (u' & [Hu|[= -> ->]] & HP); [eauto|]. rewrite HP. set_solver.
Qed.

(** ** The loop over the parameters of the new call *)
Section satisfy.
Context (g : ApiGraph) (fi : nat) (f : ApiFunction) (sequence : ApiSequence).
Context (Hf : api_functions g !! fi = Some f).
Context (Hdeps : deps_ok g).
Context (Hwf : wf_sequence g sequence).

Let n := length (functions sequence).

(** The state after the first [i] parameters. *)
Record progress (i : nat) (st : satisfy_state) : Prop := {
  pr_func : func (api_call st) = (ApiType_BareFunction, fi);
  pr_functions : functions (new_sequence st) = functions sequence;
  pr_moved : _moved (new_sequence st) = _moved sequence;
  pr_extends : extends (start_sequence f sequence) (new_sequence st);
  pr_params : Forall2 (param_ok g (new_sequence st) n) (params (api_call st))
                (take i (inputs f));
  pr_moves : forall x, x ∈ _moved_indexes st <->
    exists u, (x, u) ∈ call_uses (params (api_call st)) (take i (inputs f)) /\ use_moves u = true;
  pr_mut : forall x, x ∈ _multi_mut st <->
    exists u, (x, u) ∈ call_uses (params (api_call st)) (take i (inputs f)) /\
      use_borrows_mut u = true;
  pr_imm : forall x, x ∈ _immutable_borrow st <->
    exists u, (x, u) ∈ call_uses (params (api_call st)) (take i (inputs f)) /\
      use_borrows u = true;
  pr_uses : uses_ok (call_uses (params (api_call st)) (take i (inputs f)));
  pr_live : forall x u, (x, u) ∈ call_uses (params (api_call st)) (take i (inputs f)) ->
    x ∉ _moved sequence;
  pr_fuzzables : fuzz_indices sequence ++ call_fuzzables (api_call st) =
    seq 0 (length (fuzzable_params (new_sequence st)));
  pr_covered : forall d, d ∈ _covered_dependencies (new_sequence st) ->
    d < length (api_dependencies g)
}.

Lemma start_extends : extends sequence (start_sequence f sequence).
Proof.
  unfold start_sequence. destruct (ApiUnsafety._is_unsafe _), (_trait_full_path f);
    split; cbn; try done; set_solver.
Qed.

Lemma start_functions : functions (start_sequence f sequence) = functions sequence.
Proof. unfold start_sequence. by destruct (ApiUnsafety._is_unsafe _), (_trait_full_path f). Qed.
Lemma start_fuzzables :
  fuzzable_params (start_sequence f sequence) = fuzzable_params sequence.
Proof. unfold start_sequence. by destruct (ApiUnsafety._is_unsafe _), (_trait_full_path f). Qed.
Lemma start_moved : _moved (start_sequence f sequence) = _moved sequence.
Proof. unfold start_sequence. by destruct (ApiUnsafety._is_unsafe _), (_trait_full_path f). Qed.
Lemma start_covered :
  _covered_dependencies (start_sequence f sequence) = _covered_dependencies sequence.
Proof. unfold start_sequence. by destruct (ApiUnsafety._is_unsafe _), (_trait_full_path f). Qed.
Lemma start_unsafe :
  ApiFunction._unsafe_tag f = ApiUnsafety.Unsafe ->
  ApiSequence._unsafe_tag (start_sequence f sequence) = true.
Proof. intros H. unfold start_sequence. rewrite H. by destruct (_trait_full_path f). Qed.
Lemma start_trait t :
  _trait_full_path f = Some t -> t ∈ _using_traits (start_sequence f sequence).
Proof. intros H. unfold start_sequence. rewrite H. cbn. set_solver. Qed.

Lemma progress_start :
  progress 0 {| new_sequence := start_sequence f sequence; api_call := ApiCall_new fi;
                _moved_indexes := ∅; _multi_mut := ∅; _immutable_borrow := ∅ |}.
Proof using Hwf.
  clear Hf Hdeps. split; cbn;
    first [done | apply start_functions | apply start_moved | apply uses_ok_nil
          | rewrite start_fuzzables, app_nil_r; apply (wf_fuzzables _ _ Hwf)
          | rewrite start_covered; apply (wf_covered _ _ Hwf) | by constructor | intros x; set_solver].
Qed.

(** The dependency is recorded as covered before the use is accepted. *)
Lemma progress_covered i st d :
  progress i st -> d < length (api_dependencies g) ->
  progress i {| new_sequence := _add_dependency (new_sequence st) d; api_call := api_call st;
                _moved_indexes := _moved_indexes st; _multi_mut := _multi_mut st;
                _immutable_borrow := _immutable_borrow st |}.
Proof.
  intros [] Hd. split; cbn; try done.
  - destruct pr_extends0; by split.
  - set_solver.
Qed.

Lemma progress_length i st :
  progress i st -> i <= length (inputs f) -> length (params (api_call st)) = i.
Proof.
  intros Hp Hi. rewrite (Forall2_length _ _ _ (pr_params _ _ Hp)), length_take. lia.
Qed.

(** One more parameter, with the use it makes; [st'] is the new state. *)
Lemma progress_step i st st' I p :
  progress i st -> inputs f !! i = Some I ->
  func (api_call st') = func (api_call st) ->
  params (api_call st') = params (api_call st) ++ [p] ->
  functions (new_sequence st') = functions (new_sequence st) ->
  _moved (new_sequence st') = _moved (new_sequence st) ->
  extends (new_sequence st) (new_sequence st') ->
  param_ok g (new_sequence st') n p I ->
  match fuzz_index p with
  | None => fuzzable_params (new_sequence st') = fuzzable_params (new_sequence st)
  | Some idx => idx = length (fuzzable_params (new_sequence st)) /\
      length (fuzzable_params (new_sequence st')) = S idx
  end ->
  (forall d, d ∈ _covered_dependencies (new_sequence st') -> d < length (api_dependencies g)) ->
  match use_of p I with
  | None =>
      _moved_indexes st' = _moved_indexes st /\ _multi_mut st' = _multi_mut st /\
      _immutable_borrow st' = _immutable_borrow st
  | Some (x, u) =>
      (x ∉ _moved sequence) /\
      _moved_indexes st' = (if use_moves u then {[x]} else ∅) ∪ _moved_indexes st /\
      _multi_mut st' = (if use_borrows_mut u then {[x]} else ∅) ∪ _multi_mut st /\
      _immutable_borrow st' = (if use_borrows u then {[x]} else ∅) ∪ _immutable_borrow st /\
      (forall u', (x, u') ∈ call_uses (params (api_call st)) (take i (inputs f)) ->
         uses_compatible u' u)
  end ->
  progress (S i) st'.
Proof.
  intros Hp HI Hfn Hps Hfs Hmv Hext Hok Hfuzz Hcov Huse.
  assert (Hi : i < length (inputs f)) by (by apply lookup_lt_Some in HI).
  assert (Hlen : length (params (api_call st)) = length (take i (inputs f))).
  { rewrite length_take, (progress_length i st Hp); lia. }
  assert (Hus : call_uses (params (api_call st')) (take (S i) (inputs f)) =
    call_uses (params (api_call st)) (take i (inputs f)) ++ option_list (use_of p I)).
  { rewrite Hps, (take_S_r _ _ _ HI). by apply call_uses_snoc. }
  destruct Hp. split.
  - by rewrite Hfn.
  - by rewrite Hfs.
  - by rewrite Hmv.
  - by etrans.
  - rewrite Hps, (take_S_r _ _ _ HI). apply Forall2_app; [|by constructor].
    eapply Forall2_impl; [exact pr_params0|]. intros. by eapply param_ok_extends.
  - rewrite Hus. destruct (use_of p I) as [[y u]|]; cbn [option_list];
      [destruct Huse as (_ & -> & _); by apply tag_step
      |destruct Huse as (-> & _); by rewrite app_nil_r].
  - rewrite Hus. destruct (use_of p I) as [[y u]|]; cbn [option_list];
      [destruct Huse as (_ & _ & -> & _); by apply tag_step
      |destruct Huse as (_ & -> & _); by rewrite app_nil_r].
  - rewrite Hus. destruct (use_of p I) as [[y u]|]; cbn [option_list];
      [destruct Huse as (_ & _ & _ & -> & _); by apply tag_step
      |destruct Huse as (_ & _ & ->); by rewrite app_nil_r].
  - rewrite Hus. destruct (use_of p I) as [[y u]|]; cbn; [|by rewrite app_nil_r].
    apply uses_ok_snoc; [done|]. by apply Huse.
  - intros x u. rewrite Hus. destruct (use_of p I) as [[y v]|]; cbn;
      rewrite elem_of_app; set_unfold; naive_solver.
  - unfold call_fuzzables in *. rewrite Hps, omap_app, app_assoc, pr_fuzzables0. cbn.
    destruct (fuzz_index p) as [idx|]; cbn.
    + destruct Hfuzz as [-> ->]. by rewrite seq_S.
    + by rewrite Hfuzz, app_nil_r.
  - exact Hcov.
Qed.

Lemma borrowed_false st x :
  bool_decide (x ∈ _multi_mut st) || bool_decide (x ∈ _immutable_borrow st) = false ->
  (x ∉ _multi_mut st) /\ x ∉ _immutable_borrow st.
Proof. rewrite orb_false_iff, !bool_decide_eq_false. done. Qed.

Lemma borrow_kinds_exclusive I ct :
  _is_mutable_borrow_occurs I ct = true -> _is_immutable_borrow_occurs I ct = false.
Proof.
  unfold _is_mutable_borrow_occurs, _is_immutable_borrow_occurs.
  destruct (_contains_move_call_type ct); [done|]. by destruct I as [| | | | | | | |[]|? []| | |].
Qed.

(** The dependency of a use, and the sequence with its tags. *)
Definition fits (I : Type_) (x : nat) (ct : CallType) : Prop :=
  exists c f' T, functions sequence !! x = Some c /\
    api_functions g !! (func c).2 = Some f' /\ output f' = Some T /\
    ct = _same_type (full_name_map g) T I true /\ ct <> _NotCompatible.

Definition tagged (s : ApiSequence) (x d : nat) (ct : CallType) : ApiSequence :=
  let s := _add_dependency s d in
  let s := if _need_mut_tag ct then _insert_function_mut_tag s x else s in
  if ApiUnsafety._is_unsafe (unsafe_call_type ct) then set_unsafe s else s.

Lemma tagged_extends s x d ct : extends s (tagged s x d ct).
Proof.
  unfold tagged. destruct (_need_mut_tag ct), (ApiUnsafety._is_unsafe _);
    split; cbn; try done; set_solver.
Qed.

Lemma tagged_fields s x d ct :
  functions (tagged s x d ct) = functions s /\ _moved (tagged s x d ct) = _moved s /\
  _covered_dependencies (tagged s x d ct) = {[d]} ∪ _covered_dependencies s /\
  (_need_mut_tag ct = true -> x ∈ _function_mut_tag (tagged s x d ct)) /\
  (unsafe_call_type ct = ApiUnsafety.Unsafe -> ApiSequence._unsafe_tag (tagged s x d ct) = true).
Proof.
  unfold tagged. destruct (_need_mut_tag ct), (unsafe_call_type ct); cbn; split_and!; set_solver.
Qed.

Lemma accept_progress i st I x d ct moved_indexes multi_mut immutable_borrow :
  progress i st -> inputs f !! i = Some I -> x < n -> x ∉ _moved sequence ->
  d < length (api_dependencies g) -> fits I x ct ->
  is_fuzzable_type I (full_name_map g) = false ->
  (forall u', (x, u') ∈ call_uses (params (api_call st)) (take i (inputs f)) ->
     uses_compatible u' (I, ct)) ->
  moved_indexes = (if _move_condition I ct then {[x]} ∪ _moved_indexes st
                   else _moved_indexes st) ->
  multi_mut = (if _is_mutable_borrow_occurs I ct then {[x]} ∪ _multi_mut st
               else _multi_mut st) ->
  immutable_borrow = (if _is_immutable_borrow_occurs I ct then {[x]} ∪ _immutable_borrow st
                      else _immutable_borrow st) ->
  progress (S i)
    {| new_sequence := tagged (new_sequence st) x d ct;
       api_call := _add_param (api_call st) ParamType._FunctionReturn x ct;
       _moved_indexes := moved_indexes; _multi_mut := multi_mut;
       _immutable_borrow := immutable_borrow |}.
Proof.
  intros Hp HI Hx Hlive Hd Hfit Hnf Hcompat -> -> ->.
  destruct (tagged_fields (new_sequence st) x d ct) as (Hfs & Hmv & Hcov & Hmut & Huns).
  eapply (progress_step i st _ I (ParamType._FunctionReturn, x, ct)); try done.
  - apply tagged_extends.
  - cbn [param_ok ApiGraph.new_sequence]. rewrite Hfs, (pr_functions _ _ Hp). by split_and!.
  - cbn. unfold tagged. by destruct (_need_mut_tag ct), (ApiUnsafety._is_unsafe _).
  - cbn [ApiGraph.new_sequence]. rewrite Hcov. intros d' [->%elem_of_singleton|Hd']%elem_of_union;
      [done|by apply (pr_covered _ _ Hp)].
  - cbn. unfold use_moves, use_borrows_mut, use_borrows. cbn.
    split_and!; try done;
      match goal with |- context [if ?b then _ else _] => destruct b end; by rewrite ?union_empty_l_L.
Qed.

(** The use of a compatible dependency is accepted or skipped. *)
Lemma use_dependency_progress i st I x d ct :
  progress i st -> inputs f !! i = Some I -> x < n -> x ∉ _moved sequence ->
  x ∉ _moved_indexes st -> d < length (api_dependencies g) -> fits I x ct ->
  is_fuzzable_type I (full_name_map g) = false ->
  match use_dependency I x d ct st with
  | Next (st', flag) => progress i st' /\ flag = false
  | Break (st', flag) => progress (S i) st' /\ flag = true
  | Return _ => False
  end.
Proof.
  intros Hp HI Hx Hlive Hmi Hd Hct Hnf. pose proof (progress_covered i st d Hp Hd) as Hp'.
  pose proof (borrow_kinds_exclusive I ct) as Hex.
  assert (Hnm : forall u', (x, u') ∈ call_uses (params (api_call st)) (take i (inputs f)) ->
    use_moves u' = false /\ (use_borrows_mut u' = true -> x ∈ _multi_mut st) /\
    (use_borrows u' = true -> x ∈ _immutable_borrow st)).
  { intros u' Hu'. split_and!.
    - destruct (use_moves u') eqn:Hm; [|done]. exfalso. apply Hmi, (pr_moves _ _ Hp). eauto.
    - intros. apply (pr_mut _ _ Hp). eauto.
    - intros. apply (pr_imm _ _ Hp). eauto. }
  unfold use_dependency. cbn zeta.
  cbn [ApiGraph._moved_indexes ApiGraph._multi_mut ApiGraph._immutable_borrow ApiGraph.api_call].
  destruct (bool_decide (x ∈ _multi_mut st) || bool_decide (x ∈ _immutable_borrow st)) eqn:Hab.
  - destruct (_move_condition I ct) eqn:Hmv; [done|].
    destruct (_is_mutable_borrow_occurs I ct) eqn:Hmb; [done|]. cbn [andb].
    destruct (_is_immutable_borrow_occurs I ct && bool_decide (x ∈ _multi_mut st)) eqn:Hib;
      [done|].
    split; [|done]. apply (accept_progress i st I); try done; [|by rewrite ?Hmv, ?Hmb..].
    intros u' Hu'. destruct (Hnm u' Hu') as (Hm & Hm1 & Hm2). split; [done|].
    unfold use_moves, use_borrows_mut, use_borrows. cbn [fst snd]. rewrite Hmv, Hmb. split; [|done].
    intros Hu. apply Hm1 in Hu. split_and!; [done..|].
    apply andb_false_iff in Hib as [Hib|Hib%bool_decide_eq_false]; done.
  - apply borrowed_false in Hab as [Hab1 Hab2]. rewrite !andb_false_r. cbn [andb].
    assert (Hib : _is_immutable_borrow_occurs I ct &&
      bool_decide (x ∈ (if _is_mutable_borrow_occurs I ct then {[x]} ∪ _multi_mut st
                        else _multi_mut st)) = false).
    { destruct (_is_mutable_borrow_occurs I ct); [by rewrite Hex|].
      rewrite bool_decide_eq_false_2 by done. apply andb_false_r. }
    rewrite Hib. split; [|done]. apply (accept_progress i st I); try done.
    intros u' Hu'. destruct (Hnm u' Hu') as (Hm & Hm1 & Hm2).
    split; [done|split; intros Hu; exfalso; auto].
Qed.

Lemma fuzzable_progress i st I :
  progress i st -> inputs f !! i = Some I ->
  match satisfy_fuzzable g I st with
  | None => True
  | Some st' => progress (S i) st'
  end.
Proof.
  intros Hp HI. unfold satisfy_fuzzable.
  destruct (generate_fuzzable_type_and_call_type _) as [ft ct] eqn:Hgen.
  destruct (FuzzableType.is_NoFuzzable ft) eqn:Hno; [done|].
  set (idx := length (fuzzable_params (new_sequence st))).
  eapply (progress_step i st _ I (ParamType._FuzzableType, idx, ct)); try done; cbn.
  - by destruct (_need_mut_tag ct).
  - by destruct (_need_mut_tag ct).
  - destruct (_need_mut_tag ct); split; cbn; try done; try set_solver;
      by apply prefix_app_r.
  - exists ft. split_and!.
    + unfold idx. destruct (_need_mut_tag ct); cbn; by rewrite lookup_app_r, Nat.sub_diag by lia.
    + done.
    + by intros ->.
    + intros ->. cbn. set_solver.
  - split; [done|]. destruct (_need_mut_tag ct); cbn; rewrite length_app; cbn; unfold idx; lia.
  - intros d Hd. apply (pr_covered _ _ Hp). by destruct (_need_mut_tag ct).
Qed.

Lemma dependency_fits st i I x c di d :
  progress i st -> inputs f !! i = Some I -> functions sequence !! x = Some c ->
  check_dependency g (func c).1 (func c).2 ApiType_BareFunction fi i = Some di ->
  api_dependencies g !! di = Some d -> fits I x (dep_call_type d).
Proof using Hf Hdeps Hwf.
  intros Hp HI Hc (d' & Hd' & Ho & Hi & Hk)%check_dependency_Some Hd.
  rewrite Hd in Hd'. injection Hd' as <-. unfold deps_ok in Hdeps. rewrite Forall_lookup in Hdeps.
  destruct (Hdeps di d Hd) as (f1 & f2 & T & I' & Hf1 & HT & Hf2 & HI' & Hct & Hne).
  rewrite Ho in Hf1. rewrite Hi in Hf2. cbn in Hf1, Hf2. rewrite Hf in Hf2.
  injection Hf2 as <-. exists c, f1, T. by simplify_eq.
Qed.

(** The search for an earlier call whose result fits. *)
Lemma by_function_progress i st I :
  progress i st -> inputs f !! i = Some I -> is_fuzzable_type I (full_name_map g) = false ->
  returns (run_loop (satisfy_by_function g ApiType_BareFunction fi I i) (seq 0 n) (st, false))
    (fun r => r.2 = true -> progress (S i) r.1).
Proof using Hf Hdeps Hwf.
  intros Hp HI Hnf.
  apply (run_loop_returns _ (fun _ r => progress i r.1 /\ r.2 = false)); [done| |].
  2:{ intros r [_ ->]. done. }
  intros pre x post [st1 flag] Hseq [Hp1 Hflag]. cbn in Hp1, Hflag. subst flag.
  assert (Hx : x < n).
  { assert (x ∈ seq 0 n) as Hin by (rewrite Hseq; set_solver).
    apply elem_of_seq in Hin. lia. }
  unfold satisfy_by_function. unfold _is_moved. rewrite (pr_moved _ _ Hp1).
  destruct (decide (x ∈ _moved sequence)) as [|Hlive]; [by apply returns_ret|]. cbn [orb].
  case_bool_decide as Hmi; [by apply returns_ret|].
  rewrite (pr_functions _ _ Hp1). apply returns_bind_index; [done|].
  intros c Hc. destruct (func c) as [ty index] eqn:Hfc.
  destruct (check_dependency g ty index ApiType_BareFunction fi i) as [di|] eqn:Hchk;
    [|by apply returns_ret].
  pose proof Hchk as (d & Hd & _)%check_dependency_Some.
  eapply returns_bind_unwrap; [exact Hd|]. apply returns_ret.
  assert (Hfit : fits I x (dep_call_type d)).
  { apply (dependency_fits st1 i I x c di d Hp1 HI Hc); [|exact Hd].
    rewrite Hfc. by destruct ty. }
  pose proof (use_dependency_progress i st1 I x di (dep_call_type d) Hp1 HI Hx Hlive Hmi
    ltac:(by apply lookup_lt_Some in Hd) Hfit Hnf) as Huse.
  destruct (use_dependency I x di (dep_call_type d) st1) as [[st2 fl]|[st2 fl]|[]];
    destruct Huse as [Hp2 ->]; [done|]. by intros _.
Qed.

Lemma param_progress i st :
  progress i st -> i < length (inputs f) ->
  returns (satisfy_param g ApiType_BareFunction fi (inputs f) n i st) (fun r =>
    match r with
    | Next st' => progress (S i) st'
    | Break _ => False
    | Return res => res = None
    end).
Proof using Hf Hdeps Hwf.
  intros Hp Hi. unfold satisfy_param.
  apply returns_bind_index; [done|].
  intros I HI. destruct (is_fuzzable_type I (full_name_map g)) eqn:Hfz.
  - pose proof (fuzzable_progress i st I Hp HI) as Hst.
    destruct (satisfy_fuzzable g I st); by apply returns_ret.
  - eapply returns_bind; [by apply by_function_progress|].
    intros [st' flag] Hst'. destruct flag; apply returns_ret; [by apply Hst'|done].
Qed.

(** The new call is appended. *)
Lemma finish_wf st :
  progress (length (inputs f)) st ->
  let s' := insert_moves (_moved_indexes st) (_add_fn (new_sequence st) (api_call st)) in
  _contains_multi_dynamic_length_fuzzable s' = false ->
  wf_sequence g s' /\ extends sequence s' /\
  functions s' = functions sequence ++ [api_call st].
Proof using Hf Hdeps Hwf.
  intros Hp s' Hdyn.
  assert (Hfs : functions s' = functions sequence ++ [api_call st]).
  { cbn. by rewrite (pr_functions _ _ Hp). }
  assert (Hext1 : extends (new_sequence st) s').
  { split; cbn; try done. by apply prefix_app_r. }
  assert (Hext : extends sequence s').
  { etrans; [apply start_extends|]. etrans; [apply (pr_extends _ _ Hp)|done]. }
  assert (Htake : take (length (inputs f)) (inputs f) = inputs f) by (by apply firstn_all).
  assert (Hfun : api_functions g !! (func (api_call st)).2 = Some f).
  { by rewrite (pr_func _ _ Hp). }
  assert (Hold : forall k c, functions s' !! k = Some c ->
    (k < n /\ functions sequence !! k = Some c) \/ (k = n /\ c = api_call st)).
  { intros k c. rewrite Hfs. intros [[??]|[-> <-]]%lookup_snoc_Some; auto. }
  assert (Hmv : forall k x, moves_value g s' k x <->
    (k < n /\ moves_value g sequence k x) \/ (k = n /\ x ∈ _moved_indexes st)).
  { intros k x. split.
    - intros (c & fc & u & Hc & Hfc & Hu & Hm). destruct (Hold k c Hc) as [[? ?]|[-> ->]].
      + left. split; [done|]. by exists c, fc, u.
      + right. split; [done|]. apply (pr_moves _ _ Hp). rewrite Htake. simplify_eq. eauto.
    - intros [[Hk (c & fc & u & Hc & Hrest)]|[-> Hx]].
      + exists c, fc, u. split; [|done]. rewrite Hfs. by apply lookup_app_l_Some.
      + apply (pr_moves _ _ Hp) in Hx as (u & Hu & Hm). rewrite Htake in Hu.
        exists (api_call st), f, u. split_and!; try done. rewrite Hfs. by apply list_lookup_middle. }
  split; [|done]. split.
  - intros k c Hc. destruct (Hold k c Hc) as [[Hk Hc']|[-> ->]].
    + eapply call_ok_extends; [exact Hext|]. by apply (wf_calls _ _ Hwf).
    + exists f. split; [done|]. pose proof (pr_params _ _ Hp) as Hps.
      pose proof (pr_uses _ _ Hp) as Hus. rewrite Htake in Hps, Hus. split_and!.
      * eapply Forall2_impl; [exact Hps|]. intros p I. by apply param_ok_extends.
      * done.
      * intros Hun. apply (ext_unsafe _ _ Hext1), (ext_unsafe _ _ (pr_extends _ _ Hp)).
        by apply start_unsafe.
      * intros t Ht. apply (ext_traits _ _ Hext1), (ext_traits _ _ (pr_extends _ _ Hp)).
        by apply start_trait.
  - intros x. setoid_rewrite Hmv. cbn. rewrite (pr_moved _ _ Hp), elem_of_union.
    rewrite (wf_moved _ _ Hwf). split.
    + intros [Hx|(k & Hk)]; [eauto|]. exists k. left. split; [|done].
      destruct Hk as (c & ? & ? & Hc & _). by apply lookup_lt_Some in Hc.
    + intros (k & [[_ Hk]|[_ Hk]]); eauto.
  - intros k1 k2 x Hlt Hm (c & fc & u & Hc & Hfc & Hu).
    apply Hmv in Hm as [[Hk1 Hm]|[-> _]].
    + destruct (Hold k2 c Hc) as [[? ?]|[-> ->]].
      * eapply (wf_use_after_move _ _ Hwf k1 k2); [done|done|]. by exists c, fc, u.
      * simplify_eq. eapply (pr_live _ _ Hp x u); [by rewrite Htake|].
        apply (wf_moved _ _ Hwf). eauto.
    + apply lookup_lt_Some in Hc. rewrite Hfs, length_app in Hc. cbn in Hc. unfold n in Hlt. lia.
  - unfold fuzz_indices. rewrite Hfs, bind_app. cbn. rewrite app_nil_r. apply (pr_fuzzables _ _ Hp).
  - exact Hdyn.
  - cbn. apply (pr_covered _ _ Hp).
Qed.

Lemma is_fun_satisfied_wf :
  returns (is_fun_satisfied g ApiType_BareFunction fi sequence) (fun r =>
    match r with
    | None => True
    | Some s' => wf_sequence g s' /\ extends sequence s' /\
        exists c, functions s' = functions sequence ++ [c] /\ func c = (ApiType_BareFunction, fi)
    end).
Proof using Hf Hdeps Hwf.
  unfold is_fun_satisfied. eapply returns_bind_unwrap; [exact Hf|]. cbn zeta.
  pose proof progress_start as Hp0. fold n.
  destruct (Nat.eqb_spec (length (inputs f)) 0) as [H0|H0].
  - apply returns_ret. rewrite <- H0 in Hp0.
    pose proof (finish_wf _ Hp0) as Hfin. cbn in Hfin.
    assert (insert_moves ∅ (_add_fn (start_sequence f sequence) (ApiCall_new fi)) =
      _add_fn (start_sequence f sequence) (ApiCall_new fi)) as Heq.
    { unfold insert_moves, _add_fn. cbn. f_equal. by rewrite union_empty_l_L. }
    rewrite Heq in Hfin. destruct Hfin as (Hw & He & Hfs).
    { unfold _contains_multi_dynamic_length_fuzzable. cbn. rewrite start_fuzzables.
      apply (wf_dynamic _ _ Hwf). }
    split_and!; [done|done|]. eexists. by split.
  - eapply returns_bind.
    { apply (for_loop_returns _ (fun pre st => progress (length pre) st)
        (fun st => progress (length (inputs f)) st) (fun res => res = None)).
      - exact Hp0.
      - intros pre i post st Hseq Hst.
        assert (i = length pre /\ length pre < length (inputs f)) as [-> Hi].
        { assert (seq 0 (length (inputs f)) !! length pre = Some i) as Hl.
          { rewrite Hseq. by apply list_lookup_middle. }
          apply lookup_seq in Hl. lia. }
        eapply returns_mono; [by apply param_progress|].
        intros [st'|st'|res] Hr; try done. by rewrite length_app, Nat.add_comm.
      - intros st. by rewrite length_seq. }
    intros [st|res] Hr; [|subst res; by apply returns_ret].
    destruct (_contains_multi_dynamic_length_fuzzable _) eqn:Hdyn; [by apply returns_ret|].
    apply returns_ret. destruct (finish_wf st Hr Hdyn) as (Hw & He & Hfs).
    split_and!; [done|done|]. exists (api_call st). split; [done|]. apply (pr_func _ _ Hr).
Qed.
End satisfy.

(** ** The search for dependencies *)

(** A pair of functions that the search considers. *)
Definition considered (g : ApiGraph) (d : ApiDependency) : Prop :=
  dep_ok g d /\
  (forall f1, api_functions g !! (output_fun d).2 = Some f1 ->
     _is_end_function f1 (full_name_map g) = false) /\
  (forall f2, api_functions g !! (input_fun d).2 = Some f2 ->
     _is_start_function f2 (full_name_map g) = false).

Section find.
Context (g : ApiGraph).

(** A loop over indices that appends, for each index, the elements of a set. *)
Lemma collect_returns {B} (body : nat -> list B -> outcome (list B)) (P : nat -> B -> Prop)
    (len : nat) :
  (forall i acc, i < len ->
     returns (body i acc) (fun acc' => forall d, d ∈ acc' <-> d ∈ acc \/ P i d)) ->
  returns (fold_loop body (seq 0 len) [])
    (fun acc => forall d, d ∈ acc <-> exists i, i < len /\ P i d).
Proof.
  intros Hbody. eapply returns_mono.
  - apply (fold_loop_returns _ (fun pre acc => forall d, d ∈ acc <-> exists i, i ∈ pre /\ P i d)).
    + intros d. set_solver.
    + intros pre i post acc Hseq Hacc. eapply returns_mono; [apply Hbody|].
      * assert (i ∈ seq 0 len) as Hin by (rewrite Hseq; set_solver). apply elem_of_seq in Hin. lia.
      * intros acc' Hacc' d. specialize (Hacc d). specialize (Hacc' d). cbn beta in *.
        rewrite Hacc', Hacc. split.
        -- intros [(i' & Hi & HP)|HP]; [exists i'|exists i]; set_solver.
        -- intros (i' & [Hi| ->%list_elem_of_singleton]%elem_of_app & HP); eauto.
  - intros acc Hacc d. specialize (Hacc d). cbn beta in Hacc. rewrite Hacc.
    split; intros (i & Hi & HP); exists i; rewrite elem_of_seq in *; (split; [lia|done]).
Qed.

Lemma params_dependencies i j T tys :
  returns (dependencies_of_params g i j T tys) (fun deps => forall d, d ∈ deps <->
    exists k, k < length tys /\ exists I, tys !! k = Some I /\
      _same_type (full_name_map g) T I true <> _NotCompatible /\
      d = mk_ApiDependency (ApiType_BareFunction, i) (ApiType_BareFunction, j) k
            (_same_type (full_name_map g) T I true)).
Proof.
  apply collect_returns. intros k acc Hk. apply returns_bind_index; [done|].
  intros I HI.
  assert (Hd : forall d, (exists I0, tys !! k = Some I0 /\
      _same_type (full_name_map g) T I0 true <> _NotCompatible /\
      d = mk_ApiDependency (ApiType_BareFunction, i) (ApiType_BareFunction, j) k
            (_same_type (full_name_map g) T I0 true)) <->
    _same_type (full_name_map g) T I true <> _NotCompatible /\
    d = mk_ApiDependency (ApiType_BareFunction, i) (ApiType_BareFunction, j) k
          (_same_type (full_name_map g) T I true)).
  { intros d. rewrite HI. split; [intros (? & [= <-] & ?); done|intros ?; by exists I]. }
  eapply (returns_mono _ (fun acc' => forall d, d ∈ acc' <-> d ∈ acc \/
    (_same_type (full_name_map g) T I true <> _NotCompatible /\
     d = mk_ApiDependency (ApiType_BareFunction, i) (ApiType_BareFunction, j) k
           (_same_type (full_name_map g) T I true)))).
  2:{ intros acc' Hacc' d. specialize (Hacc' d). cbn beta in Hacc'. by rewrite Hacc', Hd. }
  clear Hd HI.
  destruct (_same_type (full_name_map g) T I true); apply returns_ret; intros d;
    rewrite ?elem_of_app, ?list_elem_of_singleton; naive_solver.
Qed.

Lemma output_dependencies i T :
  returns (dependencies_of_output g i T) (fun deps => forall d, d ∈ deps <->
    exists j, j < length (api_functions g) /\ exists f2 I,
      api_functions g !! j = Some f2 /\ _is_start_function f2 (full_name_map g) = false /\
      inputs f2 !! input_param_index d = Some I /\
      _same_type (full_name_map g) T I true <> _NotCompatible /\
      d = mk_ApiDependency (ApiType_BareFunction, i) (ApiType_BareFunction, j)
            (input_param_index d) (_same_type (full_name_map g) T I true)).
Proof.
  apply collect_returns. intros j acc Hj. apply returns_bind_index; [done|].
  intros f2 Hf2. destruct (_is_start_function f2 (full_name_map g)) eqn:Hs.
  - apply returns_ret. intros d. split; [auto|]. intros [?|(f2' & I & Hf2' & Hs' & _)]; [done|].
    congruence.
  - eapply returns_bind; [apply params_dependencies|]. intros new Hnew. apply returns_ret.
    intros d. specialize (Hnew d). cbn beta in Hnew. rewrite elem_of_app, Hnew. split.
    + intros [?|(k & Hk & I & HI & Hne & Hd)]; [auto|right]. exists f2, I.
      rewrite Hd at 1 3. by split_and!.
    + intros [?|(f2' & I & Hf2' & _ & HI & Hne & Hd)]; [auto|right].
      assert (f2' = f2) as -> by congruence. exists (input_param_index d). split; [by apply lookup_lt_Some in HI|]. by exists I.
Qed.

Lemma find_dependencies_returns :
  returns (find_all_dependencies g) (fun g' =>
    g' = with_dependencies g (api_dependencies g') /\
    forall d, d ∈ api_dependencies g' <-> considered g d).
Proof.
  unfold find_all_dependencies. eapply returns_bind.
  - apply (collect_returns _ (fun i d => exists f1 T, api_functions g !! i = Some f1 /\
      _is_end_function f1 (full_name_map g) = false /\ output f1 = Some T /\
      exists j, j < length (api_functions g) /\ exists f2 I,
      api_functions g !! j = Some f2 /\ _is_start_function f2 (full_name_map g) = false /\
      inputs f2 !! input_param_index d = Some I /\
      _same_type (full_name_map g) T I true <> _NotCompatible /\
      d = mk_ApiDependency (ApiType_BareFunction, i) (ApiType_BareFunction, j)
            (input_param_index d) (_same_type (full_name_map g) T I true))).
    intros i acc Hi. apply returns_bind_index; [done|].
    intros f1 Hf1. destruct (_is_end_function f1 (full_name_map g)) eqn:He.
    { apply returns_ret. intros d. split; [auto|].
      intros [?|(f1' & T & Hf1' & He' & _)]; [done|]. congruence. }
    destruct (output f1) as [T|] eqn:HT.
    + eapply returns_bind; [apply output_dependencies|]. intros new Hnew. apply returns_ret.
      intros d. specialize (Hnew d). cbn beta in Hnew. rewrite elem_of_app, Hnew. split.
      * intros [?|Hd]; [auto|right]. by exists f1, T.
      * intros [?|(f1' & T' & Hf1' & _ & HT' & Hd)]; [auto|right].
        assert (f1' = f1) as -> by congruence. by assert (T' = T) as -> by congruence.
    + apply returns_ret. intros d. split; [auto|].
      intros [?|(f1' & T & Hf1' & _ & HT' & _)]; [done|]. congruence.
  - intros deps Hdeps. apply returns_ret. split; [done|]. intros d.
    specialize (Hdeps d). cbn beta in Hdeps. cbn [api_dependencies with_dependencies].
    rewrite Hdeps. split.
    + intros (i & Hi & f1 & T & Hf1 & He & HT & j & Hj & f2 & I & Hf2 & Hs & HI & Hne & Hd).
      rewrite Hd. split.
      * exists f1, f2, T, I. cbn. by split_and!.
      * cbn. split; intros ??; by simplify_eq.
    + intros [(f1 & f2 & T & I & Hf1 & HT & Hf2 & HI & Hct & Hne) [He Hs]].
      destruct d as [[[] i] [[] j] k ct]; cbn in *. subst ct.
      exists i. split; [by apply lookup_lt_Some in Hf1|]. exists f1, T.
      split_and!; [done|by apply He|done|]. exists j. split; [by apply lookup_lt_Some in Hf2|].
      exists f2, I. split_and!; try done. by apply Hs.
Qed.
End find.

(** A graph with the dependencies that the search finds. *)
Lemma found_deps_ok g g' : find_all_dependencies g = Ret g' -> deps_ok g'.
Proof.
  intros Hg. pose proof (find_dependencies_returns g) as Hr. rewrite Hg in Hr.
  destruct Hr as [Heq Hall]. apply Forall_forall. intros d Hd.
  apply Hall in Hd as [Hok _]. rewrite Heq. exact Hok.
Qed.

Lemma sample_found : find_all_dependencies sample_base = Ret sample_graph.
Proof. vm_compute. reflexivity. Qed.

Lemma sample_deps_ok : deps_ok sample_graph.
Proof. apply (found_deps_ok sample_base), sample_found. Qed.

Lemma sample_extend_wf s fi :
  fi < length (api_functions sample_graph) -> wf_sequence sample_graph s ->
  wf_sequence sample_graph (sample_extend s fi).
Proof.
  intros [f Hf]%lookup_lt_is_Some_2 Hwf. unfold sample_extend.
  pose proof (is_fun_satisfied_wf sample_graph fi f s Hf sample_deps_ok Hwf) as Hr.
  destruct (is_fun_satisfied _ _ _ _) as [[s'|]| |]; cbn; [apply Hr|done..].
Qed.

Lemma sample_new_wf : wf_sequence sample_graph sample_new.
Proof. apply sample_extend_wf; [vm_compute; lia|apply new_wf]. Qed.
Lemma sample_get_wf : wf_sequence sample_graph sample_get.
Proof. apply sample_extend_wf; [vm_compute; lia|apply sample_new_wf]. Qed.
Lemma sample_set_wf : wf_sequence sample_graph sample_set.
Proof. apply sample_extend_wf; [vm_compute; lia|apply sample_new_wf]. Qed.

(** ** Properties *)

(** C8: the search for dependencies returns on every graph, changes nothing but the
    dependencies, and finds exactly the pairs of a returned value and a parameter that
    are compatible, between a function that is not an end point and a function that is
    not a starting point, each with the call type of [_same_type]. *)
Theorem dependencies_are_the_compatible_pairs (g : ApiGraph) :
  returns (find_all_dependencies g) (fun g' =>
    g' = with_dependencies g (api_dependencies g') /\
    forall d, d ∈ api_dependencies g' <-> considered g d).
Proof. apply find_dependencies_returns. Qed.

(** C1: the extension of a sequence by a function never panics, and when it succeeds the
    new sequence is well formed: it is the old one with one more call of that function,
    whose parameters are decoded values or results of earlier calls of the right types,
    never a value moved before, with the borrows and moves of the call compatible, and
    with the tags (mutability, unsafe, traits, moves) that the emitted code needs. *)
Theorem extension_keeps_sequences_well_formed (g : ApiGraph) (fi : nat) (f : ApiFunction)
    (sequence : ApiSequence)
    (Hf : api_functions g !! fi = Some f) (Hdeps : deps_ok g) (Hwf : wf_sequence g sequence) :
  returns (is_fun_satisfied g ApiType_BareFunction fi sequence) (fun r =>
    match r with
    | None => True
    | Some s' => wf_sequence g s' /\ extends sequence s' /\
        exists c, functions s' = functions sequence ++ [c] /\ func c = (ApiType_BareFunction, fi)
    end).
Proof. by apply (is_fun_satisfied_wf g fi f). Qed.

Lemma extension_keeps_sequences_well_formed_witness :
  wf_sequence sample_graph sample_set.
Proof.
  assert (Hs : is_fun_satisfied sample_graph ApiType_BareFunction 2 sample_new =
    Ret (Some sample_set)) by (vm_compute; reflexivity).
  pose proof (extension_keeps_sequences_well_formed sample_graph 2
    (sample_function "c::T::set" [BorrowedRef None Mut sample_type;
      BorrowedRef None Not (Primitive PrimitiveType.Str)] None) sample_new
    ltac:(vm_compute; reflexivity) sample_deps_ok sample_new_wf) as Hr.
  rewrite Hs in Hr. exact (proj1 Hr).
Defined.


