(* ===== verification/Merge.v ===== *)
(** Merging sequences ([ApiSequence::_merge_another_sequence] and [_merge_sequences])
    keeps them well formed. *)

From S2P Require Import Prelude RustStd CleanTypes CallTypes PreludeTypes.
From S2P Require Import FuzzableTypes ApiUtil ModVisibility ApiFunction ApiSequence.
From S2P Require Import ApiGraph Samples SequenceWf Satisfy.

Section merge.
Context (g : ApiGraph) (s1 s2 : ApiSequence).

Let n := length (functions s1).
Let m := length (fuzzable_params s1).
Let s := _merge_another_sequence s1 s2.

Lemma merge_extends : extends s1 s.
Proof.
  split; cbn; try (by apply prefix_app_r).
  - intros ->. by destruct (ApiSequence._unsafe_tag s2).
  - set_solver.
  - unfold insert_shifted. set_solver.
  - unfold insert_shifted. set_solver.
Qed.

Lemma merge_functions k c :
  functions s !! k = Some c <->
  (k < n /\ functions s1 !! k = Some c) \/
  (exists k' c', k = n + k' /\ functions s2 !! k' = Some c' /\ c = shift_call n m c').
Proof.
  cbn. rewrite lookup_app_Some, list_lookup_fmap_Some. fold n m. split.
  - intros [Hc|(Hle & c' & -> & Hc')].
    + left. split; [|done]. by apply lookup_lt_Some in Hc.
    + right. exists (k - n), c'. split_and!; [lia|done|done].
  - intros [[_ Hc]|(k' & c' & -> & Hc' & ->)]; [by left|right].
    split; [lia|]. exists c'. split; [done|]. by replace (n + k' - n) with k' by lia.
Qed.

Lemma merge_uses ps tys :
  call_uses (List.map (shift_param n m) ps) tys =
  List.map (fun u => (u.1 + n, u.2)) (call_uses ps tys).
Proof.
  unfold call_uses. revert tys. induction ps as [|p ps IH]; intros [|ty tys]; try done.
  csimpl. rewrite IH. by destruct p as [[[] idx] ct].
Qed.

Lemma param_ok_shift k p I : param_ok g s2 k p I -> param_ok g s (n + k) (shift_param n m p) I.
Proof.
  destruct p as [[[] idx] ct]; cbn [shift_param param_ok].
  - intros (Hk & (c & f & T & Hc & Hf & Hrest) & Hmut & Hun & Hnf). split_and!; [lia| | | |done].
    + exists (shift_call n m c), f, T. split; [|done]. apply merge_functions. right.
      exists idx, c. split_and!; [lia|done|done].
    + intros Hm. cbn. unfold insert_shifted. apply elem_of_union_l, elem_of_map.
      exists idx. by auto.
    + intros Hu. cbn. by rewrite Hun.
  - intros (ft & Hft & Hgen & Hne & Hmut). exists ft. split_and!; [|done|done|].
    + cbn. rewrite lookup_app_r by (fold m; lia). by replace (idx + m - _) with idx by (fold m; lia).
    + intros Hm. cbn. unfold insert_shifted. apply elem_of_union_l, elem_of_map.
      exists idx. by auto.
Qed.

Lemma uses_ok_shift us : uses_ok us -> uses_ok (List.map (fun u => (u.1 + n, u.2)) us).
Proof.
  intros Hus i j x u1 u2 Hij Hi Hj.
  apply list_lookup_fmap_Some in Hi as ([y1 v1] & [= Hx1 ->] & Hy1), Hj as ([y2 v2] & [= Hx2 ->] & Hy2).
  cbn in *. assert (y1 = y2) as <- by lia. exact (Hus i j y1 v1 v2 Hij Hy1 Hy2).
Qed.

Lemma call_ok_shift k c : call_ok g s2 k c -> call_ok g s (n + k) (shift_call n m c).
Proof.
  intros (f & Hf & Hps & Hus & Hun & Htr). exists f. split_and!; [done|..]; cbn [shift_call params].
  - clear Hus. induction Hps as [|p I ps tys Hp _ IH]; constructor; [by apply param_ok_shift|done].
  - rewrite merge_uses. by apply uses_ok_shift.
  - intros Hu. cbn. by rewrite Hun.
  - intros t Ht. cbn. apply elem_of_app. by right; apply Htr.
Qed.

(** A relation between a call and the value of a call, in the merged sequence. *)
Lemma merge_moves k x :
  moves_value g s k x <->
  (k < n /\ moves_value g s1 k x) \/
  (exists k' x', k = n + k' /\ x = x' + n /\ moves_value g s2 k' x').
Proof.
  split.
  - intros (c & f & u & Hc & Hf & Hu & Hm). apply merge_functions in Hc
      as [[Hk Hc]|(k' & c' & -> & Hc' & ->)]; [left; split; [done|]; by exists c, f, u|right].
    cbn [shift_call params func] in Hf, Hu. rewrite merge_uses in Hu.
    apply list_elem_of_fmap in Hu as ([x' u'] & [= -> ->] & Hu').
    exists k', x'. split_and!; [done|done|]. by exists c', f, u'.
  - intros [[Hk (c & f & u & Hc & Hrest)]|(k' & x' & -> & -> & c & f & u & Hc & Hf & Hu & Hm)].
    + exists c, f, u. split; [|done]. apply merge_functions. by left.
    + exists (shift_call n m c), f, u. split_and!; [|done| |done].
      * apply merge_functions. right. by exists k', c.
      * cbn [shift_call params]. rewrite merge_uses. apply list_elem_of_fmap. by exists (x', u).
Qed.

Lemma merge_uses_value k x :
  uses_value g s k x ->
  (k < n /\ uses_value g s1 k x) \/
  (exists k' x', k = n + k' /\ x = x' + n /\ uses_value g s2 k' x').
Proof.
  intros (c & f & u & Hc & Hf & Hu). apply merge_functions in Hc
    as [[Hk Hc]|(k' & c' & -> & Hc' & ->)]; [left; split; [done|]; by exists c, f, u|right].
  cbn [shift_call params func] in Hf, Hu. rewrite merge_uses in Hu.
  apply list_elem_of_fmap in Hu as ([x' u'] & [= -> ->] & Hu').
  exists k', x'. split_and!; [done|done|]. by exists c', f, u'.
Qed.

(** A call only uses values of earlier calls. *)
Lemma uses_earlier s0 k x : wf_sequence g s0 -> uses_value g s0 k x -> x < k.
Proof.
  intros Hwf (c & f & u & Hc & Hf & Hu).
  destruct (wf_calls _ _ Hwf k c Hc) as (f' & Hf' & Hps & _). simplify_eq.
  unfold call_uses in Hu. apply list_elem_of_omap in Hu as ([p I] & HpI & Hu).
  apply list_elem_of_lookup_1 in HpI as (j & Hj).
  apply lookup_zip_Some in Hj as [Hp HI].
  pose proof (Forall2_lookup_lr _ _ _ _ _ _ Hps Hp HI) as Hok.
  destruct p as [[[] idx] ct]; cbn in Hu; [|done]. injection Hu as -> _. apply Hok.
Qed.

(** The fuzzable parameters of the second sequence follow those of the first. *)
Lemma merge_fuzz_indices : fuzz_indices s = fuzz_indices s1 ++ ((fun idx => idx + m) <$> fuzz_indices s2).
Proof.
  unfold fuzz_indices. cbn. rewrite bind_app. f_equal. fold m n.
  induction (functions s2) as [|c cs IH]; [done|]. cbn. rewrite fmap_app. f_equal; [|exact IH].
  unfold call_fuzzables. cbn. induction (params c) as [|[[[] idx] ct] ps IHp]; [done|..]; csimpl;
    [exact IHp|]. by rewrite IHp.
Qed.

Lemma merge_wf : wf_sequence g s1 -> wf_sequence g s2 -> wf_sequence g s.
Proof.
  intros H1 H2. split.
  - intros k c [[Hk Hc]|(k' & c' & -> & Hc' & ->)]%merge_functions.
    + eapply call_ok_extends; [apply merge_extends|]. by apply (wf_calls _ _ H1).
    + apply call_ok_shift. by apply (wf_calls _ _ H2).
  - intros x. setoid_rewrite merge_moves. cbn. unfold insert_shifted. fold n.
    rewrite elem_of_union, elem_of_map, (wf_moved _ _ H1).
    setoid_rewrite (wf_moved _ _ H2). split.
    + intros [(x' & -> & k & Hk)|(k & Hk)].
      * exists (n + k). right. eauto.
      * exists k. left. split; [|done]. destruct Hk as (? & ? & ? & Hc & _).
        by apply lookup_lt_Some in Hc.
    + intros (k & [[_ Hk]|(k' & x' & -> & -> & Hk)]); eauto.
  - intros k1 k2 x Hlt Hm Hu.
    apply merge_moves in Hm as [[Hk1 Hm]|(k1' & x1' & -> & -> & Hm)];
      apply merge_uses_value in Hu as [[Hk2 Hu]|(k2' & x2' & -> & Hx & Hu)].
    + by apply (wf_use_after_move _ _ H1 k1 k2 x).
    + assert (x < k1) by (apply (uses_earlier s1 k1 x H1);
        destruct Hm as (c & f & u & ? & ? & ? & _); by exists c, f, u). lia.
    + lia.
    + assert (x1' = x2') as <- by lia.
      apply (wf_use_after_move _ _ H2 k1' k2' x1'); [lia|done|done].
  - rewrite merge_fuzz_indices, (wf_fuzzables _ _ H1), (wf_fuzzables _ _ H2). cbn.
    rewrite length_app, seq_app. f_equal. fold m. cbn. generalize (length (fuzzable_params s2)).
    intros k. change m with (0 + m) at 2. generalize 0. induction k as [|k IH]; intros a; [done|].
    cbn. f_equal. exact (IH (S a)).
  - unfold _contains_multi_dynamic_length_fuzzable. cbn. rewrite existsb_app, orb_false_iff.
    split; [apply (wf_dynamic _ _ H1)|apply (wf_dynamic _ _ H2)].
  - cbn. apply (wf_covered _ _ H1).
Qed.
End merge.

Lemma merge_sequences_wf g sequences :
  Forall (wf_sequence g) sequences ->
  returns (_merge_sequences sequences) (wf_sequence g).
Proof.
  intros Hall. unfold _merge_sequences. destruct sequences as [|s ss].
  { apply returns_ret, new_wf. }
  cbn [length Nat.leb]. eapply returns_bind_unwrap; [done|].
  apply (fold_loop_returns _ (fun _ => wf_sequence g)); [by inversion Hall|].
  intros pre i post acc Hseq Hacc. eapply returns_bind.
  - apply (returns_index _ _ (wf_sequence g)).
    + assert (i ∈ seq 1 (S (length ss) - 1)) as Hin by (rewrite Hseq; set_solver).
      apply elem_of_seq in Hin. cbn. lia.
    + intros s' Hs'. rewrite Forall_lookup in Hall. by eapply Hall.
  - intros s' Hs'. apply returns_ret. by apply merge_wf.
Qed.

(** ** Properties *)

(** C14: merging well-formed sequences returns a well-formed sequence: indices of calls and
    of fuzzable parameters, move and mutability tags, the unsafe tag and the traits are
    shifted together, so that every parameter still refers to the value it referred to. *)
Theorem merge_keeps_sequences_well_formed (g : ApiGraph) (sequences : list ApiSequence)
    (Hall : Forall (wf_sequence g) sequences) :
  returns (_merge_sequences sequences) (wf_sequence g).
Proof. by apply merge_sequences_wf. Qed.

Lemma merge_keeps_sequences_well_formed_witness :
  returns (_merge_sequences [sample_get; sample_set]) (wf_sequence sample_graph) /\
  ret_or ApiSequence_new (_merge_sequences [sample_get; sample_set]) =
    _merge_another_sequence sample_get sample_set.
Proof.
  split; [|vm_compute; reflexivity].
  exact (merge_keeps_sequences_well_formed sample_graph [sample_get; sample_set]
    (Forall_cons_2 _ _ _ sample_get_wf (Forall_cons_2 _ _ _ sample_set_wf (Forall_nil_2 _)))).
Defined.
