(* ===== verification/DeadCode.v ===== *)
(** Which calls of a sequence have a result that nobody needs ([ApiSequence::_dead_code]
    and [_contains_dead_code_except_last_one]). *)

From S2P Require Import Prelude RustStd CleanTypes CallTypes PreludeTypes.
From S2P Require Import FuzzableTypes ApiUtil ModVisibility ApiFunction ApiSequence.
From S2P Require Import ApiGraph Samples SequenceWf Satisfy.

(** [used_params]: for a value, the last call that uses it. *)
Definition dead_state : Type := list bool * gmap nat nat.

Section dead_code.
Variable self : ApiSequence.
Variable _api_graph : ApiGraph.

(** The body of the loop over the parameters of the first pass. *)
Definition mark_param (api_call_index : nat) (p : ParamType * nat * CallType)
    (st : dead_state) : outcome dead_state :=
  let '(dead_api_call, used_params) := st in
  let '(param_type, index, _) := p in
  match param_type with
  | ParamType._FunctionReturn =>
      dead_api_call ← vec_store dead_api_call index false;
      mret (dead_api_call, <[index := api_call_index]> used_params)
  | ParamType._FuzzableType => mret (dead_api_call, used_params)
  end.

Definition mark_call (api_call_index : nat) (st : dead_state) : outcome dead_state :=
  api_call ← (functions self).[api_call_index];
  fold_loop (mark_param api_call_index) (params api_call) st.

(** The body of the loop over the parameters of the second pass. *)
Definition revive_param (used_params : gmap nat nat) (api_function : ApiFunction)
    (api_call : ApiCall) (api_call_index param_index : nat) (dead_api_call : list bool)
    : outcome (list bool) :=
  input_type ← (inputs api_function).[param_index];
  p ← (params api_call).[param_index];
  let '(param_type, index, call_type) := (p : ParamType * nat * CallType) in
  match param_type with
  | ParamType._FunctionReturn =>
      if _is_mutable_borrow_occurs input_type call_type then
        match used_params !! index with
        | Some last_call_index =>
            if api_call_index <? last_call_index
            then vec_store dead_api_call api_call_index false
            else mret dead_api_call
        | None => mret dead_api_call
        end
      else mret dead_api_call
  | ParamType._FuzzableType => mret dead_api_call
  end.

Definition revive_call (used_params : gmap nat nat) (api_call_index : nat)
    (dead_api_call : list bool) : outcome (list bool) :=
  dead ← dead_api_call.[api_call_index];
  if negb dead then mret dead_api_call
  else
    api_call ← (functions self).[api_call_index];
    let param_len := length (params api_call) in
    if param_len <=? 0 then mret dead_api_call
    else
      let '(api_type, api_function_index) := func api_call in
      match api_type with
      | ApiType_BareFunction =>
          api_function ← (api_functions _api_graph).[api_function_index];
          fold_loop (revive_param used_params api_function api_call api_call_index)
            (seq 0 param_len) dead_api_call
      end.

Definition _dead_code : outcome (list bool) :=
  let sequence_len := len self in
  let dead_api_call := replicate sequence_len true in
  let api_call_num := length (functions self) in
  st ← fold_loop mark_call (seq 0 api_call_num) (dead_api_call, ∅);
  let '(dead_api_call, used_params) := (st : dead_state) in
  fold_loop (revive_call used_params) (seq 0 api_call_num) dead_api_call.

Definition _contains_dead_code_except_last_one : outcome bool :=
  let sequence_len := len self in
  if sequence_len <=? 1 then mret false
  else
    dead_codes ← _dead_code;
    r ← for_loop (fun i (_ : unit) =>
          dead ← dead_codes.[i];
          if (dead : bool) then mret (Return true) else mret (Next tt))
        (seq 0 (sequence_len - 1)) tt;
    match r with
    | inr res => mret res
    | inl _ => mret false
    end.
End dead_code.

(** ** Specification *)

(** The result of the call [k] is needed: a later call uses it, or the call [k] changes,
    through a mutable borrow, a value that a later call uses. *)
Inductive needed (g : ApiGraph) (s : ApiSequence) (k : nat) : Prop :=
| needed_result k' : uses_value g s k' k -> needed g s k
| needed_effect c f x u k' :
    functions s !! k = Some c -> api_functions g !! (func c).2 = Some f ->
    (x, u) ∈ call_uses (params c) (inputs f) -> use_borrows_mut u = true ->
    k < k' -> uses_value g s k' x -> needed g s k.

Section spec.
Context (g : ApiGraph) (s : ApiSequence) (Hwf : wf_sequence g s).

(** A call refers to a value. *)
Definition refers (k x : nat) : Prop :=
  exists c ct, functions s !! k = Some c /\ (ParamType._FunctionReturn, x, ct) ∈ params c.

Lemma wf_call k c :
  functions s !! k = Some c ->
  exists f, api_functions g !! (func c).2 = Some f /\ length (params c) = length (inputs f) /\
    Forall2 (param_ok g s k) (params c) (inputs f).
Proof using Hwf.
  intros Hc. destruct (wf_calls _ _ Hwf k c Hc) as (f & Hf & Hps & _). exists f.
  split_and!; [done|by eapply Forall2_length|done].
Qed.

(** The uses of a call are its references. *)
Lemma call_uses_lookup ps tys x u :
  length ps = length tys ->
  (x, u) ∈ call_uses ps tys <->
  exists j, ps !! j = Some (ParamType._FunctionReturn, x, u.2) /\ tys !! j = Some u.1.
Proof.
  intros Hlen. unfold call_uses. rewrite list_elem_of_omap. split.
  - intros ([[[[] idx] ct] I] & Hin & Hu); [|done]. cbn in Hu. injection Hu as <- <-.
    apply list_elem_of_lookup_1 in Hin as (j & Hj). apply lookup_zip_Some in Hj as [Hp HI].
    by exists j.
  - intros (j & Hp & HI). exists ((ParamType._FunctionReturn, x, u.2), u.1).
    split; [|by destruct u]. apply (list_elem_of_lookup_2 _ j), lookup_zip_Some. done.
Qed.

Lemma refers_uses k x : refers k x <-> uses_value g s k x.
Proof using Hwf.
  split.
  - intros (c & ct & Hc & Hp). destruct (wf_call k c Hc) as (f & Hf & Hlen & _).
    apply list_elem_of_lookup_1 in Hp as (j & Hj).
    destruct (lookup_lt_is_Some_2 (inputs f) j) as [I HI].
    { rewrite <- Hlen. by apply lookup_lt_Some in Hj. }
    exists c, f, (I, ct). split_and!; [done|done|]. apply call_uses_lookup; [done|]. by exists j.
  - intros (c & f & u & Hc & Hf & Hu). destruct (wf_call k c Hc) as (f' & Hf' & Hlen & _).
    simplify_eq. apply call_uses_lookup in Hu as (j & Hj & _); [|done].
    exists c, u.2. split; [done|]. by eapply list_elem_of_lookup_2.
Qed.

Lemma refers_earlier k x : refers k x -> x < k.
Proof using Hwf.
  intros (c & ct & Hc & Hp). destruct (wf_call k c Hc) as (f & Hf & Hlen & Hps).
  apply list_elem_of_lookup_1 in Hp as (j & Hj).
  destruct (Forall2_lookup_l _ _ _ _ _ Hps Hj) as (I & _ & Hok). apply Hok.
Qed.

(** After the first pass over [pre]: a value is alive when a call of [pre] refers to it,
    and the last such call is recorded. *)
Definition marked (R : nat -> nat -> Prop) (st : dead_state) : Prop :=
  length st.1 = len s /\
  (forall x, x < len s -> (st.1 !! x = Some false <-> exists k, R k x)) /\
  (forall x k, st.2 !! x = Some k -> R k x) /\
  (forall x k, R k x -> exists k', st.2 !! x = Some k' /\ k <= k').

Lemma marked_ext R R' st : (forall k x, R k x <-> R' k x) -> marked R st -> marked R' st.
Proof.
  intros HR (Hl & H1 & H2 & H3). split_and!; [done|..].
  - intros x Hx. rewrite H1 by done. split; intros [k Hk]; exists k; by apply HR.
  - intros x k Hk. by apply HR, H2.
  - intros x k Hk. apply HR in Hk. by apply H3.
Qed.

Lemma marked_store R dead used i x :
  marked R (dead, used) -> x < len s -> (forall k y, R k y -> k <= i) ->
  marked (fun k y => R k y \/ (k = i /\ y = x)) (<[x := false]> dead, <[x := i]> used).
Proof.
  intros (Hl & H1 & H2 & H3) Hx Hle. cbn in *. split_and!; cbn.
  - by rewrite length_insert.
  - intros y Hy. destruct (decide (x = y)) as [<-|Hne].
    + rewrite list_lookup_insert_eq by lia. split; [|done]. intros _. eauto.
    + rewrite list_lookup_insert_ne by done. rewrite H1 by done.
      split; intros [k Hk]; exists k; naive_solver.
  - intros y k [[<- <-]|[Hne Hk]]%lookup_insert_Some; [by right|left]. by apply H2.
  - intros y k Hk. destruct (decide (x = y)) as [<-|Hne].
    + exists i. rewrite lookup_insert_eq. split; [done|]. destruct Hk as [Hk|[-> _]]; [|done].
      by eapply Hle.
    + rewrite lookup_insert_ne by done. destruct Hk as [Hk|[_ ->]]; [by apply H3|done].
Qed.

(** The first pass. *)
Lemma mark_call_returns i st :
  i < len s -> marked (fun k x => k < i /\ refers k x) st ->
  returns (mark_call s i st) (marked (fun k x => k < S i /\ refers k x)).
Proof using Hwf.
  intros Hi Hst. unfold mark_call. apply returns_bind_index; [done|].
  intros c Hc. eapply returns_mono.
  - apply (fold_loop_returns _ (fun pre st => marked
      (fun k x => (k < i /\ refers k x) \/
                  (k = i /\ exists ct, (ParamType._FunctionReturn, x, ct) ∈ pre)) st)).
    + eapply marked_ext; [|exact Hst]. intros k x. split; [by left|].
      intros [?|(_ & ct & ?%not_elem_of_nil)]; done.
    + intros pre [[pt x] ct] post [dead used] Hps Hm. unfold mark_param. destruct pt.
      * assert (Hx : x < i).
        { apply refers_earlier. exists c, ct. split; [done|]. rewrite Hps. set_solver. }
        eapply returns_bind.
        { apply (returns_store _ _ _ (fun d => d = <[x := false]> dead)); [|done].
          destruct Hm as (Hl & _). cbn in Hl. lia. }
        intros d ->. apply returns_ret.
        eapply marked_ext; [|apply marked_store; [exact Hm|lia|]].
        -- intros k y. setoid_rewrite elem_of_app. setoid_rewrite list_elem_of_singleton.
           naive_solver.
        -- intros k y [[? _]|[-> _]]; lia.
      * apply returns_ret. eapply marked_ext; [|exact Hm]. intros k y.
        setoid_rewrite elem_of_app. setoid_rewrite list_elem_of_singleton. naive_solver.
  - intros st' Hm. eapply marked_ext; [|exact Hm]. intros k x. split.
    + intros [[? ?]|(-> & ct & Hin)]; (split; [lia|]); [done|]. by exists c, ct.
    + intros [Hk Hr]. destruct (decide (k = i)) as [->|]; [right|left; split; [lia|done]].
      split; [done|]. destruct Hr as (c' & ct & Hc' & Hin). simplify_eq. eauto.
Qed.

Lemma first_pass_returns :
  returns (fold_loop (mark_call s) (seq 0 (len s)) (replicate (len s) true, ∅))
    (marked refers).
Proof using Hwf.
  eapply returns_mono.
  - apply (fold_loop_returns _ (fun pre => marked (fun k x => k < length pre /\ refers k x))).
    + split_and!; cbn.
      * apply length_replicate.
      * intros x Hx. rewrite lookup_replicate_2 by done. split; [done|]. intros (k & ? & _). lia.
      * intros x k. by rewrite lookup_empty.
      * intros x k [? _]. lia.
    + intros pre i post st Hseq Hm.
      assert (seq 0 (len s) !! length pre = Some i) as Hl.
      { rewrite Hseq. by apply list_lookup_middle. }
      apply lookup_seq in Hl. destruct Hl as [Hl1 Hl2]. cbn in Hl1. subst i.
      eapply returns_mono; [apply mark_call_returns; [lia|done]|].
      intros st'. apply marked_ext. intros k x. rewrite length_app, Nat.add_comm. done.
  - intros st. apply marked_ext. intros k x. rewrite length_seq. split; [by intros [_ ?]|].
    intros Hr. split; [|done]. destruct Hr as (c & _ & Hc & _). by apply lookup_lt_Some in Hc.
Qed.

(** The second pass, on one call. *)
Definition effect (i : nat) (ps : list (ParamType * nat * CallType)) (tys : list Type_)
    (js : list nat) : Prop :=
  exists j x ct I k', j ∈ js /\ ps !! j = Some (ParamType._FunctionReturn, x, ct) /\
    tys !! j = Some I /\ _is_mutable_borrow_occurs I ct = true /\ i < k' /\ refers k' x.

Lemma effect_snoc i ps tys js j :
  effect i ps tys (js ++ [j]) <-> effect i ps tys js \/ effect i ps tys [j].
Proof.
  unfold effect. split.
  - intros (j' & x & ct & I & k' & [Hj|Hj]%elem_of_app & Hrest);
      [left|right]; by exists j', x, ct, I, k'.
  - intros [(j' & x & ct & I & k' & Hj & Hrest)|(j' & x & ct & I & k' & Hj & Hrest)];
      exists j', x, ct, I, k'; (split; [apply elem_of_app; auto|done]).
Qed.

Lemma revive_param_returns used f c i j dead :
  (forall x k, used !! x = Some k -> refers k x) ->
  (forall x k, refers k x -> exists k', used !! x = Some k' /\ k <= k') ->
  length (params c) = length (inputs f) -> j < length (params c) -> i < length dead ->
  returns (revive_param used f c i j dead) (fun dead' =>
    (effect i (params c) (inputs f) [j] /\ dead' = <[i := false]> dead) \/
    (~ effect i (params c) (inputs f) [j] /\ dead' = dead)).
Proof.
  intros Hu1 Hu2 Hlen Hj Hi. unfold revive_param. apply returns_bind_index; [lia|].
  intros I HI. eapply returns_bind.
  { apply (returns_index _ _ (fun p => params c !! j = Some p)); [done|auto]. }
  intros [[pt x] ct] Hp.
  assert (Heff : effect i (params c) (inputs f) [j] <->
    pt = ParamType._FunctionReturn /\ _is_mutable_borrow_occurs I ct = true /\
    exists k', i < k' /\ refers k' x).
  { unfold effect. split.
    - intros (j' & x' & ct' & I' & k' & ->%list_elem_of_singleton & Hp' & HI' & Hm & Hk & Hr).
      simplify_eq. split_and!; [done|done|]. eauto.
    - intros (-> & Hm & k' & Hk & Hr). exists j, x, ct, I, k'. split_and!; try done. set_solver. }
  destruct pt; [|apply returns_ret; right; split; [rewrite Heff; naive_solver|done]].
  destruct (_is_mutable_borrow_occurs I ct) eqn:Hmb;
    [|apply returns_ret; right; split; [rewrite Heff; naive_solver|done]].
  destruct (used !! x) as [last|] eqn:Hl.
  - destruct (Nat.ltb_spec i last) as [Hlt|Hge].
    + apply returns_store; [done|]. left. split; [|done]. apply Heff. split_and!; [done|done|].
      exists last. split; [done|]. by apply Hu1.
    + apply returns_ret. right. split; [|done]. rewrite Heff. intros (_ & _ & k' & Hk & Hr).
      destruct (Hu2 x k' Hr) as (k2 & Hk2 & Hle). rewrite Hl in Hk2. injection Hk2 as <-. lia.
  - apply returns_ret. right. split; [|done]. rewrite Heff. intros (_ & _ & k' & Hk & Hr).
    destruct (Hu2 x k' Hr) as (k2 & Hk2 & _). congruence.
Qed.

Lemma needed_spec i :
  needed g s i <->
  (exists k, refers k i) \/
  (exists c f, functions s !! i = Some c /\ api_functions g !! (func c).2 = Some f /\
     effect i (params c) (inputs f) (seq 0 (length (params c)))).
Proof using Hwf.
  setoid_rewrite refers_uses. split.
  - intros [k' Hk'|c f x u k' Hc Hf Hu Hm Hlt Hk']; [eauto|right]. exists c, f.
    split_and!; [done|done|].
    destruct (wf_call i c Hc) as (f' & Hf' & Hlen & _). simplify_eq.
    apply call_uses_lookup in Hu as (j & Hj & HI); [|done].
    exists j, x, u.2, u.1, k'. split_and!; try done.
    + apply elem_of_seq. apply lookup_lt_Some in Hj. lia.
    + by apply refers_uses.
  - intros [[k Hk]|(c & f & Hc & Hf & j & x & ct & I & k' & _ & Hj & HI & Hm & Hlt & Hr)];
      [by eapply needed_result|].
    destruct (wf_call i c Hc) as (f' & Hf' & Hlen & _). simplify_eq.
    eapply (needed_effect _ _ _ c f x (I, ct) k'); try done.
    + apply call_uses_lookup; [done|]. by exists j.
    + by apply refers_uses.
Qed.

Lemma revive_call_returns used i dead :
  (forall x k, used !! x = Some k -> refers k x) ->
  (forall x k, refers k x -> exists k', used !! x = Some k' /\ k <= k') ->
  length dead = len s -> i < len s ->
  (dead !! i = Some false <-> exists k, refers k i) ->
  returns (revive_call s g used i dead) (fun dead' =>
    length dead' = len s /\ (dead' !! i = Some false <-> needed g s i) /\
    forall k, k <> i -> dead' !! k = dead !! k).
Proof using Hwf.
  intros Hu1 Hu2 Hlen Hi Hd. pose proof (needed_spec i) as Hspec.
  set (N := needed g s i) in *. clearbody N.
  unfold revive_call. apply returns_bind_index; [lia|]. intros b Hb.
  destruct b; cbn [negb].
  2:{ apply returns_ret. split_and!; [done| |done]. rewrite Hb. split; [|done].
      intros _. apply Hspec. left. by apply Hd. }
  assert (Hnr : ~ exists k, refers k i) by (rewrite <- Hd; congruence).
  apply returns_bind_index; [done|].
  intros c Hc. destruct (wf_call i c Hc) as (f & Hf & Hps & _).
  assert (Hneed : ((exists k, refers k i) \/
      (exists c f, functions s !! i = Some c /\ api_functions g !! (func c).2 = Some f /\
        effect i (params c) (inputs f) (seq 0 (length (params c))))) <->
    effect i (params c) (inputs f) (seq 0 (length (params c)))).
  { split; [|intros; right; by exists c, f].
    intros [?|(c' & f' & Hc' & Hf' & He)]; [done|]. by simplify_eq. }
  rewrite Hneed in Hspec. cbn zeta. destruct (Nat.leb_spec (length (params c)) 0) as [H0|H0].
  { apply returns_ret. split_and!; [done| |done]. rewrite Hspec. split; [congruence|].
    replace (length (params c)) with 0 by lia. intros (j & ? & ? & ? & ? & ?%not_elem_of_nil & _).
    done. }
  destruct (func c) as [[] fi] eqn:Hfc. cbn in Hf.
  eapply returns_bind_unwrap; [exact Hf|]. eapply returns_mono.
  - apply (fold_loop_returns _ (fun pre d =>
      length d = len s /\ (d !! i = Some false <-> effect i (params c) (inputs f) pre) /\
      forall k, k <> i -> d !! k = dead !! k)).
    + split_and!; [done| |done]. split; [congruence|].
      by intros (j & ? & ? & ? & ? & ?%not_elem_of_nil & _).
    + intros pre j post d Hseq (Hld & Hdi & Hdk).
      assert (Hj : j < length (params c)).
      { assert (j ∈ seq 0 (length (params c))) as Hin by (rewrite Hseq; set_solver).
        apply elem_of_seq in Hin. lia. }
      eapply returns_mono; [apply (revive_param_returns used f c i j d); done || lia|].
      intros d' [[He ->]|[Hne ->]]; rewrite effect_snoc; split_and!; try done.
      * by rewrite length_insert.
      * rewrite list_lookup_insert_eq by lia. split; [by right|done].
      * intros k Hk. rewrite list_lookup_insert_ne by done. by apply Hdk.
      * rewrite Hdi. split; [by left|]. by intros [?|?].
  - intros d' (? & Hi' & ?). rewrite <- Hspec in Hi'. by split_and!.
Qed.

Lemma dead_code_returns :
  returns (_dead_code s g) (fun dead =>
    length dead = len s /\
    forall k, k < len s -> (dead !! k = Some false <-> needed g s k)).
Proof using Hwf.
  unfold _dead_code. cbn zeta. fold (len s). eapply returns_bind; [apply first_pass_returns|].
  intros [dead used] (Hl & H1 & H2 & H3). cbn [fst snd] in *.
  eapply returns_mono.
  - apply (fold_loop_returns _ (fun pre d => length d = len s /\
      (forall k, k < length pre -> (d !! k = Some false <-> needed g s k)) /\
      (forall k, length pre <= k -> d !! k = dead !! k))).
    + split_and!; [done| |done]. intros k Hk. cbn in Hk. lia.
    + intros pre i post d Hseq (Hld & Hdone & Htodo).
      assert (seq 0 (len s) !! length pre = Some i) as Hli.
      { rewrite Hseq. by apply list_lookup_middle. }
      apply lookup_seq in Hli. destruct Hli as [Hl1 Hl2]. cbn in Hl1. subst i.
      eapply returns_mono; [apply (revive_call_returns used (length pre) d); try done|].
      * rewrite Htodo by lia. by apply H1.
      * intros d' (Hld' & Hi & Hk). rewrite length_app. cbn [length].
        split_and!; [done|..]; intros k Hlt.
        -- destruct (decide (k = length pre)) as [->|]; [done|]. rewrite Hk by done.
           apply Hdone. lia.
        -- rewrite Hk by lia. apply Htodo. lia.
  - intros d (Hld & Hdone & _). split; [done|]. intros k Hk. apply Hdone. by rewrite length_seq.
Qed.
End spec.

(** ** Properties *)

(** C12: the dead-code analysis of a well-formed sequence returns one flag per call, and a
    call is dead exactly when its result is not needed: no later call uses it, and it does
    not mutably borrow a value that a later call uses. *)
Theorem dead_calls_are_those_not_needed (g : ApiGraph) (s : ApiSequence)
    (Hwf : wf_sequence g s) :
  returns (_dead_code s g) (fun dead =>
    length dead = len s /\
    forall k, k < len s -> (dead !! k = Some false <-> needed g s k)).
Proof. by apply dead_code_returns. Qed.

Lemma dead_calls_are_those_not_needed_witness :
  needed sample_graph sample_set 0 /\ ~ needed sample_graph sample_set 1.
Proof.
  assert (Hd : _dead_code sample_set sample_graph = Ret [false; true])
    by (vm_compute; reflexivity).
  pose proof (dead_calls_are_those_not_needed sample_graph sample_set sample_set_wf) as Hr.
  rewrite Hd in Hr. destruct Hr as [_ Hr]. split.
  - apply (proj1 (Hr 0 ltac:(vm_compute; lia)) eq_refl).
  - intros Hn. discriminate (proj2 (Hr 1 ltac:(vm_compute; lia)) Hn).
Defined.
