(* ===== verification/SequenceText.v ===== *)
(** The text of a fuzz target: the closure that decodes the input, the test function that
    runs the calls, and the three kinds of files ([fuzz_target/api_sequence.rs] from
    [_to_replay_crash_file] on, [fuzz_target/replay_util.rs]). *)

From S2P Require Import Prelude RustStd CleanTypes CallTypes PreludeTypes.
From S2P Require Import FuzzableTypes AflHelpers AflDecode ApiUtil ModVisibility.
From S2P Require Import ApiFunction ApiSequence ApiGraph ItemSamples Samples SequenceWf Satisfy.
From S2P Require Import DeadCode.

Definition _generate_indent (indent_size : nat) : string :=
  foldl (fun indent _ => indent +:+ " ") "" (seq 0 indent_size).

Definition _read_crash_file_data : string :=
"fn _read_data()-> Vec<u8> {
    use std::env;
    use std::process::exit;
    let args:Vec<String> = env::args().collect();
    if args.len() < 2 {
        println!(" +:+ dquote +:+ "No crash filename provided" +:+ dquote +:+ ");
        exit(-1);
    }
    use std::path::PathBuf;
    let crash_file_name = &args[1];
    let crash_path = PathBuf::from(crash_file_name);
    if !crash_path.is_file() {
        println!(" +:+ dquote +:+ "Not a valid crash file" +:+ dquote +:+ ");
        exit(-1);
    }
    use std::fs;
    let data =  fs::read(crash_path).unwrap();
    data
}
".

Section text.
Context `{HashOrder}.
Variable cache : gmap PrimitiveType DefId.
Variable self : ApiSequence.

(** ** The closure *)

(** The statements of the fuzzable parameters; [st] is the text with the two indices. *)
Definition param_initial_line (indent : string) (dynamic_param_start_index
    dynamic_param_number : nat) (i : nat) (st : string * nat * nat)
    : outcome (string * nat * nat) :=
  let '(res, fixed_start_index, dynamic_param_index) := st in
  fuzzable_param ← (fuzzable_params self).[i];
  let afl_helper := _new_from_fuzzable fuzzable_param in
  param_initial_line ← _generate_param_initial_statement dynamic_param_start_index
    dynamic_param_number "dynamic_length" afl_helper i fixed_start_index dynamic_param_index
    fuzzable_param;
  mret (res +:+ indent +:+ param_initial_line +:+ nl,
        fixed_start_index + FuzzableType._fixed_part_length fuzzable_param,
        dynamic_param_index + FuzzableType._dynamic_length_param_number fuzzable_param).

(** The call of the test function. *)
Definition test_function_call (indent : string) (test_index : nat) : string :=
  foldl (fun call i =>
    (if i =? 0 then call else call +:+ " ,") +:+ "_param" +:+ usize_to_string i)
    (indent +:+ "test_function" +:+ usize_to_string test_index +:+ "(")
    (seq 0 (length (fuzzable_params self)))
  +:+ ");" +:+ nl.

(** The lines before the decoding statements. *)
Definition closure_start (indent : string) : string :=
  let op := if _is_fuzzables_fixed_length self then "!=" else "<" in
  let min_len := _fuzzables_min_length self in
  let dynamic_param_start_index := _fuzzable_fixed_part_length self in
  let dynamic_param_number := sequence_dynamic_length_param_number self in
  let every_dynamic_length :=
    "let dynamic_length = (data.len() - " +:+ usize_to_string dynamic_param_start_index
      +:+ ") / " +:+ usize_to_string dynamic_param_number in
  indent +:+ "//actual body emit" +:+ nl
    +:+ indent +:+ "if data.len() " +:+ op +:+ " " +:+ usize_to_string min_len
    +:+ " {return;}" +:+ nl
    +:+ (if negb (_is_fuzzables_fixed_length self)
         then indent +:+ every_dynamic_length +:+ ";" +:+ nl else "").

Definition _afl_closure_body (outer_indent test_index : nat) : outcome string :=
  let indent := _generate_indent (outer_indent + 4) in
  st ← fold_loop (param_initial_line indent (_fuzzable_fixed_part_length self)
                    (sequence_dynamic_length_param_number self))
         (seq 0 (length (fuzzable_params self))) (closure_start indent, 0, 0);
  let '(res, _, _) := (st : string * nat * nat) in
  mret (res +:+ test_function_call indent test_index).

(** ** The helper functions *)

Definition _prelude_helper_functions : option string :=
  let prelude_helpers : gset PreludeHelper._PreludeHelper :=
    foldl (fun helpers api_call =>
      foldl (fun helpers p =>
        let '(_, _, call_type) := (p : ParamType * nat * CallType) in
        PreludeHelper._from_call_type call_type ∪ helpers) helpers (params api_call))
      ∅ (functions self) in
  if size prelude_helpers =? 0 then None
  else
    Some (foldl (fun res helper => res +:+ PreludeHelper._to_helper_function helper +:+ nl) ""
            (hash_order 4 prelude_helpers)).

Definition _afl_helper_functions : option string :=
  match _get_afl_helpers_functions_of_sequence (fuzzable_params self) with
  | None => None
  | Some afl_helpers =>
      Some (foldl (fun res afl_helper => res +:+ afl_helper +:+ nl) "" afl_helpers)
  end.

(** ** The test function *)

(** The loop with the set of the traits that have been seen. *)
Definition _generate_using_traits_string (indent_size : nat) : string :=
  let indent := _generate_indent indent_size in
  (foldl (fun (st : string * gset string) using_trait_ =>
     let '(res, has_used_traits) := st in
     if decide (using_trait_ ∈ has_used_traits) then (res, has_used_traits)
     else (res +:+ indent +:+ "use " +:+ using_trait_ +:+ ";" +:+ nl,
           {[using_trait_]} ∪ has_used_traits)) ("", ∅) (_using_traits self)).1
  +:+ nl.

Definition _generate_function_header_string (test_index outer_indent extra_indent : nat)
    (test_function_title param_prefix : string) : outcome string :=
  let indent := _generate_indent (outer_indent + extra_indent) in
  let res := indent +:+ test_function_title +:+ usize_to_string test_index +:+ "(" in
  let res :=
    match head (fuzzable_params self) with
    | Some first_param_ =>
        (if _is_fuzzable_need_mut_tag self 0 then res +:+ "mut " else res)
          +:+ param_prefix +:+ "0" +:+ " :" +:+ FuzzableType._to_type_string first_param_
    | None => res
    end in
  res ← fold_loop (fun i res =>
    let res := res +:+ " ," in
    let res := if _is_fuzzable_need_mut_tag self i then res +:+ "mut " else res in
    param ← (fuzzable_params self).[i];
    mret (res +:+ param_prefix +:+ usize_to_string i +:+ " :"
            +:+ FuzzableType._to_type_string param))
    (seq 1 (length (fuzzable_params self) - 1)) res;
  mret (res +:+ ") ").

Section body.
Variable _api_graph : ApiGraph.
Variable body_indent param_prefix local_param_prefix : string.

(** The variables of the loop over the stages of a parameter. *)
Record stage_state := mk_stage {
  stage_res : string;
  former_param_name : string;
  helper_index : nat;
  former_helper_line : string
}.

(** The pending line of a helper variable, without [mut] unless the next stage borrows it
    mutably. *)
Definition finish_helper_line (next : CallType) (line : string) : string :=
  if negb (_need_mut_tag next) then str_replace line "let mut " "let " else line.

Definition emit_stage (i j : nat) (call_type_array : list CallType) (k : nat) (st : stage_state)
    : outcome stage_state :=
  call_type ← call_type_array.[k];
  let helper_name :=
    local_param_prefix +:+ usize_to_string i +:+ "_param" +:+ usize_to_string j +:+ "_helper"
      +:+ usize_to_string (helper_index st) in
  let helper_line :=
    body_indent +:+ "let mut " +:+ helper_name +:+ " = "
      +:+ _to_call_string cache (full_name_map _api_graph) call_type (former_param_name st)
      +:+ ";" +:+ nl in
  mret {| stage_res :=
            if 1 <? helper_index st
            then stage_res st +:+ finish_helper_line call_type (former_helper_line st)
            else stage_res st;
          former_param_name := helper_name;
          helper_index := helper_index st + 1;
          former_helper_line := helper_line |}.

(** One parameter of a call: the helper lines, and the expression of the argument. *)
Definition emit_param (i : nat) (api_call : ApiCall) (j : nat) (st : string * list string)
    : outcome (string * list string) :=
  let '(res, param_strings) := st in
  p ← (params api_call).[j];
  let '(param_type, index, call_type) := (p : ParamType * nat * CallType) in
  call_type_array ← _split_at_unwrap_call_type call_type;
  let param_name :=
    match param_type with
    | ParamType._FuzzableType => param_prefix +:+ usize_to_string index
    | ParamType._FunctionReturn => local_param_prefix +:+ usize_to_string index
    end in
  if length call_type_array =? 1 then
    call_type ← call_type_array.[0];
    mret (res, param_strings
                 ++ [_to_call_string cache (full_name_map _api_graph) call_type param_name])
  else
    st ← fold_loop (emit_stage i j call_type_array) (seq 0 (length call_type_array - 1))
           {| stage_res := res; former_param_name := param_name; helper_index := 1;
              former_helper_line := "" |};
    last_call_type ← unwrap (last call_type_array);
    mret (stage_res st +:+ finish_helper_line last_call_type (former_helper_line st),
          param_strings ++ [_to_call_string cache (full_name_map _api_graph) last_call_type
                              (former_param_name st)]).

(** The start of the statement of a call. *)
Definition call_binding (i : nat) (dead : bool) (api_function : ApiFunction) : string :=
  if dead || _has_no_output api_function then "let _ = "
  else
    "let " +:+ (if _is_function_need_mut_tag self i then "mut " else "") +:+ local_param_prefix
      +:+ usize_to_string i +:+ " = ".

(** The arguments, separated by commas. *)
Definition join_arguments (param_strings : list string) : string :=
  (foldl (fun (st : string * bool) param_string =>
     let '(res, first) := st in
     ((if first : bool then res else res +:+ " ,") +:+ param_string, false))
     ("", true) param_strings).1.

Definition emit_call (dead_code : list bool) (i : nat) (res : string) : outcome string :=
  api_call ← (functions self).[i];
  st ← fold_loop (emit_param i api_call) (seq 0 (length (params api_call))) (res, []);
  let '(res, param_strings) := (st : string * list string) in
  let res := res +:+ body_indent in
  let '(api_type, api_function_index) := func api_call in
  api_function ← (api_functions _api_graph).[api_function_index];
  dead ← dead_code.[i];
  let res := res +:+ call_binding i dead api_function in
  match api_type with
  | ApiType_BareFunction =>
      mret (res +:+ full_name api_function +:+ "(" +:+ join_arguments param_strings
              +:+ ");" +:+ nl)
  end.
End body.

Definition _generate_function_body_string (_api_graph : ApiGraph) (outer_indent : nat)
    (param_prefix local_param_prefix : string) : outcome string :=
  let body_indent := _generate_indent (outer_indent + 4) in
  dead_code ← _dead_code self _api_graph;
  fold_loop (emit_call _api_graph body_indent param_prefix local_param_prefix dead_code)
    (seq 0 (length (functions self))) "".

Definition _to_well_written_function (_api_graph : ApiGraph) (test_index indent_size : nat)
    : outcome string :=
  let using_traits := _generate_using_traits_string indent_size in
  function_header ← _generate_function_header_string test_index indent_size 0
                      "fn test_function" "_param";
  let res := using_traits +:+ function_header +:+ "{" +:+ nl in
  res ←
    (if ApiSequence._unsafe_tag self then
       let unsafe_indent := _generate_indent (indent_size + 4) in
       unsafe_function_body ← _generate_function_body_string _api_graph (indent_size + 4)
                                "_param" "_local";
       mret (res +:+ unsafe_indent +:+ "unsafe {" +:+ nl +:+ unsafe_function_body
               +:+ unsafe_indent +:+ "}" +:+ nl)
     else
       function_body ← _generate_function_body_string _api_graph indent_size "_param" "_local";
       mret (res +:+ function_body));
  mret (res +:+ _generate_indent indent_size +:+ "}" +:+ nl).

(** ** The files *)

Definition _afl_main_function (test_index : nat) : outcome string :=
  let indent := _generate_indent 4 in
  body ← _afl_closure_body 4 test_index;
  mret ("fn main() {" +:+ nl +:+ indent +:+ "fuzz!(|data: &[u8]| {" +:+ nl +:+ body
          +:+ indent +:+ "});" +:+ nl +:+ "}" +:+ nl).

Definition _reproduce_main_function (test_index : nat) : outcome string :=
  body ← _afl_closure_body 0 test_index;
  mret ("fn main() {
    let _content = _read_data();
    let data = &_content;
    println!(" +:+ dquote +:+ "data = {:?}" +:+ dquote +:+ ", data);
    println!(" +:+ dquote +:+ "data len = {:?}" +:+ dquote +:+ ", data.len());
" +:+ body +:+ "
}").

Definition _libfuzzer_fuzz_main (test_index : nat) : outcome string :=
  body ← _afl_closure_body 0 test_index;
  mret ("fuzz_target!(|data: &[u8]| {" +:+ nl +:+ body +:+ "});" +:+ nl).

Definition _to_afl_except_main (_api_graph : ApiGraph) (test_index : nat) : outcome string :=
  let res :=
    match _get_feature_gates_of_sequence (fuzzable_params self) with
    | Some feature_gates =>
        foldl (fun res feature_gate => res +:+ feature_gate +:+ nl) "" feature_gates
    | None => ""
    end in
  let res := res +:+ "#[macro_use]" +:+ nl +:+ "extern crate afl;" +:+ nl
               +:+ "extern crate " +:+ _crate_name _api_graph +:+ ";" +:+ nl in
  let res :=
    match _prelude_helper_functions with
    | Some prelude_functions => res +:+ prelude_functions
    | None => res
    end in
  let res :=
    match _afl_helper_functions with
    | Some afl_functions => res +:+ afl_functions
    | None => res
    end in
  body ← _to_well_written_function _api_graph test_index 0;
  mret (res +:+ body +:+ nl).

Definition afl_header : string := "#[macro_use]" +:+ nl +:+ "extern crate afl;" +:+ nl.

Definition _to_replay_crash_file (_api_graph : ApiGraph) (test_index : nat) : outcome string :=
  res ← _to_afl_except_main _api_graph test_index;
  let res := str_replace res afl_header "" in
  main ← _reproduce_main_function test_index;
  mret (res +:+ _read_crash_file_data +:+ nl +:+ main).

Definition _to_afl_test_file (_api_graph : ApiGraph) (test_index : nat) : outcome string :=
  res ← _to_afl_except_main _api_graph test_index;
  main ← _afl_main_function test_index;
  mret (res +:+ main).

Definition _to_libfuzzer_test_file (_api_graph : ApiGraph) (test_index : nat) : outcome string :=
  res ← _to_afl_except_main _api_graph test_index;
  let res := str_replace res afl_header
    ("#![no_main]" +:+ nl +:+ "#[macro_use]" +:+ nl +:+ "extern crate libfuzzer_sys;" +:+ nl) in
  main ← _libfuzzer_fuzz_main test_index;
  mret (res +:+ main).
End text.

(** ** The statements of the closure *)

Section closure.
Context (self : ApiSequence).

Let start := _fuzzable_fixed_part_length self.
Let total := sequence_dynamic_length_param_number self.

(** The line of the [i]-th parameter, from its tree of reads. *)
Definition decode_line (indent : string) (i : nat) (e : rhs_expr) : string :=
  indent +:+ "let _param" +:+ usize_to_string i +:+ " = "
    +:+ print_rhs start total "dynamic_length" e +:+ ";" +:+ nl.

Definition decode_lines (indent : string) (es : list rhs_expr) : list string :=
  imap (decode_line indent) es.

(** Every parameter has a decoding helper. *)
Definition decodable (t : FuzzableType) : Prop := _new_from_fuzzable t <> _NoHelper.

Lemma initial_statement_text i t fixed dyn :
  decodable t ->
  _generate_param_initial_statement start total "dynamic_length" (_new_from_fuzzable t) i
    fixed dyn t =
  Ret ("let _param" +:+ usize_to_string i +:+ " = "
         +:+ print_rhs start total "dynamic_length" (rhs_expr_of t fixed dyn) +:+ ";").
Proof.
  intros Hd. unfold _generate_param_initial_statement.
  pose proof (rhs_text start total "dynamic_length" t fixed dyn) as Ht.
  unfold decodable in Hd. destruct (_new_from_fuzzable t); try done; by rewrite Ht.
Qed.

Lemma closure_lines indent ts pre res fixed dyn :
  Forall decodable ts -> fuzzable_params self = pre ++ ts ->
  fold_loop (param_initial_line self indent start total)
    (seq (length pre) (length ts)) (res, fixed, dyn) =
  Ret (foldl String.append res
         (imap (fun i => decode_line indent (length pre + i)) (rhs_exprs_of ts fixed dyn)),
       fixed + sum_list_with FuzzableType._fixed_part_length ts,
       dyn + sum_list_with FuzzableType._dynamic_length_param_number ts).
Proof.
  intros Hts. revert pre res fixed dyn.
  induction Hts as [|t ts Ht Hts IH]; intros pre res fixed dyn Hps.
  { cbn. by rewrite !Nat.add_0_r. }
  cbn [length seq fold_loop param_initial_line]. rewrite Hps.
  unfold vec_index. rewrite list_lookup_middle by done. cbn [unwrap mbind outcome_bind].
  rewrite initial_statement_text by done. cbn [mbind outcome_bind mret outcome_ret].
  specialize (IH (pre ++ [t])). rewrite length_app in IH. cbn [length] in IH.
  rewrite Nat.add_1_r in IH. rewrite IH by (by rewrite <- app_assoc).
  cbn [rhs_exprs_of imap foldl sum_list_with]. rewrite !Nat.add_assoc, Nat.add_0_r.
  do 3 f_equal. f_equal.
  - unfold decode_line. by rewrite <- !str_app_assoc.
  - apply imap_ext. intros i e _. cbn. by rewrite Nat.add_succ_r.
Qed.

Lemma closure_body_text outer_indent test_index :
  Forall decodable (fuzzable_params self) ->
  let indent := _generate_indent (outer_indent + 4) in
  _afl_closure_body self outer_indent test_index =
  Ret (foldl String.append (closure_start self indent)
         (decode_lines indent (rhs_exprs_of (fuzzable_params self) 0 0))
       +:+ test_function_call self indent test_index).
Proof.
  intros Hall indent. unfold _afl_closure_body. fold indent start total.
  pose proof (closure_lines indent (fuzzable_params self) [] (closure_start self indent) 0 0
    Hall eq_refl) as Hl.
  cbn [length] in Hl. rewrite Hl. done.
Qed.

Lemma initial_statement_returns ds n name h i fixed dyn t rhs :
  _generate_param_initial_rhs ds n name h fixed dyn t = Ret rhs ->
  returns (_generate_param_initial_statement ds n name h i fixed dyn t) (fun _ => True).
Proof. intros Hr. destruct h; try done; cbn [_generate_param_initial_statement]; by rewrite Hr. Qed.

(** The closure never panics. *)
Lemma closure_body_returns outer_indent test_index :
  returns (_afl_closure_body self outer_indent test_index) (fun _ => True).
Proof.
  unfold _afl_closure_body. cbn zeta. eapply returns_bind.
  - apply (fold_loop_returns _ (fun _ _ => True)); [done|].
    intros pre i post [[res fixed] dyn] Hseq _. unfold param_initial_line.
    assert (i ∈ seq 0 (length (fuzzable_params self))) as Hin by (rewrite Hseq; set_solver).
    apply elem_of_seq in Hin. apply returns_bind_index; [lia|]. intros t Ht.
    eapply returns_bind; [eapply initial_statement_returns, rhs_text|].
    intros line _. by apply returns_ret.
  - intros [[res ?] ?] _. by apply returns_ret.
Qed.
End closure.

(** ** The emission returns *)
Section emission.
Context `{HashOrder} (cache : gmap PrimitiveType DefId) (g : ApiGraph) (self : ApiSequence).
Context (Hwf : wf_sequence g self).

Lemma header_returns test_index outer extra title prefix :
  returns (_generate_function_header_string self test_index outer extra title prefix)
    (fun _ => True).
Proof.
  unfold _generate_function_header_string. cbn zeta. eapply returns_bind.
  - apply (fold_loop_returns _ (fun _ _ => True)); [done|]. intros pre i post res Hseq _.
    assert (i ∈ seq 1 (length (fuzzable_params self) - 1)) as Hin by (rewrite Hseq; set_solver).
    apply elem_of_seq in Hin. apply returns_bind_index; [lia|]. intros t _. by apply returns_ret.
  - intros res _. by apply returns_ret.
Qed.

Lemma emit_param_returns indent p l i c j st :
  j < length (params c) ->
  returns (emit_param cache g indent p l i c j st) (fun _ => True).
Proof.
  intros Hj. unfold emit_param. destruct st as [res strings].
  apply returns_bind_index; [done|]. intros [[pt idx] ct] _.
  eapply returns_bind; [apply split_nonempty|]. intros stages Hne.
  destruct (Nat.eqb_spec (length stages) 1) as [H1|H1].
  - apply returns_bind_index; [lia|]. intros. by apply returns_ret.
  - eapply returns_bind.
    + apply (fold_loop_returns _ (fun _ _ => True)); [done|]. intros pre k post st Hseq _.
      assert (k ∈ seq 0 (length stages - 1)) as Hin by (rewrite Hseq; set_solver).
      apply elem_of_seq in Hin. unfold emit_stage. apply returns_bind_index; [lia|].
      intros. by apply returns_ret.
    + intros st _. destruct (last stages) as [ct'|] eqn:Hl; [|by apply last_None in Hl].
      eapply returns_bind_unwrap; [done|]. by apply returns_ret.
Qed.

Lemma emit_call_returns indent p l dead i res :
  i < len self -> length dead = len self ->
  returns (emit_call cache self g indent p l dead i res) (fun _ => True).
Proof using Hwf.
  intros Hi Hdead. unfold emit_call. apply returns_bind_index; [done|]. intros c Hc.
  destruct (wf_call g self Hwf i c Hc) as (f & Hf & _).
  eapply returns_bind.
  - apply (fold_loop_returns _ (fun _ _ => True)); [done|]. intros pre j post st Hseq _.
    assert (j ∈ seq 0 (length (params c))) as Hin by (rewrite Hseq; set_solver).
    apply elem_of_seq in Hin. apply emit_param_returns. lia.
  - intros [res' strings] _. destruct (func c) as [[] fi]. cbn in Hf.
    eapply returns_bind_unwrap; [exact Hf|]. apply returns_bind_index; [lia|]. intros b _.
    by apply returns_ret.
Qed.

Lemma body_returns indent p l :
  returns (_generate_function_body_string cache self g indent p l) (fun _ => True).
Proof using Hwf.
  unfold _generate_function_body_string. cbn zeta.
  eapply returns_bind; [by apply dead_code_returns|]. intros dead [Hlen _].
  apply (fold_loop_returns _ (fun _ _ => True)); [done|]. intros pre i post res Hseq _.
  assert (i ∈ seq 0 (length (functions self))) as Hin by (rewrite Hseq; set_solver).
  apply elem_of_seq in Hin. apply emit_call_returns; [unfold len; lia|done].
Qed.

Lemma well_written_returns test_index indent :
  returns (_to_well_written_function cache self g test_index indent) (fun _ => True).
Proof using Hwf.
  unfold _to_well_written_function. cbn zeta.
  eapply returns_bind; [apply header_returns|]. intros header _.
  apply (returns_bind _ _ (fun _ => True)); [|intros res _; by apply returns_ret].
  destruct (ApiSequence._unsafe_tag self);
    (eapply returns_bind; [apply body_returns|]); intros body _; by apply returns_ret.
Qed.

Lemma except_main_returns test_index :
  returns (_to_afl_except_main cache self g test_index) (fun _ => True).
Proof using Hwf.
  unfold _to_afl_except_main. cbn zeta.
  eapply returns_bind; [apply well_written_returns|]. intros body _. by apply returns_ret.
Qed.
End emission.

(** The three files of a well-formed sequence. *)
Lemma files_return `{HashOrder} (cache : gmap PrimitiveType DefId) (g : ApiGraph)
    (self : ApiSequence) (test_index : nat) :
  wf_sequence g self ->
  returns (_to_afl_test_file cache self g test_index) (fun _ => True) /\
  returns (_to_replay_crash_file cache self g test_index) (fun _ => True) /\
  returns (_to_libfuzzer_test_file cache self g test_index) (fun _ => True).
Proof.
  intros Hwf.
  split_and!; unfold _to_afl_test_file, _to_replay_crash_file, _to_libfuzzer_test_file; cbn zeta;
    (eapply returns_bind; [by apply except_main_returns|]); intros res _;
    (apply (returns_bind _ _ (fun _ => True));
      [unfold _afl_main_function, _reproduce_main_function, _libfuzzer_fuzz_main; cbn zeta;
       eapply returns_bind; [apply closure_body_returns|]; intros body _; by apply returns_ret|]);
    intros main _; by apply returns_ret.
Qed.

(** ** Properties *)

(** The text of the closure is its layout: after the length guard (and the computation
    of the dynamic length when there is a dynamic part), one statement per fuzzable
    parameter, which reads the bytes of that parameter at the running fixed index and the
    running dynamic index, then the call of the test function on all parameters. *)
Lemma closure_body_is_the_layout (self : ApiSequence) (outer_indent test_index : nat)
    (Hall : Forall decodable (fuzzable_params self)) :
  let indent := _generate_indent (outer_indent + 4) in
  _afl_closure_body self outer_indent test_index =
  Ret (foldl String.append (closure_start self indent)
         (decode_lines self indent (rhs_exprs_of (fuzzable_params self) 0 0))
       +:+ test_function_call self indent test_index).
Proof. exact (closure_body_text self outer_indent test_index Hall). Qed.

Lemma closure_body_is_the_layout_witness :
  _afl_closure_body sample_set 4 0 =
  Ret (foldl String.append (closure_start sample_set "        ")
         (decode_lines sample_set "        "
           [RFixed _U16 0; RDynamic _Str 0])
       +:+ test_function_call sample_set "        " 0).
Proof.
  exact (closure_body_is_the_layout sample_set 4 0
    ltac:(vm_compute; repeat constructor; discriminate)).
Defined.

(** The emission of a well-formed sequence never panics: the AFL target, the replay
    program and the libFuzzer target are produced, whatever the iteration order of the
    hash sets. *)
Lemma files_of_well_formed_sequences_are_emitted `{HashOrder}
    (cache : gmap PrimitiveType DefId) (g : ApiGraph) (self : ApiSequence) (test_index : nat)
    (Hwf : wf_sequence g self) :
  returns (_to_afl_test_file cache self g test_index) (fun _ => True) /\
  returns (_to_replay_crash_file cache self g test_index) (fun _ => True) /\
  returns (_to_libfuzzer_test_file cache self g test_index) (fun _ => True).
Proof. by apply files_return. Qed.

Lemma files_of_well_formed_sequences_are_emitted_witness :
  returns (_to_afl_test_file (H := canonical_order) ∅ sample_get sample_graph 0)
    (fun _ => True).
Proof.
  exact (proj1 (files_of_well_formed_sequences_are_emitted (H := canonical_order) ∅
    sample_graph sample_get 0 sample_get_wf)).
Defined.

(** Every result that an argument refers to is bound. In the emitted function, the
    statement of a call whose result a later argument uses is a [let _local], never a
    [let _], and it is [let mut] when the argument borrows it mutably. *)
Lemma used_results_are_bound (g : ApiGraph) (s : ApiSequence) (local_param_prefix : string)
    (k x : nat) (c cx : ApiCall) (fx : ApiFunction) (ct : CallType)
    (Hwf : wf_sequence g s) (Hc : functions s !! k = Some c)
    (Huse : (ParamType._FunctionReturn, x, ct) ∈ params c)
    (Hcx : functions s !! x = Some cx) (Hfx : api_functions g !! (func cx).2 = Some fx) :
  returns (_dead_code s g) (fun dead =>
    dead !! x = Some false /\
    exists mut_tag, call_binding s local_param_prefix x false fx =
      "let " +:+ mut_tag +:+ local_param_prefix +:+ usize_to_string x +:+ " = " /\
    (_need_mut_tag ct = true -> mut_tag = "mut ")).
Proof.
  eapply returns_mono; [by apply dead_code_returns|]. intros dead [Hlen Hdead].
  destruct (wf_call g s Hwf k c Hc) as (f & Hf & _ & Hps).
  pose proof Huse as Huse'. apply list_elem_of_lookup_1 in Huse' as (j & Hj).
  destruct (Forall2_lookup_l _ _ _ _ _ Hps Hj) as (I & HI & Hok). cbn in Hok.
  destruct Hok as (Hlt & (c' & f' & T & Hc' & Hf' & HT & _) & Hmut & _).
  assert (c' = cx) as -> by congruence. assert (f' = fx) as -> by congruence.
  split.
  - apply Hdead; [by apply lookup_lt_Some in Hcx|]. apply (needed_result _ _ _ k).
    apply refers_uses; [done|]. by exists c, ct.
  - unfold call_binding, _has_no_output. rewrite HT. cbn [orb].
    eexists. split; [reflexivity|]. intros Hm. unfold _is_function_need_mut_tag.
    by rewrite decide_True by auto.
Qed.

Lemma used_results_are_bound_witness :
  call_binding sample_set "_local" 0 false
    (sample_function "c::T::new" [Primitive PrimitiveType.U16] (Some sample_type)) =
    "let mut _local0 = " /\
  returns (_dead_code sample_set sample_graph) (fun dead => dead !! 0 = Some false).
Proof.
  split; [vm_compute; reflexivity|].
  pose proof (used_results_are_bound sample_graph sample_set "_local" 1 0
    (mk_ApiCall (ApiType_BareFunction, 2)
      [(ParamType._FunctionReturn, 0, _MutBorrowedRef _DirectCall);
       (ParamType._FuzzableType, 1, _DirectCall)])
    (mk_ApiCall (ApiType_BareFunction, 0) [(ParamType._FuzzableType, 0, _DirectCall)])
    (sample_function "c::T::new" [Primitive PrimitiveType.U16] (Some sample_type))
    (_MutBorrowedRef _DirectCall) sample_set_wf ltac:(vm_compute; reflexivity)
    ltac:(apply list_elem_of_here) ltac:(vm_compute; reflexivity)
    ltac:(vm_compute; reflexivity)) as Hr.
  apply (returns_mono _ _ _ Hr). intros dead Hd. apply Hd.
Defined.
