(* ===== verification/Stages.v ===== *)
(** The stages of a call type ([fuzz_target/call_type.rs]: [_split_at_unwrap_call_type]) and
    the shape of the call types that the generator makes: borrows, [Some] and [Ok] around
    unwraps and dereferences of a variable or a cast of it. *)

From S2P Require Import Prelude RustStd CleanTypes CallTypes PreludeTypes.
From S2P Require Import FuzzableTypes ApiUtil CallTyping.

(** ** The stages of a call type

    Each unwrap ends a stage; the next one works on its result. *)

(** The stages that end with an unwrap, innermost first, and the rest. *)
Fixpoint stages (c : CallType) : list CallType * CallType :=
  let under inner :=
    let '(done, current) := stages inner in
    if _is_unwrap_call_type c then (done ++ [with_inner c current], _DirectCall)
    else (done, with_inner c current) in
  match c with
  | _NotCompatible | _DirectCall | _AsConvert _ => ([], c)
  | _BorrowedRef inner | _MutBorrowedRef inner | _ConstRawPointer inner _
  | _MutRawPointer inner _ | _UnsafeDeref inner | _Deref inner
  | _UnwrapResult inner | _ToResult inner | _UnwrapOption inner | _ToOption inner => under inner
  end.

Lemma stages_leaf leaf : is_leaf leaf = true -> stages leaf = ([], leaf).
Proof. by destruct leaf. Qed.

Lemma stages_frame f inner : is_leaf f = false ->
  stages (with_inner f inner) =
    (if _is_unwrap_call_type f
     then ((stages inner).1 ++ [with_inner f (stages inner).2], _DirectCall)
     else ((stages inner).1, with_inner f (stages inner).2)).
Proof.
  intros Hf. destruct f; try done; cbn; by destruct (stages inner).
Qed.

(** Frames above the last unwrap. *)
Lemma stages_frames one c :
  Forall (fun f => is_leaf f = false /\ _is_unwrap_call_type f = false) one ->
  stages (plug one c) = ((stages c).1, plug one (stages c).2).
Proof.
  induction 1 as [|f one [Hf Hu] _ IH]; [apply surjective_pairing|].
  by rewrite plug_cons, stages_frame, Hu, IH by done.
Qed.

(** The stages without the variable that an outermost unwrap leaves, outermost first. *)
Definition closed_stages (c : CallType) : list CallType :=
  if _is_unwrap_call_type c then rev (stages c).1 else rev ((stages c).1 ++ [(stages c).2]).

Lemma is_unwrap_frame f inner : is_leaf f = false ->
  _is_unwrap_call_type (with_inner f inner) = _is_unwrap_call_type f.
Proof. by destruct f. Qed.

(** A first frame and frames that are no unwraps, above [c]. *)
Lemma closed_frames h t c :
  is_leaf h = false -> Forall (fun f => is_leaf f = false /\ _is_unwrap_call_type f = false) t ->
  closed_stages (plug (h :: t) c) = plug (h :: t) (stages c).2 :: rev (stages c).1.
Proof.
  intros Hh Ht. unfold closed_stages. rewrite !plug_cons, is_unwrap_frame, stages_frame by done.
  rewrite stages_frames by done. destruct (_is_unwrap_call_type h); cbn [fst snd];
    by rewrite rev_app_distr.
Qed.

(** What the loop over the array collects. *)
Lemma split_loop_collects raw one leaf :
  Forall (fun f => is_leaf f = false) raw -> is_leaf leaf = true ->
  match one with
  | [] => True
  | h :: t => is_leaf h = false /\
      Forall (fun f => is_leaf f = false /\ _is_unwrap_call_type f = false) t
  end ->
  _array_to_call_type <$> split_at_unwrap_loop (raw ++ [leaf]) [] one =
    closed_stages (plug (one ++ raw) leaf).
Proof.
  intros Hraw Hleaf. revert one.
  assert (Hone : forall h t (x : CallType), is_leaf h = false /\
    Forall (fun f => is_leaf f = false /\ _is_unwrap_call_type f = false) t ->
    _array_to_call_type ((h :: t) ++ [x]) = plug (h :: t) x).
  { intros h t x [Hh Ht]. apply array_of_frames. constructor; [done|].
    eapply Forall_impl; [exact Ht|by intros ? [? _]]. }
  induction Hraw as [|f raw Hf Hraw IH]; intros one Hok.
  - cbn [app split_at_unwrap_loop].
    replace (_is_unwrap_call_type leaf) with false by (by destruct leaf).
    cbn [negb app fmap list_fmap]. rewrite app_nil_r. destruct one as [|h t].
    + cbn. unfold closed_stages. rewrite stages_leaf by done. by destruct leaf.
    + rewrite Hone by done. destruct Hok. by rewrite closed_frames, stages_leaf by done.
  - cbn [app split_at_unwrap_loop]. destruct (_is_unwrap_call_type f) eqn:Hu; cbn [negb].
    + rewrite split_loop_acc, fmap_app, IH by (by split). cbn [app]. destruct one as [|h t]; [done|].
      cbn [length Nat.ltb Nat.leb fmap list_fmap app].
      change (h :: t ++ [_DirectCall]) with ((h :: t) ++ [_DirectCall]). rewrite Hone by done.
      change (h :: t ++ f :: raw) with ((h :: t) ++ (f :: raw)). rewrite plug_app.
      destruct Hok. rewrite (closed_frames h t) by done. rewrite (plug_cons f raw leaf).
      unfold closed_stages. rewrite is_unwrap_frame, stages_frame, Hu by done. done.
    + destruct (raw ++ [leaf]) as [|x l] eqn:Hrl; [by destruct raw|]. cbn [app].
      rewrite IH, <- app_assoc; [done|]. destruct one as [|h t]; cbn; [split; [done|constructor]|].
      destruct Hok. split; [done|]. apply Forall_app. split; [done|by repeat constructor].
Qed.

(** The split of a call type: its stages. *)
Lemma split_is_stages c :
  _split_at_unwrap_call_type c = Ret ((stages c).1 ++ [(stages c).2]).
Proof.
  assert (Hno : _contains_unwrap_call_type c = false -> stages c = ([], c)).
  { induction c; intros Hc; try done; cbn [stages]; rewrite IHc by done; done. }
  unfold _split_at_unwrap_call_type. destruct (_contains_unwrap_call_type c) eqn:Hc; cbn [negb];
    [|by rewrite Hno].
  destruct (call_type_spine c) as (frames & leaf & Harr & Hleaf & Hframes & Hplug).
  rewrite Harr, split_loop_collects by done. cbn [app]. rewrite Hplug. unfold closed_stages.
  destruct (_is_unwrap_call_type c) eqn:Hu; rewrite rev_involutive.
  - assert (Hs : exists done f cur, stages c = (done ++ [with_inner f cur], _DirectCall) /\
      _is_unwrap_call_type f = true).
    { destruct c; try done; cbn [stages]; destruct (stages c) as [d cur];
        [by eexists d, (_UnwrapResult c), cur|by eexists d, (_UnwrapOption c), cur]. }
    destruct Hs as (d & f & cur & -> & Hf). cbn [fst snd].
    rewrite last_snoc. cbn [unwrap mbind outcome_bind].
    by rewrite is_unwrap_frame, Hf by (by destruct f).
  - rewrite last_snoc. cbn [unwrap mbind outcome_bind].
    assert (_is_unwrap_call_type (stages c).2 = false) as ->; [|done].
    clear -Hc Hu. destruct c; try done; cbn [stages]; by destruct (stages c).
Qed.

(** ** The shape of call types *)

(** Unwraps and dereferences of a variable or of a cast. *)
Fixpoint core (c : CallType) : Prop :=
  match c with
  | _DirectCall => True
  | _AsConvert t => exists p, t = PrimitiveType.as_str p
  | _Deref c | _UnsafeDeref c | _UnwrapOption c | _UnwrapResult c => core c
  | _ => False
  end.

(** Borrows, [Some] and [Ok] around those. *)
Fixpoint framed (c : CallType) : Prop :=
  match c with
  | _BorrowedRef c | _MutBorrowedRef c | _ConstRawPointer c _ | _MutRawPointer c _
  | _ToOption c | _ToResult c => framed c
  | c => core c
  end.

Lemma core_framed c : core c -> framed c.
Proof. by destruct c. Qed.

(** ** How a call type comes from the types

    [convert m T I c]: [_same_type] looks at the input [I] from outside until it is taken
    as it is, and then through the output [T]. *)
Definition is_path (t : Type_) : bool := match t with ResolvedPath _ _ _ _ => true | _ => false end.

Inductive convert (m : FullNameMap) : Type_ -> Type_ -> CallType -> Prop :=
| cv_same T : convert m T T _DirectCall
| cv_path T I : is_path T = true -> is_path I = true -> convert m T I _DirectCall
| cv_cast p q s :
    plain_input m (Primitive q) -> copy_primitive p = true -> s = PrimitiveType.as_str q ->
    convert m (Primitive p) (Primitive q) (_AsConvert s)
| cv_ref T l J c : convert m T J c -> convert m T (BorrowedRef l Not J) (_BorrowedRef c)
| cv_mut_ref T l J c : convert m T J c -> convert m T (BorrowedRef l Mut J) (_MutBorrowedRef c)
| cv_const_pointer T J c : convert m T J c -> convert m T (RawPointer Not J) (_ConstRawPointer c J)
| cv_mut_pointer T J c : convert m T J c -> convert m T (RawPointer Mut J) (_MutRawPointer c J)
| cv_some T I J c : from_type I m = PreludeOption J -> convert m T J c -> convert m T I (_ToOption c)
| cv_ok T I J E c : from_type I m = PreludeResult J E -> convert m T J c -> convert m T I (_ToResult c)
| cv_unwrap_option T I U c :
    plain_input m I -> from_type T m = PreludeOption U -> convert m U I c ->
    convert m T I (_UnwrapOption c)
| cv_unwrap_result T I U E c :
    plain_input m I -> from_type T m = PreludeResult U E -> convert m U I c ->
    convert m T I (_UnwrapResult c)
| cv_deref l mu U I c :
    plain_input m I -> _copy_type U = true -> convert m U I c ->
    convert m (BorrowedRef l mu U) I (_Deref c)
| cv_unsafe_deref mu U I c :
    plain_input m I -> convert m U I c -> convert m (RawPointer mu U) I (_UnsafeDeref c).

Lemma primitive_convert m p i c :
  _same_type_primitive p i = c -> c <> _NotCompatible -> convert m (Primitive p) i c.
Proof.
  destruct i as [| |q| | | | | | | | | |]; try (destruct p; cbn; by intros <-).
  destruct (decide (p = q)) as [->|Hne].
  - intros <- Hc. assert (_same_type_primitive q (Primitive q) = _DirectCall) as ->.
    { destruct q; try reflexivity; by destruct Hc. }
    constructor.
  - intros <- Hc. enough (_same_type_primitive p (Primitive q) = _AsConvert (PrimitiveType.as_str q) /\
      copy_primitive p = true) as [-> ?] by (constructor; [apply plain_input_primitive|done|done]).
    clear m. destruct p, q; first [done|by destruct Hc].
Qed.

(** Through the output, for an input that is taken as it is. *)
Lemma plain_convert m o i c :
  plain_input m i -> _same_type_hard_mode m o i = c -> c <> _NotCompatible -> convert m o i c.
Proof.
  intros Hi. revert c. induction o as [o IH] using (induction_ltof1 _ type_size). unfold ltof in IH.
  intros c. rewrite same_type_plain_input by done. destruct (decide (o = i)) as [->|Hne].
  { intros <- _. constructor. }
  destruct o as [path names did gen| |p| | | | | |mu t|l mu t| | |]; cbn [same_type_by_output];
    try by intros <-.
  - unfold _same_type_resolved_path.
    destruct (_prelude_type_need_special_dealing (ResolvedPath path names did gen) m) eqn:Hn.
    + cbn zeta. intros Hc Hnc. destruct (unless_NotCompatible_inv _ _ _ Hc Hnc) as [Hin ->].
      specialize (IH _ (final_type_smaller _ _ Hn) _ eq_refl Hin). apply need_special_dealing_spec in Hn.
      destruct (from_type _ _) as [|u|u e] eqn:Hft; [done|..]; by econstructor.
    + intros <-. destruct i; try done. case_decide; [done|].
      destruct (_resolved_path_equal_without_lifetime _ _); [|done]. intros _. by apply cv_path.
  - apply primitive_convert.
  - unfold _same_type_raw_pointer. intros Hc Hnc.
    destruct (unless_NotCompatible_inv _ _ _ Hc Hnc) as [Hin ->].
    apply cv_unsafe_deref; [done|]. apply IH; [apply child_size; constructor|done|done].
  - unfold _same_type_borrowed_ref. intros Hc Hnc.
    destruct (unless_NotCompatible_inv _ _ _ Hc Hnc) as [Hin ->]. destruct (_copy_type t) eqn:Hcopy; [|done].
    apply cv_deref; [done..|]. apply IH; [apply child_size; constructor|done|done].
Qed.

Lemma same_type_convert m o i c :
  _same_type_hard_mode m o i = c -> c <> _NotCompatible -> convert m o i c.
Proof.
  revert c. induction i as [i IH] using (induction_ltof1 _ type_size). unfold ltof in IH. intros c.
  destruct (decide (plain_input m i)) as [Hi|Hi]; [by apply plain_convert|].
  rewrite same_type_unfold. unfold same_type_hard_mode_body.
  destruct (decide (o = i)) as [->|Hne]; [intros <- _; constructor|].
  assert (Hprelude : _prelude_type_need_special_dealing i m = true ->
    unless_NotCompatible (_same_type_hard_mode m o (_get_final_type (from_type i m)))
      (_to_call_type (from_type i m)) = c -> c <> _NotCompatible -> convert m o i c).
  { intros Hn Hc Hnc. destruct (unless_NotCompatible_inv _ _ _ Hc Hnc) as [Hin ->].
    specialize (IH _ (final_type_smaller _ _ Hn) _ eq_refl Hin). apply need_special_dealing_spec in Hn.
    destruct (from_type i m) as [|u|u e] eqn:Hft; [done|..]; by econstructor. }
  destruct i as [path names did gen| | | | | | | |mu t|l mu t| | |];
    try (destruct (_prelude_type_need_special_dealing _ m) eqn:Hn in |- *;
         [by apply Hprelude|by exfalso; apply Hi]).
  - unfold _raw_pointer_in_same_type. intros Hc Hnc.
    destruct (unless_NotCompatible_inv _ _ _ Hc Hnc) as [Hin ->].
    specialize (IH t ltac:(apply child_size; constructor) _ eq_refl Hin). destruct mu; by constructor.
  - unfold _borrowed_ref_in_same_type. intros Hc Hnc.
    destruct (unless_NotCompatible_inv _ _ _ Hc Hnc) as [Hin ->].
    specialize (IH t ltac:(apply child_size; constructor) _ eq_refl Hin). destruct mu; by constructor.
Qed.

(** For an input that is taken as it is, only the output is converted. *)
Lemma convert_framed m T I c : convert m T I c -> framed c /\ (plain_input m I -> core c).
Proof.
  assert (Hspecial : forall I P, from_type I m = P -> _is_final_type P = false -> ~ plain_input m I).
  { intros I' P Hft HP [_ Hn]. apply not_true_iff_false in Hn. apply Hn, need_special_dealing_spec.
    by rewrite Hft. }
  induction 1 as [| |p q s _ _ ->|? ? ? ? ? [IH _]|? ? ? ? ? [IH _]|? ? ? ? [IH _]|? ? ? ? [IH _]
    |? ? ? ? Hft ? [IH _]|? ? ? ? ? Hft ? [IH _]|? ? ? ? Hp ? ? [_ IH]|? ? ? ? ? Hp ? ? [_ IH]
    |? ? ? ? ? Hp ? ? [_ IH]|? ? ? ? Hp ? [_ IH]]; cbn; try done.
  - split; [by eexists|]. intros _. by eexists.
  - by split; [|intros []].
  - by split; [|intros []].
  - by split; [|intros []].
  - by split; [|intros []].
  - split; [done|]. intros Hp. by destruct (Hspecial _ _ Hft eq_refl).
  - split; [done|]. intros Hp. by destruct (Hspecial _ _ Hft eq_refl).
  - split; [by apply IH|done].
  - split; [by apply IH|done].
  - split; [by apply IH|done].
  - split; [by apply IH|done].
Qed.

Lemma same_type_framed m o i :
  _same_type_hard_mode m o i <> _NotCompatible -> framed (_same_type_hard_mode m o i).
Proof. intros Hnc. by eapply convert_framed, same_type_convert. Qed.

Lemma target_framed c : target_call_type c = true -> framed c.
Proof. induction c; cbn; try done; by apply core_framed. Qed.

(** The stages that end with an unwrap hold no other frame than unwraps and dereferences. *)
Lemma stages_core c : framed c -> Forall core (stages c).1.
Proof.
  assert (Hcore : forall c, core c -> Forall core (stages c).1 /\ core (stages c).2).
  { clear c. intros c. induction c; intros Hc; try done; cbn [stages];
      destruct (stages c) as [ss cur]; destruct (IHc Hc) as [Hss Hcur]; split; try done;
      apply Forall_app; split; [done|by repeat constructor|done|by repeat constructor]. }
  induction c; intros Hc; cbn [framed] in Hc; try (by apply Hcore);
    cbn [stages]; destruct (stages c) as [ss cur]; by apply IHc.
Qed.
