(* ===== verification/BodyText.v ===== *)
(** The body of an emitted test function as a list of statements, and that the emitted text
    is what these statements print ([fuzz_target/api_sequence.rs]:
    [_generate_function_body_string]). *)

From S2P Require Import Prelude RustStd CleanTypes CallTypes PreludeTypes.
From S2P Require Import FuzzableTypes ApiUtil ModVisibility ApiFunction ApiSequence ApiGraph.
From S2P Require Import SequenceWf Satisfy DeadCode SequenceText Stages.

(** ** The statements *)

(** The variables of the body: the parameters of the test function, the results of the
    calls, and the helpers of the [j]-th argument of the [i]-th call. *)
Inductive var := VParam (i : nat) | VLocal (i : nat) | VHelper (i j k : nat).

#[export] Instance var_eq_dec : EqDecision var.
Proof. solve_decision. Defined.
#[export] Program Instance var_countable : Countable var :=
  inj_countable' (fun v => match v with
    | VParam i => inl i | VLocal i => inr (inl i) | VHelper i j k => inr (inr (i, j, k)) end)
    (fun x => match x with
    | inl i => VParam i | inr (inl i) => VLocal i | inr (inr (i, j, k)) => VHelper i j k end) _.
Next Obligation. by intros []. Qed.

(** An expression: a call type applied to a variable. *)
Abbreviation expr := (CallType * var)%type.

(** [let [mut] helper = expr;], and [let binding = function(args);], where the binding is
    [_] or the result with its [mut]. *)
Inductive stmt :=
| SHelper (i j k : nat) (is_mut : bool) (e : expr)
| SCall (i : nat) (binding : option bool) (function : string) (args : list expr).

(** The helpers of an argument from the [k]-th on, and its expression. *)
Fixpoint helpers (i j k : nat) (from : var) (ss : list CallType) (current : CallType)
    : list stmt * expr :=
  match ss with
  | [] => ([], (current, from))
  | c :: ss =>
      let next := hd current ss in
      let '(stmts, e) := helpers i j (S k) (VHelper i j k) ss current in
      (SHelper i j k (_need_mut_tag next) (c, from) :: stmts, e)
  end.

Definition base_var (p : ParamType * nat * CallType) : var :=
  match p with
  | (ParamType._FuzzableType, index, _) => VParam index
  | (ParamType._FunctionReturn, index, _) => VLocal index
  end.

Definition argument (i j : nat) (p : ParamType * nat * CallType) : list stmt * expr :=
  helpers i j 1 (base_var p) (stages p.2).1 (stages p.2).2.

(** The statements of the [i]-th call. *)
Definition call_stmts (s : ApiSequence) (i : nat) (c : ApiCall) (f : ApiFunction) (dead : bool)
    : list stmt :=
  let args := imap (argument i) (params c) in
  concat (List.map fst args)
  ++ [SCall i (if dead || _has_no_output f then None else Some (_is_function_need_mut_tag s i))
        (full_name f) (List.map snd args)].

Definition body_stmts (g : ApiGraph) (s : ApiSequence) : outcome (list stmt) :=
  dead_code ← _dead_code s g;
  fold_loop (fun i stmts =>
    c ← (functions s).[i];
    f ← (api_functions g).[(func c).2];
    dead ← dead_code.[i];
    mret (stmts ++ call_stmts s i c f dead)) (seq 0 (length (functions s))) [].

(** ** Their text *)
Section print.
Context (cache : gmap PrimitiveType DefId) (m : FullNameMap).

Definition var_name (v : var) : string :=
  match v with
  | VParam i => "_param" +:+ usize_to_string i
  | VLocal i => "_local" +:+ usize_to_string i
  | VHelper i j k =>
      "_local" +:+ usize_to_string i +:+ "_param" +:+ usize_to_string j +:+ "_helper"
        +:+ usize_to_string k
  end.

Definition print_expr (e : expr) : string := _to_call_string cache m e.1 (var_name e.2).

Definition print_stmt (indent : string) (st : stmt) : string :=
  match st with
  | SHelper i j k is_mut e =>
      indent +:+ (if is_mut then "let mut " else "let ") +:+ var_name (VHelper i j k) +:+ " = "
        +:+ print_expr e +:+ ";" +:+ nl
  | SCall i binding function args =>
      indent
        +:+ match binding with
            | None => "let _ = "
            | Some is_mut => "let " +:+ (if is_mut then "mut " else "") +:+ var_name (VLocal i)
                               +:+ " = "
            end
        +:+ function +:+ "(" +:+ join_arguments (List.map print_expr args) +:+ ");" +:+ nl
  end.

Definition print_stmts (indent : string) (stmts : list stmt) : string :=
  foldr String.append EmptyString (List.map (print_stmt indent) stmts).
End print.

(** ** Texts in which no [let mut] hides

    The line of a helper is first made with [let mut ], which is then replaced. No other
    [let mut ] is in the line: there is no [m] behind a space. *)
Definition starts_m (s : string) : bool :=
  match s with String c _ => Ascii.nat_of_ascii c =? 109 | EmptyString => false end.
Fixpoint no_space_m (s : string) : bool :=
  match s with
  | String c s' => negb ((Ascii.nat_of_ascii c =? 32) && starts_m s') && no_space_m s'
  | EmptyString => true
  end.
Definition calm (s : string) : bool := no_space_m s && negb (starts_m s).

Lemma calm_app s t : calm s = true -> calm t = true -> calm (s +:+ t) = true.
Proof.
  unfold calm. rewrite !andb_true_iff, !negb_true_iff. intros [Hs Hms] [Ht Hmt]. split.
  - clear Hms. induction s as [|c s IH]; [done|]. cbn [String.append no_space_m] in *.
    apply andb_true_iff in Hs as [Hc Hs]. rewrite (IH Hs), andb_true_r.
    destruct s as [|d s]; [cbn [String.append]; by rewrite Hmt, andb_false_r|exact Hc].
  - by destruct s.
Qed.

Lemma no_space_m_app s t : no_space_m (s +:+ t) = true -> no_space_m t = true.
Proof. induction s as [|c s IH]; [done|]. cbn. rewrite andb_true_iff. tauto. Qed.

Lemma calm_contains s : calm s = true -> str_contains s "let mut " = false.
Proof.
  unfold calm. rewrite andb_true_iff. intros [Hs _]. apply not_true_is_false.
  intros (a & b & ->)%str_contains_spec. by apply no_space_m_app in Hs.
Qed.

Lemma calm_pretty_go x : forall s, calm s = true -> calm (pretty_N_go x s) = true.
Proof.
  induction (N.lt_wf_0 x) as [x _ IH]. intros s Hs.
  destruct (decide (0 < x)%N) as [Hx|Hx].
  - rewrite pretty_N_go_step by done. apply IH; [by apply N.div_lt|].
    apply (calm_app (String _ EmptyString)); [|done]. unfold pretty_N_char. by repeat case_match.
  - assert (x = 0%N) as -> by lia. by rewrite pretty_N_go_0.
Qed.

Lemma calm_usize n : calm (usize_to_string n) = true.
Proof.
  unfold usize_to_string. change (calm (pretty (N.of_nat n)) = true).
  unfold pretty, pretty_N. case_decide; [done|by apply calm_pretty_go].
Qed.

Lemma calm_var v : calm (var_name v) = true.
Proof. destruct v; cbn [var_name]; repeat apply calm_app; try done; apply calm_usize. Qed.

Lemma calm_core cache m c x : core c -> calm x = true -> calm (_to_call_string cache m c x) = true.
Proof.
  intros Hc Hx. induction c; try done; cbn [_to_call_string]; repeat apply calm_app; try done;
    try by apply IHc.
  destruct Hc as [p ->]. by destruct p.
Qed.

Fixpoint spaces (n : nat) : string := match n with S n => " " +:+ spaces n | O => EmptyString end.

Lemma indent_spaces n : _generate_indent n = spaces n.
Proof.
  assert (Hr : forall n, spaces n +:+ " " = spaces (S n)).
  { clear n. induction n as [|n IH]; [done|]. cbn in *. by rewrite IH. }
  unfold _generate_indent. induction n as [|n IH]; [done|].
  rewrite seq_S, foldl_app, IH. apply Hr.
Qed.

(** The pending line of a helper, with the [mut] that is kept. *)
Lemma finish_line next n rest : calm rest = true ->
  finish_helper_line next (_generate_indent n +:+ "let mut " +:+ rest) =
  _generate_indent n +:+ (if _need_mut_tag next then "let mut " else "let ") +:+ rest.
Proof.
  intros Hrest%calm_contains. unfold finish_helper_line.
  destruct (_need_mut_tag next); cbn [negb]; [done|]. rewrite indent_spaces. unfold str_replace, split_str.
  induction n as [|n IH].
  - change (spaces 0 +:+ "let mut " +:+ rest) with ("let mut " +:+ rest).
    assert (split_skip "let mut " 0 ("let mut " +:+ rest) = EmptyString :: split_str rest "let mut ") as ->.
    { change ("let mut " +:+ rest) with (String (Ascii.ascii_of_nat 108) ("et mut " +:+ rest)).
      cbn [split_skip]. change (String (Ascii.ascii_of_nat 108) ("et mut " +:+ rest)) with ("let mut " +:+ rest).
      by rewrite starts_with_app. }
    by rewrite split_not_contains.
  - change (spaces (S n) +:+ "let mut " +:+ rest) with (String (Ascii.ascii_of_nat 32) (spaces n +:+ "let mut " +:+ rest)).
    cbn [split_skip]. assert (starts_with (String (Ascii.ascii_of_nat 32) (spaces n +:+ "let mut " +:+ rest)) "let mut " = false)
      as -> by done.
    destruct (split_skip "let mut " 0 (spaces n +:+ "let mut " +:+ rest)) as [|h t] eqn:Hs;
      [by apply split_skip_nonempty in Hs|].
    by rewrite join_cons_head, IH.
Qed.

(** ** The emitted text *)
Section emit.
Context (cache : gmap PrimitiveType DefId) (g : ApiGraph) (s : ApiSequence) (n : nat).

Let m := full_name_map g.
Let indent := _generate_indent n.

Definition helper_line (i j k : nat) (e : expr) : string :=
  indent +:+ "let mut " +:+ var_name (VHelper i j k) +:+ " = " +:+ print_expr cache m e +:+ ";" +:+ nl.

Lemma finish_helper next i j k e : core e.1 ->
  finish_helper_line next (helper_line i j k e) =
  print_stmt cache m indent (SHelper i j k (_need_mut_tag next) e).
Proof.
  intros He. unfold helper_line. cbn [print_stmt]. apply finish_line.
  apply calm_app; [apply calm_var|]. apply calm_app; [done|].
  apply calm_app; [apply calm_core; [exact He|apply calm_var]|done].
Qed.

Lemma print_stmts_cons st sts :
  print_stmts cache m indent (st :: sts) = print_stmt cache m indent st +:+ print_stmts cache m indent sts.
Proof. done. Qed.

Lemma print_stmts_app l1 l2 : print_stmts cache m indent (l1 ++ l2) =
  print_stmts cache m indent l1 +:+ print_stmts cache m indent l2.
Proof.
  induction l1 as [|st l1 IH]; [done|]. cbn [app]. by rewrite !print_stmts_cons, IH, str_app_assoc.
Qed.

Lemma emit_stage_returns i j arr k c st from :
  arr !! k = Some c -> former_param_name st = var_name from ->
  emit_stage cache g indent "_local" i j arr k st =
  Ret {| stage_res := if 1 <? helper_index st
                      then stage_res st +:+ finish_helper_line c (former_helper_line st)
                      else stage_res st;
         former_param_name := var_name (VHelper i j (helper_index st));
         helper_index := helper_index st + 1;
         former_helper_line := helper_line i j (helper_index st) (c, from) |}.
Proof. intros Hc Hfrom. unfold emit_stage, vec_index. rewrite Hc. cbn. by rewrite Hfrom. Qed.

(** The loop over the stages: [k] helpers are begun, the line of the last one is pending. *)
Lemma emit_stages i j done ss current from res pending :
  Forall core ss -> (length done = 0 -> pending = EmptyString) ->
  exists st', fold_loop (emit_stage cache g indent "_local" i j (done ++ ss ++ [current]))
      (seq (length done) (length ss))
      {| stage_res := res; former_param_name := var_name from; helper_index := S (length done);
         former_helper_line := pending |} = Ret st' /\
    former_param_name st' = var_name (helpers i j (S (length done)) from ss current).2.2 /\
    (helpers i j (S (length done)) from ss current).2.1 = current /\
    stage_res st' +:+ finish_helper_line current (former_helper_line st') =
      res +:+ finish_helper_line (hd current ss) pending
        +:+ print_stmts cache m indent (helpers i j (S (length done)) from ss current).1.
Proof.
  intros Hss. revert done from res pending.
  induction Hss as [|c ss Hc Hss IH]; intros done from res pending Hp.
  - eexists. split; [done|]. cbn. split_and!; [done|done|]. by rewrite str_app_nil_r.
  - cbn [length seq fold_loop]. rewrite (emit_stage_returns i j _ (length done) c _ from);
      [|by apply list_lookup_middle|done].
    cbn [mbind outcome_bind helper_index stage_res former_param_name former_helper_line].
    specialize (IH (done ++ [c]) (VHelper i j (S (length done)))
      (if 1 <? S (length done) then res +:+ finish_helper_line c pending else res)
      (helper_line i j (S (length done)) (c, from))).
    rewrite length_app in IH. cbn [length] in IH. rewrite Nat.add_1_r in IH.
    rewrite <- app_assoc in IH. cbn [app] in IH.
    destruct IH as (st' & Hst & Hname & Hcur & Htext); [done|]. exists st'.
    split; [|].
    { replace (S (length done) + 1) with (S (S (length done))) by lia. exact Hst. }
    cbn [helpers]. destruct (helpers i j (S (S (length done))) _ ss current) as [stmts e] eqn:Hh.
    cbn [fst snd] in *. split_and!; [done|done|]. rewrite Htext, finish_helper by done.
    rewrite print_stmts_cons. cbn [hd]. destruct (Nat.ltb_spec 1 (S (length done))) as [Hlt|Hle].
    + by rewrite !str_app_assoc.
    + rewrite Hp by lia. assert (finish_helper_line c EmptyString = EmptyString) as ->.
      { unfold finish_helper_line. by destruct (_need_mut_tag c). }
      done.
Qed.

(** One argument. *)
Lemma emit_param_prints i c j p res strs :
  params c !! j = Some p -> framed p.2 ->
  emit_param cache g indent "_param" "_local" i c j (res, strs) =
  Ret (res +:+ print_stmts cache m indent (argument i j p).1,
       strs ++ [print_expr cache m (argument i j p).2]).
Proof.
  intros Hp Hf. unfold emit_param, vec_index. rewrite Hp. destruct p as [[pt idx] ct].
  cbn [unwrap mbind outcome_bind snd] in *. rewrite split_is_stages. cbn [mbind outcome_bind].
  pose proof (stages_core ct Hf) as Hcore. unfold argument. cbn [snd].
  assert (Hname : (match pt with
    | ParamType._FuzzableType => "_param" +:+ usize_to_string idx
    | ParamType._FunctionReturn => "_local" +:+ usize_to_string idx
    end) = var_name (base_var (pt, idx, ct))) by (by destruct pt).
  rewrite Hname. clear Hname. destruct (stages ct) as [ss current]. cbn [fst snd] in *.
  rewrite length_app. cbn [length]. rewrite Nat.add_sub, Nat.add_1_r. destruct ss as [|c0 ss].
  - cbn. unfold print_stmts. cbn. by rewrite str_app_nil_r.
  - cbn [length Nat.eqb].
    destruct (emit_stages i j [] (c0 :: ss) current (base_var (pt, idx, ct)) res EmptyString)
      as (st' & Hst & Hname & Hcur & Htext); [done|done|].
    cbn [app length] in *. rewrite Hst. cbn [mbind outcome_bind].
    change (c0 :: ss ++ [current]) with ((c0 :: ss) ++ [current]). rewrite last_snoc.
    cbn [unwrap mbind outcome_bind]. rewrite Htext, Hname. f_equal. f_equal.
    + assert (finish_helper_line (hd current (c0 :: ss)) EmptyString = EmptyString) as ->; [|done].
      unfold finish_helper_line. by destruct (_need_mut_tag _).
    + unfold print_expr. by rewrite Hcur.
Qed.

Lemma emit_params_print i c ps done res strs :
  params c = done ++ ps -> Forall (fun p => framed p.2) ps ->
  fold_loop (emit_param cache g indent "_param" "_local" i c) (seq (length done) (length ps)) (res, strs) =
  let args := imap (fun j => argument i (length done + j)) ps in
  Ret (res +:+ print_stmts cache m indent (concat (List.map fst args)),
       strs ++ List.map (print_expr cache m) (List.map snd args)).
Proof.
  intros Hps Hall. revert done res strs Hps. induction Hall as [|p ps Hp _ IH]; intros done res strs Hps.
  - cbn. by rewrite str_app_nil_r, app_nil_r.
  - cbn [length seq fold_loop]. rewrite (emit_param_prints i c _ p);
      [|rewrite Hps; by apply list_lookup_middle|done]. cbn [mbind outcome_bind].
    specialize (IH (done ++ [p])). rewrite length_app in IH. cbn [length] in IH.
    rewrite Nat.add_1_r in IH. rewrite IH by (by rewrite <- app_assoc). cbn zeta.
    rewrite imap_cons. cbn [List.map concat]. rewrite Nat.add_0_r.
    assert (Hext : imap ((fun j => argument i (length done + j)) ∘ S) ps =
      imap (fun j => argument i (S (length done) + j)) ps).
    { apply imap_ext. intros k x _. cbn. f_equal. lia. }
    rewrite Hext, print_stmts_app, str_app_assoc, <- app_assoc. done.
Qed.

Lemma emit_call_prints dead_code i c f dead res :
  functions s !! i = Some c -> api_functions g !! (func c).2 = Some f ->
  dead_code !! i = Some dead -> Forall (fun p => framed p.2) (params c) ->
  emit_call cache s g indent "_param" "_local" dead_code i res =
  Ret (res +:+ print_stmts cache m indent (call_stmts s i c f dead)).
Proof.
  intros Hc Hf Hdead Hps. unfold emit_call, vec_index. rewrite Hc. cbn [unwrap mbind outcome_bind].
  pose proof (emit_params_print i c (params c) [] res [] eq_refl Hps) as Hargs.
  cbn [length] in Hargs. fold indent. rewrite Hargs. clear Hargs. cbn [mbind outcome_bind].
  destruct (func c) as [[] fi]. cbn [snd] in Hf. rewrite Hf, Hdead. cbn [unwrap mbind outcome_bind].
  f_equal. unfold call_stmts. cbn zeta. rewrite print_stmts_app. cbn [app length Nat.add].
  assert (Hbind : call_binding s "_local" i dead f =
    match (if dead || _has_no_output f then None else Some (_is_function_need_mut_tag s i)) with
    | None => "let _ = "
    | Some is_mut => "let " +:+ (if is_mut then "mut " else "") +:+ var_name (VLocal i) +:+ " = "
    end).
  { unfold call_binding. destruct (dead || _has_no_output f); [done|]. cbn [var_name].
    by rewrite !str_app_assoc. }
  unfold print_stmts at 3. cbn [List.map foldr print_stmt]. rewrite <- Hbind, str_app_nil_r.
  by rewrite !str_app_assoc.
Qed.
End emit.

(** ** The calls of a well-formed sequence *)
Lemma param_framed g s k p I : param_ok g s k p I -> framed p.2.
Proof.
  destruct p as [[[] idx] ct]; cbn [param_ok snd].
  - intros (_ & (c & f & T & _ & _ & _ & -> & Hnc) & _). by apply same_type_framed.
  - intros (ft & _ & Hgen & Hne & _). apply target_framed.
    assert (H := generate_target_ok (fuzzable_call_type I (full_name_map g))).
    rewrite Hgen in H. by destruct H as [[? _]|[_ ?]].
Qed.

Lemma call_framed g s k c : call_ok g s k c -> Forall (fun p => framed p.2) (params c).
Proof.
  intros (f & _ & Hps & _). apply Forall_lookup. intros j p Hp.
  destruct (Forall2_lookup_l _ _ _ _ _ Hps Hp) as (I & _ & Hok). by eapply param_framed.
Qed.

(** The text of the body is that of its statements. *)
Lemma body_prints cache g s outer : wf_sequence g s ->
  exists stmts, body_stmts g s = Ret stmts /\
    _generate_function_body_string cache s g outer "_param" "_local" =
    Ret (print_stmts cache (full_name_map g) (_generate_indent (outer + 4)) stmts).
Proof.
  intros Hwf. unfold body_stmts, _generate_function_body_string. cbn zeta.
  pose proof (dead_code_returns g s Hwf) as Hd. destruct (_dead_code s g) as [dead| |]; [|done..].
  destruct Hd as [Hlen _]. cbn [mbind outcome_bind].
  enough (Hgen : forall cs done stmts, functions s = done ++ cs -> exists stmts',
    fold_loop (fun i stmts =>
      c ← (functions s).[i];
      f ← (api_functions g).[(func c).2];
      dead ← dead.[i];
      mret (stmts ++ call_stmts s i c f dead)) (seq (length done) (length cs)) stmts = Ret stmts' /\
    fold_loop (emit_call cache s g (_generate_indent (outer + 4)) "_param" "_local" dead)
      (seq (length done) (length cs))
      (print_stmts cache (full_name_map g) (_generate_indent (outer + 4)) stmts) =
    Ret (print_stmts cache (full_name_map g) (_generate_indent (outer + 4)) stmts')).
  { apply (Hgen (functions s) [] [] eq_refl). }
  intros cs. induction cs as [|c cs IH]; intros done stmts Hfs; [by eexists|].
  cbn [length seq fold_loop].
  assert (Hc : functions s !! length done = Some c) by (rewrite Hfs; by apply list_lookup_middle).
  pose proof (wf_calls _ _ Hwf _ _ Hc) as Hok. pose proof (call_framed _ _ _ _ Hok) as Hframed.
  destruct Hok as (f & Hf & _).
  assert (is_Some (dead !! length done)) as [b Hb].
  { apply lookup_lt_is_Some. rewrite Hlen. by apply lookup_lt_Some in Hc. }
  rewrite (emit_call_prints _ _ _ _ dead _ c f b) by done.
  unfold vec_index. rewrite Hc. cbn [unwrap mbind outcome_bind]. rewrite Hf.
  cbn [unwrap mbind outcome_bind]. rewrite Hb. cbn [unwrap mbind outcome_bind].
  specialize (IH (done ++ [c])). rewrite length_app in IH. cbn [length] in IH.
  rewrite Nat.add_1_r in IH.
  rewrite <- print_stmts_app. apply IH. by rewrite <- app_assoc.
Qed.
