(* ===== verification/BodyRun.v ===== *)
(** Running the statements of an emitted test function ([fuzz_target/api_sequence.rs]:
    [_generate_function_body_string]): which variables they move, copy and borrow. *)

From S2P Require Import Prelude RustStd CleanTypes CallTypes PreludeTypes.
From S2P Require Import FuzzableTypes ApiUtil CallTyping ModVisibility ApiFunction ApiSequence.
From S2P Require Import ApiGraph ItemSamples Samples SequenceWf Satisfy DeadCode SequenceText.
From S2P Require Import Stages BodyText.

(** ** Uses of a variable

    What the evaluation of an expression does to the variable in it. *)
Inductive access := Move | Read | Share | Borrow_mut.

#[export] Instance access_eq_dec : EqDecision access.
Proof. solve_decision. Defined.

(** A variable, or what a pointer that is read from a variable points to. *)
Fixpoint is_place (c : CallType) : bool :=
  match c with
  | _DirectCall => true
  | _Deref c => is_place c
  | _ => false
  end.

(** The rules of Rust, for a variable whose type is [Copy] or not. The rules accept less
    where they would need more of the types: a mutable borrow of what a pointer points to is
    rejected, and so is a value behind a raw pointer, which could be moved out. That [*(x)] is
    a copy is part of the typing of call types. A cast of a shared borrow to a mutable raw
    pointer is an error. *)
Fixpoint value_access (copy : bool) (c : CallType) : option access :=
  match c with
  | _NotCompatible | _UnsafeDeref _ | _MutRawPointer _ _ => None
  | _DirectCall => Some (if copy then Read else Move)
  | _AsConvert _ => Some Read
  | _Deref c => if is_place c then Some Read else value_access copy c
  | _UnwrapResult c | _UnwrapOption c | _ToResult c | _ToOption c => value_access copy c
  | _BorrowedRef c | _ConstRawPointer c _ => if is_place c then Some Share else value_access copy c
  | _MutBorrowedRef c =>
      match c with
      | _DirectCall => Some Borrow_mut
      | _Deref _ => None
      | _ => value_access copy c
      end
  end.

(** The variables that hold a value, and those declared [mut]. *)
Record Env := mk_Env { held : gset var; muts : gset var }.

(** The variables that the arguments of a call have borrowed so far. *)
Record Lent := mk_Lent { shared : gset var; lent_mut : gset var }.

Definition no_loans : Lent := mk_Lent ∅ ∅.

Definition bind (v : var) (is_mut : bool) (env : Env) : Env :=
  mk_Env ({[v]} ∪ held env) (if is_mut then {[v]} ∪ muts env else muts env).

(** A use that Rust rejects is a panic. *)
Definition use_var (use : var * access) (st : Env * Lent) : outcome (Env * Lent) :=
  let '(v, a) := use in
  let '(env, lent) := st in
  if decide (v ∈ held env /\ v ∉ lent_mut lent) then
    match a with
    | Read => mret (env, lent)
    | Move =>
        if decide (v ∈ shared lent) then Panicked
        else mret (mk_Env (held env ∖ {[v]}) (muts env), lent)
    | Share => mret (env, mk_Lent ({[v]} ∪ shared lent) (lent_mut lent))
    | Borrow_mut =>
        if decide (v ∈ muts env /\ v ∉ shared lent)
        then mret (env, mk_Lent (shared lent) ({[v]} ∪ lent_mut lent))
        else Panicked
    end
  else Panicked.

Section run.
(** The variables whose type is [Copy]. *)
Context (copies : var -> bool).

Definition expr_use (e : expr) : outcome (var * access) :=
  a ← unwrap (value_access (copies e.2) e.1);
  mret (e.2, a).

(** The arguments are evaluated from left to right; what they borrow is given back after the
    call. A helper holds a value, not a borrow. *)
Definition run_stmt (st : stmt) (env : Env) : outcome Env :=
  match st with
  | SHelper i j k is_mut e =>
      use ← expr_use e;
      if decide (use.2 = Move \/ use.2 = Read) then
        r ← use_var use (env, no_loans);
        mret (bind (VHelper i j k) is_mut r.1)
      else Panicked
  | SCall i binding function args =>
      r ← fold_loop (fun e r => use ← expr_use e; use_var use r) args (env, no_loans);
      mret (match binding with None => r.1 | Some is_mut => bind (VLocal i) is_mut r.1 end)
  end.

Definition run_stmts (stmts : list stmt) (env : Env) : outcome Env := fold_loop run_stmt stmts env.
End run.

(** ** Running the body of a sequence *)
Section body.
Context (g : ApiGraph) (s : ApiSequence).

Definition result_type (x : nat) : option Type_ :=
  c ← functions s !! x;
  f ← api_functions g !! (func c).2;
  output f.

(** The decoded parameters are numbers, slices and strings behind a borrow, and tuples of
    these. A result is [Copy] when [_copy_type] says so, which no named type is; a helper is
    not taken to be [Copy]. *)
Definition copies (v : var) : bool :=
  match v with
  | VParam _ => true
  | VLocal x => match result_type x with Some T => _copy_type T | None => false end
  | VHelper _ _ _ => false
  end.

Definition first_env : Env :=
  mk_Env (list_to_set (List.map VParam (seq 0 (length (fuzzable_params s)))))
         (list_to_set (List.map VParam (List.filter (fun i => bool_decide (i ∈ _fuzzable_mut_tag s))
            (seq 0 (length (fuzzable_params s)))))).

Definition run_body : outcome Env :=
  stmts ← body_stmts g s;
  run_stmts copies stmts first_env.
End body.

(** [omap] keeps the order. *)
Lemma omap_lookup_lt {A B} (h : A -> option B) (l : list A) a b x y u v :
  a < b -> l !! a = Some x -> l !! b = Some y -> h x = Some u -> h y = Some v ->
  exists a' b', a' < b' /\ omap h l !! a' = Some u /\ omap h l !! b' = Some v.
Proof.
  intros Hab Hx Hy Hu Hv. rewrite <- (take_drop (S a) l), omap_app.
  assert (Hin : u ∈ omap h (take (S a) l)).
  { apply list_elem_of_omap. exists x. split; [|done]. apply (list_elem_of_lookup_2 _ a).
    by rewrite lookup_take_lt by lia. }
  assert (Hin' : v ∈ omap h (drop (S a) l)).
  { apply list_elem_of_omap. exists y. split; [|done]. apply (list_elem_of_lookup_2 _ (b - S a)).
    rewrite lookup_drop. by replace (S a + (b - S a)) with b by lia. }
  apply list_elem_of_lookup_1 in Hin as (a' & Ha'), Hin' as (b' & Hb').
  exists a', (length (omap h (take (S a) l)) + b').
  pose proof (lookup_lt_Some _ _ _ Ha'). split; [lia|]. split; [by apply lookup_app_l_Some|].
  rewrite lookup_app_r by lia. by replace (_ + b' - _) with b' by lia.
Qed.

(** ** Sequences of uses *)

(** The later uses of a variable that fit an earlier one in the same call. *)
Definition fits (a b : access) : Prop :=
  a <> Move /\ a <> Borrow_mut /\ (a = Share -> b = Read \/ b = Share).

Fixpoint uses_fit (us : list (var * access)) : Prop :=
  match us with
  | [] => True
  | (v, a) :: us => (forall b, (v, b) ∈ us -> fits a b) /\ uses_fit us
  end.

Lemma uses_fit_lookup us :
  (forall i j v a b, i < j -> us !! i = Some (v, a) -> us !! j = Some (v, b) -> fits a b) ->
  uses_fit us.
Proof.
  induction us as [|[v a] us IH]; [done|]. intros Hus. split.
  - intros b (j & Hj)%list_elem_of_lookup_1. by apply (Hus 0 (S j) v a b ltac:(lia)).
  - apply IH. intros i j w a' b Hij Hi Hj. by apply (Hus (S i) (S j) w a' b ltac:(lia)).
Qed.

Lemma use_held v a env lent : v ∈ held env -> v ∉ lent_mut lent ->
  use_var (v, a) (env, lent) =
  match a with
  | Read => mret (env, lent)
  | Move =>
      if decide (v ∈ shared lent) then Panicked
      else mret (mk_Env (held env ∖ {[v]}) (muts env), lent)
  | Share => mret (env, mk_Lent ({[v]} ∪ shared lent) (lent_mut lent))
  | Borrow_mut =>
      if decide (v ∈ muts env /\ v ∉ shared lent)
      then mret (env, mk_Lent (shared lent) ({[v]} ∪ lent_mut lent))
      else Panicked
  end.
Proof. intros. unfold use_var. by rewrite decide_True by done. Qed.

Lemma bind_held v is_mut env w : w ∈ held (bind v is_mut env) <-> w = v \/ w ∈ held env.
Proof. unfold bind. cbn [held]. by rewrite elem_of_union, elem_of_singleton. Qed.

Lemma bind_muts v is_mut env w :
  w ∈ muts (bind v is_mut env) <-> (w = v /\ is_mut = true) \/ w ∈ muts env.
Proof. unfold bind. cbn [muts]. destruct is_mut; [rewrite elem_of_union, elem_of_singleton|]; naive_solver. Qed.

(** Uses that fit are accepted, from left to right; those that move take the value. *)
Lemma use_vars_returns us env lent :
  uses_fit us ->
  (forall v a, (v, a) ∈ us -> v ∈ held env /\ (v ∉ lent_mut lent) /\
     (a = Move \/ a = Borrow_mut -> v ∉ shared lent) /\ (a = Borrow_mut -> v ∈ muts env)) ->
  returns (fold_loop use_var us (env, lent)) (fun r =>
    (forall v, v ∈ held r.1 <-> v ∈ held env /\ ((v, Move) ∉ us)) /\ muts r.1 = muts env).
Proof.
  revert env lent. induction us as [|[v a] us IH]; intros env lent Hfit Hus.
  { apply returns_ret. split; [|done]. intros v. set_solver. }
  destruct Hfit as [Hv Hfit].
  destruct (Hus v a ltac:(by left)) as (Hheld & Hlm & Hsh & Hmut).
  assert (Hrest : forall w b, (w, b) ∈ us -> w ∈ held env /\ (w ∉ lent_mut lent) /\
    (b = Move \/ b = Borrow_mut -> w ∉ shared lent) /\ (b = Borrow_mut -> w ∈ muts env)).
  { intros w b Hin. apply Hus. by right. }
  cbn [fold_loop]. rewrite use_held by done.
  assert (Hsame : forall lent', a <> Move ->
    (forall w b, (w, b) ∈ us -> w ∈ held env /\ (w ∉ lent_mut lent') /\
      (b = Move \/ b = Borrow_mut -> w ∉ shared lent') /\ (b = Borrow_mut -> w ∈ muts env)) ->
    returns (fold_loop use_var us (env, lent')) (fun r =>
      (forall w, w ∈ held r.1 <-> w ∈ held env /\ ((w, Move) ∉ (v, a) :: us)) /\ muts r.1 = muts env)).
  { intros lent' Ha Hok. eapply returns_mono; [by apply IH|]. intros r [Hh Hm]. split; [|done].
    intros w. rewrite Hh, not_elem_of_cons. split; [intros [? ?]; split_and!; [done| |done]; congruence|tauto]. }
  destruct a; cbn [mbind outcome_bind mret outcome_ret].
  - rewrite decide_False by (apply Hsh; by left). cbn [mbind outcome_bind].
    eapply returns_mono; [apply IH; [done|]|].
    + intros w b Hin. cbn [held muts]. destruct (Hrest w b Hin) as (H1 & H2 & H3 & H4).
      split_and!; [|done..]. apply elem_of_difference. split; [done|].
      intros ->%elem_of_singleton. by destruct (Hv b Hin).
    + cbn [held muts]. intros r [Hh Hm]. split; [|done]. intros w.
      rewrite Hh, elem_of_difference, elem_of_singleton, not_elem_of_cons. split.
      * intros [[? ?] ?]. split_and!; [done| |done]. congruence.
      * intros (? & Hne & ?). split_and!; [done| |done]. intros ->. by destruct Hne.
  - by apply Hsame.
  - apply Hsame; [done|]. intros w b Hin. cbn. destruct (Hrest w b Hin) as (H1 & H2 & H3 & H4).
    split_and!; [done..| |done]. intros Hb. rewrite elem_of_union, elem_of_singleton.
    intros [->|?]; [|by apply H3]. destruct (Hv b Hin) as (_ & _ & Hf). specialize (Hf eq_refl).
    destruct Hb, Hf; congruence.
  - rewrite decide_True by (split; [by apply Hmut|apply Hsh; by right]). cbn [mbind outcome_bind].
    apply Hsame; [done|]. intros w b Hin. cbn. destruct (Hrest w b Hin) as (H1 & H2 & H3 & H4).
    split_and!; [done| |done..]. rewrite elem_of_union, elem_of_singleton.
    intros [->|?]; [|done]. by destruct (Hv b Hin) as (_ & ? & _).
Qed.

(** ** Simple arguments *)

Definition is_ref (t : Type_) : bool := match t with BorrowedRef _ _ _ => true | _ => false end.

(** At most one conversion of the variable, not of a raw pointer. *)
Fixpoint shared_frames (c : CallType) : bool :=
  match c with
  | _BorrowedRef c | _ConstRawPointer c _ => shared_frames c
  | _DirectCall | _AsConvert _ | _Deref _DirectCall
  | _UnwrapOption _DirectCall | _UnwrapResult _DirectCall => true
  | _ => false
  end.

Fixpoint decoded_frames (c : CallType) : bool :=
  match c with
  | _BorrowedRef c | _ConstRawPointer c _ | _ToOption c => decoded_frames c
  | _DirectCall => true
  | _ => false
  end.

(** The value itself, perhaps unwrapped. *)
Definition whole (c : CallType) : bool :=
  match c with
  | _DirectCall | _UnwrapOption _DirectCall | _UnwrapResult _DirectCall => true
  | _ => false
  end.

(** Arguments with a mutable borrow only outside, of a value of a type that is neither [Copy]
    nor a reference when it is a result; and without [Some] and [Ok] around a result. *)
Definition simple_argument (p : ParamType * nat * CallType) (I : Type_) : bool :=
  match p with
  | (ParamType._FuzzableType, _, _MutBorrowedRef c) | (ParamType._FuzzableType, _, c) =>
      decoded_frames c
  | (ParamType._FunctionReturn, _, _MutBorrowedRef c) =>
      whole c && match I with
                 | BorrowedRef _ _ J => negb (_copy_type J) && negb (is_ref J)
                 | _ => false
                 end
  | (ParamType._FunctionReturn, _, c) => shared_frames c
  end.

Definition simple_sequence (g : ApiGraph) (s : ApiSequence) : bool :=
  forallb (fun c => match api_functions g !! (func c).2 with
                    | Some f => forallb (fun pI => simple_argument pI.1 pI.2)
                                  (zip (params c) (inputs f))
                    | None => true
                    end) (functions s).

Lemma simple_sequence_lookup g s k c f j p I :
  simple_sequence g s = true -> functions s !! k = Some c ->
  api_functions g !! (func c).2 = Some f -> params c !! j = Some p -> inputs f !! j = Some I ->
  simple_argument p I = true.
Proof.
  unfold simple_sequence. rewrite forallb_forall. intros Hs Hc Hf Hp HI.
  specialize (Hs c (proj1 (list_elem_of_In _ _) (list_elem_of_lookup_2 _ _ _ Hc))). cbn in Hs.
  rewrite Hf, forallb_forall in Hs. apply (Hs (p, I)), list_elem_of_In, (list_elem_of_lookup_2 _ j).
  by apply lookup_zip_Some.
Qed.

(** *** Decoded arguments *)

Lemma decoded_stages c : decoded_frames c = true -> stages c = ([], c).
Proof. induction c; intros Hc; try done; cbn [stages]; by rewrite IHc. Qed.

Lemma decoded_access c : decoded_frames c = true ->
  value_access true c = Some Read \/ value_access true c = Some Share.
Proof.
  induction c; intros Hc; try done; cbn [value_access]; auto; destruct (is_place c); auto.
Qed.

Lemma decoded_argument i j idx I c :
  simple_argument (ParamType._FuzzableType, idx, c) I = true ->
  argument i j (ParamType._FuzzableType, idx, c) = ([], (c, VParam idx)) /\
  exists a, value_access true c = Some a /\ a <> Move /\ (a = Borrow_mut -> _need_mut_tag c = true).
Proof.
  intros Hs. assert (Hd : decoded_frames c = true \/
    exists c', c = _MutBorrowedRef c' /\ decoded_frames c' = true).
  { destruct c; try (by left). right. by eexists. }
  destruct Hd as [Hd|(c' & -> & Hd)]; unfold argument; cbn [snd base_var].
  - rewrite decoded_stages by done. split; [done|].
    destruct (decoded_access c Hd) as [->| ->]; by eexists.
  - cbn [stages]. rewrite decoded_stages by done. split; [done|].
    assert (Hacc : value_access true (_MutBorrowedRef c') = Some Borrow_mut \/
      value_access true (_MutBorrowedRef c') = Some Read \/
      value_access true (_MutBorrowedRef c') = Some Share).
    { pose proof (decoded_access c' Hd) as Ha. destruct c'; try done; [by left|..]; by right. }
    destruct Hacc as [->|[->| ->]]; by eexists.
Qed.

(** *** Results as arguments *)

(** [Some unwrap] for an argument that unwraps the result in a helper. *)
Fixpoint unwraps (c : CallType) : option CallType :=
  match c with
  | _UnwrapOption _DirectCall | _UnwrapResult _DirectCall => Some c
  | _BorrowedRef c | _ConstRawPointer c _ | _MutBorrowedRef c => unwraps c
  | _ => None
  end.

(** The borrows around the unwrapped value. *)
Fixpoint around (c : CallType) : CallType :=
  match c with
  | _BorrowedRef c => _BorrowedRef (around c)
  | _ConstRawPointer c ty => _ConstRawPointer (around c) ty
  | _MutBorrowedRef c => _MutBorrowedRef (around c)
  | _ => _DirectCall
  end.

Lemma simple_returned idx c I :
  simple_argument (ParamType._FunctionReturn, idx, c) I = true ->
  shared_frames c = true \/ exists c', c = _MutBorrowedRef c' /\ whole c' = true /\
    exists l mu J, I = BorrowedRef l mu J /\ _copy_type J = false /\ is_ref J = false.
Proof.
  destruct c; try (by left). cbn. rewrite andb_true_iff. intros [Hw HI]. right. exists c.
  split_and!; [done|done|]. destruct I; try done. apply andb_true_iff in HI as [H1 H2].
  apply negb_true_iff in H1, H2. by repeat eexists.
Qed.

Lemma shared_stages c : shared_frames c = true ->
  stages c = match unwraps c with Some u => ([u], around c) | None => ([], c) end.
Proof.
  induction c; intros Hc; try done; cbn [stages unwraps around].
  1,2: rewrite IHc by done; by destruct (unwraps c).
  all: by destruct c.
Qed.

Lemma whole_shared c : whole c = true -> shared_frames c = true.
Proof. by destruct c as [| | | | | | | | |[]| |[]|]. Qed.

Lemma simple_stages idx c I :
  simple_argument (ParamType._FunctionReturn, idx, c) I = true ->
  stages c = match unwraps c with Some u => ([u], around c) | None => ([], c) end.
Proof.
  intros [Hc|(c' & -> & Hw & _)]%simple_returned; [by apply shared_stages|].
  cbn [stages unwraps around]. rewrite shared_stages by (by apply whole_shared). by destruct (unwraps c').
Qed.

Lemma path_not_copy t : is_path t = true -> _copy_type t = false.
Proof. by destruct t. Qed.

Lemma unwraps_some m T I c u :
  convert m T I c -> unwraps c = Some u ->
  is_path T = true /\ _contains_unwrap_call_type c = true /\
  forall copy, value_access copy u = Some (if copy then Read else Move).
Proof.
  assert (Hpath : forall t, _is_final_type (from_type t m) = false -> is_path t = true).
  { intros t. by destruct t. }
  induction 1 as [| | | | | | | | |T I U c ? Hft|T I U E c ? Hft| |]; intros Hu; cbn in Hu; try done.
  - by destruct (IHconvert Hu) as (? & ? & ?).
  - by destruct (IHconvert Hu) as (? & ? & ?).
  - by destruct (IHconvert Hu) as (? & ? & ?).
  - destruct c; try done. injection Hu as <-. split_and!; [|done|done]. apply Hpath. by rewrite Hft.
  - destruct c; try done. injection Hu as <-. split_and!; [|done|done]. apply Hpath. by rewrite Hft.
Qed.

Lemma unwraps_none c : shared_frames c = true -> unwraps c = None ->
  _contains_unwrap_call_type c = false.
Proof. induction c; intros Hc Hu; try done; try (by apply IHc); by destruct c. Qed.

(** The use of a result that is not unwrapped, below shared borrows. *)
Lemma shared_access m T I c :
  convert m T I c -> shared_frames c = true -> unwraps c = None ->
  exists a, value_access (_copy_type T) c = Some a /\ a <> Borrow_mut /\
    (a = Move <-> c = _DirectCall /\ _copy_type T = false) /\
    (a = Share -> is_place c = false) /\ (a = Read -> _copy_type T = true \/ is_ref T = true).
Proof.
  induction 1 as [| | |T l J c Hc IH| |T J c Hc IH| | | | | |l mu U I c Hp Hcopy Hc|];
    intros Hs Hu; cbn in Hs; try done.
  - cbn. exists (if _copy_type T then Read else Move). destruct (_copy_type T); naive_solver.
  - cbn. exists (if _copy_type T then Read else Move). destruct (_copy_type T); naive_solver.
  - exists Read. cbn. rewrite H0. naive_solver.
  - destruct (IH Hs Hu) as (a & Ha & Hb & Hm & Hsh & Hr). cbn [value_access].
    destruct (is_place c) eqn:Hpl; [exists Share; naive_solver|]. exists a. split_and!; [done..|split|done|done].
    + intros ->. destruct (proj1 Hm eq_refl) as [-> ?]. done.
    + by intros [? _].
  - destruct (IH Hs Hu) as (a & Ha & Hb & Hm & Hsh & Hr). cbn [value_access].
    destruct (is_place c) eqn:Hpl; [exists Share; naive_solver|]. exists a. split_and!; [done..|split|done|done].
    + intros ->. destruct (proj1 Hm eq_refl) as [-> ?]. done.
    + by intros [? _].
  - by destruct c.
  - by destruct c.
  - destruct c; try done. exists Read. cbn. naive_solver.
Qed.

(** What [api_util.rs] says of the use of a result agrees with what the use does. *)
Definition classified (T I : Type_) (c : CallType) (a : access) : Prop :=
  (a = Move <-> use_moves (I, c) = true) /\
  (a = Borrow_mut -> use_borrows_mut (I, c) = true /\ _need_mut_tag c = true /\
     _copy_type T = false /\ is_ref T = false) /\
  (a = Share -> use_borrows (I, c) = true) /\
  (a = Read -> _copy_type T = true \/ is_ref T = true).

Lemma convert_direct m T I : convert m T I _DirectCall -> _copy_type T = _copy_type I /\ is_ref T = is_ref I.
Proof. inversion_clear 1; [done|]. by destruct T, I. Qed.

Lemma shared_classified m T I c a :
  convert m T I c -> shared_frames c = true -> unwraps c = None ->
  value_access (_copy_type T) c = Some a -> classified T I c a.
Proof.
  intros Hconv Hs Hu Ha. destruct (shared_access m T I c Hconv Hs Hu) as (a' & Ha' & Hb & Hm & Hsh & Hr).
  assert (a' = a) as -> by congruence. unfold classified, use_moves, use_borrows.
  cbn [fst snd]. split_and!; [|by intros ->| |done].
  - rewrite Hm. unfold _move_condition. rewrite unwraps_none by done. split.
    + intros [-> HT]. apply convert_direct in Hconv as [HI _]. by rewrite <- HI, HT.
    + destruct (_copy_type I) eqn:HI; [done|]. cbn [negb].
      destruct c; try done; intros _.
      * split; [done|]. by apply convert_direct in Hconv as [-> _].
      * destruct c; try done. inversion Hconv as [| | | | | | | | | | |? ? ? ? ? ? HU HC|]; subst.
        apply convert_direct in HC as [HC _]. congruence.
      * by destruct c.
      * by destruct c.
  - intros ->. specialize (Hsh eq_refl). destruct c; try done; try (by destruct c);
      inversion Hconv; subst; done.
Qed.

Lemma returned_direct m T I idx c :
  convert m T I c -> simple_argument (ParamType._FunctionReturn, idx, c) I = true ->
  unwraps c = None -> exists a, value_access (_copy_type T) c = Some a /\ classified T I c a.
Proof.
  intros Hconv [Hs|(c' & -> & Hw & l & mu & J & -> & HJ & HJr)]%simple_returned Hu.
  - destruct (shared_access m T I c Hconv Hs Hu) as (a & Ha & _). exists a. split; [done|].
    by eapply shared_classified.
  - assert (c' = _DirectCall) as ->.
    { destruct c'; try done; by destruct c'. }
    inversion Hconv as [| | | |? ? ? ? HC| | | | | | | |]; subst.
    apply convert_direct in HC as [HT HTr]. exists Borrow_mut. split; [done|].
    unfold classified, use_moves, use_borrows_mut. cbn. rewrite HT, HTr. by split_and!.
Qed.

(** The use of a helper. *)
Lemma around_access c u : shared_frames c = true -> unwraps c = Some u ->
  exists a, value_access false (around c) = Some a /\ a <> Borrow_mut.
Proof.
  intros Hs Hu. enough (H : exists a, value_access false (around c) = Some a /\ a <> Borrow_mut /\
    (is_place (around c) = false -> a = Share)) by naive_solver.
  induction c; try done; cbn [around value_access];
    try (destruct (IHc Hs Hu) as (a & Ha & Hb & Hsh); destruct (is_place (around c)) eqn:Hp;
         [by exists Share|exists a; naive_solver]).
  all: by exists Move.
Qed.

Lemma returned_around idx I c : simple_argument (ParamType._FunctionReturn, idx, c) I = true ->
  forall u, unwraps c = Some u ->
  exists a, value_access false (around c) = Some a /\
    (a = Borrow_mut -> _need_mut_tag (around c) = true).
Proof.
  intros [Hs|(c' & -> & Hw & _)]%simple_returned u Hu.
  - destruct (around_access c u Hs Hu) as (a & Ha & Hb). by exists a.
  - exists Borrow_mut. split; [|done]. by destruct c'.
Qed.

(** ** One call of a simple sequence *)

Definition helper_of (p : ParamType * nat * CallType) : option CallType :=
  match p with
  | (ParamType._FunctionReturn, _, c) => unwraps c
  | (ParamType._FuzzableType, _, _) => None
  end.

Section call.
Context (g : ApiGraph) (s : ApiSequence) (Hwf : wf_sequence g s) (Hsimple : simple_sequence g s = true).
Context (i : nat) (c : ApiCall) (f : ApiFunction).
Context (Hc : functions s !! i = Some c) (Hf : api_functions g !! (func c).2 = Some f).

(** The statements and the expression of an argument, and what the expression does. *)
Inductive arg_spec (j : nat) (I : Type_) :
    ParamType * nat * CallType -> list stmt * expr -> access -> Prop :=
| arg_decoded idx ct a :
    idx < length (fuzzable_params s) -> value_access true ct = Some a -> a <> Move ->
    (a = Borrow_mut -> idx ∈ _fuzzable_mut_tag s) ->
    arg_spec j I (ParamType._FuzzableType, idx, ct) ([], (ct, VParam idx)) a
| arg_direct idx ct T a :
    idx < i -> unwraps ct = None -> result_type g s idx = Some T ->
    value_access (_copy_type T) ct = Some a -> classified T I ct a ->
    (a = Borrow_mut -> idx ∈ _function_mut_tag s) ->
    arg_spec j I (ParamType._FunctionReturn, idx, ct) ([], (ct, VLocal idx)) a
| arg_unwrapped idx ct T u a :
    idx < i -> unwraps ct = Some u -> result_type g s idx = Some T -> is_path T = true ->
    use_moves (I, ct) = true -> value_access false u = Some Move ->
    value_access false (around ct) = Some a ->
    (a = Borrow_mut -> _need_mut_tag (around ct) = true) ->
    arg_spec j I (ParamType._FunctionReturn, idx, ct)
      ([SHelper i j 1 (_need_mut_tag (around ct)) (u, VLocal idx)], (around ct, VHelper i j 1)) a.

Lemma argument_spec j p :
  params c !! j = Some p -> exists I a, inputs f !! j = Some I /\ arg_spec j I p (argument i j p) a.
Proof using Hwf Hsimple Hc Hf.
  intros Hp. destruct (wf_calls _ _ Hwf i c Hc) as (f' & Hf' & Hps & _).
  assert (f' = f) as -> by congruence.
  destruct (Forall2_lookup_l _ _ _ _ _ Hps Hp) as (I & HI & Hok). exists I.
  pose proof (simple_sequence_lookup g s i c f j p I Hsimple Hc Hf Hp HI) as Hs. destruct p as [[[] idx] ct]; cbn [param_ok] in Hok.
  - destruct Hok as (Hlt & (c' & f' & T & Hc' & Hf'' & HT & Hct & Hnc) & Hmut & _).
    assert (HTr : result_type g s idx = Some T).
    { unfold result_type. by rewrite Hc'; cbn; rewrite Hf''. }
    assert (Hconv : convert (full_name_map g) T I ct) by (rewrite Hct in *; by apply same_type_convert).
    unfold argument. cbn [snd base_var]. rewrite (simple_stages idx ct I Hs).
    destruct (unwraps ct) as [u|] eqn:Hu.
    + destruct (unwraps_some _ _ _ _ _ Hconv Hu) as (Hpath & Hcont & Hacc).
      destruct (returned_around idx I ct Hs u Hu) as (a & Ha & Hb). exists a. split; [done|].
      apply (arg_unwrapped j I idx ct T u a); try done; [|apply Hacc].
      unfold use_moves, _move_condition, _contains_move_call_type. cbn [fst snd]. by rewrite Hcont.
    + destruct (returned_direct _ T I idx ct Hconv Hs Hu) as (a & Ha & Hcl). exists a. split; [done|].
      apply (arg_direct j I idx ct T a); try done. intros ->. by apply Hmut, Hcl.
  - destruct Hok as (ft & Hft & _ & _ & Hmut). destruct (decoded_argument i j idx I ct Hs) as (-> & a & Ha & Hm & Hb).
    exists a. split; [done|]. apply arg_decoded; try done; [by apply lookup_lt_Some in Hft|by auto].
Qed.

(** Two arguments with the same result. *)
Lemma same_result j1 j2 x ct1 ct2 I1 I2 :
  j1 < j2 -> params c !! j1 = Some (ParamType._FunctionReturn, x, ct1) ->
  params c !! j2 = Some (ParamType._FunctionReturn, x, ct2) ->
  inputs f !! j1 = Some I1 -> inputs f !! j2 = Some I2 -> uses_compatible (I1, ct1) (I2, ct2).
Proof using Hwf Hc Hf.
  intros Hj Hp1 Hp2 HI1 HI2. destruct (wf_calls _ _ Hwf i c Hc) as (f' & Hf' & _ & Hus & _).
  assert (f' = f) as -> by congruence. unfold call_uses in Hus.
  destruct (omap_lookup_lt (fun p => use_of p.1 p.2) (zip (params c) (inputs f)) j1 j2
    (ParamType._FunctionReturn, x, ct1, I1) (ParamType._FunctionReturn, x, ct2, I2)
    (x, (I1, ct1)) (x, (I2, ct2))) as (a & b & Hab & Ha & Hb); try done.
  - apply lookup_zip_Some. done.
  - apply lookup_zip_Some. done.
  - exact (Hus a b x _ _ Hab Ha Hb).
Qed.

(** A fuzzable parameter is used once. *)
Lemma decoded_once j1 j2 x ct1 ct2 :
  j1 < j2 -> params c !! j1 = Some (ParamType._FuzzableType, x, ct1) ->
  params c !! j2 = Some (ParamType._FuzzableType, x, ct2) -> False.
Proof using Hwf Hc.
  intros Hj Hp1 Hp2. assert (Hnd : NoDup (call_fuzzables c)).
  { pose proof (wf_fuzzables _ _ Hwf) as Hz. pose proof (NoDup_seq 0 (length (fuzzable_params s))) as Hnd.
    rewrite <- Hz in Hnd. unfold fuzz_indices in Hnd.
    rewrite <- (take_drop_middle _ _ _ Hc), bind_app, bind_cons in Hnd.
    apply NoDup_app in Hnd as (_ & _ & Hnd). by apply NoDup_app in Hnd as (Hnd & _ & _). }
  destruct (omap_lookup_lt fuzz_index (params c) j1 j2 _ _ x x Hj Hp1 Hp2 eq_refl eq_refl)
    as (a & b & Hab & Ha & Hb).
  pose proof (NoDup_lookup _ _ _ _ Hnd Ha Hb). lia.
Qed.

(** *** The helpers of the arguments *)

(** Among the first [n] arguments, one with a helper and a variable that belongs to it. *)
Definition helped (R : nat -> nat -> CallType -> var -> Prop) (n : nat) (v : var) : Prop :=
  exists j x ct u, j < n /\ params c !! j = Some (ParamType._FunctionReturn, x, ct) /\
    unwraps ct = Some u /\ R j x ct v.

(** The results that are unwrapped, the helpers, and those that are [mut]. *)
Definition emptied : nat -> var -> Prop := helped (fun _ x _ v => v = VLocal x).
Definition made : nat -> var -> Prop := helped (fun j _ _ v => v = VHelper i j 1).
Definition made_mut : nat -> var -> Prop :=
  helped (fun j _ ct v => v = VHelper i j 1 /\ _need_mut_tag (around ct) = true).

Lemma helped_S R n v : helped R (S n) v <->
  helped R n v \/ exists x ct u, params c !! n = Some (ParamType._FunctionReturn, x, ct) /\
    unwraps ct = Some u /\ R n x ct v.
Proof.
  unfold helped. split.
  - intros (j & x & ct & u & Hj & Hrest). destruct (decide (j = n)) as [->|].
    + right. by exists x, ct, u.
    + left. exists j, x, ct, u. split; [lia|done].
  - intros [(j & x & ct & u & Hj & Hrest)|(x & ct & u & Hrest)].
    + exists j, x, ct, u. split; [lia|done].
    + exists n, x, ct, u. split; [lia|done].
Qed.

Lemma helped_here R n x ct u v : params c !! n = Some (ParamType._FunctionReturn, x, ct) ->
  unwraps ct = Some u -> helped R (S n) v <-> helped R n v \/ R n x ct v.
Proof.
  intros Hp Hu. rewrite helped_S. split; intros [H|H]; auto.
  - destruct H as (x' & ct' & u' & Hp' & Hu' & HR). right. by simplify_eq.
  - right. by exists x, ct, u.
Qed.

Lemma helped_not_here R n p v : params c !! n = Some p -> helper_of p = None ->
  helped R (S n) v <-> helped R n v.
Proof.
  intros Hp Hh. rewrite helped_S. split; [|by left]. intros [H|(x & ct & u & Hp' & Hu & _)]; [done|].
  simplify_eq. cbn in Hh. congruence.
Qed.

Definition after_helpers (env : Env) (n : nat) (env' : Env) : Prop :=
  (forall v, v ∈ held env' <-> (v ∈ held env /\ ~ emptied n v) \/ made n v) /\
  (forall v, v ∈ muts env' <-> v ∈ muts env \/ made_mut n v).

Context (env : Env).
Context (Hheld : forall j x ct, params c !! j = Some (ParamType._FunctionReturn, x, ct) ->
  VLocal x ∈ held env).

(** A result is unwrapped once. *)
Lemma not_emptied n x ct u :
  params c !! n = Some (ParamType._FunctionReturn, x, ct) -> unwraps ct = Some u ->
  ~ emptied n (VLocal x).
Proof using Hwf Hsimple Hc Hf.
  intros Hp Hu (j & x' & ct' & u' & Hj & Hp' & Hu' & [= <-]).
  destruct (argument_spec _ _ Hp) as (I & a & HI & Hs).
  destruct (argument_spec _ _ Hp') as (I' & a' & HI' & Hs').
  destruct (same_result j n x ct' ct I' I Hj Hp' Hp HI' HI) as [Hm _].
  inversion Hs'; simplify_eq; congruence.
Qed.

Lemma run_helper n p env' :
  params c !! n = Some p -> after_helpers env n env' ->
  returns (run_stmts (copies g s) (argument i n p).1 env') (after_helpers env (S n)).
Proof using Hwf Hsimple Hc Hf Hheld.
  intros Hp [H1 H2]. destruct (argument_spec _ _ Hp) as (I & a & HI & Hs). revert Hs.
  generalize (argument i n p) as arg. intros arg Hs.
  destruct Hs as [idx ct a ? ? ? ?|idx ct T a ? Hu ? ? ? ?|idx ct T u a Hidx Hu HT Hpath _ Hacc _ _]; cbn [fst].
  - apply returns_ret. split; intros v.
    + rewrite H1. unfold emptied, made. by rewrite !(helped_not_here _ n _ _ Hp).
    + rewrite H2. unfold made_mut. by rewrite !(helped_not_here _ n _ _ Hp).
  - apply returns_ret. split; intros v.
    + rewrite H1. unfold emptied, made. by rewrite !(helped_not_here _ n _ _ Hp).
    + rewrite H2. unfold made_mut. by rewrite !(helped_not_here _ n _ _ Hp).
  - unfold run_stmts. cbn [fold_loop run_stmt].
    assert (Hcopy : copies g s (VLocal idx) = false).
    { cbn. by rewrite HT, path_not_copy. }
    unfold expr_use. cbn [fst snd]. rewrite Hcopy, Hacc. cbn [unwrap mbind outcome_bind mret outcome_ret snd].
    rewrite decide_True by (by left). rewrite use_held; [|apply H1; left; split; [by eapply Hheld|by eapply not_emptied]|set_solver].
    rewrite decide_False by set_solver. apply returns_ret. cbn [fst]. split; intros v.
    + rewrite bind_held. unfold emptied, made. rewrite !(helped_here _ n idx ct u) by done. cbn [held].
      rewrite elem_of_difference, H1, elem_of_singleton. fold (emptied n v) (made n v).
      assert (made n v -> v <> VLocal idx) by (by intros (? & ? & ? & ? & _ & _ & _ & ->)).
      naive_solver.
    + rewrite bind_muts, H2. unfold made_mut. rewrite !(helped_here _ n idx ct u) by done.
      fold (made_mut n v). cbn [muts]. naive_solver.
Qed.

Lemma run_helpers :
  returns (run_stmts (copies g s) (concat (List.map fst (imap (argument i) (params c)))) env)
    (after_helpers env (length (params c))).
Proof using Hwf Hsimple Hc Hf Hheld.
  enough (Hgen : forall ps post, params c = ps ++ post ->
    returns (run_stmts (copies g s) (concat (List.map fst (imap (argument i) ps))) env)
      (after_helpers env (length ps))) by (by apply (Hgen _ []); rewrite app_nil_r).
  intros ps. induction ps as [|p ps IH] using rev_ind; intros post Hps.
  - apply returns_ret. split; intros v; split; try tauto.
    + intros Hv. left. split; [done|]. intros (j & x & ct & u & Hj & _). cbn in Hj. lia.
    + intros [[? _]|(j & x & ct & u & Hj & _)]; [done|]. cbn in Hj. lia.
    + intros [?|(j & x & ct & u & Hj & _)]; [done|]. cbn in Hj. lia.
  - rewrite imap_app, map_app, concat_app. unfold run_stmts. rewrite fold_loop_app.
    eapply returns_bind; [apply (IH (p :: post)); by rewrite Hps, <- app_assoc|].
    intros env' Henv'. cbn [imap List.map concat]. rewrite app_nil_r, length_app, Nat.add_0_r.
    cbn [length]. rewrite Nat.add_1_r. apply run_helper; [|done].
    rewrite Hps, <- app_assoc. by apply list_lookup_middle.
Qed.

(** *** The arguments *)
Definition arg_expr (j : nat) (p : ParamType * nat * CallType) : expr := (argument i j p).2.

Definition the_use (e : expr) : var * access :=
  (e.2, default Read (value_access (copies g s e.2) e.1)).

Lemma the_use_spec j I p arg a :
  arg_spec j I p arg a -> value_access (copies g s arg.2.2) arg.2.1 = Some a.
Proof.
  intros []; cbn [fst snd copies]; try done. match goal with H : result_type _ _ _ = _ |- _ => by rewrite H end.
Qed.

Definition arg_uses : list (var * access) :=
  List.map the_use (List.map snd (imap (argument i) (params c))).

Lemma arg_uses_lookup j v a : arg_uses !! j = Some (v, a) <->
  exists p I, params c !! j = Some p /\ inputs f !! j = Some I /\
    arg_spec j I p (argument i j p) a /\ v = (argument i j p).2.2.
Proof using Hwf Hsimple Hc Hf.
  unfold arg_uses. rewrite !list_lookup_fmap, list_lookup_imap.
  destruct (params c !! j) as [p|] eqn:Hp; cbn.
  - destruct (argument_spec _ _ Hp) as (I & a' & HI & Hs). pose proof (the_use_spec _ _ _ _ _ Hs) as Hu.
    unfold the_use. rewrite Hu. cbn. split.
    + intros [= <- <-]. by exists p, I.
    + intros (p' & I' & [= <-] & HI' & Hs' & ->). pose proof (the_use_spec _ _ _ _ _ Hs') as Hu'.
      do 2 f_equal. congruence.
  - split; [done|]. by intros (p & I & ? & _).
Qed.

Lemma expr_uses r :
  fold_loop (fun e r => use ← expr_use (copies g s) e; use_var use r)
    (List.map snd (imap (argument i) (params c))) r = fold_loop use_var arg_uses r.
Proof using Hwf Hsimple Hc Hf.
  unfold arg_uses.
  assert (Hall : Forall (fun e => expr_use (copies g s) e = Ret (the_use e))
    (List.map snd (imap (argument i) (params c)))).
  { apply Forall_lookup. intros j e. rewrite list_lookup_fmap, list_lookup_imap.
    destruct (params c !! j) as [p|] eqn:Hp; [|done]. cbn. intros [= <-].
    destruct (argument_spec _ _ Hp) as (I & a' & HI & Hs). pose proof (the_use_spec _ _ _ _ _ Hs) as Hu.
    unfold expr_use, the_use. by rewrite Hu. }
  revert r. induction Hall as [|e l He _ IH]; intros r; [done|]. cbn [List.map fold_loop]. rewrite He.
  cbn [mbind outcome_bind]. destruct (use_var (the_use e) r); cbn; auto.
Qed.

Lemma arg_uses_fit : uses_fit arg_uses.
Proof using Hwf Hsimple Hc Hf.
  apply uses_fit_lookup. intros j1 j2 v a b Hj H1 H2.
  apply arg_uses_lookup in H1 as (p1 & I1 & Hp1 & HI1 & Hs1 & Hv1).
  apply arg_uses_lookup in H2 as (p2 & I2 & Hp2 & HI2 & Hs2 & Hv2).
  rewrite Hv1 in Hv2. clear Hv1. revert Hs1 Hs2 Hv2.
  generalize (argument i j1 p1) as arg1, (argument i j2 p2) as arg2. intros arg1 arg2 Hs1 Hs2 Hv.
  destruct Hs1 as [x1 ct1 a1|x1 ct1 T1 a1 ? ? HT1 ? Hcl1|x1 ct1 T1 u1 a1],
    Hs2 as [x2 ct2 a2|x2 ct2 T2 a2 ? ? HT2 ? Hcl2|x2 ct2 T2 u2 a2]; cbn in Hv; try done; simplify_eq.
  - by destruct (decoded_once j1 j2 x2 ct1 ct2).
  - destruct (same_result j1 j2 x2 ct1 ct2 I1 I2) as (Hm & Hbm & Hb); try done.
    destruct Hcl1 as (A1 & A2 & A3 & A4), Hcl2 as (B1 & B2 & B3 & B4).
    unfold fits. split_and!.
    + intros ->. naive_solver congruence.
    + intros ->. destruct (A2 eq_refl) as (HA & _ & HT & HTr). destruct (Hbm HA) as (C1 & C2 & C3).
      destruct a2; naive_solver congruence.
    + intros ->. destruct (Hb (A3 eq_refl)) as [C1 C2]. destruct a2; naive_solver congruence.
  - lia.
Qed.

Context (Hparams : forall x, x < length (fuzzable_params s) -> VParam x ∈ held env /\
  (x ∈ _fuzzable_mut_tag s -> VParam x ∈ muts env)).
Context (Hmuts : forall x, VLocal x ∈ held env -> x ∈ _function_mut_tag s -> VLocal x ∈ muts env).

(** The variables of the arguments are there after the helpers. *)
Lemma arg_uses_held env' v a :
  after_helpers env (length (params c)) env' -> (v, a) ∈ arg_uses ->
  v ∈ held env' /\ (a = Borrow_mut -> v ∈ muts env').
Proof using Hwf Hsimple Hc Hf Hheld Hparams Hmuts.
  intros [H1 H2] (j & (p & I & Hp & HI & Hs & ->)%arg_uses_lookup)%list_elem_of_lookup_1.
  revert Hs. generalize (argument i j p) as arg. intros arg Hs. rewrite H1, H2.
  destruct Hs as [x ct a Hx ? ? Hmut|x ct T a ? Hu HT ? Hcl Hmut|x ct T u a ? Hu ? ? ? ? ? Hmut]; cbn [fst snd].
  - destruct (Hparams x Hx) as [Hh Hm]. split; [left; split; [done|]|by auto].
    by intros (? & ? & ? & ? & _ & _ & _ & [=]).
  - pose proof (Hheld _ _ _ Hp) as Hh. split; [left; split; [done|]|by auto].
    intros (j' & x' & ct' & u' & Hj' & Hp' & Hu' & [= <-]).
    destruct (argument_spec _ _ Hp') as (I' & a' & HI' & Hs').
    assert (HT' : is_path T = true /\ use_moves (I', ct') = true).
    { inversion Hs'; simplify_eq. split; congruence. }
    destruct HT' as [HT' Hm']. destruct Hcl as (A1 & A2 & A3 & A4).
    destruct (decide (j' = j)) as [->|Hne]; [simplify_eq; congruence|].
    destruct (decide (j' < j)) as [Hlt|Hge].
    + destruct (same_result j' j x ct' ct I' I Hlt Hp' Hp HI' HI) as [Hm _]. congruence.
    + destruct (same_result j j' x ct ct' I I' ltac:(lia) Hp Hp' HI HI') as (Hm & Hbm & Hb).
      pose proof (path_not_copy _ HT'). assert (is_ref T = false) by by destruct T.
      destruct a; naive_solver congruence.
  - assert (Hlt : j < length (params c)) by by apply lookup_lt_Some in Hp.
    split; [right; by exists j, x, ct, u|]. intros Ha. right. exists j, x, ct, u. split_and!; auto.
Qed.

(** What the call moves. *)
Lemma moved_by_call x :
  moves_value g s i x <-> emptied (length (params c)) (VLocal x) \/ (VLocal x, Move) ∈ arg_uses.
Proof using Hwf Hsimple Hc Hf.
  assert (Hm : moves_value g s i x <-> exists j ct I, params c !! j = Some (ParamType._FunctionReturn, x, ct) /\
    inputs f !! j = Some I /\ use_moves (I, ct) = true).
  { destruct (wf_call g s Hwf i c Hc) as (f' & Hf' & Hlen & _). assert (f' = f) as -> by congruence. split.
    - intros (c' & f' & [I ct] & Hc' & Hf'' & Hu & Hm). simplify_eq.
      apply call_uses_lookup in Hu as (j & Hp & HI); [|done]. by exists j, ct, I.
    - intros (j & ct & I & Hp & HI & Hm). exists c, f, (I, ct). split_and!; [done..| |done].
      apply call_uses_lookup; [done|]. by exists j. }
  rewrite Hm. split.
  - intros (j & ct & I & Hp & HI & Hmv). destruct (argument_spec _ _ Hp) as (I' & a & HI' & Hs).
    assert (I' = I) as -> by congruence.
    destruct (unwraps ct) as [u|] eqn:Hu.
    + left. exists j, x, ct, u. split_and!; [by apply lookup_lt_Some in Hp|done..].
    + right. apply list_elem_of_lookup. exists j. apply arg_uses_lookup.
      exists (ParamType._FunctionReturn, x, ct), I. split; [done|]. split; [done|].
      revert Hs. generalize (argument i j (ParamType._FunctionReturn, x, ct)) as arg. intros arg Hs.
      inversion Hs as [|? ? T a' ? ? HT ? [Hcl _]|]; subst; [|congruence]. apply Hcl in Hmv as ->. by split.
  - intros [(j & x' & ct & u & _ & Hp & Hu & [= <-])|Hin].
    + destruct (argument_spec _ _ Hp) as (I & a & HI & Hs). exists j, ct, I. split_and!; [done..|].
      inversion Hs; simplify_eq; congruence.
    + apply list_elem_of_lookup in Hin as (j & (p & I & Hp & HI & Hs & Hv)%arg_uses_lookup).
      revert Hs Hv. generalize (argument i j p) as arg. intros arg Hs Hv.
      inversion Hs as [|x' ct T a' ? ? HT ? [Hcl _]|]; subst; try done. injection Hv as ->.
      exists j, ct, I. split_and!; [done..|]. by apply Hcl.
Qed.

(** The call: what it moves is gone, its result is there when it is bound. *)
Definition after_call (declared : bool) (env' : Env) : Prop :=
  (forall x, VLocal x ∈ held env' <->
     (x = i /\ declared = true) \/ (VLocal x ∈ held env /\ ~ moves_value g s i x)) /\
  (forall x, VParam x ∈ held env -> VParam x ∈ held env') /\
  (forall v, v ∈ muts env -> v ∈ muts env') /\
  (declared = true -> i ∈ _function_mut_tag s -> VLocal i ∈ muts env').

Lemma run_call dead :
  returns (run_stmts (copies g s) (call_stmts s i c f dead) env)
    (after_call (negb (dead || _has_no_output f))).
Proof using Hwf Hsimple Hc Hf Hheld Hparams Hmuts.
  unfold call_stmts, run_stmts. cbn zeta. rewrite fold_loop_app.
  eapply returns_bind; [apply run_helpers|]. intros env1 H1. cbn [fold_loop run_stmt].
  rewrite expr_uses. eapply (returns_bind _ _ (after_call _)); [|intros env' Henv'; by apply returns_ret].
  eapply returns_bind.
  { apply use_vars_returns; [apply arg_uses_fit|]. intros v a Hin.
    destruct (arg_uses_held env1 v a H1 Hin). cbn. split_and!; [done|apply not_elem_of_empty|intros; apply not_elem_of_empty|done]. }
  intros [env2 lent] [Hh Hm]. cbn [fst] in *. apply returns_ret. destruct H1 as [H1 H2].
  assert (Hlocal : forall x, VLocal x ∈ held env2 <-> VLocal x ∈ held env /\ ~ moves_value g s i x).
  { intros x. rewrite Hh, H1, moved_by_call.
    assert (~ made (length (params c)) (VLocal x)) by (by intros (? & ? & ? & ? & _ & _ & _ & [=])). tauto. }
  assert (Hparam : forall x, VParam x ∈ held env -> VParam x ∈ held env2).
  { intros x Hx. apply Hh. split.
    - apply H1. left. split; [done|]. by intros (? & ? & ? & ? & _ & _ & _ & [=]).
    - intros (j & (p & I & _ & _ & Hs & Hv)%arg_uses_lookup)%list_elem_of_lookup_1.
      revert Hs Hv. generalize (argument i j p) as arg. intros arg Hs Hv. by inversion Hs; subst. }
  assert (Hmut : forall v, v ∈ muts env -> v ∈ muts env2) by (intros v Hv; rewrite Hm; apply H2; by left).
  unfold after_call. destruct (dead || _has_no_output f); cbn [negb]; split_and!; try done.
  - intros x. rewrite Hlocal. split; [by right|]. by intros [[_ ?]|?].
  - intros x. rewrite bind_held, Hlocal. split; intros [H|H]; [left; by simplify_eq|by right|left|by right].
    by destruct H as [-> _].
  - intros x Hx. apply bind_held. right. by apply Hparam.
  - intros v Hv. apply bind_muts. right. by apply Hmut.
  - intros _ Ht. apply bind_muts. left. split; [done|]. unfold _is_function_need_mut_tag. by case_decide.
Qed.
End call.

(** ** The whole body *)
Section whole.
Context (g : ApiGraph) (s : ApiSequence) (Hwf : wf_sequence g s) (Hsimple : simple_sequence g s = true).

(** The local [x] is declared and bound. *)
Definition bound (x : nat) : Prop :=
  needed g s x /\ exists c f, functions s !! x = Some c /\
    api_functions g !! (func c).2 = Some f /\ is_Some (output f).

(** The variables before the call [n]. *)
Definition env_at (n : nat) (env : Env) : Prop :=
  (forall x, VLocal x ∈ held env <->
     x < n /\ bound x /\ ~ exists k, k < n /\ moves_value g s k x) /\
  (forall x, x < n -> bound x -> x ∈ _function_mut_tag s -> VLocal x ∈ muts env) /\
  (forall x, x < length (fuzzable_params s) -> VParam x ∈ held env /\
     (x ∈ _fuzzable_mut_tag s -> VParam x ∈ muts env)).

Lemma first_env_at : env_at 0 (first_env s).
Proof.
  unfold first_env. split_and!; cbn [held muts].
  - intros x. rewrite elem_of_list_to_set, list_elem_of_fmap. split; [by intros (? & [=] & _)|lia].
  - lia.
  - intros x Hx. rewrite !elem_of_list_to_set, !list_elem_of_fmap. split.
    + exists x. split; [done|]. apply elem_of_seq. lia.
    + intros Ht. exists x. split; [done|]. apply list_elem_of_In, filter_In.
      split; [apply list_elem_of_In, elem_of_seq; lia|by apply bool_decide_eq_true].
Qed.

Lemma moves_later x k : moves_value g s k x -> x < k.
Proof using Hwf.
  intros (c & f & u & Hc & Hf & Hu & _). apply (refers_earlier g s Hwf).
  apply (refers_uses g s Hwf). by exists c, f, u.
Qed.

Lemma run_call_at i c f dead env :
  functions s !! i = Some c -> api_functions g !! (func c).2 = Some f ->
  (dead = false <-> needed g s i) -> env_at i env ->
  returns (run_stmts (copies g s) (call_stmts s i c f dead) env) (env_at (S i)).
Proof using Hwf Hsimple.
  intros Hc Hf Hdead (H1 & H2 & H3).
  assert (Hbound : negb (dead || _has_no_output f) = true <-> bound i).
  { rewrite negb_true_iff, orb_false_iff, Hdead. unfold bound, _has_no_output. split.
    - intros [Hn Ho]. split; [done|]. exists c, f. split_and!; [done..|]. destruct (output f); [by eexists|done].
    - intros [Hn (c' & f' & Hc' & Hf' & [T HT])]. simplify_eq. by rewrite HT. }
  eapply returns_mono.
  - apply run_call; try done.
    + intros j x ct Hp. destruct (wf_call g s Hwf i c Hc) as (f' & Hf' & Hlen & Hps). simplify_eq.
      destruct (Forall2_lookup_l _ _ _ _ _ Hps Hp) as (I & HI & Hlt & (c' & f'' & T & Hc' & Hf'' & HT & _) & _).
      assert (Huse : uses_value g s i x).
      { exists c, f, (I, ct). split_and!; [done..|]. apply call_uses_lookup; [done|]. by exists j. }
      apply H1. split_and!; [done| |].
      * split; [by eapply needed_result|]. exists c', f''. split_and!; [done..|by eexists].
      * intros (k & Hk & Hm). by apply (wf_use_after_move _ _ Hwf k i x).
    + intros x Hx Ht. apply H1 in Hx as (Hx & Hb & _). by apply H2.
  - intros env' (G1 & G2 & G3 & G4). split_and!.
    + intros x. rewrite G1, H1, Hbound. split.
      * intros [[-> Hb]|[(Hx & Hb & Hn) Hm]].
        -- split_and!; [lia|done|]. intros (k & Hk & Hm%moves_later). lia.
        -- split_and!; [lia|done|]. intros (k & Hk & Hm').
           destruct (decide (k = i)) as [->|]; [done|]. apply Hn. exists k. split; [lia|done].
      * intros (Hx & Hb & Hn). destruct (decide (x = i)) as [->|]; [by left|right].
        split; [|intros Hm; apply Hn; exists i; split; [lia|done]].
        split_and!; [lia|done|]. intros (k & Hk & Hm). apply Hn. exists k. split; [lia|done].
    + intros x Hx Hb Ht. destruct (decide (x = i)) as [->|]; [by apply G4; [apply Hbound|]|].
      apply G3, H2; [lia|done..].
    + intros x Hx. destruct (H3 x Hx) as [Hh Hm]. split; [by apply G2|]. intros Ht. by apply G3, Hm.
Qed.

Lemma run_body_returns : returns (run_body g s) (env_at (len s)).
Proof using Hwf Hsimple.
  unfold run_body, body_stmts.
  pose proof (dead_code_returns g s Hwf) as Hd. destruct (_dead_code s g) as [dead| |]; [|done..].
  destruct Hd as [Hlen Hdead]. cbn [mbind outcome_bind].
  set (body := fun i stmts => _).
  enough (Hgen : returns (fold_loop body (seq 0 (length (functions s))) [])
    (fun stmts => returns (run_stmts (copies g s) stmts (first_env s)) (env_at (len s)))).
  { eapply returns_bind; [exact Hgen|]. by intros. }
  eapply returns_mono.
  - apply (fold_loop_returns _ (fun pre stmts =>
      returns (run_stmts (copies g s) stmts (first_env s)) (env_at (length pre)))).
    + apply returns_ret, first_env_at.
    + intros pre i post stmts Hseq Hrun.
      assert (seq 0 (length (functions s)) !! length pre = Some i) as Hli.
      { rewrite Hseq. by apply list_lookup_middle. }
      apply lookup_seq in Hli. destruct Hli as [Hi1 Hi2]. cbn in Hi1. subst i.
      unfold body. apply returns_bind_index; [done|]. intros c Hc.
      destruct (wf_calls _ _ Hwf _ c Hc) as (f & Hf & _).
      eapply returns_bind_unwrap; [exact Hf|]. apply returns_bind_index; [unfold len in Hlen; lia|]. intros b Hb.
      apply returns_ret. unfold run_stmts. rewrite fold_loop_app. eapply returns_bind; [exact Hrun|].
      intros env Henv. rewrite length_app, Nat.add_1_r. apply run_call_at; [done..| |done].
      rewrite <- Hdead by done. rewrite Hb. split; congruence.
  - intros stmts. by rewrite length_seq.
Qed.
End whole.

(** ** Properties *)


Lemma sample_merge_wf : wf_sequence sample_graph sample_merge.
Proof.
  apply sample_extend_wf; [vm_compute; lia|].
  apply sample_extend_wf; [vm_compute; lia|apply sample_new_wf].
Qed.


(** ** A result below [Some] is used after it has been moved

    [_move_condition] looks at the outermost frame: [Some(_local0)] does not count as a move of
    [_local0]. For [new() -> T] and [take(Option<T>)] the extension of a sequence goes on to
    use the same value, and Rust rejects the test function. *)
Definition option_did : DefId := mk_DefId 1 7.
Definition option_of (t : Type_) : Type_ :=
  ResolvedPath (mk_Path false (mk_Res 1)
    [mk_PathSegment "Option" (AngleBracketed [GenericArg_Type t] [])]) None option_did false.

Definition option_base : ApiGraph :=
  foldl add_api_function
    (set_full_name_map (ApiGraph_new "c")
      (push_mapping (push_mapping FullNameMap_new sample_did "c::T" ItemType.Struct)
         option_did "core::option::Option" ItemType.Enum))
    [ sample_function "c::T::new" [Primitive PrimitiveType.U16] (Some sample_type);
      sample_function "c::T::take" [option_of sample_type] None ].
Definition option_graph : ApiGraph := ret_or option_base (find_all_dependencies option_base).

Definition option_extend (s : ApiSequence) (fi : nat) : outcome (option ApiSequence) :=
  is_fun_satisfied option_graph ApiType_BareFunction fi s.

Lemma wrapped_results_are_used_twice :
  exists s1 s2 s3, option_extend ApiSequence_new 0 = Ret (Some s1) /\
    option_extend s1 1 = Ret (Some s2) /\ option_extend s2 1 = Ret (Some s3) /\
    (exists env, run_body option_graph s2 = Ret env) /\ run_body option_graph s3 = Panicked /\
    simple_sequence option_graph s3 = false.
Proof. do 3 eexists. split_and!; try (vm_compute; reflexivity). eexists. vm_compute. reflexivity. Qed.
