(* ===== verification/TargetRun.v ===== *)
(** What the closure of an emitted fuzz target does when it runs: from the bytes of the input
    to the arguments of the test function. *)

From S2P Require Import Prelude RustStd CleanTypes CallTypes PreludeTypes.
From S2P Require Import FuzzableTypes AflHelpers AflDecode ApiUtil ModVisibility ApiFunction.
From S2P Require Import ApiSequence ApiGraph ItemSamples Samples SequenceWf Satisfy DeadCode.
From S2P Require Import SequenceText.

(** ** The emitted closure as a program *)

(** The length test ([!=] or [<]) with its bound, the start and the number of the dynamic
    parts, and the right-hand sides of the [let] statements. *)
Record Closure := mk_Closure {
  cl_fixed : bool;
  cl_min : nat;
  cl_start : nat;
  cl_total : nat;
  cl_params : list rhs_expr
}.

Definition closure_of (self : ApiSequence) : Closure :=
  {| cl_fixed := _is_fuzzables_fixed_length self;
     cl_min := _fuzzables_min_length self;
     cl_start := _fuzzable_fixed_part_length self;
     cl_total := sequence_dynamic_length_param_number self;
     cl_params := rhs_exprs_of (fuzzable_params self) 0 0 |}.

Section print.
Context (p : Closure) (indent : string) (test_index : nat).

Definition print_start : string :=
  indent +:+ "//actual body emit" +:+ nl
    +:+ indent +:+ "if data.len() " +:+ (if cl_fixed p then "!=" else "<") +:+ " "
    +:+ usize_to_string (cl_min p) +:+ " {return;}" +:+ nl
    +:+ (if negb (cl_fixed p) then
           indent +:+ ("let dynamic_length = (data.len() - " +:+ usize_to_string (cl_start p)
             +:+ ") / " +:+ usize_to_string (cl_total p)) +:+ ";" +:+ nl
         else "").

Definition print_let (i : nat) (e : rhs_expr) : string :=
  indent +:+ "let _param" +:+ usize_to_string i +:+ " = "
    +:+ print_rhs (cl_start p) (cl_total p) "dynamic_length" e +:+ ";" +:+ nl.

Definition print_call : string :=
  foldl (fun call i =>
    (if i =? 0 then call else call +:+ " ,") +:+ "_param" +:+ usize_to_string i)
    (indent +:+ "test_function" +:+ usize_to_string test_index +:+ "(")
    (seq 0 (length (cl_params p)))
  +:+ ");" +:+ nl.

Definition print_closure : string :=
  foldl String.append print_start (imap print_let (cl_params p)) +:+ print_call.
End print.

(** ** Running it *)

(** Numbers, characters (their code point), booleans (0 or 1) and floats (their bits);
    strings; slices, as the bytes of their elements; tuples. *)
Inductive value :=
| VPrim (v : Z)
| VStr (bytes : list Z)
| VSlice (elements : list (list Z))
| VTuple (vs : list value).

Section run.
(** [size_of::<T>()], and how many bytes [align_to] leaves before the first element: this
    depends on the address of the input. *)
Context (size_of : _AflHelpers -> nat) (skip : list Z -> nat).

Definition _to_str (data : list Z) (start_index end_index : nat) : outcome value :=
  data_slice ← data_slice data start_index end_index;
  if utf8 data_slice then mret (VStr data_slice) else Exited 0.

(** The whole elements of [size] bytes. *)
Definition chunks (size : nat) (bytes : list Z) : list (list Z) :=
  List.map (fun i => take size (drop (i * size) bytes)) (seq 0 (length bytes / size)).

(** Without elements for a type of size 0. *)
Definition align_to (size : nat) (bytes : list Z) : list (list Z) :=
  if size =? 0 then [] else chunks size (drop (skip bytes) bytes).

Definition _to_slice (h : _AflHelpers) (data : list Z) (start_index end_index : nat)
    : outcome value :=
  data_slice ← data_slice data start_index end_index;
  mret (VSlice (align_to (size_of h) data_slice)).

Section rhs.
Context (data : list Z) (start total dynamic_length : nat).

(** [No helper] is not an expression: it stands for a panic. *)
Fixpoint eval_rhs (e : rhs_expr) : outcome value :=
  match e with
  | RFixed h index => v ← decode_fixed h data index; mret (VPrim v)
  | RDynamic h k =>
      let first := start + k * dynamic_length in
      let latter :=
        if decide (k + 1 = total) then length data else start + (k + 1) * dynamic_length in
      match h with
      | _Str => _to_str data first latter
      | _Slice h => _to_slice h data first latter
      | _ => Panicked
      end
  | RTuple es => vs ← map_loop eval_rhs es; mret (VTuple vs)
  | RNone => Panicked
  end.
End rhs.

(** [data.len() - start] and the division panic when they are undefined. *)
Definition dynamic_length_of (p : Closure) (data : list Z) : outcome nat :=
  if cl_fixed p then mret 0
  else if decide (length data < cl_start p) then Panicked
  else if decide (cl_total p = 0) then Panicked
  else mret ((length data - cl_start p) / cl_total p).

(** The arguments of the test function; [None] when the closure returns early. *)
Definition run_closure (p : Closure) (data : list Z) : outcome (option (list value)) :=
  if (if cl_fixed p then negb (length data =? cl_min p) else length data <? cl_min p)
  then mret None
  else
    dynamic_length ← dynamic_length_of p data;
    vs ← map_loop (eval_rhs data (cl_start p) (cl_total p) dynamic_length) (cl_params p);
    mret (Some vs).

(** ** The types of the values *)

(** A decoder exists for every part of the type. *)
Fixpoint has_decoder (t : FuzzableType) : bool :=
  match t with
  | FuzzableType.NoFuzzable => false
  | FuzzableType.Primitive _ => bool_decide (_new_from_fuzzable t <> _NoHelper)
  | FuzzableType.RefSlice _ | FuzzableType.RefStr => true
  | FuzzableType.Tuple ts => forallb has_decoder ts
  end.

(** Every bit pattern is a value of the type. *)
Fixpoint any_bits (t : FuzzableType) : bool :=
  match t with
  | FuzzableType.Primitive p =>
      negb (bool_decide (p = PrimitiveType.Bool)) && negb (bool_decide (p = PrimitiveType.Char))
  | FuzzableType.Tuple ts => forallb any_bits ts
  | _ => false
  end.

(** The elements of slices are such types. *)
Fixpoint slices_ok (t : FuzzableType) : bool :=
  match t with
  | FuzzableType.RefSlice t => any_bits t
  | FuzzableType.Tuple ts => forallb slices_ok ts
  | _ => true
  end.

(** The bytes of an element of a slice are a value of its type. The layout of a tuple is
    not specified: its components must accept all bytes. *)
Definition element_ok (t : FuzzableType) (bytes : list Z) : Prop :=
  length bytes = size_of (_new_from_fuzzable t) /\
  match t with
  | FuzzableType.Primitive PrimitiveType.Bool => exists b, bytes = [b] /\ (0 <= b < 2)%Z
  | FuzzableType.Primitive PrimitiveType.Char => is_Some (char_from_u32 (from_le_bytes bytes))
  | FuzzableType.Tuple ts => forallb any_bits ts = true
  | FuzzableType.Primitive _ => True
  | _ => False
  end.

Fixpoint has_fuzz_type (t : FuzzableType) (v : value) : Prop :=
  match t, v with
  | FuzzableType.Primitive _, VPrim z => helper_range (_new_from_fuzzable t) z
  | FuzzableType.RefStr, VStr bytes => utf8 bytes = true
  | FuzzableType.RefSlice t, VSlice es => Forall (element_ok t) es
  | FuzzableType.Tuple ts, VTuple vs =>
      (fix go (ts : list FuzzableType) (vs : list value) : Prop :=
         match ts, vs with
         | [], [] => True
         | t :: ts, v :: vs => has_fuzz_type t v /\ go ts vs
         | _, _ => False
         end) ts vs
  | _, _ => False
  end.
End run.

(** ** The text of the closure is the program *)

Lemma length_rhs_exprs ts : forall fixed dyn, length (rhs_exprs_of ts fixed dyn) = length ts.
Proof. induction ts; intros; cbn; auto. Qed.

Lemma closure_text self outer_indent test_index :
  Forall decodable (fuzzable_params self) ->
  _afl_closure_body self outer_indent test_index =
  Ret (print_closure (closure_of self) (_generate_indent (outer_indent + 4)) test_index).
Proof.
  intros Hall. rewrite closure_body_text by done. unfold print_closure, print_call.
  cbn [cl_params closure_of]. by rewrite length_rhs_exprs.
Qed.

(** ** It decodes, stops or ends the process *)

(** The code returns with a value that satisfies [Q], or leaves the process with code 0. *)
Definition ends {A} (o : outcome A) (Q : A -> Prop) : Prop :=
  match o with Ret a => Q a | Panicked => False | Exited code => code = 0%Z end.

Lemma ends_bind {A B} (o : outcome A) (f : A -> outcome B) (P : A -> Prop) Q :
  ends o P -> (forall a, P a -> ends (f a) Q) -> ends (o ≫= f) Q.
Proof. destruct o; cbn; auto. Qed.

Section safety.
Context (size_of : _AflHelpers -> nat) (skip : list Z -> nat).
Context (data : list Z) (Hbytes : Forall byte data).

Abbreviation typed := (has_fuzz_type size_of).

Lemma typed_tuple ts vs : typed (FuzzableType.Tuple ts) (VTuple vs) <-> Forall2 typed ts vs.
Proof.
  cbn [has_fuzz_type]. revert vs. induction ts as [|t ts IH]; intros [|v vs].
  - split; [constructor|done].
  - split; [done|]. intros H. inversion H.
  - split; [done|]. intros H. inversion H.
  - rewrite IH, Forall2_cons. done.
Qed.

Lemma chunks_length size bytes e : e ∈ chunks size bytes -> length e = size.
Proof.
  unfold chunks. rewrite list_elem_of_In, in_map_iff. intros (i & <- & [_ Hi]%in_seq).
  rewrite length_take, length_drop. cbn in Hi.
  destruct (decide (size = 0)) as [->|Hs]; [lia|].
  assert ((i + 1) * size <= length bytes); [|nia].
  etrans; [apply Nat.mul_le_mono_r; assert (i + 1 <= length bytes / size) as Hle by lia; exact Hle|].
  rewrite Nat.mul_comm. by apply Nat.Div0.mul_div_le.
Qed.

Lemma elements_typed t bytes :
  any_bits t = true -> Forall (element_ok size_of t) (align_to skip (size_of (_new_from_fuzzable t)) bytes).
Proof.
  intros Ht. apply Forall_forall. unfold align_to.
  destruct (_ =? 0); [intros ? []%not_elem_of_nil|]. intros e He%chunks_length.
  split; [done|]. destruct t as [|[]| | |]; try done.
Qed.

Section rhs.
Context (start total dl : nat).

(** The reads of an expression are ranges of the input. *)
Definition reads_ok (as_ : list access) : Prop :=
  forall a, a ∈ as_ -> (access_range (length data) start total dl a).1
    <= (access_range (length data) start total dl a).2 <= length data.

Lemma data_slice_in first latter :
  first <= latter <= length data -> returns (data_slice data first latter) (fun _ => True).
Proof. intros H. unfold data_slice. by rewrite decide_True by lia. Qed.

Let eval := eval_rhs size_of skip data start total dl.

Lemma eval_list_typed ts :
  Forall (fun t => forall fixed dyn, has_decoder t = true ->
    reads_ok (accesses (rhs_expr_of t fixed dyn)) ->
    ends (eval (rhs_expr_of t fixed dyn)) (fun v => slices_ok t = true -> typed t v)) ts ->
  forall fixed dyn, forallb has_decoder ts = true ->
  reads_ok (concat (List.map accesses (rhs_exprs_of ts fixed dyn))) ->
  ends (map_loop eval (rhs_exprs_of ts fixed dyn))
    (fun vs => forallb slices_ok ts = true -> Forall2 typed ts vs).
Proof.
  induction 1 as [|t ts Ht _ IH]; intros fixed dyn Hd Hr; [constructor|].
  cbn [forallb rhs_exprs_of List.map concat map_loop] in *. apply andb_true_iff in Hd as [Hdt Hd].
  eapply ends_bind; [apply Ht; [done|]; intros a Ha; apply Hr; set_solver|]. intros v Hv.
  eapply ends_bind; [apply IH; [done|]; intros a Ha; apply Hr; set_solver|]. intros vs Hvs.
  cbn. intros [? ?]%andb_true_iff. constructor; auto.
Qed.

Lemma eval_rhs_typed t : forall fixed dyn, has_decoder t = true ->
  reads_ok (accesses (rhs_expr_of t fixed dyn)) ->
  ends (eval (rhs_expr_of t fixed dyn)) (fun v => slices_ok t = true -> typed t v).
Proof using Hbytes.
  induction t as [|p|t _| |ts IH] using FuzzableType.FuzzableType_nested_ind;
    intros fixed dyn Hd Hr.
  - done.
  - set (h := _new_from_fuzzable (FuzzableType.Primitive p)).
    assert (Hh : rhs_expr_of (FuzzableType.Primitive p) fixed dyn = RFixed h fixed /\
      0 < helper_width h).
    { cbn in Hd. apply bool_decide_eq_true in Hd. unfold h. cbn.
      destruct p; cbn in *; (split; [done|lia]) || done. }
    destruct Hh as [He Hw]. rewrite He in *. unfold eval. cbn [eval_rhs].
    specialize (Hr (AFixed fixed (helper_width h)) ltac:(apply list_elem_of_here)).
    cbn in Hr. pose proof (decode_fixed_in_range h data fixed Hbytes Hw (proj2 Hr)) as Hv.
    destruct (decode_fixed h data fixed) as [v| |c]; cbn; [by intros _|done|apply Hv].
  - specialize (Hr (ADynamic dyn) ltac:(apply list_elem_of_here)). cbn in Hr.
    apply data_slice_in in Hr. unfold eval. cbn [eval_rhs rhs_expr_of _new_from_fuzzable].
    unfold _to_slice. destruct (data_slice _ _ _) as [bytes| |]; [|done..]. cbn.
    intros Ht. by apply elements_typed.
  - specialize (Hr (ADynamic dyn) ltac:(apply list_elem_of_here)). cbn in Hr.
    apply data_slice_in in Hr. unfold eval. cbn [eval_rhs rhs_expr_of _new_from_fuzzable].
    unfold _to_str. destruct (data_slice _ _ _) as [bytes| |]; [|done..]. cbn.
    destruct (utf8 bytes) eqn:Hu; cbn; [by intros _|done].
  - rewrite rhs_expr_tuple in *. unfold eval. cbn [eval_rhs].
    eapply ends_bind; [by apply eval_list_typed|]. intros vs Hvs. cbn [ends mret outcome_ret].
    intros Hs. apply typed_tuple. by apply Hvs.
Qed.
End rhs.

Lemma run_closure_ends self :
  forallb has_decoder (fuzzable_params self) = true ->
  ends (run_closure size_of skip (closure_of self) data) (fun r =>
    match r with
    | None => ~ length_guard (fuzzable_params self) (length data)
    | Some vs => length_guard (fuzzable_params self) (length data) /\
        (forallb slices_ok (fuzzable_params self) = true ->
         Forall2 typed (fuzzable_params self) vs)
    end).
Proof using Hbytes.
  intros Hd. set (ts := fuzzable_params self) in *. unfold run_closure. cbn [cl_fixed cl_min closure_of].
  unfold _is_fuzzables_fixed_length. rewrite fuzzables_min_length_sum. fold ts.
  assert (Hg : (if forallb FuzzableType._is_fixed_length ts
     then negb (length data =? sum_list_with FuzzableType._min_length ts)
     else length data <? sum_list_with FuzzableType._min_length ts) = true <->
     ~ length_guard ts (length data)).
  { unfold length_guard. destruct (forallb FuzzableType._is_fixed_length ts).
    - by rewrite <- Nat.eqb_neq, <- negb_true_iff.
    - rewrite Nat.ltb_lt. lia. }
  match goal with |- context [if ?b then mret None else _] => destruct b end.
  { apply Hg. done. }
  assert (Hguard : length_guard ts (length data)).
  { apply dec_stable. intros H%Hg. done. }
  destruct (guarded_reads ts (length data) Hguard) as (Hstart & Htotal & Hreads & _).
  assert (Hdl : dynamic_length_of (closure_of self) data =
    Ret (if forallb FuzzableType._is_fixed_length ts then 0 else
         (length data - sum_list_with FuzzableType._fixed_part_length ts)
           / sum_list_with FuzzableType._dynamic_length_param_number ts)).
  { unfold dynamic_length_of. cbn [cl_fixed cl_start cl_total closure_of].
    unfold _is_fuzzables_fixed_length. rewrite fuzzable_fixed_part_sum, dynamic_length_number_sum.
    fold ts. destruct (forallb FuzzableType._is_fixed_length ts) eqn:Hf; [done|]. specialize (Htotal eq_refl).
    by rewrite !decide_False by lia. }
  rewrite Hdl. cbn [mbind outcome_bind cl_start cl_total cl_params closure_of].
  rewrite fuzzable_fixed_part_sum, dynamic_length_number_sum. fold ts.
  eapply ends_bind.
  - apply eval_list_typed; [|done|].
    + apply Forall_forall. intros t _ fixed dyn. by apply eval_rhs_typed.
    + intros a Ha. pose proof (Hreads a Ha) as Hra.
      destruct (forallb FuzzableType._is_fixed_length ts) eqn:Hf; [|exact Hra].
      destruct a as [i w|k]; [exact Hra|].
      (* no dynamic read without a dynamic part *)
      exfalso. rewrite accesses_layout_list in Ha. apply layout_bounds in Ha.
      destruct (params_lengths ts) as (_ & Hdyn & _ & Hpos). rewrite <- Hdyn in Ha.
      assert (forallb FuzzableType._is_fixed_length ts = false) by (apply Hpos; lia). congruence.
  - intros vs Hvs. by split.
Qed.
End safety.

Lemma has_decoder_decodable t : has_decoder t = true -> decodable t.
Proof. destruct t; cbn; unfold decodable; try done. by intros ?%bool_decide_eq_true. Qed.

Lemma decodable_all ts : forallb has_decoder ts = true -> Forall decodable ts.
Proof.
  intros Hd. apply Forall_forall. intros t Ht. apply has_decoder_decodable.
  rewrite forallb_forall in Hd. by apply Hd, list_elem_of_In.
Qed.

(** ** Properties *)



(** Slices of [bool] are built from bytes that are not booleans. A parameter [&[bool]]
    is accepted, and the emitted closure of a function with this parameter passes the
    byte 2 on as an element, which no [bool] is: undefined behaviour in Rust. *)
Lemma slices_of_bool_hold_invalid_values (m : FullNameMap) (self : ApiSequence)
    (size_of : _AflHelpers -> nat) (skip : list Z -> nat)
    (Hparam : fuzzable_params self = [FuzzableType.RefSlice (FuzzableType.Primitive PrimitiveType.Bool)])
    (Hsize : size_of _Bool = 1) (Halign : skip [2%Z] = 0) :
  let ty := BorrowedRef None Not (Slice (Primitive PrimitiveType.Bool)) in
  unsupported_fuzzable_type m ty = false /\
  generate_fuzzable_type_and_call_type (fuzzable_call_type ty m) =
    (FuzzableType.RefSlice (FuzzableType.Primitive PrimitiveType.Bool), _DirectCall) /\
  run_closure size_of skip (closure_of self) [2%Z] = Ret (Some [VSlice [[2%Z]]]) /\
  ~ has_fuzz_type size_of (FuzzableType.RefSlice (FuzzableType.Primitive PrimitiveType.Bool))
      (VSlice [[2%Z]]).
Proof.
  split_and!; [reflexivity|reflexivity| |].
  - assert (closure_of self = mk_Closure false 1 0 1 [RDynamic (_Slice _Bool) 0]) as ->.
    { unfold closure_of, _is_fuzzables_fixed_length, _fuzzables_min_length,
        _fuzzable_fixed_part_length, sequence_dynamic_length_param_number. by rewrite Hparam. }
    transitivity (y ← _to_slice size_of skip _Bool [2%Z] 0 1; mret (Some [y])); [reflexivity|].
    unfold _to_slice, align_to. rewrite Hsize. change (data_slice [2%Z] 0 1) with (Ret [2%Z]).
    cbn [mbind outcome_bind Nat.eqb]. by rewrite Halign.
  - cbn. rewrite Forall_singleton. intros [_ (b & [= <-] & Hb)]. lia.
Qed.

Lemma slices_of_bool_hold_invalid_values_witness :
  run_closure (fun _ => 1) (fun _ => 0)
    (closure_of (mk_ApiSequence [] [FuzzableType.RefSlice (FuzzableType.Primitive PrimitiveType.Bool)]
       [] false ∅ ∅ ∅ ∅)) [2%Z] = Ret (Some [VSlice [[2%Z]]]).
Proof.
  exact (proj1 (proj2 (proj2 (slices_of_bool_hold_invalid_values FullNameMap_new
    (mk_ApiSequence [] [FuzzableType.RefSlice (FuzzableType.Primitive PrimitiveType.Bool)]
       [] false ∅ ∅ ∅ ∅) (fun _ => 1) (fun _ => 0) eq_refl eq_refl eq_refl)))).
Defined.

(** A parameter [&mut str] is accepted as well, but there is no decoder for [str]: the
    statement for it in the emitted closure is [No helper], which does not compile. *)
Lemma mut_str_has_no_decoder (m : FullNameMap) (start total i fixed dyn : nat) (name : string) :
  let ty := BorrowedRef None Mut (Primitive PrimitiveType.Str) in
  let t := FuzzableType.Primitive PrimitiveType.Str in
  unsupported_fuzzable_type m ty = false /\
  generate_fuzzable_type_and_call_type (fuzzable_call_type ty m) =
    (t, _MutBorrowedRef _DirectCall) /\
  _generate_param_initial_statement start total name (_new_from_fuzzable t) i fixed dyn t =
    Ret "No helper".
Proof. split_and!; reflexivity. Qed.
