(* ===== verification/ApiSearch.v ===== *)
(** The searches for call sequences ([fuzz_target/api_graph.rs]: breadth first, deep
    breadth first, random walk, backward search) and the choice of the search. *)

From S2P Require Import Prelude RustStd CleanTypes CallTypes PreludeTypes.
From S2P Require Import FuzzableTypes ApiUtil ModVisibility ApiFunction ApiSequence.
From S2P Require Import ApiGraph Samples SequenceWf Satisfy Merge DeadCode.

(** [self.api_sequences.push(s)] and [self.api_functions_visited[i] = true]. *)
Definition push_sequence (g : ApiGraph) (s : ApiSequence) : ApiGraph :=
  with_sequences g (api_sequences g ++ [s]).
Definition visit_function (g : ApiGraph) (i : nat) : outcome ApiGraph :=
  visited ← vec_store (api_functions_visited g) i true;
  mret (with_visited g visited).

(** ** Breadth-first search *)

(** The first loop of a round: the sequences of length [n] to extend. *)
Definition frontier (stop_at_end_function : bool) (n : nat) (g : ApiGraph)
    : outcome (list ApiSequence) :=
  fold_loop (fun sequence tmp_sequences =>
    ended ← (if stop_at_end_function then is_sequence_ended g sequence else mret false);
    if ended : bool then mret tmp_sequences
    else if len sequence =? n then mret (tmp_sequences ++ [sequence])
    else mret tmp_sequences) (api_sequences g) [].

(** One sequence and one function. [check_all_visited] is called when the sequence
    is extended, and its result is not used. *)
Definition bfs_extend (fast_mode : bool) (sequence : ApiSequence) (api_func_index : nat)
    (g : ApiGraph) : outcome ApiGraph :=
  skip ← (if fast_mode then (api_functions_visited g).[api_func_index] else mret false);
  if skip : bool then mret g
  else
    r ← is_fun_satisfied g ApiType_BareFunction api_func_index sequence;
    match r with
    | None => mret g
    | Some new_sequence => visit_function (push_sequence g new_sequence) api_func_index
    end.

Definition bfs_round (stop_at_end_function fast_mode : bool) (api_function_num n : nat)
    (g : ApiGraph) : outcome ApiGraph :=
  tmp_sequences ← frontier stop_at_end_function n g;
  fold_loop (fun sequence g =>
    fold_loop (bfs_extend fast_mode sequence) (seq 0 api_function_num) g) tmp_sequences g.

Definition bfs (max_len : nat) (stop_at_end_function fast_mode : bool) (g : ApiGraph)
    : outcome ApiGraph :=
  let g := reset_visited (with_sequences g []) in
  if max_len <? 1 then mret g
  else
    let api_function_num := length (api_functions g) in
    let g := push_sequence g ApiSequence_new in
    g ← fold_loop (bfs_round stop_at_end_function fast_mode api_function_num)
          (seq 0 max_len) g;
    if negb stop_at_end_function then Exited 0 else mret g.

Section search.
Context `{HashOrder}.

(** ** Deep breadth-first search *)

(** The loops that insert what [covered] adds to [already_covered], and set the flag. *)
Definition cover_all (covered : list nat) (st : gset nat * bool) : gset nat * bool :=
  foldl (fun '(already_covered, flag) x =>
    if decide (x ∈ already_covered) then (already_covered, flag)
    else ({[x]} ∪ already_covered, true)) st covered.

(** The variables of [_try_deep_bfs]. *)
Record deep_state := mk_deep {
  deep_graph : ApiGraph;
  already_covered_nodes : gset nat;
  already_covered_edges : gset nat;
  has_new_coverage_flag : bool
}.

Definition deep_extend (sequence : ApiSequence) (api_func_index : nat) (st : deep_state)
    : outcome deep_state :=
  r ← is_fun_satisfied (deep_graph st) ApiType_BareFunction api_func_index sequence;
  match r with
  | None => mret st
  | Some new_sequence =>
      let '(nodes, flag) :=
        cover_all (_get_contained_api_functions new_sequence)
          (already_covered_nodes st, has_new_coverage_flag st) in
      let '(edges, flag) :=
        cover_all (hash_order 5 (_covered_dependencies new_sequence))
          (already_covered_edges st, flag) in
      g ← visit_function (push_sequence (deep_graph st) new_sequence) api_func_index;
      mret {| deep_graph := g; already_covered_nodes := nodes;
              already_covered_edges := edges; has_new_coverage_flag := flag |}
  end.

Definition deep_round (max_sequence_number api_function_num n : nat) (st : deep_state)
    : outcome (flow deep_state Empty_set) :=
  let g := deep_graph st in
  let current_sequence_number := length (api_sequences g) in
  let covered_nodes := _visited_nodes_num g in
  if (2 <? n) && (max_sequence_number <=? current_sequence_number * covered_nodes)
  then mret (Break st)
  else
    tmp_sequences ← frontier true n g;
    let st := {| deep_graph := g; already_covered_nodes := already_covered_nodes st;
                 already_covered_edges := already_covered_edges st;
                 has_new_coverage_flag := false |} in
    st ← fold_loop (fun sequence st =>
           fold_loop (deep_extend sequence) (seq 0 api_function_num) st) tmp_sequences st;
    if negb (has_new_coverage_flag st) then mret (Break st) else mret (Next st).

Definition _try_deep_bfs (max_sequence_number : nat) (g : ApiGraph) : outcome ApiGraph :=
  let g := reset_visited (with_sequences g []) in
  let max_len := length (api_functions g) in
  if max_len <? 1 then mret g
  else
    let api_function_num := length (api_functions g) in
    let g := push_sequence g ApiSequence_new in
    st ← run_loop (deep_round max_sequence_number api_function_num) (seq 0 max_len)
           {| deep_graph := g; already_covered_nodes := ∅; already_covered_edges := ∅;
              has_new_coverage_flag := false |};
    mret (deep_graph st).

(** ** Random walk *)

(** [rand] is a third-party crate: [rng k low high] is the value of the [k]-th call
    [gen_range(low, high)], which panics on an empty range. *)
Section random.
Variable rng : nat -> nat -> nat -> nat.

Definition gen_range (k low high : nat) : outcome nat :=
  if low <? high then mret (rng k low high) else Panicked.

(** One step; [k] counts the random numbers drawn so far. *)
Definition walk_step (stop_at_end_function : bool) (max_depth function_len : nat)
    (i : nat) (st : ApiGraph * nat) : outcome (ApiGraph * nat) :=
  let '(g, k) := st in
  let current_sequence_len := length (api_sequences g) in
  chosen_sequence_index ← gen_range k 0 current_sequence_len;
  chosen_sequence ← (api_sequences g).[chosen_sequence_index];
  ended ← (if stop_at_end_function then is_sequence_ended g chosen_sequence else mret false);
  if ended : bool then mret (g, S k)
  else if (0 <? max_depth) && (max_depth <=? len chosen_sequence) then mret (g, S k)
  else
    chosen_fun_index ← gen_range (S k) 0 function_len;
    r ← is_fun_satisfied g ApiType_BareFunction chosen_fun_index chosen_sequence;
    match r with
    | None => mret (g, S (S k))
    | Some new_sequence =>
        g ← visit_function (push_sequence g new_sequence) chosen_fun_index;
        mret (g, S (S k))
    end.

Definition random_walk (max_size : nat) (stop_at_end_function : bool) (max_depth : nat)
    (g : ApiGraph) : outcome ApiGraph :=
  let g := reset_visited (with_sequences g []) in
  if length (api_functions g) <=? 0 then mret g
  else
    let g := push_sequence g ApiSequence_new in
    let function_len := length (api_functions g) in
    st ← fold_loop (walk_step stop_at_end_function max_depth function_len)
           (seq 0 max_size) (g, 0);
    mret st.1.
End random.

(** ** Backward search *)

(** The loop that looks for a dead call before the last one. *)
Definition dead_code_flag (dead_code : list bool) (api_sequence_len : nat) : outcome bool :=
  run_loop (fun j flag =>
    dead ← dead_code.[j];
    if dead : bool then mret (Break true) else mret (Next flag))
    (seq 0 (api_sequence_len - 1)) false.

Definition _choose_candidate_sequence_for_merge (g : ApiGraph) : outcome (list nat) :=
  fold_loop (fun i res =>
    api_sequence ← (api_sequences g).[i];
    dead_code ← _dead_code api_sequence g;
    let api_sequence_len := len api_sequence in
    ended ← is_sequence_ended g api_sequence;
    if ended : bool then mret res
    else if api_sequence_len <=? 0 then mret res
    else if api_sequence_len =? 1 then mret (res ++ [i])
    else
      flag ← dead_code_flag dead_code api_sequence_len;
      if negb flag then mret (res ++ [i]) else mret res)
    (seq 0 (length (api_sequences g))) [].

(** The candidate for the parameter [i] of an unvisited function: the last one that
    fits and has no fuzzable parameter, or the first one that fits and has some. The
    index goes through an [i32]. *)
Definition find_candidate (g : ApiGraph) (candidate_sequences : list nat)
    (unvisited_node i : nat) : outcome (bool * Z) :=
  run_loop (fun candidate_sequence_index '(can_find_dependency_flag, tmp_dependent_index) =>
    candidate_sequence ← (api_sequences g).[candidate_sequence_index];
    last_index ← _last_api_func_index candidate_sequence;
    output_index ← unwrap last_index;
    match check_dependency g ApiType_BareFunction output_index ApiType_BareFunction
            unvisited_node i with
    | Some _ =>
        let tmp_dependent_index := as_i32 (Z.of_nat candidate_sequence_index) in
        if negb (_has_no_fuzzables candidate_sequence)
        then mret (Break (true, tmp_dependent_index))
        else mret (Next (true, tmp_dependent_index))
    | None => mret (Next (can_find_dependency_flag, tmp_dependent_index))
    end) candidate_sequences (false, (-1)%Z).

(** The loop over the parameters of an unvisited function. *)
Definition find_dependents (g : ApiGraph) (candidate_sequences : list nat)
    (unvisited_node : nat) (input_types : list Type_) : outcome (list nat * bool) :=
  fold_loop (fun i '(dependent_sequence_indexes, can_be_covered_flag) =>
    input_type ← input_types.[i];
    if is_fuzzable_type input_type (full_name_map g)
    then mret (dependent_sequence_indexes, can_be_covered_flag)
    else
      r ← find_candidate g candidate_sequences unvisited_node i;
      let '(can_find_dependency_flag, tmp_dependent_index) := (r : bool * Z) in
      if negb can_find_dependency_flag then mret (dependent_sequence_indexes, false)
      else mret (dependent_sequence_indexes ++ [as_usize tmp_dependent_index],
                 can_be_covered_flag))
    (seq 0 (length input_types)) ([], true).

(** [indexes.into_iter().map(|index| self.api_sequences[index].clone()).collect()]. *)
Definition collect_sequences (g : ApiGraph) (indexes : list nat) : outcome (list ApiSequence) :=
  fold_loop (fun index dependent_sequences =>
    s ← (api_sequences g).[index]; mret (dependent_sequences ++ [s])) indexes [].

(** One unvisited function; the second component is [covered_node_this_iteration]. *)
Definition cover_node (candidate_sequences : list nat) (unvisited_node : nat)
    (st : ApiGraph * gset nat) : outcome (ApiGraph * gset nat) :=
  let '(g, covered_node_this_iteration) := st in
  unvisited_api_func ← (api_functions g).[unvisited_node];
  r ← find_dependents g candidate_sequences unvisited_node (inputs unvisited_api_func);
  let '(dependent_sequence_indexes, can_be_covered_flag) := (r : list nat * bool) in
  if can_be_covered_flag then
    dependent_sequences ← collect_sequences g dependent_sequence_indexes;
    merged_sequence ← _merge_sequences dependent_sequences;
    generated ← is_fun_satisfied g ApiType_BareFunction unvisited_node merged_sequence;
    match generated with
    | Some generated_sequence =>
        g ← visit_function (push_sequence g generated_sequence) unvisited_node;
        mret (g, {[unvisited_node]} ∪ covered_node_this_iteration)
    | None => mret (g, covered_node_this_iteration)
    end
  else mret (g, covered_node_this_iteration).

(** One iteration of the backward search, on the functions not visited so far. *)
Definition cover_round (_ : nat) (st : ApiGraph * gset nat)
    : outcome (flow (ApiGraph * gset nat) Empty_set) :=
  let '(g, unvisited_nodes) := st in
  candidate_sequences ← _choose_candidate_sequence_for_merge g;
  st ← fold_loop (cover_node candidate_sequences) (hash_order 6 unvisited_nodes) (g, ∅);
  let '(g, covered_node_this_iteration) := (st : ApiGraph * gset nat) in
  if size covered_node_this_iteration =? 0 then mret (Break (g, unvisited_nodes))
  else mret (Next (g, unvisited_nodes ∖ covered_node_this_iteration)).

(** The nodes that the loop over [api_functions_visited] inserts. *)
Definition unvisited_functions (g : ApiGraph) : outcome (gset nat) :=
  fold_loop (fun i unvisited_nodes =>
    visited ← (api_functions_visited g).[i];
    if negb visited then mret ({[i]} ∪ unvisited_nodes) else mret unvisited_nodes)
    (seq 0 (length (api_functions g))) ∅.

(** What follows the search in the source only prints statistics. *)
Definition _try_to_cover_unvisited_nodes (g : ApiGraph) : outcome ApiGraph :=
  unvisited_nodes ← unvisited_functions g;
  st ← run_loop cover_round (seq 0 (size unvisited_nodes)) (g, unvisited_nodes);
  mret st.1.

(** ** The choice of the search *)

Inductive GraphTraverseAlgorithm :=
| _Bfs | _FastBfs | _BfsEndPoint | _FastBfsEndPoint | _RandomWalk | _RandomWalkEndPoint
| _TryDeepBfs | _DirectBackwardSearch.
#[export] Instance GraphTraverseAlgorithm_eq_dec : EqDecision GraphTraverseAlgorithm.
Proof. solve_decision. Defined.

Definition RANDOM_WALK_STEPS : gmap string nat :=
  {["regex" := 10000; "url" := 10000; "time" := 10000]}.

Definition generate_all_possoble_sequences (rng : nat -> nat -> nat -> nat)
    (algorithm : GraphTraverseAlgorithm) (g : ApiGraph) : outcome ApiGraph :=
  let bfs_max_len := 3 in
  let random_walk_max_size :=
    match RANDOM_WALK_STEPS !! _crate_name g with Some n => n | None => 100000 end in
  let random_walk_max_depth := 0 in
  let max_sequence_number := 100000 in
  match algorithm with
  | _Bfs => bfs bfs_max_len false false g
  | _FastBfs => bfs bfs_max_len false true g
  | _BfsEndPoint => bfs bfs_max_len true false g
  | _FastBfsEndPoint => bfs bfs_max_len true true g
  | _TryDeepBfs => _try_deep_bfs max_sequence_number g
  | _RandomWalk => random_walk rng random_walk_max_size false random_walk_max_depth g
  | _RandomWalkEndPoint => random_walk rng random_walk_max_size true random_walk_max_depth g
  | _DirectBackwardSearch =>
      _try_to_cover_unvisited_nodes (reset_visited (with_sequences g []))
  end.

Definition default_generate_sequences (rng : nat -> nat -> nat -> nat) (g : ApiGraph)
    : outcome ApiGraph :=
  g ← generate_all_possoble_sequences rng _BfsEndPoint g;
  _try_to_cover_unvisited_nodes g.
End search.
