(* ===== verification/SearchCorrect.v ===== *)
(** Correctness of the searches: every search keeps the sequences well formed and the
    graph unchanged but for the sequences and the visited flags; the breadth-first
    search finds exactly the reachable sequences, and the other searches some of them. *)

From S2P Require Import Prelude RustStd CleanTypes CallTypes PreludeTypes.
From S2P Require Import FuzzableTypes ApiUtil ModVisibility ApiFunction ApiSequence.
From S2P Require Import ApiGraph Samples SequenceWf Satisfy Merge DeadCode ApiSearch.

(** ** Specification *)

(** [g'] differs from [g] by its sequences and its visited flags only. *)
Definition searched (g g' : ApiGraph) : Prop :=
  exists ss visited, g' = with_visited (with_sequences g ss) visited.

(** The contract of a search: what the client of a search may rely on. *)
Record search_ok (g g' : ApiGraph) : Prop := {
  so_searched : searched g g';
  so_visited : length (api_functions_visited g') = length (api_functions g);
  so_wf : Forall (wf_sequence g) (api_sequences g')
}.

(** The function of the last call. *)
Definition last_function (s : ApiSequence) : option nat :=
  (fun c => (func c).2) <$> last (functions s).

(** A function is flagged exactly when a sequence ends with it. *)
Definition visited_ok (g' : ApiGraph) : Prop :=
  forall i, api_functions_visited g' !! i = Some true <->
    exists s, s ∈ api_sequences g' /\ last_function s = Some i.

(** The sequences that extensions build from the empty one; when [stop], an ended
    sequence is not extended. *)
Inductive reachable (g : ApiGraph) (stop : bool) : ApiSequence -> Prop :=
| reachable_new : reachable g stop ApiSequence_new
| reachable_extend s fi s' :
    reachable g stop s -> (stop = true -> is_sequence_ended g s = Ret false) ->
    fi < length (api_functions g) ->
    is_fun_satisfied g ApiType_BareFunction fi s = Ret (Some s') ->
    reachable g stop s'.

(** ** The graph during a search *)

Create HintDb search discriminated.

#[export] Instance searched_preorder : PreOrder searched.
Proof.
  split.
  - intros g. exists (api_sequences g), (api_functions_visited g). by destruct g.
  - intros g1 g2 g3 (ss & v & ->) (ss' & v' & ->). by exists ss', v'.
Qed.

Section searched.
Context (g g' : ApiGraph) (Hs : searched g g').

Lemma searched_functions : api_functions g' = api_functions g.
Proof using Hs. by destruct Hs as (? & ? & ->). Qed.
Lemma searched_names : full_name_map g' = full_name_map g.
Proof using Hs. by destruct Hs as (? & ? & ->). Qed.
Lemma searched_deps : deps_ok g' <-> deps_ok g.
Proof using Hs. by destruct Hs as (? & ? & ->). Qed.
Lemma searched_satisfied it fi s : is_fun_satisfied g' it fi s = is_fun_satisfied g it fi s.
Proof using Hs. by destruct Hs as (? & ? & ->). Qed.
Lemma searched_ended s : is_sequence_ended g' s = is_sequence_ended g s.
Proof using Hs. by destruct Hs as (? & ? & ->). Qed.
Lemma searched_wf s : wf_sequence g' s <-> wf_sequence g s.
Proof using Hs. destruct Hs as (? & ? & ->). split; intros []; by split. Qed.
Lemma searched_dead s : _dead_code s g' = _dead_code s g.
Proof using Hs. by destruct Hs as (? & ? & ->). Qed.
Lemma searched_check ot oi it ii k :
  check_dependency g' ot oi it ii k = check_dependency g ot oi it ii k.
Proof using Hs. by destruct Hs as (? & ? & ->). Qed.
End searched.

Section ok.
Context (g : ApiGraph) (Hdeps : deps_ok g).

(** A well-formed sequence can be tested for its end. *)
Lemma ended_returns s : wf_sequence g s -> exists b, is_sequence_ended g s = Ret b.
Proof.
  intros Hwf. unfold is_sequence_ended.
  destruct (last (functions s)) as [c|] eqn:Hl; [|by exists false].
  rewrite last_lookup in Hl. destruct (wf_calls _ _ Hwf _ c Hl) as (f & Hf & _).
  destruct c as [[[] i] ps]. cbn in *. unfold vec_index. rewrite Hf. cbn. eauto.
Qed.

Lemma reset_ok : search_ok g (reset_visited (with_sequences g [])).
Proof.
  split; [by eexists _, _| |by constructor]. cbn. by rewrite length_replicate.
Qed.

Lemma reset_visited_ok : visited_ok (reset_visited (with_sequences g [])).
Proof.
  intros i. cbn. split.
  - intros [? _]%lookup_replicate. done.
  - intros (s & Hs & _). by apply not_elem_of_nil in Hs.
Qed.

(** Pushing a sequence that ends with [fi] and flagging [fi]. *)
Lemma visit_returns g' s fi (Q : ApiGraph -> Prop) :
  search_ok g g' -> wf_sequence g s -> fi < length (api_functions g) ->
  (forall g'', search_ok g g'' -> api_sequences g'' = api_sequences g' ++ [s] ->
     api_functions_visited g'' = <[fi := true]> (api_functions_visited g') -> Q g'') ->
  returns (visit_function (push_sequence g' s) fi) Q.
Proof.
  intros [Hs Hv Hw] Hwf Hfi HQ. unfold visit_function, vec_store.
  assert (fi < length (api_functions_visited (push_sequence g' s))) as Hlt.
  { cbn. by rewrite Hv. }
  rewrite decide_True by done. cbn. apply HQ; [|done|done]. split; cbn.
  - destruct Hs as (? & ? & ->). by eexists _, _.
  - by rewrite length_insert.
  - apply Forall_app. by split; [|constructor].
Qed.

Lemma visited_push g' g'' s fi :
  visited_ok g' -> fi < length (api_functions_visited g') -> last_function s = Some fi ->
  api_sequences g'' = api_sequences g' ++ [s] ->
  api_functions_visited g'' = <[fi := true]> (api_functions_visited g') ->
  visited_ok g''.
Proof.
  intros Hvis Hfi Hl Hss Hv i. rewrite Hv, Hss. setoid_rewrite elem_of_app.
  setoid_rewrite list_elem_of_singleton. destruct (decide (i = fi)) as [->|Hne].
  - rewrite list_lookup_insert_eq by done. split; [intros _; eauto|done].
  - rewrite list_lookup_insert_ne by done. rewrite (Hvis i). split.
    + intros (s' & ? & ?). eauto.
    + intros (s' & [?| ->] & Hs'); [by exists s'|]. congruence.
Qed.

Lemma satisfied_last fi s s' :
  fi < length (api_functions g) -> wf_sequence g s ->
  is_fun_satisfied g ApiType_BareFunction fi s = Ret (Some s') ->
  wf_sequence g s' /\ last_function s' = Some fi /\ len s' = S (len s).
Proof using Hdeps.
  intros [f Hf]%lookup_lt_is_Some_2 Hwf Heq.
  pose proof (is_fun_satisfied_wf g fi f s Hf Hdeps Hwf) as Hr. rewrite Heq in Hr.
  destruct Hr as (Hwf' & _ & c & Hc & Hfc). split; [done|].
  unfold last_function, len. rewrite Hc, last_snoc, length_app. cbn. rewrite Hfc.
  split; [done|lia].
Qed.

Lemma reachable_wf stop s : reachable g stop s -> wf_sequence g s.
Proof using Hdeps.
  induction 1 as [|s fi s' _ IH _ Hfi Hs']; [apply new_wf|].
  by apply (satisfied_last fi s s').
Qed.
End ok.

(** ** Loops that add sequences *)
Section grow.
Context (g : ApiGraph) (Hdeps : deps_ok g).

(** From [g'] to [g''] only sequences of [P] are added, and all of them if [complete]. *)
Record grow (P : ApiSequence -> Prop) (complete : Prop) (g' g'' : ApiGraph) : Prop := {
  gr_ok : search_ok g g'';
  gr_visited : visited_ok g'';
  gr_prefix : api_sequences g' `prefix_of` api_sequences g'';
  gr_sound : forall s, s ∈ api_sequences g'' -> s ∈ api_sequences g' \/ P s;
  gr_complete : complete -> forall s, P s -> s ∈ api_sequences g''
}.

Lemma grow_none (P : ApiSequence -> Prop) (complete : Prop) g' :
  search_ok g g' -> visited_ok g' -> (complete -> forall s, ~ P s) -> grow P complete g' g'.
Proof. intros. split; try done; [by left|]. intros Hc s Hs. by destruct (H1 Hc s). Qed.

Lemma grow_loop {A} (body : A -> ApiGraph -> outcome ApiGraph) (P : A -> ApiSequence -> Prop)
    (complete : Prop) xs g0 :
  (forall x g', x ∈ xs -> search_ok g g' -> visited_ok g' ->
     returns (body x g') (grow (P x) complete g')) ->
  search_ok g g0 -> visited_ok g0 ->
  returns (fold_loop body xs g0) (grow (fun s => exists x, x ∈ xs /\ P x s) complete g0).
Proof.
  intros Hbody Hok Hvis.
  apply (fold_loop_returns _ (fun pre => grow (fun s => exists x, x ∈ pre /\ P x s) complete g0)).
  - apply grow_none; [done..|]. intros _ s (x & ?%not_elem_of_nil & _). done.
  - intros pre x post g' Hxs [Hok' Hvis' Hpre Hsound Hcomp].
    eapply returns_mono; [apply (Hbody x g'); [set_solver|done..]|].
    intros g'' [Hok'' Hvis'' Hpre' Hsound' Hcomp']. split; [done|done|by etrans| |].
    + intros s [Hs|Hs]%Hsound'; [|set_solver].
      destruct (Hsound s Hs) as [?|(y & ? & ?)]; [by left|right; set_solver].
    + intros Hc s (y & [Hy|Hy%list_elem_of_singleton]%elem_of_app & HP).
      * apply (elem_of_prefix (api_sequences g')); [|done]. apply Hcomp; eauto.
      * subst y. by apply Hcomp'.
Qed.

Lemma extend_cases {A} g' fi s (K : option ApiSequence -> outcome A) (Q : A -> Prop) :
  search_ok g g' -> wf_sequence g s -> fi < length (api_functions g) ->
  (is_fun_satisfied g ApiType_BareFunction fi s = Ret None -> returns (K None) Q) ->
  (forall s', is_fun_satisfied g ApiType_BareFunction fi s = Ret (Some s') ->
     wf_sequence g s' -> last_function s' = Some fi -> len s' = S (len s) ->
     returns (K (Some s')) Q) ->
  returns (is_fun_satisfied g' ApiType_BareFunction fi s ≫= K) Q.
Proof using Hdeps.
  intros Hok Hwf Hfi Hnone Hsome.
  rewrite (searched_satisfied g g' (so_searched _ _ Hok)).
  pose proof Hfi as [f Hf]%lookup_lt_is_Some_2.
  pose proof (is_fun_satisfied_wf g fi f s Hf Hdeps Hwf) as Hr.
  destruct (is_fun_satisfied g ApiType_BareFunction fi s) as [[s'|]| |] eqn:Heq; try done;
    cbn [mbind outcome_bind]; [|by apply Hnone].
  destruct (satisfied_last g Hdeps fi s s' Hfi Hwf Heq) as (? & ? & ?). by apply Hsome.
Qed.

(** One extension, as all the searches make it. *)
Definition extension (fi : nat) (s s' : ApiSequence) : Prop :=
  is_fun_satisfied g ApiType_BareFunction fi s = Ret (Some s').

Lemma push_grow fi s s' g' (complete : Prop) :
  search_ok g g' -> visited_ok g' -> fi < length (api_functions g) ->
  extension fi s s' -> wf_sequence g s' -> last_function s' = Some fi ->
  returns (visit_function (push_sequence g' s') fi) (grow (extension fi s) complete g').
Proof.
  intros Hok Hvis Hfi Hext Hwf Hl. eapply visit_returns; [done..|].
  intros g'' Hok'' Hss Hv. split; [done| | | |].
  - eapply visited_push; try done. by rewrite (so_visited _ _ Hok).
  - rewrite Hss. by apply prefix_app_r.
  - intros s0. rewrite Hss. rewrite elem_of_app, list_elem_of_singleton.
    intros [?|Heq]; [by left|right]. by subst.
  - intros _ s0 Hs0. unfold extension in *. rewrite Hext in Hs0. injection Hs0 as <-.
    rewrite Hss. set_solver.
Qed.

Lemma bfs_extend_grow fast s fi g' :
  search_ok g g' -> visited_ok g' -> wf_sequence g s -> fi < length (api_functions g) ->
  returns (bfs_extend fast s fi g') (grow (extension fi s) (fast = false) g').
Proof using Hdeps.
  intros Hok Hvis Hwf Hfi. unfold bfs_extend.
  assert (Hmain : returns
    (r ← is_fun_satisfied g' ApiType_BareFunction fi s;
     match r with
     | None => mret g'
     | Some new_sequence => visit_function (push_sequence g' new_sequence) fi
     end) (grow (extension fi s) (fast = false) g')).
  { apply extend_cases; [done..| |].
    - intros Hn. apply returns_ret, grow_none; [done..|]. intros _ s' Hs'.
      unfold extension in Hs'. congruence.
    - intros s' Hs' Hwf' Hl' _. by apply (push_grow fi s s'). }
  destruct fast; [|exact Hmain].
  apply returns_bind_index; [by rewrite (so_visited _ _ Hok)|].
  intros [|] _; [|exact Hmain]. apply returns_ret, grow_none; [done..|]. intros. discriminate.
Qed.

Lemma frontier_returns stop n g' :
  search_ok g g' ->
  returns (frontier stop n g') (fun tmp => forall s, s ∈ tmp <->
    s ∈ api_sequences g' /\ len s = n /\ (stop = true -> is_sequence_ended g s = Ret false)).
Proof.
  intros [Hs _ Hw]. unfold frontier.
  eapply returns_mono.
  - apply (fold_loop_returns _ (fun pre tmp => forall s, s ∈ tmp <->
      s ∈ pre /\ len s = n /\ (stop = true -> is_sequence_ended g s = Ret false))).
    { set_solver. }
    intros pre s post tmp Hss Htmp.
    assert (Hwf : wf_sequence g s).
    { rewrite Forall_forall in Hw. apply Hw. rewrite Hss. set_solver. }
    destruct (ended_returns g s Hwf) as [b Hb].
    assert (Hcase : (if stop then is_sequence_ended g' s else mret false) =
      Ret (stop && b)).
    { destruct stop; [|done]. by rewrite (searched_ended g g' Hs). }
    rewrite Hcase. clear Hcase. cbn [mbind outcome_bind].
    destruct (stop && b) eqn:Hsb; [|destruct (Nat.eqb_spec (len s) n) as [Hl|Hl]];
      apply returns_ret; intros s0; rewrite ?elem_of_app, ?list_elem_of_singleton, Htmp.
    + apply andb_true_iff in Hsb as [-> ->]. split; [naive_solver|].
      intros ([?| ->] & ? & He); [naive_solver|]. rewrite Hb in He. by specialize (He eq_refl).
    + assert (stop = true -> is_sequence_ended g s = Ret false).
      { intros ->. cbn in Hsb. by rewrite Hb, Hsb. }
      naive_solver.
    + naive_solver.
  - done.
Qed.
End grow.

(** ** The breadth-first search *)
Section bfs.
Context (g : ApiGraph) (Hdeps : deps_ok g).

(** The graph when a search starts: the empty sequence. *)
Definition search_start : ApiGraph :=
  push_sequence (reset_visited (with_sequences g [])) ApiSequence_new.

Lemma start_ok : search_ok g search_start.
Proof.
  split; [by eexists _, _|apply (so_visited _ _ (reset_ok g))|].
  constructor; [apply new_wf|constructor].
Qed.

Lemma start_visited : visited_ok search_start.
Proof.
  intros i. rewrite (reset_visited_ok g i). cbn. setoid_rewrite list_elem_of_singleton.
  split; [intros (s & Hs & _); by apply not_elem_of_nil in Hs|by intros (s & -> & Hs)].
Qed.

(** After the rounds for the lengths below [n]. *)
Record bfs_inv (stop fast : bool) (n : nat) (g' : ApiGraph) : Prop := {
  bi_ok : search_ok g g';
  bi_visited : visited_ok g';
  bi_sound : forall s, s ∈ api_sequences g' -> reachable g stop s /\ len s <= n;
  bi_complete : fast = false -> forall s, reachable g stop s -> len s <= n ->
    s ∈ api_sequences g'
}.

Lemma reachable_len_0 stop s : reachable g stop s -> len s = 0 -> s = ApiSequence_new.
Proof using Hdeps.
  destruct 1 as [|s fi s' Hs _ Hfi Hs']; [done|].
  destruct (satisfied_last g Hdeps fi s s' Hfi) as (_ & _ & Hl);
    [by eapply reachable_wf|done|]. lia.
Qed.

Lemma bfs_start stop fast : bfs_inv stop fast 0 search_start.
Proof using Hdeps.
  split; [apply start_ok|apply start_visited| |].
  - intros s Hs. apply list_elem_of_singleton in Hs as ->. by split; [constructor|].
  - intros _ s Hs Hl. apply list_elem_of_singleton, (reachable_len_0 stop); [done|lia].
Qed.

Lemma bfs_round_inv stop fast n g' :
  bfs_inv stop fast n g' ->
  returns (bfs_round stop fast (length (api_functions g)) n g') (fun g'' =>
    bfs_inv stop fast (S n) g'' /\ api_sequences g' `prefix_of` api_sequences g'').
Proof using Hdeps.
  intros [Hok Hvis Hsound Hcomp]. unfold bfs_round.
  eapply returns_bind; [by apply frontier_returns|]. intros tmp Htmp. cbn beta in Htmp.
  eapply returns_mono.
  { apply (grow_loop g Hdeps _ (fun s s' => exists fi, fi ∈ seq 0 (length (api_functions g)) /\
      extension g fi s s') (fast = false) tmp g'); [|done..].
    intros s g1 Hin Hok1 Hvis1. apply (grow_loop g Hdeps); [|done..].
    intros fi g2 Hfi Hok2 Hvis2. apply elem_of_seq in Hfi. apply Htmp in Hin as (Hin & _).
    apply bfs_extend_grow; [done..| |lia].
    apply (reachable_wf g Hdeps stop). by apply Hsound. }
  intros g'' [Hok'' Hvis'' Hpre Hsound' Hcomp']. split; [|exact Hpre]. split; [done|done| |].
  - intros s' [Hs|(s & (Hin & Hl & Hend)%Htmp & fi & Hfi%elem_of_seq & Hext)]%Hsound'.
    { destruct (Hsound s' Hs). split; [done|lia]. }
    destruct (Hsound s Hin) as [Hr _]. split; [apply (reachable_extend g stop s fi); [done..|lia|done]|].
    destruct (satisfied_last g Hdeps fi s s') as (_ & _ & ->); [lia| |done|lia].
    by eapply reachable_wf.
  - intros Hfast s' Hr' Hl'. destruct Hr' as [|s fi s' Hr Hend Hfi Hext].
    { apply (elem_of_prefix (api_sequences g')); [|done]. apply Hcomp; [done|constructor|cbn; lia]. }
    pose proof (reachable_wf g Hdeps stop s Hr) as Hwf.
    destruct (satisfied_last g Hdeps fi s s' Hfi Hwf Hext) as (_ & _ & Hlen).
    destruct (decide (len s = n)) as [Hn|Hn].
    + apply Hcomp'; [done|]. exists s. split; [|exists fi; split; [apply elem_of_seq; lia|done]].
      apply Htmp. split_and!; [|done|done]. apply Hcomp; [done|done|lia].
    + apply (elem_of_prefix (api_sequences g')); [|done]. apply Hcomp; [done| |lia].
      by apply (reachable_extend g stop s fi).
Qed.

Lemma bfs_loop_inv stop fast max_len :
  returns (fold_loop (bfs_round stop fast (length (api_functions g))) (seq 0 max_len)
             search_start) (bfs_inv stop fast max_len).
Proof using Hdeps.
  induction max_len as [|n IH]; [apply returns_ret, bfs_start|].
  rewrite seq_S, fold_loop_app. eapply returns_bind; [exact IH|].
  intros g' Hg'. cbn [fold_loop]. eapply returns_bind; [by apply bfs_round_inv|].
  intros g'' [Hg'' _]. by apply returns_ret.
Qed.

Lemma bfs_returns fast max_len :
  0 < max_len -> returns (bfs max_len true fast g) (bfs_inv true fast max_len).
Proof using Hdeps.
  intros Hlen. unfold bfs. cbn zeta. rewrite (proj2 (Nat.ltb_ge _ _)) by lia.
  eapply returns_bind; [apply bfs_loop_inv|]. intros g' Hg'. by apply returns_ret.
Qed.
End bfs.

(** ** The deep breadth-first search: a breadth-first search that chooses its depth *)
Section deep.
Context `{HashOrder} (g : ApiGraph) (Hdeps : deps_ok g).

Lemma deep_extend_graph s fi st :
  deep_graph <$> deep_extend s fi st = bfs_extend false s fi (deep_graph st).
Proof.
  unfold deep_extend, bfs_extend. cbn [mbind outcome_bind mret outcome_ret].
  destruct (is_fun_satisfied _ _ _ _) as [[s'|]| |]; cbn [mbind outcome_bind]; try done.
  destruct (cover_all _ _) as [nodes flag]. destruct (cover_all _ _) as [edges flag'].
  by destruct (visit_function _ _).
Qed.

(** The first [n] rounds of the breadth-first search. *)
Definition rounds (n : nat) : outcome ApiGraph :=
  fold_loop (bfs_round true false (length (api_functions g))) (seq 0 n) (search_start g).

Lemma rounds_S n g' :
  rounds n = Ret g' ->
  rounds (S n) = bfs_round true false (length (api_functions g)) n g'.
Proof.
  unfold rounds. intros Hg'. rewrite seq_S, fold_loop_app, Hg'. cbn [fold_loop mbind outcome_bind].
  by destruct (bfs_round _ _ _ _ _).
Qed.

Lemma rounds_inv n : returns (rounds n) (bfs_inv g true false n).
Proof using Hdeps. by apply bfs_loop_inv. Qed.

(** The search gave up: the budget is used. *)
Definition budget_used (max_sequence_number n : nat) (g' : ApiGraph) : Prop :=
  2 < n /\ max_sequence_number <= length (api_sequences g') * _visited_nodes_num g'.

Lemma deep_round_returns max_sequence_number n st :
  rounds n = Ret (deep_graph st) ->
  returns (deep_round max_sequence_number (length (api_functions g)) n st) (fun f =>
    match f with
    | Next st' => rounds (S n) = Ret (deep_graph st')
    | Break st' => (deep_graph st' = deep_graph st /\ budget_used max_sequence_number n (deep_graph st)) \/
                   rounds (S n) = Ret (deep_graph st')
    | Return _ => False
    end).
Proof using Hdeps.
  intros Hst. pose proof (rounds_inv (S n)) as Hr. rewrite (rounds_S n _ Hst) in *.
  unfold deep_round, bfs_round in *. cbn zeta.
  destruct ((2 <? n) && _) eqn:Hbreak.
  { left. apply andb_true_iff in Hbreak as [Hn Hmax].
    apply Nat.ltb_lt in Hn. apply Nat.leb_le in Hmax. done. }
  destruct (frontier true n (deep_graph st)) as [tmp| |]; cbn [mbind outcome_bind] in *; try done.
  set (st0 := mk_deep _ _ _ _).
  pose proof (fold_loop_fmap deep_graph
    (fun s st => fold_loop (deep_extend s) (seq 0 (length (api_functions g))) st)
    (fun s g0 => fold_loop (bfs_extend false s) (seq 0 (length (api_functions g))) g0)
    tmp st0) as Hsim.
  cbn [deep_graph st0] in Hsim. rewrite <- Hsim in *; clear Hsim.
  2,3: intros s st1; apply fold_loop_fmap; intros fi st2; apply deep_extend_graph.
  destruct (fold_loop _ tmp st0) as [st1| |]; cbn [fmap outcome_fmap] in *; try done.
  cbn [mbind outcome_bind]. destruct (negb _); [by right|done].
Qed.

Lemma deep_loop_returns max_sequence_number len n st :
  rounds n = Ret (deep_graph st) ->
  returns (run_loop (deep_round max_sequence_number (length (api_functions g))) (seq n len) st)
    (fun st' => exists m, n <= m <= n + len /\ (0 < len -> 2 < n \/ n < m) /\
       rounds m = Ret (deep_graph st')).
Proof using Hdeps.
  unfold run_loop. intros Hst. apply (returns_bind _ _ (fun r => match r with
    | inl st' => exists m, n <= m <= n + len /\ (0 < len -> 2 < n \/ n < m) /\
       rounds m = Ret (deep_graph st') | inr _ => False end)).
  2:{ intros [st'|e]; [|done]. intros Hr. by apply returns_ret. }
  revert n st Hst. induction len as [|len IH]; intros n st Hst; cbn [seq for_loop].
  { exists n. split_and!; [lia..|done]. }
  eapply returns_bind; [by apply deep_round_returns|].
  intros [st'|st'|e] Hf; [|destruct Hf as [[Heq [Hn _]]|Hf]|done].
  - eapply returns_mono; [by apply (IH (S n))|]. intros [st''|e]; [|done].
    intros (m & Hm & _ & Hr). exists m. split_and!; [lia..|done].
  - exists n. rewrite Heq. split_and!; [lia..|done].
  - exists (S n). split_and!; [lia..|done].
Qed.
End deep.

(** ** The random walk *)
Section random.
Context (g : ApiGraph) (Hdeps : deps_ok g).
Context (rng : nat -> nat -> nat -> nat).
Context (Hrng : forall k low high, low < high -> low <= rng k low high < high).

Lemma gen_range_returns {A} k n (K : nat -> outcome A) (Q : A -> Prop) :
  0 < n -> (forall i, i < n -> returns (K i) Q) -> returns (gen_range rng k 0 n ≫= K) Q.
Proof using Hrng.
  intros Hn HQ. unfold gen_range. rewrite (proj2 (Nat.ltb_lt _ _)) by done.
  apply HQ, (Hrng k 0 n Hn).
Qed.

(** After [i] steps. *)
Record walk_inv (stop : bool) (max_depth i : nat) (g' : ApiGraph) : Prop := {
  wi_ok : search_ok g g';
  wi_visited : visited_ok g';
  wi_sound : forall s, s ∈ api_sequences g' ->
    reachable g stop s /\ (0 < max_depth -> len s <= max_depth);
  wi_number : 0 < length (api_sequences g') <= S i
}.

Lemma walk_step_returns stop max_depth i st :
  walk_inv stop max_depth i st.1 -> 0 < length (api_functions g) ->
  returns (walk_step rng stop max_depth (length (api_functions g)) i st)
    (fun st' => walk_inv stop max_depth (S i) st'.1).
Proof using Hdeps Hrng.
  destruct st as [g' k]. intros [Hok Hvis Hsound Hnum] Hfun.
  cbn [fst] in *. unfold walk_step.
  assert (Hsame : walk_inv stop max_depth (S i) g') by (split; auto; lia).
  apply gen_range_returns; [lia|]. intros ci Hci. apply returns_bind_index; [done|].
  intros s Hs%list_elem_of_lookup_2. destruct (Hsound s Hs) as [Hr Hl].
  pose proof (reachable_wf g Hdeps stop s Hr) as Hwf.
  destruct (ended_returns g s Hwf) as [b Hb].
  assert (Hend : (if stop then is_sequence_ended g' s else mret false) = Ret (stop && b)).
  { destruct stop; [|done]. by rewrite (searched_ended g g' (so_searched _ _ Hok)). }
  rewrite Hend. cbn [mbind outcome_bind]. destruct (stop && b) eqn:Hsb; [by apply returns_ret|].
  destruct ((0 <? max_depth) && (max_depth <=? len s)) eqn:Hd; [by apply returns_ret|].
  apply gen_range_returns; [done|]. intros fi Hfi.
  apply (extend_cases g Hdeps); [done..| |].
  - intros _. by apply returns_ret.
  - intros s' Hs' Hwf' Hlast Hlen.
    apply (returns_bind _ _ (walk_inv stop max_depth (S i)));
      [|intros g'' Hg''; by apply returns_ret].
    eapply visit_returns; [done..|].
    intros g'' Hok'' Hss Hv. split; [done| | |].
    + eapply visited_push; try done. by rewrite (so_visited _ _ Hok).
    + intros s0. rewrite Hss, elem_of_app, list_elem_of_singleton.
      intros [?| ->]; [by apply Hsound|]. split.
      * apply (reachable_extend g stop s fi); [done| |done|done].
        intros ->. cbn in Hsb. by rewrite Hb, Hsb.
      * intros Hpos. rewrite Hlen. apply andb_false_iff in Hd as [Hd|Hd].
        { apply Nat.ltb_ge in Hd. lia. }
        { apply Nat.leb_gt in Hd. lia. }
    + rewrite Hss, length_app. cbn. lia.
Qed.

Lemma random_walk_returns max_size stop max_depth :
  0 < length (api_functions g) ->
  returns (random_walk rng max_size stop max_depth g) (walk_inv stop max_depth max_size).
Proof using Hdeps Hrng.
  intros Hfun. unfold random_walk. cbn zeta. rewrite (proj2 (Nat.leb_gt _ _)) by done.
  apply (returns_bind _ _ (fun st => walk_inv stop max_depth max_size st.1));
    [|intros st Hst; by apply returns_ret].
  eapply returns_mono.
  - apply (fold_loop_returns _ (fun pre st => walk_inv stop max_depth (length pre) st.1)).
    + split; [apply start_ok|apply start_visited| |cbn; lia].
      intros s Hs. apply list_elem_of_singleton in Hs as ->. split; [constructor|cbn; lia].
    + intros pre i post st Hseq Hst.
      assert (seq 0 max_size !! length pre = Some i) as Hi
        by (rewrite Hseq; by apply list_lookup_middle).
      apply lookup_seq in Hi as [Hi _]. cbn in Hi. subst i.
      rewrite length_app, Nat.add_1_r. by apply walk_step_returns.
  - intros st. by rewrite length_seq.
Qed.
End random.

(** ** The number of sequences of the breadth-first search *)
Section number.
Context (g : ApiGraph) (Hdeps : deps_ok g).

Definition count (n : nat) (ss : list ApiSequence) : nat :=
  sum_list_with (fun s => if len s =? n then 1 else 0) ss.

Lemma count_le n ss : count n ss <= length ss.
Proof. induction ss as [|s ss IH]; cbn; [lia|]. unfold count in IH. case_match; lia. Qed.

Lemma count_none n ss : (forall s, s ∈ ss -> len s < n) -> count n ss = 0.
Proof.
  intros Hall. induction ss as [|s ss IH]; [done|]. cbn.
  rewrite (proj2 (Nat.eqb_neq _ _)) by (specialize (Hall s); set_solver by lia).
  apply IH. set_solver.
Qed.

Lemma bfs_extend_length fast s fi g1 g2 :
  bfs_extend fast s fi g1 = Ret g2 ->
  length (api_sequences g2) <= length (api_sequences g1) + 1.
Proof.
  unfold bfs_extend. destruct (if fast then _ else _) as [[|]| |]; cbn [mbind outcome_bind];
    try done; [intros [= <-]; lia|].
  destruct (is_fun_satisfied _ _ _ _) as [[s'|]| |]; cbn [mbind outcome_bind]; try done;
    [|intros [= <-]; lia].
  unfold visit_function. destruct (vec_store _ _ _); cbn [mbind outcome_bind]; try done.
  intros [= <-]. cbn. rewrite length_app. cbn. lia.
Qed.

Lemma frontier_length stop n g' tmp :
  frontier stop n g' = Ret tmp -> length tmp <= count n (api_sequences g').
Proof.
  intros Ht. apply (fold_loop_measure length (fun s => if len s =? n then 1 else 0)) in Ht;
    [exact Ht|].
  intros s acc acc'. destruct (if stop then _ else _) as [b| |]; cbn [mbind outcome_bind]; try done.
  destruct b, (len s =? n); intros [= <-]; rewrite ?length_app; cbn; lia.
Qed.

Lemma bfs_round_length stop fast N n g1 g2 :
  bfs_round stop fast N n g1 = Ret g2 ->
  length (api_sequences g2) <= length (api_sequences g1) + count n (api_sequences g1) * N.
Proof.
  unfold bfs_round. destruct (frontier stop n g1) as [tmp| |] eqn:Ht;
    cbn [mbind outcome_bind]; try done.
  apply frontier_length in Ht. intros Hl.
  apply (fold_loop_measure (fun g => length (api_sequences g)) (fun _ => N)) in Hl.
  - rewrite sum_list_with_const in Hl. pose proof (Nat.mul_le_mono_r _ _ N Ht). lia.
  - intros s g3 g4 H3.
    apply (fold_loop_measure (fun g => length (api_sequences g)) (fun _ => 1)) in H3.
    + rewrite sum_list_with_const, length_seq in H3. lia.
    + intros. by eapply bfs_extend_length.
Qed.

(** The number of sequences of length at most [n] over [N] functions. *)
Fixpoint sequences_bound (N n : nat) : nat :=
  match n with O => 1 | S k => sequences_bound N k + N ^ S k end.

Lemma bfs_number stop fast n g' :
  fold_loop (bfs_round stop fast (length (api_functions g))) (seq 0 n) (search_start g) = Ret g' ->
  length (api_sequences g') <= sequences_bound (length (api_functions g)) n /\
  count n (api_sequences g') <= length (api_functions g) ^ n.
Proof using Hdeps.
  set (N := length (api_functions g)). revert g'. induction n as [|n IH]; intros g'.
  { intros [= <-]. cbn. lia. }
  rewrite seq_S, fold_loop_app. pose proof (bfs_loop_inv g Hdeps stop fast n) as Hinv.
  fold N in Hinv. destruct (fold_loop _ (seq 0 n) _) as [g1| |];
    cbn [mbind outcome_bind fold_loop Nat.add]; try done.
  destruct (IH g1 eq_refl) as [Hl Hc]. destruct (bfs_round _ _ _ n g1) as [g2| |] eqn:H2;
    cbn [mbind outcome_bind]; try done. intros [= <-].
  pose proof (bfs_round_length _ _ _ _ _ _ H2) as Hgrow.
  pose proof (bfs_round_inv g Hdeps stop fast n g1 Hinv) as Hinv2. fold N in Hinv2.
  rewrite H2 in Hinv2. cbn [returns] in Hinv2.
  assert (Hmul : count n (api_sequences g1) * N <= N ^ S n).
  { rewrite Nat.pow_succ_r', Nat.mul_comm. by apply Nat.mul_le_mono_l. }
  split; [cbn [sequences_bound]; lia|].
  destruct Hinv2 as [_ [ext Hext]]. rewrite Hext, length_app in Hgrow.
  rewrite Hext. unfold count. rewrite sum_list_with_app.
  change (sum_list_with _ (api_sequences g1)) with (count (S n) (api_sequences g1)).
  change (sum_list_with _ ext) with (count (S n) ext).
  rewrite count_none.
  - pose proof (count_le (S n) ext). lia.
  - intros s Hs. apply (bi_sound _ _ _ _ _ Hinv) in Hs as [_ Hs]. lia.
Qed.
End number.

(** ** Properties *)

(** C5: on a graph whose dependencies are those of [_same_type] and with a positive
    [max_len] the breadth-first search that stops at end functions returns, and the graph it
    leaves is the old one but for the sequences and the visited flags. Every sequence is
    well formed, built by extensions from the empty sequence without extending an ended
    one, and of length at most [max_len]; a function is flagged as visited exactly when a
    sequence ends with it; and unless the fast mode is on, which skips functions already visited,
    every such sequence of length at most [max_len] is found. *)
Theorem breadth_first_search_finds_the_reachable_sequences (g : ApiGraph) (max_len : nat)
    (fast : bool) (Hdeps : deps_ok g) (Hlen : 0 < max_len) :
  returns (bfs max_len true fast g) (fun g' =>
    search_ok g g' /\ visited_ok g' /\
    (forall s, s ∈ api_sequences g' -> reachable g true s /\ len s <= max_len) /\
    (fast = false -> forall s, reachable g true s -> len s <= max_len ->
       s ∈ api_sequences g')).
Proof.
  eapply returns_mono; [by apply bfs_returns|]. intros g' [Hok Hvis Hsound Hcomp]. done.
Qed.

Lemma sample_reachable s fi s' :
  reachable sample_graph true s -> is_sequence_ended sample_graph s = Ret false ->
  fi < length (api_functions sample_graph) ->
  is_fun_satisfied sample_graph ApiType_BareFunction fi s = Ret (Some s') ->
  reachable sample_graph true s'.
Proof. intros Hs He Hfi Hs'. by apply (reachable_extend sample_graph true s fi). Qed.

Lemma sample_set_reachable : reachable sample_graph true sample_set.
Proof.
  apply (sample_reachable sample_new 2); [|by vm_compute|vm_compute; lia|by vm_compute].
  apply (sample_reachable ApiSequence_new 0);
    [constructor|by vm_compute|vm_compute; lia|by vm_compute].
Qed.

Lemma breadth_first_search_finds_the_reachable_sequences_witness :
  returns (bfs 2 true false sample_graph) (fun g' =>
    sample_set ∈ api_sequences g' /\ api_functions_visited g' !! 2 = Some true).
Proof.
  pose proof (breadth_first_search_finds_the_reachable_sequences sample_graph 2 false
    sample_deps_ok ltac:(lia)) as Hr.
  apply (returns_mono _ _ _ Hr). intros g' (_ & Hvis & _ & Hall).
  assert (Hin : sample_set ∈ api_sequences g').
  { apply Hall; [done|apply sample_set_reachable|vm_compute; lia]. }
  split; [exact Hin|]. apply Hvis. exists sample_set. split; [exact Hin|by vm_compute].
Defined.

(** The deep search never panics, and its result is that of the breadth-first search
    for some length: at least 1, and at most the number of functions. *)
Lemma deep_search_is_a_breadth_first_search `{HashOrder} (g : ApiGraph)
    (max_sequence_number : nat) (Hdeps : deps_ok g) (Hfun : 0 < length (api_functions g)) :
  returns (_try_deep_bfs max_sequence_number g) (fun g' =>
    exists m, 0 < m <= length (api_functions g) /\ bfs m true false g = Ret g').
Proof.
  unfold _try_deep_bfs. cbn zeta. rewrite (proj2 (Nat.ltb_ge _ _)) by (cbn; lia).
  eapply returns_bind; [by apply (deep_loop_returns g Hdeps max_sequence_number _ 0)|].
  intros st (m & Hm & Hpos & Hr). apply returns_ret. exists m. cbn in Hm, Hpos.
  specialize (Hpos Hfun). split; [lia|]. unfold bfs. cbn zeta.
  rewrite (proj2 (Nat.ltb_ge _ _)) by lia. unfold rounds, search_start in Hr. cbn in Hr |- *.
  by rewrite Hr.
Qed.

Lemma deep_search_is_a_breadth_first_search_witness :
  exists m, 0 < m <= 4 /\
    bfs m true false sample_graph = _try_deep_bfs (H := canonical_order) 2 sample_graph.
Proof.
  pose proof (deep_search_is_a_breadth_first_search (H := canonical_order) sample_graph 2
    sample_deps_ok ltac:(vm_compute; lia)) as Hr.
  destruct (_try_deep_bfs 2 sample_graph) as [g'| |]; [|destruct Hr|destruct Hr].
  destruct Hr as (m & Hm & Heq). exists m. split; [exact Hm|exact Heq].
Defined.

(** C37: for every source of random numbers that stays in the ranges asked, the random walk
    never panics; its sequences are well formed and built by extensions, of length at
    most [max_depth] when a depth is given, and at most one per step besides the empty
    one. *)
Theorem random_walk_builds_reachable_sequences (g : ApiGraph)
    (rng : nat -> nat -> nat -> nat) (max_size max_depth : nat) (stop : bool)
    (Hrng : forall k low high, low < high -> low <= rng k low high < high)
    (Hdeps : deps_ok g) (Hfun : 0 < length (api_functions g)) :
  returns (random_walk rng max_size stop max_depth g) (fun g' =>
    search_ok g g' /\ visited_ok g' /\
    (forall s, s ∈ api_sequences g' ->
       reachable g stop s /\ (0 < max_depth -> len s <= max_depth)) /\
    length (api_sequences g') <= S max_size).
Proof.
  eapply returns_mono; [by apply random_walk_returns|].
  intros g' [Hok Hvis Hsound [_ Hnum]]. done.
Qed.

Lemma random_walk_builds_reachable_sequences_witness :
  returns (random_walk (fun _ low _ => low) 5 true 3 sample_graph)
    (fun g' => length (api_sequences g') <= 6).
Proof.
  pose proof (random_walk_builds_reachable_sequences sample_graph (fun _ low _ => low) 5 3 true
    ltac:(lia) sample_deps_ok ltac:(vm_compute; lia)) as Hr.
  apply (returns_mono _ _ _ Hr). intros g' (_ & _ & _ & Hn). exact Hn.
Defined.

(** With [stop_at_end_function = false] (the algorithms [_Bfs] and [_FastBfs]) the
    breadth-first search does not return: after the search it leaves the process with
    status 0, and no target is emitted. *)
Lemma search_without_end_functions_leaves_the_process (g : ApiGraph) (max_len : nat)
    (fast : bool) (Hdeps : deps_ok g) (Hlen : 0 < max_len) :
  bfs max_len false fast g = Exited 0.
Proof.
  pose proof (bfs_loop_inv g Hdeps false fast max_len) as Hr.
  unfold bfs. cbn zeta. rewrite (proj2 (Nat.ltb_ge _ _)) by lia.
  unfold search_start in Hr. cbn [api_functions reset_visited with_visited with_sequences] in *.
  destruct (fold_loop _ _ _); done.
Qed.

Lemma search_without_end_functions_leaves_the_process_witness :
  bfs 3 false false sample_graph = Exited 0.
Proof.
  exact (search_without_end_functions_leaves_the_process sample_graph 3 false sample_deps_ok
    ltac:(lia)).
Defined.
