(* ===== verification/BackwardSearch.v ===== *)
(** The backward search: it keeps the contract of a search, and it stops only when no
    unvisited function can be reached by merging the sequences found. *)

From S2P Require Import Prelude RustStd CleanTypes CallTypes PreludeTypes.
From S2P Require Import FuzzableTypes ApiUtil ModVisibility ApiFunction ApiSequence.
From S2P Require Import ApiGraph Samples SequenceWf Satisfy Merge DeadCode ApiSearch.
From S2P Require Import SearchCorrect.

(** ** Specification *)

(** A sequence may be merged: it is not ended, and every result but the last one is
    needed. *)
Definition mergeable (g : ApiGraph) (s : ApiSequence) : Prop :=
  is_sequence_ended g s = Ret false /\ 0 < len s /\ forall k, S k < len s -> needed g s k.

(** The result of the last call of [s] fits the parameter [i] of the function [node]. *)
Definition feeds (g : ApiGraph) (node i : nat) (s : ApiSequence) : Prop :=
  exists lf, last_function s = Some lf /\
    check_dependency g ApiType_BareFunction lf ApiType_BareFunction node i <> None.

(** The parameters that need a dependency. *)
Definition needs_dependency (g : ApiGraph) (tys : list Type_) (i : nat) : bool :=
  match tys !! i with
  | Some ty => negb (is_fuzzable_type ty (full_name_map g))
  | None => false
  end.
Definition dependent_params (g : ApiGraph) (tys : list Type_) (n : nat) : list nat :=
  List.filter (needs_dependency g tys) (seq 0 n).

(** Why a function stays unvisited: a parameter that no sequence feeds, or sequences that
    feed all of them, whose merge the extension refuses. *)
Inductive blocked (g g' : ApiGraph) (node : nat) : Prop :=
| blocked_param f i :
    api_functions g !! node = Some f -> i < length (inputs f) ->
    needs_dependency g (inputs f) i = true ->
    (forall s, s ∈ api_sequences g' -> mergeable g s -> ~ feeds g node i s) ->
    blocked g g' node
| blocked_merge f ss merged :
    api_functions g !! node = Some f ->
    Forall2 (fun s i => s ∈ api_sequences g' /\ mergeable g s /\ feeds g node i s) ss
      (dependent_params g (inputs f) (length (inputs f))) ->
    _merge_sequences ss = Ret merged ->
    is_fun_satisfied g ApiType_BareFunction node merged = Ret None ->
    blocked g g' node.

(** ** The candidates *)
Section backward.
Context `{HashOrder} (g : ApiGraph) (Hdeps : deps_ok g).

Lemma dead_code_flag_returns dead n :
  n <= length dead ->
  returns (dead_code_flag dead n)
    (fun flag => flag = false <-> forall k, S k < n -> dead !! k = Some false).
Proof.
  intros Hn. unfold dead_code_flag.
  apply (run_loop_returns _ (fun pre flag => flag = false /\
    forall k, k ∈ pre -> dead !! k = Some false)).
  - split; [done|]. intros k ?%not_elem_of_nil. done.
  - intros pre j post flag Hseq [-> Hpre].
    assert (Hj : j < n - 1).
    { assert (j ∈ seq 0 (n - 1)) as Hin by (rewrite Hseq; set_solver).
      apply elem_of_seq in Hin. lia. }
    apply returns_bind_index; [lia|]. intros [|] Hd; apply returns_ret.
    + split; [done|]. intros Hall. specialize (Hall j ltac:(lia)). congruence.
    + split; [done|]. intros k. rewrite elem_of_app, list_elem_of_singleton.
      intros [?| ->]; auto.
  - intros flag [-> Hall]. split; [|done]. intros _ k Hk. apply Hall, elem_of_seq. lia.
Qed.

Definition candidates_ok (g' : ApiGraph) (cs : list nat) : Prop :=
  forall i, i ∈ cs <-> exists s, api_sequences g' !! i = Some s /\ mergeable g s.

Lemma candidates_returns g' :
  search_ok g g' ->
  returns (_choose_candidate_sequence_for_merge g') (candidates_ok g').
Proof.
  intros [Hs _ Hw]. unfold _choose_candidate_sequence_for_merge.
  eapply returns_mono.
  - apply (fold_loop_returns _ (fun pre cs => forall i, i ∈ cs <->
      i ∈ pre /\ exists s, api_sequences g' !! i = Some s /\ mergeable g s)).
    { set_solver. }
    intros pre i post cs Hseq Hcs.
    assert (Hi : i < length (api_sequences g')).
    { assert (i ∈ seq 0 (length (api_sequences g'))) as Hin by (rewrite Hseq; set_solver).
      apply elem_of_seq in Hin. lia. }
    apply returns_bind_index; [done|]. intros s Hlook.
    assert (Hwf : wf_sequence g s).
    { rewrite Forall_lookup in Hw. by apply (Hw i). }
    rewrite (searched_dead g g' Hs), (searched_ended g g' Hs).
    eapply returns_bind; [by apply dead_code_returns|]. intros dead [Hlen Hdead].
    destruct (ended_returns g s Hwf) as [ended Hended]. rewrite Hended. cbn [mbind outcome_bind].
    assert (Hadd : forall b : bool, (b = true <-> mergeable g s) ->
      forall j, j ∈ (if b then cs ++ [i] else cs) <->
        j ∈ pre ++ [i] /\ exists s, api_sequences g' !! j = Some s /\ mergeable g s).
    { intros b Hb j. rewrite elem_of_app, list_elem_of_singleton.
      assert (j = i -> (exists s, api_sequences g' !! j = Some s /\ mergeable g s) <->
        mergeable g s) as Hji.
      { intros ->. split; [intros (s0 & Hs0 & ?)|by exists s]. rewrite Hlook in Hs0.
        by injection Hs0 as <-. }
      destruct b; rewrite ?elem_of_app, ?list_elem_of_singleton, Hcs; naive_solver. }
    unfold mergeable in Hadd. rewrite Hended in Hadd.
    destruct ended; [apply returns_ret, (Hadd false); naive_solver|].
    destruct (Nat.leb_spec (len s) 0) as [H0|H0];
      [apply returns_ret, (Hadd false); split; [done|intros (_ & ? & _); lia]|].
    destruct (Nat.eqb_spec (len s) 1) as [H1|H1];
      [apply returns_ret, (Hadd true); split; [|done]; intros _; split_and!; [done..|intros; lia]|].
    eapply returns_bind; [apply dead_code_flag_returns; lia|]. intros flag Hflag.
    cbn beta in Hflag.
    assert (Hm : negb flag = true <->
      Ret false = Ret false /\ 0 < len s /\ (forall k, S k < len s -> needed g s k)).
    { rewrite negb_true_iff, Hflag. split.
      - intros Hall. split_and!; [done..|]. intros k Hk. apply Hdead; [lia|auto].
      - intros (_ & _ & Hall) k Hk. apply Hdead; [lia|auto]. }
    specialize (Hadd (negb flag) Hm). by destruct (negb flag); apply returns_ret.
  - intros cs Hcs i. cbn beta in Hcs. rewrite Hcs. split; [naive_solver|]. intros (s & Hs' & Hm).
    split; [|eauto]. apply elem_of_seq. apply lookup_lt_Some in Hs'. lia.
Qed.

(** ** One unvisited function *)
Section node.
Context (g' : ApiGraph) (cs : list nat) (node : nat).
Context (Hok : search_ok g g').
Context (Hcs : forall ci, ci ∈ cs -> exists s, api_sequences g' !! ci = Some s /\ mergeable g s).
Context (Hsmall : (Z.of_nat (length (api_sequences g')) <= 2 ^ 31)%Z).

Lemma mergeable_last s : mergeable g s -> exists c, last (functions s) = Some c.
Proof.
  intros (_ & Hlen & _). unfold len in Hlen.
  destruct (last (functions s)) as [c|] eqn:Hl; [eauto|].
  apply last_None in Hl. rewrite Hl in Hlen. cbn in Hlen. lia.
Qed.

Lemma last_index_returns {A} s (K : nat -> outcome A) (Q : A -> Prop) :
  mergeable g s ->
  (forall lf, last_function s = Some lf -> returns (K lf) Q) ->
  returns (last_index ← _last_api_func_index s;
           output_index ← unwrap last_index; K output_index) Q.
Proof.
  intros Hm HQ. destruct (mergeable_last s Hm) as [c Hc].
  apply (returns_bind _ _ (fun o => o = last_function s)).
  - apply last_api_func_returns.
    + intros c' Hc'. unfold last_function. by rewrite Hc'.
    + intros Hnil. by rewrite Hnil in Hc.
  - intros o ->. unfold last_function in *. rewrite Hc in *. cbn. by apply HQ.
Qed.

Lemma find_candidate_returns p :
  returns (find_candidate g' cs node p) (fun r : bool * Z =>
    if r.1 then exists ci s, ci ∈ cs /\ api_sequences g' !! ci = Some s /\
                  feeds g node p s /\ r.2 = as_i32 (Z.of_nat ci)
    else forall ci s, ci ∈ cs -> api_sequences g' !! ci = Some s -> ~ feeds g node p s).
Proof using Hok Hcs Hsmall Hdeps.
  unfold find_candidate.
  set (Found := fun (r : bool * Z) => exists ci s, ci ∈ cs /\ api_sequences g' !! ci = Some s /\
    feeds g node p s /\ r.2 = as_i32 (Z.of_nat ci)).
  apply (run_loop_returns _ (fun pre (r : bool * Z) => if r.1 then Found r
    else forall ci s, ci ∈ pre -> api_sequences g' !! ci = Some s -> ~ feeds g node p s)).
  - intros ci s ?%not_elem_of_nil. done.
  - intros pre ci post [flag tmp] Hseq Hinv. cbn [fst snd] in Hinv.
    assert (Hci : ci ∈ cs) by (rewrite Hseq; set_solver).
    destruct (Hcs ci Hci) as (s & Hs & Hm). unfold vec_index. rewrite Hs.
    cbn [unwrap mbind outcome_bind]. apply last_index_returns; [done|]. intros lf Hlf.
    rewrite (searched_check g g' (so_searched _ _ Hok)).
    destruct (check_dependency g ApiType_BareFunction lf ApiType_BareFunction node p)
      as [d|] eqn:Hd.
    + assert (HF : Found (true, as_i32 (Z.of_nat ci))).
      { exists ci, s. split_and!; [done..| |done]. exists lf. by rewrite Hd. }
      destruct (negb _); by apply returns_ret.
    + apply returns_ret. cbn [fst]. destruct flag; [exact Hinv|].
      intros ci' s' [Hin| ->%list_elem_of_singleton]%elem_of_app Hs' Hf; [by eapply Hinv|].
      rewrite Hs in Hs'. injection Hs' as <-. destruct Hf as (lf' & Hlf' & Hne). congruence.
  - intros [flag tmp] Hr. exact Hr.
Qed.

Definition feeder (ix p : nat) : Prop :=
  exists s, api_sequences g' !! ix = Some s /\ mergeable g s /\ feeds g node p s.

Lemma dependent_params_S tys n :
  dependent_params g tys (S n) =
  dependent_params g tys n ++ (if needs_dependency g tys n then [n] else []).
Proof. unfold dependent_params. rewrite seq_S, List.filter_app. cbn. by destruct (needs_dependency _ _ _). Qed.

Lemma find_dependents_returns tys :
  returns (find_dependents g' cs node tys) (fun r : list nat * bool =>
    if r.2 then Forall2 feeder r.1 (dependent_params g tys (length tys))
    else exists p, p < length tys /\ needs_dependency g tys p = true /\
      forall ci s, ci ∈ cs -> api_sequences g' !! ci = Some s -> ~ feeds g node p s).
Proof using Hok Hcs Hsmall Hdeps.
  unfold find_dependents. set (Blocked := exists p, p < length tys /\ _).
  eapply returns_mono.
  - apply (fold_loop_returns _ (fun pre (r : list nat * bool) =>
      if r.2 then Forall2 feeder r.1 (dependent_params g tys (length pre)) else Blocked)).
    { constructor. }
    intros pre p post [idx flag] Hseq Hinv. cbn [fst snd] in Hinv.
    assert (seq 0 (length tys) !! length pre = Some p) as Hp
      by (rewrite Hseq; by apply list_lookup_middle).
    apply lookup_seq in Hp as [Hp Hlt]. cbn in Hp. subst p.
    rewrite length_app, Nat.add_1_r.
    apply returns_bind_index; [done|]. intros ty Hty.
    assert (Hneed : needs_dependency g tys (length pre) =
      negb (is_fuzzable_type ty (full_name_map g))).
    { unfold needs_dependency. by rewrite Hty. }
    rewrite (searched_names g g' (so_searched _ _ Hok)).
    destruct (is_fuzzable_type ty (full_name_map g)); cbn [negb] in Hneed.
    { apply returns_ret. cbn [fst snd]. destruct flag; [|done].
      by rewrite dependent_params_S, Hneed, app_nil_r. }
    eapply returns_bind; [apply find_candidate_returns|]. intros [[|] tmp] Hc; cbn [fst snd negb] in *.
    + destruct Hc as (ci & s & Hci & Hs & Hf & ->). apply returns_ret. cbn [fst snd].
      destruct flag; [|done]. rewrite dependent_params_S, Hneed.
      apply Forall2_app; [done|]. constructor; [|constructor].
      rewrite as_usize_i32_small.
      * destruct (Hcs ci Hci) as (s' & Hs' & Hm). exists s'. split_and!; [done..|].
        by simplify_option_eq.
      * apply lookup_lt_Some in Hs. lia.
    + apply returns_ret. cbn [fst snd]. exists (length pre). by split_and!.
  - intros r. by rewrite length_seq.
Qed.

Lemma collect_sequences_returns idx ps :
  Forall2 feeder idx ps ->
  returns (collect_sequences g' idx) (fun ss => Forall2 (fun s p =>
    s ∈ api_sequences g' /\ mergeable g s /\ feeds g node p s) ss ps).
Proof.
  intros Hall. unfold collect_sequences.
  eapply returns_mono.
  - apply (fold_loop_returns _ (fun pre ss => Forall2 (fun s p =>
      s ∈ api_sequences g' /\ mergeable g s /\ feeds g node p s) ss (take (length pre) ps))).
    { constructor. }
    intros pre ix post ss Hidx Hinv.
    assert (idx !! length pre = Some ix) as Hix by (rewrite Hidx; by apply list_lookup_middle).
    destruct (Forall2_lookup_l _ _ _ _ _ Hall Hix) as (p & Hp & s & Hs & Hm & Hf).
    unfold vec_index. rewrite Hs. apply returns_ret.
    rewrite length_app, Nat.add_1_r, (take_S_r _ _ p) by done.
    apply Forall2_app; [done|]. constructor; [|constructor].
    split_and!; [by eapply list_elem_of_lookup_2|done..].
  - intros ss. rewrite (Forall2_length _ _ _ Hall), take_ge by done. done.
Qed.

(** The outcome for one function: it stays unvisited for a reason, or a new sequence that
    ends with it is added. *)
Record covered (g'' : ApiGraph) : Prop := {
  co_ok : search_ok g g'';
  co_push : exists s, api_sequences g'' = api_sequences g' ++ [s] /\ last_function s = Some node;
  co_flags : api_functions_visited g'' = <[node := true]> (api_functions_visited g')
}.

Lemma cover_node_returns (C : gset nat) :
  node < length (api_functions g) ->
  returns (cover_node cs node (g', C)) (fun r =>
    (r.2 = C /\ r.1 = g' /\ ((forall ci s, api_sequences g' !! ci = Some s -> mergeable g s ->
      ci ∈ cs) -> blocked g g' node)) \/
    (r.2 = {[node]} ∪ C /\ covered r.1)).
Proof using Hok Hcs Hsmall Hdeps.
  intros Hnode. unfold cover_node.
  rewrite (searched_functions g g' (so_searched _ _ Hok)).
  apply returns_bind_index; [done|]. intros f Hf.
  eapply returns_bind; [apply find_dependents_returns|]. intros [idx [|]] Hr; cbn [fst snd] in Hr.
  2:{ apply returns_ret. left. split_and!; [done..|]. intros Hall.
      destruct Hr as (p & Hp & Hneed & Hno). apply (blocked_param _ _ _ f p); [done..|].
      intros s Hs Hm. apply list_elem_of_lookup_1 in Hs as (ci & Hci). by eapply Hno; eauto. }
  eapply returns_bind; [by apply collect_sequences_returns|]. intros ss Hss. cbn beta in Hss.
  assert (Hwss : Forall (wf_sequence g) ss).
  { apply Forall_forall. intros s Hs. pose proof (so_wf _ _ Hok) as Hw.
    rewrite Forall_forall in Hw. apply Hw. apply list_elem_of_lookup_1 in Hs as (j & Hj).
    by destruct (Forall2_lookup_l _ _ _ _ _ Hss Hj) as (p & _ & Hin & _). }
  pose proof (merge_sequences_wf g ss Hwss) as Hmerge.
  destruct (_merge_sequences ss) as [merged| |] eqn:Hmerged; try done.
  cbn [mbind outcome_bind returns] in *.
  apply (extend_cases g Hdeps); [done..| |].
  - intros Hnone. apply returns_ret. left. split_and!; [done..|]. intros _.
    by apply (blocked_merge _ _ _ f ss merged).
  - intros s' Hs' Hwf' Hl _.
    apply (returns_bind _ _ covered); [|intros g'' Hg''; by apply returns_ret; right].
    eapply visit_returns; [done..|]. intros g'' Hok'' Hseqs Hv.
    split; [done| |done]. by exists s'.
Qed.
End node.

(** ** The whole search *)

Definition unvisited (g' : ApiGraph) (U : gset nat) : Prop :=
  forall i, i ∈ U <-> api_functions_visited g' !! i = Some false.

Lemma unvisited_returns g' :
  search_ok g g' -> returns (unvisited_functions g') (unvisited g').
Proof.
  intros [Hs Hv _]. unfold unvisited_functions. rewrite (searched_functions g g' Hs), <- Hv.
  eapply returns_mono.
  - apply (fold_loop_returns _ (fun pre U => forall i, i ∈ U <->
      i ∈ pre /\ api_functions_visited g' !! i = Some false)).
    { set_solver. }
    intros pre i post U Hseq HU.
    assert (i < length (api_functions_visited g')) as Hi.
    { assert (i ∈ seq 0 (length (api_functions_visited g'))) as Hin by (rewrite Hseq; set_solver).
      apply elem_of_seq in Hin. lia. }
    apply returns_bind_index; [done|]. intros [|] Hb; apply returns_ret; intros j;
      rewrite elem_of_app, list_elem_of_singleton, ?elem_of_union, ?elem_of_singleton, (HU j);
      naive_solver.
  - intros U HU i. cbn beta in HU. rewrite HU. split; [naive_solver|]. intros Hi.
    split; [|done]. apply elem_of_seq. apply lookup_lt_Some in Hi. lia.
Qed.

(** Progress of the search: from [(g', U)] to [(g'', U')]. *)
Record advance (g' : ApiGraph) (U : gset nat) (g'' : ApiGraph) (U' : gset nat) : Prop := {
  ad_ok : search_ok g g'';
  ad_unvisited : unvisited g'' U';
  ad_prefix : api_sequences g' `prefix_of` api_sequences g'';
  ad_subset : U' ⊆ U;
  ad_number : length (api_sequences g'') + size U' = length (api_sequences g') + size U;
  ad_last : forall s, s ∈ api_sequences g'' -> s ∈ api_sequences g' \/
    exists n, n ∈ U /\ (n ∉ U') /\ last_function s = Some n;
  ad_visited : visited_ok g' -> visited_ok g''
}.

Lemma advance_refl g' U : search_ok g g' -> unvisited g' U -> advance g' U g' U.
Proof. intros. split; try done. by left. Qed.

Lemma advance_trans g1 U1 g2 U2 g3 U3 :
  advance g1 U1 g2 U2 -> advance g2 U2 g3 U3 -> advance g1 U1 g3 U3.
Proof.
  intros [? ? Hp Hs Hn Hl Hv] [? ? Hp' Hs' Hn' Hl' Hv']. split; try done.
  - by etrans.
  - by etrans.
  - lia.
  - intros s [Hin|(n & ? & ? & ?)]%Hl'; [|right; exists n; set_solver].
    destruct (Hl s Hin) as [?|(n & ? & ? & ?)]; [by left|right; exists n; set_solver].
  - auto.
Qed.

Lemma advance_cover g' U node g'' :
  node ∈ U -> unvisited g' U -> search_ok g g' -> covered g' node g'' ->
  advance g' U g'' (U ∖ {[node]}).
Proof.
  intros Hin HU Hok [Hok'' (s & Hss & Hl) Hv].
  assert (Hlt : node < length (api_functions_visited g')).
  { apply HU, lookup_lt_Some in Hin. done. }
  split; [done| | |set_solver| | |].
  - intros i. rewrite Hv, elem_of_difference, elem_of_singleton, (HU i).
    destruct (decide (i = node)) as [->|Hne].
    + rewrite list_lookup_insert_eq by done. naive_solver.
    + rewrite list_lookup_insert_ne by done. naive_solver.
  - rewrite Hss. by apply prefix_app_r.
  - rewrite Hss, length_app, size_difference, size_singleton by set_solver. cbn.
    assert (size U <> 0) by (rewrite size_non_empty_iff; set_solver). lia.
  - intros s0. rewrite Hss, elem_of_app, list_elem_of_singleton. intros [?| ->]; [by left|].
    right. exists node. set_solver.
  - intros Hvis. by apply (visited_push g' g'' s node).
Qed.

Lemma cover_round_returns k g' U :
  search_ok g g' -> unvisited g' U ->
  (Z.of_nat (length (api_sequences g') + size U) <= 2 ^ 31)%Z ->
  returns (cover_round k (g', U)) (fun f =>
    match f with
    | Next (g'', U') => advance g' U g'' U' /\ size U' < size U
    | Break (g'', U') => g'' = g' /\ U' = U /\ forall n, n ∈ U -> blocked g g' n
    | Return _ => False
    end).
Proof using Hdeps.
  intros Hok HU Hsmall. unfold cover_round.
  eapply returns_bind; [by apply candidates_returns|]. intros cs Hcs.
  apply (returns_bind _ _ (fun st : ApiGraph * gset nat =>
    advance g' U st.1 (U ∖ st.2) /\ st.2 ⊆ U /\
    (st.2 = ∅ -> st.1 = g' /\ forall n, n ∈ U -> blocked g g' n))).
  - eapply returns_mono.
    + apply (fold_loop_returns _ (fun pre (st : ApiGraph * gset nat) =>
        advance g' U st.1 (U ∖ st.2) /\ st.2 ⊆ list_to_set pre /\ st.2 ⊆ U /\
        (st.2 = ∅ -> st.1 = g' /\ forall n, n ∈ pre -> blocked g g' n))).
      { cbn [fst snd]. split_and!; [|set_solver..|].
        - replace (U ∖ ∅) with U by set_solver. by apply advance_refl.
        - intros _. split; [done|]. intros n ?%not_elem_of_nil. done. }
      intros pre node post [g1 C] Hseq (Hadv & HCpre & HCU & Hnone). cbn [fst snd] in *.
      assert (Hnode : node ∈ U).
      { rewrite <- (elem_of_hash_order 6), Hseq. set_solver. }
      assert (HnC : node ∉ C).
      { pose proof (NoDup_hash_order 6 U) as Hnd. rewrite Hseq in Hnd.
        apply NoDup_app in Hnd as (_ & Hnd & _). intros Hin.
        apply (Hnd node); set_solver. }
      pose proof (ad_ok _ _ _ _ Hadv) as Hok1.
      assert (Hcs1 : forall ci, ci ∈ cs ->
        exists s, api_sequences g1 !! ci = Some s /\ mergeable g s).
      { intros ci (s & Hs & Hm)%Hcs. exists s. split; [|done].
        eapply prefix_lookup_Some; [exact Hs|apply (ad_prefix _ _ _ _ Hadv)]. }
      eapply returns_mono.
      { apply cover_node_returns; [done|exact Hcs1| |].
        - pose proof (ad_number _ _ _ _ Hadv). lia.
        - apply HU, lookup_lt_Some in Hnode. by rewrite <- (so_visited _ _ Hok). }
      intros [g2 C2] [(-> & -> & Hb)|(-> & Hcov)]; cbn [fst snd] in *.
      * split_and!; [done|set_solver|done|]. intros HC. destruct (Hnone HC) as [-> Hpre].
        split; [done|]. intros n [Hn| ->%list_elem_of_singleton]%elem_of_app; [by apply Hpre|].
        apply Hb. intros ci s Hs Hm. apply Hcs. eauto.
      * split_and!; [|set_solver..].
        replace (U ∖ ({[node]} ∪ C)) with ((U ∖ C) ∖ {[node]}) by set_solver.
        eapply advance_trans; [exact Hadv|].
        apply advance_cover; [set_solver|apply (ad_unvisited _ _ _ _ Hadv)|done..].
    + intros [g1 C] (Hadv & _ & HCU & Hnone). cbn [fst snd] in *. split_and!; [done..|].
      intros HC. destruct (Hnone HC) as [-> Hall]. split; [done|]. intros n Hn.
      apply Hall. by rewrite elem_of_hash_order.
  - intros [g1 C] (Hadv & HCU & Hnone). cbn [fst snd] in *.
    destruct (Nat.eqb_spec (size C) 0) as [H0|H0]; apply returns_ret.
    + apply size_empty_inv, leibniz_equiv in H0. destruct (Hnone H0) as [-> Hall]. done.
    + split; [done|]. rewrite size_difference by done.
      pose proof (subseteq_size _ _ HCU). lia.
Qed.

(** The result of the backward search from [g0]. *)
Record saturated (g0 g' : ApiGraph) : Prop := {
  sa_ok : search_ok g g';
  sa_prefix : api_sequences g0 `prefix_of` api_sequences g';
  sa_last : forall s, s ∈ api_sequences g' -> s ∈ api_sequences g0 \/
    exists n, api_functions_visited g0 !! n = Some false /\ last_function s = Some n;
  sa_number : length (api_sequences g') <= length (api_sequences g0) + length (api_functions g);
  sa_visited : visited_ok g0 -> visited_ok g';
  sa_blocked : forall n, api_functions_visited g' !! n = Some false -> blocked g g' n
}.

Lemma unvisited_size g' U : search_ok g g' -> unvisited g' U -> size U <= length (api_functions g).
Proof.
  intros Hok HU. rewrite <- (so_visited _ _ Hok).
  rewrite <- (size_set_seq (C := gset nat) 0 (length (api_functions_visited g'))).
  apply subseteq_size. intros i Hi%HU%lookup_lt_Some. apply elem_of_set_seq. lia.
Qed.

Lemma backward_returns g0 :
  search_ok g g0 ->
  (Z.of_nat (length (api_sequences g0) + length (api_functions g)) <= 2 ^ 31)%Z ->
  returns (_try_to_cover_unvisited_nodes g0) (saturated g0).
Proof using Hdeps.
  intros Hok Hsmall. unfold _try_to_cover_unvisited_nodes.
  eapply returns_bind; [by apply unvisited_returns|]. intros U HU.
  pose proof (unvisited_size g0 U Hok HU) as Hsize.
  apply (returns_bind _ _ (fun st : ApiGraph * gset nat => advance g0 U st.1 st.2 /\
    forall n, n ∈ st.2 -> blocked g st.1 n)).
  - apply (run_loop_returns _ (fun pre (st : ApiGraph * gset nat) =>
      advance g0 U st.1 st.2 /\ size st.2 + length pre <= size U)).
    + split; [by apply advance_refl|cbn; lia].
    + intros pre k post [g1 U1] Hseq [Hadv Hle]. cbn [fst snd] in *.
      eapply returns_mono.
      { apply cover_round_returns; [apply (ad_ok _ _ _ _ Hadv)|apply (ad_unvisited _ _ _ _ Hadv)|].
        pose proof (ad_number _ _ _ _ Hadv). lia. }
      intros [[g2 U2]|[g2 U2]|[]]; cbn [fst snd].
      * intros [Hadv2 Hlt]. split; [by eapply advance_trans|]. rewrite length_app. cbn. lia.
      * intros (-> & -> & Hb). done.
    + intros [g1 U1] [Hadv Hle]. cbn [fst snd] in *. split; [done|].
      rewrite length_seq in Hle. intros n Hn.
      assert (size U1 = 0) as H0 by lia. apply size_empty_inv in H0. set_solver.
  - intros [g1 U1] [Hadv Hb]. apply returns_ret. cbn [fst snd] in *.
    destruct Hadv as [Hok1 HU1 Hp Hsub Hn Hl Hv]. split; try done.
    + intros s Hs. destruct (Hl s Hs) as [?|(n & Hin & _ & Hls)]; [by left|right].
      exists n. split; [by apply HU|done].
    + lia.
    + intros n Hf. by apply Hb, HU1.
Qed.
End backward.

(** ** The default search *)

(** Breadth first up to length 3, then backward. *)
Lemma default_returns `{HashOrder} (g : ApiGraph) (Hdeps : deps_ok g)
    (rng : nat -> nat -> nat -> nat) :
  (Z.of_nat (sequences_bound (length (api_functions g)) 3 + length (api_functions g))
     <= 2 ^ 31)%Z ->
  returns (default_generate_sequences rng g) (fun g' =>
    exists g0, bfs 3 true false g = Ret g0 /\ bfs_inv g true false 3 g0 /\ saturated g g0 g').
Proof.
  intros Hbound. unfold default_generate_sequences, generate_all_possoble_sequences. cbn zeta.
  pose proof (bfs_returns g Hdeps false 3 ltac:(lia)) as Hbfs.
  destruct (bfs 3 true false g) as [g0| |] eqn:Hg0; try done. cbn [mbind outcome_bind returns] in *.
  assert (Hnum : length (api_sequences g0) <= sequences_bound (length (api_functions g)) 3).
  { unfold bfs in Hg0. cbn [Nat.ltb Nat.leb negb] in Hg0. cbn zeta in Hg0.
    destruct (fold_loop _ _ _) as [g1| |] eqn:Hl in Hg0; try done. injection Hg0 as ->.
    by apply (bfs_number g Hdeps true false 3). }
  eapply returns_mono.
  - apply backward_returns; [done|apply (bi_ok _ _ _ _ _ Hbfs)|]. lia.
  - intros g' Hg'. by exists g0.
Qed.

(** ** Properties *)


