(* ===== verification/ApiChoose.v ===== *)
(** The choice of the sequences that become fuzz targets ([fuzz_target/api_graph.rs]:
    [_naive_choose_sequence], [_random_choose], [_first_choose], [_heuristic_choose]).
    The statistics that these functions print are in [Messages]. *)

From S2P Require Import Prelude RustStd CleanTypes CallTypes PreludeTypes.
From S2P Require Import FuzzableTypes ApiUtil ModVisibility ApiFunction ApiSequence.
From S2P Require Import ApiGraph Samples SequenceWf Satisfy Merge DeadCode ApiSearch.

(** ** The first sequences *)

Definition _first_choose (max_size : nat) (g : ApiGraph) : outcome (list ApiSequence) :=
  run_loop (fun index res =>
    sequence ← (api_sequences g).[index];
    if _has_no_fuzzables sequence then mret (Next res)
    else
      let res := res ++ [sequence] in
      if max_size <=? length res then mret (Break res) else mret (Next res))
    (seq 0 (length (api_sequences g))) [].

Section random.
Variable rng : nat -> nat -> nat -> nat.

(** ** A random choice *)

(** [v.remove(i)]: out of range it panics. *)
Definition vec_remove {A} (v : list A) (i : nat) : outcome (list A) :=
  if decide (i < length v) then mret (delete i v) else Panicked.

Definition _random_choose (max_size : nat) (g : ApiGraph) : outcome (list ApiSequence) :=
  st ← run_loop (fun k '(res, sequence_indexes) =>
         let rest_sequences_number := length (sequence_indexes : list nat) in
         if rest_sequences_number <=? 0 then mret (Break (res, sequence_indexes))
         else
           chosen_index ← gen_range rng k 0 rest_sequences_number;
           sequence_index ← sequence_indexes.[chosen_index];
           sequence ← (api_sequences g).[sequence_index];
           sequence_indexes ← vec_remove sequence_indexes chosen_index;
           mret (Next (res ++ [sequence], sequence_indexes)))
         (seq 0 max_size) ([], seq 0 (length (api_sequences g)));
  mret st.1.

(** ** The naive choice *)

(** For every node to cover, the sequences that call it. *)
Definition naive_candidates (g : ApiGraph) (to_cover_nodes : list nat)
    : outcome (gmap nat (list nat)) :=
  let empty := foldl (fun m node => <[node := []]> m) ∅ to_cover_nodes in
  fold_loop (fun i m =>
    api_sequence ← (api_sequences g).[i];
    mret (foldl (fun m node =>
      match m !! node with
      | Some v => if existsb (Nat.eqb i) v then m else <[node := v ++ [i]]> m
      | None => m
      end) m (_get_contained_api_functions api_sequence)))
    (seq 0 (length (api_sequences g))) empty.

Record naive_state := mk_naive {
  naive_to_cover : list nat;
  chosen_sequence_flag : list bool;
  naive_res : list ApiSequence
}.

Definition naive_step (g : ApiGraph) (node_candidate_sequences : gmap nat (list nat))
    (k : nat) (st : naive_state) : outcome (flow naive_state Empty_set) :=
  if length (naive_to_cover st) =? 0 then mret (Break st)
  else
    next_cover_node ← unwrap (head (naive_to_cover st));
    candidate_sequences ← unwrap (node_candidate_sequences !! next_cover_node);
    unvisited_candidate_sequences ← fold_loop (fun node acc =>
      chosen ← (chosen_sequence_flag st).[node];
      if negb chosen then mret (acc ++ [node]) else mret acc) candidate_sequences [];
    let candidate_number := length unvisited_candidate_sequences in
    random_index ← gen_range rng k 0 candidate_number;
    chosen_index ← unvisited_candidate_sequences.[random_index];
    chosen_sequence ← (api_sequences g).[chosen_index];
    let covered_nodes := _get_contained_api_functions chosen_sequence in
    flags ← vec_store (chosen_sequence_flag st) random_index true;
    mret (Next {| naive_to_cover :=
                    List.filter (fun node => negb (existsb (Nat.eqb node) covered_nodes))
                      (naive_to_cover st);
                  chosen_sequence_flag := flags;
                  naive_res := naive_res st ++ [chosen_sequence] |}).

Definition _naive_choose_sequence (max_sequence_size : nat) (g : ApiGraph)
    : outcome (list ApiSequence) :=
  to_cover_nodes ← fold_loop (fun i acc =>
    visited ← (api_functions_visited g).[i];
    if visited : bool then mret (acc ++ [i]) else mret acc)
    (seq 0 (length (api_functions g))) [];
  node_candidate_sequences ← naive_candidates g to_cover_nodes;
  st ← run_loop (naive_step g node_candidate_sequences) (seq 0 max_sequence_size)
         {| naive_to_cover := to_cover_nodes;
            chosen_sequence_flag := replicate (length (api_sequences g)) false;
            naive_res := [] |};
  mret (naive_res st).
End random.

(** ** The heuristic choice *)

(** [!s._has_no_fuzzables() && !s._contains_dead_code_except_last_one(self)]. *)
Definition usable (g : ApiGraph) (s : ApiSequence) : outcome bool :=
  if _has_no_fuzzables s then mret false
  else dead ← _contains_dead_code_except_last_one s g; mret (negb dead).

(** The loop that collects [fixed_covered_nodes]. *)
Definition coverable_nodes (g : ApiGraph) : outcome (gset nat) :=
  fold_loop (fun fixed_sequence fixed_covered_nodes =>
    b ← usable g fixed_sequence;
    if b : bool
    then mret (list_to_set (_get_contained_api_functions fixed_sequence) ∪ fixed_covered_nodes)
    else mret fixed_covered_nodes) (api_sequences g) ∅.

Definition count_usable (g : ApiGraph) : outcome nat :=
  fold_loop (fun sequence valid_fuzz_sequence_count =>
    b ← usable g sequence;
    if b : bool then mret (valid_fuzz_sequence_count + 1)
    else mret valid_fuzz_sequence_count) (api_sequences g) 0.

(** The number of elements that [already_covered] does not contain. *)
Definition uncovered_count (already_covered : gset nat) (xs : list nat) : nat :=
  foldl (fun n x => if decide (x ∈ already_covered) then n else n + 1) 0 xs.

Record best := mk_best {
  current_chosen_sequence_index : nat;
  current_max_covered_nodes : nat;
  current_max_covered_edges : nat;
  current_chosen_sequence_len : nat
}.

(** The variables of the outer loop; the two counters that are only incremented are
    left out. *)
Record chosen := mk_chosen {
  chosen_nodes : gset nat;
  chosen_edges : gset nat;
  already_chosen_sequences : gset nat;
  sorted_chosen_sequences : list nat;
  try_to_find_dynamic_length_flag : bool
}.

Section heuristic.
Context `{HashOrder}.

(** One sequence of the inner loop. *)
Definition consider (g : ApiGraph) (st : chosen) (j : nat) (b : best) : outcome best :=
  if decide (j ∈ already_chosen_sequences st) then mret b
  else
    api_sequence ← (api_sequences g).[j];
    ok ← usable g api_sequence;
    if negb ok then mret b
    else if try_to_find_dynamic_length_flag st && _is_fuzzables_fixed_length api_sequence
    then mret b
    else if negb (try_to_find_dynamic_length_flag st)
            && negb (_is_fuzzables_fixed_length api_sequence)
    then mret b
    else
      let nodes := uncovered_count (chosen_nodes st)
                     (_get_contained_api_functions api_sequence) in
      if nodes <? current_max_covered_nodes b then mret b
      else
        let edges := uncovered_count (chosen_edges st)
                       (hash_order 7 (_covered_dependencies api_sequence)) in
        if (nodes =? current_max_covered_nodes b) && (edges <? current_max_covered_edges b)
        then mret b
        else
          let sequence_len := len api_sequence in
          if (current_max_covered_nodes b <? nodes)
             || (nodes =? current_max_covered_nodes b)
                && (current_max_covered_edges b <? edges)
             || (nodes =? current_max_covered_nodes b)
                && (edges =? current_max_covered_edges b)
                && (sequence_len <? current_chosen_sequence_len b)
          then mret {| current_chosen_sequence_index := j;
                       current_max_covered_nodes := nodes;
                       current_max_covered_edges := edges;
                       current_chosen_sequence_len := sequence_len |}
          else mret b.

(** One iteration of the outer loop. *)
Definition choose_step (g : ApiGraph) (stop_at_visit_all_nodes : bool)
    (to_cover_nodes_number to_cover_dependency_number valid_fuzz_sequence_count : nat)
    (_ : nat) (st : chosen) : outcome (flow chosen Empty_set) :=
  b ← fold_loop (consider g st) (seq 0 (length (api_sequences g)))
        {| current_chosen_sequence_index := 0; current_max_covered_nodes := 0;
           current_max_covered_edges := 0; current_chosen_sequence_len := 0 |};
  if try_to_find_dynamic_length_flag st && (current_max_covered_nodes b <=? 0) then
    mret (Next {| chosen_nodes := chosen_nodes st; chosen_edges := chosen_edges st;
                  already_chosen_sequences := already_chosen_sequences st;
                  sorted_chosen_sequences := sorted_chosen_sequences st;
                  try_to_find_dynamic_length_flag := false |})
  else if negb (try_to_find_dynamic_length_flag st) && (current_max_covered_edges b <=? 0)
          && (current_max_covered_nodes b <=? 0)
  then mret (Break st)
  else
    let index := current_chosen_sequence_index b in
    chosen_sequence ← (api_sequences g).[index];
    let st := {| chosen_nodes :=
                   list_to_set (_get_contained_api_functions chosen_sequence) ∪ chosen_nodes st;
                 chosen_edges := _covered_dependencies chosen_sequence ∪ chosen_edges st;
                 already_chosen_sequences := {[index]} ∪ already_chosen_sequences st;
                 sorted_chosen_sequences := sorted_chosen_sequences st ++ [index];
                 try_to_find_dynamic_length_flag := try_to_find_dynamic_length_flag st |} in
    if size (already_chosen_sequences st) =? valid_fuzz_sequence_count then mret (Break st)
    else if negb (to_cover_dependency_number =? 0)
            && (size (chosen_edges st) =? to_cover_dependency_number)
    then mret (Break st)
    else if stop_at_visit_all_nodes && (size (chosen_nodes st) =? to_cover_nodes_number)
    then mret (Break st)
    else mret (Next st).

(** What the loops leave; [None] when there is nothing to choose from. *)
Definition heuristic_chosen (max_size : nat) (stop_at_visit_all_nodes : bool) (g : ApiGraph)
    : outcome (option chosen) :=
  fixed_covered_nodes ← coverable_nodes g;
  let to_cover_nodes_number := size fixed_covered_nodes in
  let to_cover_dependency_number := length (api_dependencies g) in
  valid_fuzz_sequence_count ← count_usable g;
  if valid_fuzz_sequence_count <=? 0 then mret None
  else
    st ← run_loop (choose_step g stop_at_visit_all_nodes to_cover_nodes_number
                     to_cover_dependency_number valid_fuzz_sequence_count)
           (seq 0 (max_size + 1))
           {| chosen_nodes := ∅; chosen_edges := ∅; already_chosen_sequences := ∅;
              sorted_chosen_sequences := []; try_to_find_dynamic_length_flag := true |};
    mret (Some st).

Definition _heuristic_choose (max_size : nat) (stop_at_visit_all_nodes : bool) (g : ApiGraph)
    : outcome (list ApiSequence) :=
  st ← heuristic_chosen max_size stop_at_visit_all_nodes g;
  match st with
  | None => mret []
  | Some st => collect_sequences g (sorted_chosen_sequences st)
  end.
End heuristic.
