(* ===== verification/ChooseCorrect.v ===== *)
(** Correctness of the choice of the fuzz targets: the chosen sequences are distinct,
    usable, and cover what can be covered. *)

From S2P Require Import Prelude RustStd CleanTypes CallTypes PreludeTypes.
From S2P Require Import FuzzableTypes ApiUtil ModVisibility ApiFunction ApiSequence.
From S2P Require Import ApiGraph Samples SequenceWf Satisfy Merge DeadCode ApiSearch.
From S2P Require Import SearchCorrect ApiChoose.

(** ** Specification *)

(** A sequence worth fuzzing: it decodes something, and every result but the last one is
    needed. *)
Definition is_target (g : ApiGraph) (s : ApiSequence) : Prop :=
  fuzzable_params s <> [] /\ forall k, S k < len s -> needed g s k.

(** [ss] are the sequences of [g] at the distinct positions [idxs]. *)
Definition selection (g : ApiGraph) (idxs : list nat) (ss : list ApiSequence) : Prop :=
  NoDup idxs /\ Forall2 (fun i s => api_sequences g !! i = Some s) idxs ss.

(** The calls [f] of the sequences [ss], and the dependencies they cover. *)
Definition calls (ss : list ApiSequence) (f : nat) : Prop :=
  exists s, s ∈ ss /\ f ∈ _get_contained_api_functions s.
Definition covers (ss : list ApiSequence) (d : nat) : Prop :=
  exists s, s ∈ ss /\ d ∈ _covered_dependencies s.

Section choose.
Context (g : ApiGraph) (Hwf : Forall (wf_sequence g) (api_sequences g)).

(** ** Usable sequences *)

Lemma contains_dead_code_returns s :
  wf_sequence g s ->
  returns (_contains_dead_code_except_last_one s g)
    (fun b => b = false <-> forall k, S k < len s -> needed g s k).
Proof.
  intros Hs. unfold _contains_dead_code_except_last_one. cbn zeta.
  destruct (Nat.leb_spec (len s) 1) as [H1|H1].
  { apply returns_ret. split; [intros _ k Hk; lia|done]. }
  eapply returns_bind; [by apply dead_code_returns|]. intros dead [Hlen Hdead].
  set (Q := fun b => b = false <-> forall k, S k < len s -> needed g s k).
  apply (returns_bind _ _ (fun r => match r with inl _ => Q false | inr b => Q b end)).
  - apply (for_loop_returns _ (fun pre _ => forall k, k ∈ pre -> needed g s k)
      (fun _ => Q false) Q).
    + intros k ?%not_elem_of_nil. done.
    + intros pre i post [] Hseq Hpre.
      assert (Hi : i < len s - 1).
      { assert (i ∈ seq 0 (len s - 1)) as Hin by (rewrite Hseq; set_solver).
        apply elem_of_seq in Hin. lia. }
      apply returns_bind_index; [lia|]. intros [|] Hd; apply returns_ret.
      * split; [done|]. intros Hall. specialize (Hall i ltac:(lia)).
        apply Hdead in Hall; [congruence|lia].
      * intros k [?| ->%list_elem_of_singleton]%elem_of_app; [auto|]. apply Hdead; [lia|done].
    + intros [] Hall. split; [|done]. intros _ k Hk. apply Hall, elem_of_seq. lia.
  - intros [[]|b] Hb; by apply returns_ret.
Qed.

(** The flag of a sequence, as a function. *)
Definition usableb (s : ApiSequence) : bool := ret_or false (usable g s).

Lemma usable_spec s :
  wf_sequence g s -> usable g s = Ret (usableb s) /\ (usableb s = true <-> is_target g s).
Proof.
  intros Hs. unfold usableb, usable, is_target, _has_no_fuzzables.
  destruct (fuzzable_params s) as [|p ps]; cbn [length Nat.leb].
  { split; [done|]. split; [done|]. by intros [? _]. }
  pose proof (contains_dead_code_returns s Hs) as Hr.
  destruct (_contains_dead_code_except_last_one s g) as [b| |]; try done. cbn in Hr |- *.
  split; [done|]. rewrite negb_true_iff, Hr. naive_solver.
Qed.

Lemma seqs_wf i s : api_sequences g !! i = Some s -> wf_sequence g s.
Proof using Hwf. intros Hi. pose proof Hwf as Hw. rewrite Forall_lookup in Hw. by apply (Hw i). Qed.

Lemma usable_ret s : s ∈ api_sequences g -> usable g s = Ret (usableb s).
Proof using Hwf. intros Hs. pose proof Hwf as Hw. rewrite Forall_forall in Hw. by apply usable_spec, Hw. Qed.

Lemma usable_at i s {A} (K : bool -> outcome A) :
  api_sequences g !! i = Some s -> (usable g s ≫= K) = K (usableb s).
Proof using Hwf. intros Hs. rewrite usable_ret; [done|]. by eapply list_elem_of_lookup_2. Qed.

Definition usable_indices (n : nat) : list nat :=
  List.filter (fun i => match api_sequences g !! i with Some s => usableb s | None => false end)
    (seq 0 n).

Lemma elem_of_usable_indices n i :
  i ∈ usable_indices n <-> i < n /\ exists s, api_sequences g !! i = Some s /\ usableb s = true.
Proof.
  unfold usable_indices. rewrite list_elem_of_In, filter_In, <- list_elem_of_In, elem_of_seq.
  destruct (api_sequences g !! i); naive_solver lia.
Qed.

Lemma usable_indices_nodup n : NoDup (usable_indices n).
Proof. apply NoDup_ListNoDup, List.NoDup_filter, NoDup_ListNoDup, NoDup_seq. Qed.

Lemma count_usable_spec :
  count_usable g = Ret (length (usable_indices (length (api_sequences g)))).
Proof using Hwf.
  pose proof (fold_loop_returns (fun sequence valid_fuzz_sequence_count =>
    b ← usable g sequence;
    if b : bool then mret (valid_fuzz_sequence_count + 1) else mret valid_fuzz_sequence_count)
    (fun pre n => n = length (usable_indices (length pre))) (api_sequences g) 0 eq_refl) as Hr.
  unfold count_usable. destruct (fold_loop _ _ _) as [n| |]; cbn [returns] in Hr;
    [f_equal; apply Hr|exfalso; apply Hr..];
    intros pre s post m Hss ->;
    (assert (api_sequences g !! length pre = Some s) as Hs
      by (rewrite Hss; by apply list_lookup_middle));
    rewrite (usable_at _ _ _ Hs), length_app; cbn [length]; rewrite (Nat.add_1_r (length pre));
    unfold usable_indices; rewrite seq_S, List.filter_app, length_app; cbn [List.filter Nat.add];
    rewrite Hs; destruct (usableb s); cbn; lia.
Qed.

Lemma coverable_nodes_returns :
  returns (coverable_nodes g) (fun F => forall f, f ∈ F <->
    exists s, s ∈ api_sequences g /\ usableb s = true /\ f ∈ _get_contained_api_functions s).
Proof using Hwf.
  unfold coverable_nodes.
  apply (fold_loop_returns _ (fun pre F => forall f, f ∈ F <->
    exists s, s ∈ pre /\ usableb s = true /\ f ∈ _get_contained_api_functions s)).
  { set_solver. }
  intros pre s post F Hss HF. rewrite usable_ret by (rewrite Hss; set_solver).
  cbn [mbind outcome_bind].
  assert (Hsplit : forall f, (exists s', s' ∈ pre ++ [s] /\ usableb s' = true /\
      f ∈ _get_contained_api_functions s') <->
    f ∈ F \/ (usableb s = true /\ f ∈ _get_contained_api_functions s)).
  { intros f. rewrite (HF f). split.
    - intros (s' & [Hin| ->%list_elem_of_singleton]%elem_of_app & ? & ?); eauto.
    - intros [(s' & ? & ? & ?)|[? ?]]; [exists s'|exists s]; set_solver. }
  destruct (usableb s) eqn:Hu; apply returns_ret; intros f; rewrite Hsplit;
    rewrite ?elem_of_union, ?elem_of_list_to_set; naive_solver.
Qed.

(** ** One round of the heuristic choice *)
Section heuristic.
Context `{HashOrder}.

Lemma uncovered_count_length S xs :
  uncovered_count S xs = length (List.filter (fun x => bool_decide (x ∉ S)) xs).
Proof.
  unfold uncovered_count.
  assert (Hgen : forall n, foldl (fun n x => if decide (x ∈ S) then n else n + 1) n xs =
    n + length (List.filter (fun x => bool_decide (x ∉ S)) xs)); [|apply Hgen].
  induction xs as [|x xs IH]; intros n; cbn; [lia|]. rewrite IH.
  case_bool_decide; case_decide; try done; cbn; lia.
Qed.

Lemma uncovered_count_0 S xs : uncovered_count S xs = 0 <-> forall x, x ∈ xs -> x ∈ S.
Proof.
  rewrite uncovered_count_length, length_zero_iff_nil. split.
  - intros Hnil x Hx. destruct (decide (x ∈ S)) as [?|Hn]; [done|exfalso].
    assert (In x (List.filter (fun x => bool_decide (x ∉ S)) xs)) as Hin.
    { apply filter_In. split; [by apply list_elem_of_In|by case_bool_decide]. }
    by rewrite Hnil in Hin.
  - intros Hall. destruct (List.filter _ xs) as [|x l] eqn:Hf; [done|].
    assert (In x (List.filter (fun x => bool_decide (x ∉ S)) xs)) as Hin
      by (rewrite Hf; by left).
    apply filter_In in Hin as [Hx%list_elem_of_In Hb]. apply bool_decide_eq_true in Hb.
    by apply Hall in Hx.
Qed.

(** The sequences that the round considers. *)
Definition eligible (st : chosen) (j : nat) (s : ApiSequence) : Prop :=
  api_sequences g !! j = Some s /\ (j ∉ already_chosen_sequences st) /\ usableb s = true /\
  _is_fuzzables_fixed_length s = negb (try_to_find_dynamic_length_flag st).

Definition new_nodes (st : chosen) (s : ApiSequence) : nat :=
  uncovered_count (chosen_nodes st) (_get_contained_api_functions s).

(** Either nothing adds anything so far, or the best is an eligible sequence. *)
Record best_inv (st : chosen) (pre : list nat) (b : best) : Prop := {
  be_max : forall j s, j ∈ pre -> eligible st j s -> new_nodes st s <= current_max_covered_nodes b;
  be_choice : (current_max_covered_nodes b = 0 /\ current_max_covered_edges b = 0 /\
               current_chosen_sequence_len b = 0) \/
    exists s, eligible st (current_chosen_sequence_index b) s /\
      new_nodes st s = current_max_covered_nodes b
}.

Lemma best_skip st pre j b :
  best_inv st pre b ->
  (forall s, eligible st j s -> new_nodes st s <= current_max_covered_nodes b) ->
  best_inv st (pre ++ [j]) b.
Proof.
  intros [Hmax Hch] Hj. split; [|done].
  intros j' s [?| ->%list_elem_of_singleton]%elem_of_app; [by apply Hmax|apply Hj].
Qed.

Lemma consider_returns st pre j b :
  j < length (api_sequences g) -> best_inv st pre b ->
  returns (consider g st j b) (best_inv st (pre ++ [j])).
Proof using Hwf.
  intros Hj Hb. unfold consider.
  destruct (decide (j ∈ already_chosen_sequences st)) as [Hin|Hin].
  { apply returns_ret, best_skip; [done|]. by intros s (_ & ? & _). }
  apply returns_bind_index; [done|]. intros s Hs. rewrite (usable_at _ _ _ Hs).
  assert (Huniq : forall s', eligible st j s' -> s' = s /\ usableb s = true /\
    _is_fuzzables_fixed_length s = negb (try_to_find_dynamic_length_flag st)).
  { intros s' (Hs' & _ & Hu & Hfix). rewrite Hs in Hs'. by injection Hs' as <-. }
  destruct (usableb s) eqn:Hu; cbn [negb].
  2:{ apply returns_ret, best_skip; [done|]. by intros s' (_ & ? & _)%Huniq. }
  destruct (try_to_find_dynamic_length_flag st && _is_fuzzables_fixed_length s) eqn:H1.
  { apply returns_ret, best_skip; [done|]. intros s' (_ & _ & Hfix)%Huniq.
    rewrite Hfix in H1. by destruct (try_to_find_dynamic_length_flag st). }
  destruct (negb (try_to_find_dynamic_length_flag st) && negb (_is_fuzzables_fixed_length s)) eqn:H2.
  { apply returns_ret, best_skip; [done|]. intros s' (_ & _ & Hfix)%Huniq.
    rewrite Hfix in H2. by destruct (try_to_find_dynamic_length_flag st). }
  assert (Hel : eligible st j s).
  { split_and!; [done..|]. destruct (try_to_find_dynamic_length_flag st),
      (_is_fuzzables_fixed_length s); done. }
  cbn zeta. fold (new_nodes st s).
  set (edges := uncovered_count (chosen_edges st) _). clearbody edges.
  destruct (Nat.ltb_spec (new_nodes st s) (current_max_covered_nodes b)) as [Hlt|Hge].
  { apply returns_ret, best_skip; [done|]. intros s' (-> & _)%Huniq. lia. }
  destruct ((new_nodes st s =? _) && (edges <? _)) eqn:H3.
  { apply andb_true_iff in H3 as [H3%Nat.eqb_eq _].
    apply returns_ret, best_skip; [done|]. intros s' (-> & _)%Huniq. lia. }
  destruct (_ || _) eqn:H4; apply returns_ret.
  - split; cbn; [|right; by exists s].
    intros j' s' [Hpre| ->%list_elem_of_singleton]%elem_of_app Hel'.
    + etrans; [by apply (be_max _ _ _ Hb j')|done].
    + apply Huniq in Hel' as [-> _]. done.
  - apply best_skip; [done|]. intros s' (-> & _)%Huniq.
    apply orb_false_iff in H4 as [[H4%Nat.ltb_ge _]%orb_false_iff _]. done.
Qed.

Lemma best_returns st :
  returns (fold_loop (consider g st) (seq 0 (length (api_sequences g))) (mk_best 0 0 0 0))
    (best_inv st (seq 0 (length (api_sequences g)))).
Proof using Hwf.
  apply (fold_loop_returns _ (fun pre => best_inv st pre)).
  - split; [|by left]. intros j s ?%not_elem_of_nil. done.
  - intros pre j post b Hseq Hb. apply consider_returns; [|done].
    assert (j ∈ seq 0 (length (api_sequences g))) as Hin by (rewrite Hseq; set_solver).
    apply elem_of_seq in Hin. lia.
Qed.

(** ** The whole choice *)

(** A position of [idxs] whose sequence satisfies [P]. *)
Definition at_some (idxs : list nat) (P : ApiSequence -> Prop) : Prop :=
  exists j s, j ∈ idxs /\ api_sequences g !! j = Some s /\ P s.

Lemma at_some_snoc idxs j s (P : ApiSequence -> Prop) :
  api_sequences g !! j = Some s -> at_some (idxs ++ [j]) P <-> P s \/ at_some idxs P.
Proof.
  intros Hs. unfold at_some. split.
  - intros (j' & s' & [Hin| ->%list_elem_of_singleton]%elem_of_app & Hs' & HP); [right; eauto|].
    rewrite Hs in Hs'. injection Hs' as <-. by left.
  - intros [HP|(j' & s' & Hin & Hs' & HP)]; [exists j, s|exists j', s']; set_solver.
Qed.

(** What the chosen sequences are. *)
Record choice_ok (st : chosen) : Prop := {
  ch_nodup : NoDup (sorted_chosen_sequences st);
  ch_set : already_chosen_sequences st = list_to_set (sorted_chosen_sequences st);
  ch_usable : forall j, j ∈ sorted_chosen_sequences st ->
    exists s, api_sequences g !! j = Some s /\ usableb s = true;
  ch_nodes : forall f, f ∈ chosen_nodes st <->
    at_some (sorted_chosen_sequences st) (fun s => f ∈ _get_contained_api_functions s);
  ch_edges : forall d, d ∈ chosen_edges st <->
    at_some (sorted_chosen_sequences st) (fun s => d ∈ _covered_dependencies s)
}.

(** Every function of the sequences of the class [Q] is called by a chosen sequence. *)
Definition covered_class (st : chosen) (Q : ApiSequence -> Prop) : Prop :=
  forall s, s ∈ api_sequences g -> usableb s = true -> Q s ->
    forall f, f ∈ _get_contained_api_functions s -> f ∈ chosen_nodes st.
Definition dynamic_covered (st : chosen) : Prop :=
  covered_class st (fun s => _is_fuzzables_fixed_length s = false).
Definition all_covered (st : chosen) : Prop := covered_class st (fun _ => True).
Definition edges_covered (st : chosen) : Prop :=
  api_dependencies g <> [] /\ forall d, d < length (api_dependencies g) -> d ∈ chosen_edges st.

(** A round that finds nothing new has covered its class. *)
Lemma nothing_new st b :
  choice_ok st -> best_inv st (seq 0 (length (api_sequences g))) b ->
  current_max_covered_nodes b = 0 ->
  covered_class st (fun s =>
    _is_fuzzables_fixed_length s = negb (try_to_find_dynamic_length_flag st)).
Proof.
  intros [Hnd Hset Huse Hnodes Hedges] Hb H0 s Hin Hu Hfix f Hf.
  apply list_elem_of_lookup_1 in Hin as (j & Hj).
  destruct (decide (j ∈ sorted_chosen_sequences st)) as [Hch|Hch].
  - apply Hnodes. by exists j, s.
  - assert (Hel : eligible st j s).
    { split_and!; [done| |done..]. by rewrite Hset, elem_of_list_to_set. }
    assert (j ∈ seq 0 (length (api_sequences g))) as Hjs.
    { apply elem_of_seq. apply lookup_lt_Some in Hj. lia. }
    pose proof (be_max _ _ _ Hb j s Hjs Hel) as Hle. rewrite H0 in Hle.
    assert (new_nodes st s = 0) as Hz by lia. by apply (proj1 (uncovered_count_0 _ _) Hz).
Qed.

(** The state after the choice of the position [j]. *)
Definition choose (st : chosen) (j : nat) (s : ApiSequence) : chosen :=
  {| chosen_nodes := list_to_set (_get_contained_api_functions s) ∪ chosen_nodes st;
     chosen_edges := _covered_dependencies s ∪ chosen_edges st;
     already_chosen_sequences := {[j]} ∪ already_chosen_sequences st;
     sorted_chosen_sequences := sorted_chosen_sequences st ++ [j];
     try_to_find_dynamic_length_flag := try_to_find_dynamic_length_flag st |}.

Lemma choose_ok st j s : choice_ok st -> eligible st j s -> choice_ok (choose st j s).
Proof.
  intros [Hnd Hset Huse Hnodes Hedges] (Hs & Hnew & Hu & _). split; cbn.
  - apply NoDup_app. split_and!; [done| |by apply NoDup_singleton].
    intros x Hx ->%list_elem_of_singleton. apply Hnew. by rewrite Hset, elem_of_list_to_set.
  - rewrite list_to_set_app_L, Hset. cbn. set_solver.
  - intros x [?| ->%list_elem_of_singleton]%elem_of_app; [auto|]. by exists s.
  - intros f. rewrite (at_some_snoc _ _ _ _ Hs), elem_of_union, elem_of_list_to_set, Hnodes. done.
  - intros d. rewrite (at_some_snoc _ _ _ _ Hs), elem_of_union, Hedges. done.
Qed.

(** Choosing as many sequences as there are usable ones chooses all of them. *)
Lemma all_chosen st :
  choice_ok st ->
  size (already_chosen_sequences st) = length (usable_indices (length (api_sequences g))) ->
  all_covered st.
Proof.
  intros [Hnd Hset Huse Hnodes Hedges] Hsize s Hin Hu _ f Hf.
  apply list_elem_of_lookup_1 in Hin as (j & Hj). apply Hnodes. exists j, s.
  split_and!; [|done..].
  assert (Heq : already_chosen_sequences st =
    list_to_set (usable_indices (length (api_sequences g)))).
  { apply leibniz_equiv, set_subseteq_size_equiv.
    - rewrite Hset. intros x. rewrite !elem_of_list_to_set. intros (s' & Hs' & Hu')%Huse.
      apply elem_of_usable_indices. split; [by apply lookup_lt_Some in Hs'|eauto].
    - rewrite size_list_to_set by apply usable_indices_nodup. lia. }
  rewrite Hset in Heq. rewrite <- (elem_of_list_to_set (C := gset nat)), Heq, elem_of_list_to_set.
  apply elem_of_usable_indices. split; [by apply lookup_lt_Some in Hj|eauto].
Qed.

Lemma nodes_counted st (F : gset nat) :
  choice_ok st ->
  (forall f, f ∈ F <-> exists s, s ∈ api_sequences g /\ usableb s = true /\
     f ∈ _get_contained_api_functions s) ->
  size (chosen_nodes st) = size F -> all_covered st.
Proof.
  intros Hch HF Hsize s Hin Hu _ f Hf.
  assert (Heq : chosen_nodes st = F).
  { apply leibniz_equiv, set_subseteq_size_equiv; [|lia].
    intros x (j & s' & Hj & Hs' & Hx)%(ch_nodes _ Hch). apply HF. exists s'.
    destruct (ch_usable _ Hch j Hj) as (s'' & Hs'' & Hu'). rewrite Hs' in Hs''.
    injection Hs'' as <-. split_and!; [by eapply list_elem_of_lookup_2|done..]. }
  rewrite Heq. apply HF. eauto.
Qed.

Lemma edges_counted st :
  choice_ok st -> length (api_dependencies g) <> 0 ->
  size (chosen_edges st) = length (api_dependencies g) -> edges_covered st.
Proof using Hwf.
  intros Hch Hne Hsize. split; [by destruct (api_dependencies g)|]. intros d Hd.
  assert (Heq : chosen_edges st = set_seq 0 (length (api_dependencies g))).
  { apply leibniz_equiv, set_subseteq_size_equiv; [|rewrite size_set_seq; lia].
    intros x (j & s & Hj & Hs & Hx)%(ch_edges _ Hch). apply elem_of_set_seq.
    pose proof (wf_covered _ _ (seqs_wf _ _ Hs) x Hx). lia. }
  rewrite Heq. apply elem_of_set_seq. lia.
Qed.

Record step_inv (i : nat) (st : chosen) : Prop := {
  si_ok : choice_ok st;
  si_dynamic : try_to_find_dynamic_length_flag st = false -> dynamic_covered st;
  si_count : length (sorted_chosen_sequences st) +
             (if try_to_find_dynamic_length_flag st then 0 else 1) = i
}.

Lemma covered_class_choose st j s Q :
  covered_class st Q -> covered_class (choose st j s) Q.
Proof. intros Hc s' Hin Hu HQ f Hf. apply elem_of_union. right. by eapply Hc. Qed.

Lemma choose_step_returns stop F i st :
  (forall f, f ∈ F <-> exists s, s ∈ api_sequences g /\ usableb s = true /\
     f ∈ _get_contained_api_functions s) ->
  step_inv i st ->
  returns (choose_step g stop (size (F : gset nat)) (length (api_dependencies g))
             (length (usable_indices (length (api_sequences g)))) i st) (fun r =>
    match r with
    | Next st' => step_inv (S i) st'
    | Break st' => choice_ok st' /\ length (sorted_chosen_sequences st') <= S i /\
        (all_covered st' \/ edges_covered st')
    | Return _ => False
    end).
Proof using Hwf.
  intros HF [Hch Hdyn Hcount]. unfold choose_step.
  eapply returns_bind; [apply best_returns|]. intros b Hb.
  pose proof (nothing_new st b Hch Hb) as Hnew.
  destruct (try_to_find_dynamic_length_flag st && _) eqn:H1.
  { apply andb_true_iff in H1 as [Hflag H1%Nat.leb_le]. apply returns_ret.
    rewrite Hflag in *. split; [by destruct Hch| |cbn; lia].
    intros _. apply Hnew. lia. }
  destruct (negb (try_to_find_dynamic_length_flag st) && _ && _) eqn:H2.
  { apply andb_true_iff in H2 as [[Hflag _]%andb_true_iff H2%Nat.leb_le].
    apply negb_true_iff in Hflag. rewrite Hflag in *. apply returns_ret.
    split_and!; [done|lia|left]. intros s Hin Hu _ f Hf.
    destruct (_is_fuzzables_fixed_length s) eqn:Hfix.
    - apply (Hnew ltac:(lia) s); [done..|by rewrite Hfix|done].
    - by apply (Hdyn eq_refl s). }
  assert (exists s, eligible st (current_chosen_sequence_index b) s) as [s Hel].
  { destruct (be_choice _ _ _ Hb) as [(Hn & He & _)|(s & Hel & _)]; [exfalso|by exists s].
    rewrite Hn in H1, H2. rewrite He in H2. by destruct (try_to_find_dynamic_length_flag st). }
  pose proof (proj1 Hel) as Hs. unfold vec_index. rewrite Hs. cbn [unwrap mbind outcome_bind].
  pose proof (choose_ok st _ s Hch Hel) as Hch'.
  fold (choose st (current_chosen_sequence_index b) s).
  set (st' := choose st (current_chosen_sequence_index b) s) in *.
  assert (Hlen : length (sorted_chosen_sequences st') = S (length (sorted_chosen_sequences st))).
  { cbn. rewrite length_app. cbn. lia. }
  destruct (Nat.eqb_spec (size (already_chosen_sequences st'))
    (length (usable_indices (length (api_sequences g))))) as [Hall|_].
  { apply returns_ret. split_and!; [done|lia|left]. by apply all_chosen. }
  destruct (negb (length (api_dependencies g) =? 0) && _) eqn:H3.
  { apply andb_true_iff in H3 as [H3%negb_true_iff%Nat.eqb_neq H3'%Nat.eqb_eq].
    apply returns_ret. split_and!; [done|lia|right]. by apply edges_counted. }
  destruct (stop && _) eqn:H4.
  { apply andb_true_iff in H4 as [_ H4%Nat.eqb_eq].
    apply returns_ret. split_and!; [done|lia|left]. by apply (nodes_counted st' F). }
  apply returns_ret. split; [done| |].
  - intros Hflag. apply covered_class_choose, Hdyn, Hflag.
  - rewrite Hlen. change (try_to_find_dynamic_length_flag st') with
      (try_to_find_dynamic_length_flag st). lia.
Qed.

Lemma collect_selection st :
  choice_ok st ->
  returns (collect_sequences g (sorted_chosen_sequences st)) (fun ss =>
    selection g (sorted_chosen_sequences st) ss).
Proof.
  intros Hch. unfold selection, collect_sequences.
  eapply returns_mono.
  - apply (fold_loop_returns _ (fun pre ss =>
      Forall2 (fun i s => api_sequences g !! i = Some s) pre ss)); [constructor|].
    intros pre j post ss Heq Hss.
    destruct (ch_usable _ Hch j) as (s & Hs & _); [rewrite Heq; set_solver|].
    unfold vec_index. rewrite Hs. apply returns_ret, Forall2_app; [done|].
    by constructor; [|constructor].
  - intros ss Hss. split; [apply (ch_nodup _ Hch)|done].
Qed.

Lemma selection_some idxs ss (P : ApiSequence -> Prop) :
  selection g idxs ss -> at_some idxs P <-> exists s, s ∈ ss /\ P s.
Proof.
  intros [_ Hall]. split.
  - intros (j & s & Hj & Hs & HP). apply list_elem_of_lookup_1 in Hj as (n & Hn).
    destruct (Forall2_lookup_l _ _ _ _ _ Hall Hn) as (s' & Hn' & Hs'). rewrite Hs in Hs'.
    injection Hs' as <-. exists s. split; [by eapply list_elem_of_lookup_2|done].
  - intros (s & Hin & HP). apply list_elem_of_lookup_1 in Hin as (n & Hn).
    destruct (Forall2_lookup_r _ _ _ _ _ Hall Hn) as (j & Hj & Hs). exists j, s.
    split; [by eapply list_elem_of_lookup_2|done].
Qed.

(** The promise of a choice of at most [max_size + 1] targets. *)
Definition good_choice (max_size : nat) (res : list ApiSequence) : Prop :=
  (exists idxs, selection g idxs res) /\
  Forall (is_target g) res /\ length res <= S max_size /\
  ((forall s f, s ∈ api_sequences g -> is_target g s -> f ∈ _get_contained_api_functions s ->
      calls res f) \/
   (api_dependencies g <> [] /\ forall d, d < length (api_dependencies g) -> covers res d) \/
   max_size <= length res).

Lemma selection_good st max_size ss :
  choice_ok st -> selection g (sorted_chosen_sequences st) ss ->
  length (sorted_chosen_sequences st) <= S max_size ->
  all_covered st \/ edges_covered st \/ max_size <= length (sorted_chosen_sequences st) ->
  good_choice max_size ss.
Proof using Hwf.
  intros Hch Hsel Hlen Hcov. pose proof (Forall2_length _ _ _ (proj2 Hsel)) as Hl.
  split_and!; [by eexists| |lia|].
  - apply Forall_lookup. intros n s Hn.
    destruct (Forall2_lookup_r _ _ _ _ _ (proj2 Hsel) Hn) as (j & Hj & Hs).
    destruct (ch_usable _ Hch j) as (s' & Hs' & Hu); [by eapply list_elem_of_lookup_2|].
    rewrite Hs in Hs'. injection Hs' as <-. by apply (usable_spec s (seqs_wf _ _ Hs)).
  - destruct Hcov as [Hall|[[Hne Hedges]|Hmax]]; [left|right; left|right; right; lia].
    + intros s f Hin Hu Hf. apply (selection_some _ _ _ Hsel), (ch_nodes _ Hch).
      apply (Hall s); [done| |done..]. pose proof Hwf as Hw. rewrite Forall_forall in Hw.
      by apply (usable_spec s (Hw s Hin)).
    + split; [done|]. intros d Hd. by apply (selection_some _ _ _ Hsel), (ch_edges _ Hch), Hedges.
Qed.

Lemma nothing_chosen : choice_ok (mk_chosen ∅ ∅ ∅ [] true).
Proof.
  split; cbn; [apply NoDup_nil_2|done|by intros j ?%not_elem_of_nil|..]; intros x;
    (split; [set_solver|]); intros (j & s & Hj & _); by apply not_elem_of_nil in Hj.
Qed.

(** What the choice leaves behind. *)
Definition choice_made (max_size : nat) (st : chosen) : Prop :=
  choice_ok st /\ length (sorted_chosen_sequences st) <= S max_size /\
  (all_covered st \/ edges_covered st \/ max_size <= length (sorted_chosen_sequences st)).

Lemma heuristic_chosen_returns max_size stop :
  returns (heuristic_chosen max_size stop g) (fun r =>
    match r with
    | None => forall s, s ∈ api_sequences g -> ~ is_target g s
    | Some st => choice_made max_size st
    end).
Proof using Hwf.
  unfold heuristic_chosen. eapply returns_bind; [apply coverable_nodes_returns|].
  intros F HF. cbn beta in HF. cbn zeta. rewrite count_usable_spec.
  cbn [mbind outcome_bind].
  destruct (Nat.leb_spec (length (usable_indices (length (api_sequences g)))) 0) as [H0|H0].
  { apply returns_ret. intros s Hin Ht. pose proof Hwf as Hw. rewrite Forall_forall in Hw.
    apply (usable_spec s (Hw s Hin)) in Ht. apply list_elem_of_lookup_1 in Hin as (j & Hj).
    assert (j ∈ usable_indices (length (api_sequences g))) as Hju.
    { apply elem_of_usable_indices. split; [by apply lookup_lt_Some in Hj|eauto]. }
    destruct (usable_indices _); [by apply not_elem_of_nil in Hju|cbn in H0; lia]. }
  apply (returns_bind _ _ (choice_made max_size)); [|intros st Hst; by apply returns_ret].
  apply (run_loop_returns _ (fun pre st => step_inv (length pre) st)).
  - split; [apply nothing_chosen|done|done].
  - intros pre i post st Hseq Hinv.
    assert (seq 0 (max_size + 1) !! length pre = Some i) as Hi
      by (rewrite Hseq; by apply list_lookup_middle).
    apply lookup_seq in Hi as [Hi Hlt]. cbn in Hi. subst i.
    eapply returns_mono; [by apply choose_step_returns|].
    intros [st'|st'|e]; [|intros (? & ? & Hcov)|done].
    + by rewrite length_app, Nat.add_1_r.
    + split_and!; [done|lia|]. tauto.
  - intros st [Hch _ Hcount]. rewrite length_seq in Hcount. split; [done|].
    destruct (try_to_find_dynamic_length_flag st); split; try lia; right; right; lia.
Qed.

Lemma heuristic_choose_returns max_size stop :
  returns (_heuristic_choose max_size stop g) (good_choice max_size).
Proof using Hwf.
  unfold _heuristic_choose. eapply returns_bind; [apply heuristic_chosen_returns|].
  intros [st|] Hst.
  - destruct Hst as (Hch & Hlen & Hcov). eapply returns_mono; [by apply collect_selection|].
    intros ss Hsel. by apply (selection_good st).
  - apply returns_ret. split_and!; [|constructor|cbn; lia|].
    + exists []. split; constructor.
    + left. intros s f Hin Ht. by destruct (Hst s Hin).
Qed.
End heuristic.
End choose.

(** ** The first sequences, and a random choice *)

Lemma first_choose_returns g max_size :
  returns (_first_choose max_size g) (fun res =>
    res = take (Nat.max 1 max_size)
            (List.filter (fun s => negb (_has_no_fuzzables s)) (api_sequences g))).
Proof.
  set (keep := fun s => negb (_has_no_fuzzables s)). set (ss := api_sequences g).
  unfold _first_choose. fold ss.
  apply (run_loop_returns _ (fun pre res =>
    res = List.filter keep (take (length pre) ss) /\ length res < Nat.max 1 max_size)).
  - split; [done|cbn; lia].
  - intros pre i post res Hseq [-> Hlt].
    assert (seq 0 (length ss) !! length pre = Some i) as Hi
      by (rewrite Hseq; by apply list_lookup_middle).
    apply lookup_seq in Hi as [Hi Hil]. cbn in Hi. subst i.
    apply returns_bind_index; [done|]. intros s Hs.
    assert (Hnext : List.filter keep (take (S (length pre)) ss) =
      List.filter keep (take (length pre) ss) ++ (if _has_no_fuzzables s then [] else [s])).
    { rewrite (take_S_r _ _ s) by done. rewrite List.filter_app. cbn [List.filter].
      change (keep s) with (negb (_has_no_fuzzables s)). by destruct (_has_no_fuzzables s). }
    replace (length (pre ++ [length pre])) with (S (length pre)) by (rewrite length_app; cbn; lia).
    destruct (_has_no_fuzzables s).
    { apply returns_ret. rewrite Hnext, app_nil_r. done. }
    destruct (Nat.leb_spec max_size (length (List.filter keep (take (length pre) ss) ++ [s])))
      as [Hle|Hgt]; apply returns_ret; [|rewrite Hnext; split; [done|lia]].
    rewrite <- Hnext in *. rewrite <- (take_drop (S (length pre)) ss) at 2.
    assert (Hlen : length (List.filter keep (take (S (length pre)) ss)) <= Nat.max 1 max_size)
      by (rewrite Hnext, length_app; cbn; lia).
    assert (Hpos : 0 < length (List.filter keep (take (S (length pre)) ss)))
      by (rewrite Hnext, length_app; cbn; lia).
    rewrite List.filter_app, take_app_le by lia. symmetry. apply take_ge. lia.
  - intros res [-> Hlt]. rewrite length_seq, (firstn_all ss) in *. symmetry. apply take_ge. lia.
Qed.

Lemma random_choose_returns g rng max_size :
  (forall k low high, low < high -> low <= rng k low high < high) ->
  returns (_random_choose rng max_size g) (fun res => exists idxs, selection g idxs res /\
    length res = Nat.min max_size (length (api_sequences g))).
Proof.
  intros Hrng. set (total := length (api_sequences g)). unfold _random_choose. fold total.
  (** The positions drawn and the rest are the positions of all the sequences. *)
  set (Inv := fun (k : nat) (st : list ApiSequence * list nat) => exists idxs,
    idxs ++ st.2 ≡ₚ seq 0 total /\ Forall2 (fun i s => api_sequences g !! i = Some s) idxs st.1 /\
    length idxs = k).
  assert (Hdone : forall k st, Inv k st -> k = max_size \/ (st.2 = [] /\ k <= max_size) ->
    exists idxs, selection g idxs st.1 /\ length st.1 = Nat.min max_size total).
  { intros k st (idxs & Hperm & Hall & Hlen) Hk. exists idxs. split; [split; [|done]|].
    - apply (NoDup_app idxs st.2). rewrite Hperm. apply NoDup_seq.
    - pose proof (Permutation_length Hperm) as Hpl. rewrite length_app, length_seq in Hpl.
      pose proof (Forall2_length _ _ _ Hall).
      destruct Hk as [->|[Hnil ?]]; [|rewrite Hnil in Hpl; cbn in Hpl]; lia. }
  apply (returns_bind _ _ (fun st => exists idxs, selection g idxs st.1 /\
    length st.1 = Nat.min max_size total)); [|intros st Hst; by apply returns_ret].
  apply (run_loop_returns _ (fun pre st => Inv (length pre) st)).
  - exists []. split_and!; [done|constructor|done].
  - intros pre k post [res rest] Hseq (idxs & Hperm & Hall & Hlen). cbn [fst snd] in *.
    assert (Hle : length pre <= max_size).
    { apply (f_equal length) in Hseq. rewrite length_seq, length_app in Hseq. lia. }
    cbn zeta. destruct (Nat.leb_spec (length rest) 0) as [H0|H0].
    { apply returns_ret, (Hdone (length pre)); [by exists idxs|right].
      by destruct rest; [|cbn in H0; lia]. }
    apply gen_range_returns; [done..|]. intros ci Hci. apply returns_bind_index; [done|].
    intros si Hsi.
    assert (Hin : si < total).
    { assert (si ∈ seq 0 total) as Hin; [|apply elem_of_seq in Hin; lia].
      rewrite <- Hperm. apply elem_of_app. right. by eapply list_elem_of_lookup_2. }
    apply returns_bind_index; [done|]. intros s Hs. unfold vec_remove.
    rewrite decide_True by done. apply returns_ret. exists (idxs ++ [si]). cbn [fst snd].
    split_and!.
    + rewrite <- Hperm, <- app_assoc. f_equiv. symmetry. by apply delete_Permutation.
    + apply Forall2_app; [done|by constructor].
    + rewrite !length_app. cbn. lia.
  - intros st Hst. rewrite length_seq in Hst. apply (Hdone max_size); auto.
Qed.

(** ** Properties *)

(** C10: the heuristic choice never panics. The chosen targets are sequences of the graph at
    distinct positions, at most [max_size + 1] of them, each with something to decode
    and with every result but the last one needed; and unless every dependency is
    covered or [max_size] targets are chosen, every function that a usable sequence
    calls is called by a target. *)
Theorem heuristic_choice_covers_the_functions `{HashOrder} (g : ApiGraph) (max_size : nat)
    (stop_at_visit_all_nodes : bool) (Hwf : Forall (wf_sequence g) (api_sequences g)) :
  returns (_heuristic_choose max_size stop_at_visit_all_nodes g) (fun res =>
    (exists idxs, selection g idxs res) /\ Forall (is_target g) res /\
    length res <= S max_size /\
    ((forall s f, s ∈ api_sequences g -> is_target g s ->
        f ∈ _get_contained_api_functions s -> calls res f) \/
     (api_dependencies g <> [] /\
      forall d, d < length (api_dependencies g) -> covers res d) \/
     max_size <= length res)).
Proof. by apply heuristic_choose_returns. Qed.

(** The sample crate after a search of depth 2: the empty sequence, [new], [new; new],
    [new; get] and [new; set]. *)
Definition sample_searched : ApiGraph := ret_or sample_graph (bfs 2 true false sample_graph).

Lemma sample_searched_wf : Forall (wf_sequence sample_searched) (api_sequences sample_searched).
Proof.
  pose proof (bfs_returns sample_graph sample_deps_ok false 2 ltac:(lia)) as Hr.
  unfold sample_searched. destruct (bfs 2 true false sample_graph) as [g'| |]; try done.
  destruct Hr as [[Hs _ Hw] _ _ _]. eapply Forall_impl; [exact Hw|]. intros s Hwf.
  by apply (searched_wf sample_graph g' Hs).
Qed.

Lemma heuristic_choice_covers_the_functions_witness :
  exists t1 t2, _heuristic_choose (H := canonical_order) 3 true sample_searched = Ret [t1; t2] /\
    is_target sample_searched t1 /\ is_target sample_searched t2.
Proof.
  pose proof (heuristic_choice_covers_the_functions (H := canonical_order) sample_searched 3
    true sample_searched_wf) as Hr.
  assert (Hlen : length <$> _heuristic_choose (H := canonical_order) 3 true sample_searched =
    Ret 2) by (vm_compute; reflexivity).
  destruct (_heuristic_choose 3 true sample_searched) as [res| |]; [|destruct Hr|destruct Hr].
  destruct Hr as (_ & Hall & _). injection Hlen as Hlen.
  destruct res as [|t1 [|t2 [|]]]; try discriminate. exists t1, t2.
  split; [reflexivity|]. rewrite !Forall_cons in Hall. tauto.
Defined.

(** The choice made after a random walk takes the first sequences that decode
    something, in their order: [max_size] of them, and one even when [max_size] is 0. *)
Lemma first_choice_takes_the_first_sequences (g : ApiGraph) (max_size : nat) :
  returns (_first_choose max_size g) (fun res =>
    res = take (Nat.max 1 max_size)
            (List.filter (fun s => negb (_has_no_fuzzables s)) (api_sequences g))).
Proof. apply first_choose_returns. Qed.

(** The naive choice can panic: it flags the position of the chosen sequence among the
    candidates instead of its position in the graph, so that the flag can rule out the
    only candidate of another function; [gen_range] is then called on an empty range. *)
Lemma naive_choice_can_panic :
  exists rng, (forall k low high, low < high -> low <= rng k low high < high) /\
    _naive_choose_sequence rng 2 sample_searched = Panicked /\
    length (api_sequences sample_searched) = 5.
Proof.
  exists (fun k low high => if k =? 0 then high - 1 else low). split; [|split; by vm_compute].
  intros k low high Hlt. destruct (k =? 0); lia.
Qed.
