(* ===== verification/Messages.v ===== *)
(** What the generator prints on the terminal: the intermediate results
    ([fuzz_target/print_message.rs], [_AflHelpers::_print_all]) and the statistics of the
    backward search and of the choices ([fuzz_target/api_graph.rs]). *)

From S2P Require Import Prelude RustStd CleanTypes CallTypes PreludeTypes.
From S2P Require Import FuzzableTypes AflHelpers ApiUtil ModVisibility ApiFunction ApiSequence.
From S2P Require Import ApiGraph ItemSamples Samples SequenceWf Satisfy DeadCode SequenceText ApiSearch.
From S2P Require Import ApiChoose SearchCorrect ChooseCorrect.

(** ** Formatting

    [println!] adds a line to the text printed so far. *)
Definition println (line : string) : string := line +:+ nl.

Definition hex_digit (n : nat) : string :=
  String (Ascii.ascii_of_nat (if n <? 10 then 48 + n else 87 + n)) EmptyString.

(** [char::escape_debug], for ASCII; other characters are taken to be printable. *)
Definition escape_debug (c : Ascii.ascii) : string :=
  let n := Ascii.nat_of_ascii c in
  let backslash := String (Ascii.ascii_of_nat 92) EmptyString in
  if n =? 9 then backslash +:+ "t"
  else if n =? 13 then backslash +:+ "r"
  else if n =? 10 then backslash +:+ "n"
  else if (n =? 92) || (n =? 39) || (n =? 34) then backslash +:+ String c EmptyString
  else if (n <? 32) || (n =? 127) then
    backslash +:+ "u{" +:+ (if n <? 16 then "" else hex_digit (n / 16)) +:+ hex_digit (n mod 16) +:+ "}"
  else String c EmptyString.

(** [{:?}] of a string. *)
Definition debug_str (s : string) : string :=
  let quote := String (Ascii.ascii_of_nat 34) EmptyString in
  quote +:+ foldr (fun c r => escape_debug c +:+ r) quote (String.list_ascii_of_string s).

(** ** The results on the way *)
Section messages.
Context `{HashOrder}.
(** [{:?}] of a type: the code that [derive] generates. *)
Context (debug_type : Type_ -> string) (cache : gmap PrimitiveType DefId).

Fixpoint debug_call_type (c : CallType) : string :=
  match c with
  | _NotCompatible => "_NotCompatible"
  | _DirectCall => "_DirectCall"
  | _BorrowedRef c => "_BorrowedRef(" +:+ debug_call_type c +:+ ")"
  | _MutBorrowedRef c => "_MutBorrowedRef(" +:+ debug_call_type c +:+ ")"
  | _ConstRawPointer c t => "_ConstRawPointer(" +:+ debug_call_type c +:+ ", " +:+ debug_type t +:+ ")"
  | _MutRawPointer c t => "_MutRawPointer(" +:+ debug_call_type c +:+ ", " +:+ debug_type t +:+ ")"
  | _AsConvert s => "_AsConvert(" +:+ debug_str s +:+ ")"
  | _UnsafeDeref c => "_UnsafeDeref(" +:+ debug_call_type c +:+ ")"
  | _Deref c => "_Deref(" +:+ debug_call_type c +:+ ")"
  | _UnwrapResult c => "_UnwrapResult(" +:+ debug_call_type c +:+ ")"
  | _ToResult c => "_ToResult(" +:+ debug_call_type c +:+ ")"
  | _UnwrapOption c => "_UnwrapOption(" +:+ debug_call_type c +:+ ")"
  | _ToOption c => "_ToOption(" +:+ debug_call_type c +:+ ")"
  end.

Section graph.
Context (graph : ApiGraph).

Definition _print_pretty_sequences : outcome string :=
  fold_loop (fun api_sequence out =>
    one_sequence ← fold_loop (fun api_call one_sequence =>
      func ← (api_functions graph).[(func api_call).2];
      mret (one_sequence +:+ full_name func +:+ " ")) (functions api_sequence) "";
    mret (out +:+ println (debug_str one_sequence))) (api_sequences graph) (println "sequences:").

Definition _print_pretty_functions (check_visited : bool) : outcome string :=
  fold_loop (fun i out =>
    visited ← (if check_visited then (api_functions_visited graph).[i] else mret false);
    if visited : bool then mret out
    else
      api_function ← (api_functions graph).[i];
      let fn_line := _pretty_print api_function cache (full_name_map graph) in
      mret (out +:+ println (usize_to_string i +:+ ":" +:+ fn_line)))
    (seq 0 (length (api_functions graph))) (println "functions").

Definition _print_pretty_dependencies : outcome string :=
  fold_loop (fun dependency out =>
    output_fun ← (api_functions graph).[(output_fun dependency).2];
    input_fun ← (api_functions graph).[(input_fun dependency).2];
    let res := full_name output_fun +:+ " " +:+ full_name input_fun +:+ " "
                 +:+ usize_to_string (input_param_index dependency) +:+ " " in
    mret (out +:+ debug_str res +:+ println (debug_call_type (dep_call_type dependency))))
    (api_dependencies graph)
    (println "dependencies:"
       +:+ println ("function number: " +:+ usize_to_string (length (api_functions graph)))).

(** The loop of the three functions that print the texts of the sequences. *)
Definition print_texts (text : ApiSequence -> nat -> outcome string) (title : string)
    : outcome string :=
  fold_loop (fun i out =>
    api_sequence ← (api_sequences graph).[i];
    t ← text api_sequence i;
    mret (out +:+ println t)) (seq 0 (length (api_sequences graph))) (println title).

Definition _print_generated_test_functions : outcome string :=
  print_texts (fun api_sequence i => _to_well_written_function cache api_sequence graph i 0)
    "test_functions:".
Definition _print_generated_afl_file : outcome string :=
  print_texts (fun api_sequence i => _to_afl_test_file cache api_sequence graph i) "afl_files:".
Definition _print_generated_libfuzzer_file : outcome string :=
  print_texts (fun api_sequence i => _to_libfuzzer_test_file cache api_sequence graph i)
    "libfuzzer files".

Definition _print_generic_functions : string :=
  foldl (fun out generic_function => out +:+ println (full_name (api_function generic_function)))
    (println "generic functions") (generic_functions graph).
End graph.
End messages.

(** [_AflHelpers::_print_all]. *)
Definition _print_all : string :=
  foldl (fun out text => out +:+ println text) (println "afl helper functions: ")
    [_data_to_u8; _data_to_i8; _data_to_u16; _data_to_i16; _data_to_u32; _data_to_i32;
     _data_to_u64; _data_to_i64; _data_to_u128; _data_to_i128; _data_to_usize; _data_to_isize;
     _data_to_char; _data_to_bool; _data_to_str; _data_to_slice; _data_to_f32; _data_to_f64].

(** ** Statistics *)

(** The loops that insert the nodes and edges of sequences into a set. *)
Definition covered_nodes (sequences : list ApiSequence) : gset nat :=
  foldl (fun covered sequence =>
    foldl (fun covered cover_node => {[cover_node]} ∪ covered) covered
      (_get_contained_api_functions sequence)) ∅ sequences.
Definition covered_edges (sequences : list ApiSequence) : gset nat :=
  foldl (fun covered sequence => _covered_dependencies sequence ∪ covered) ∅ sequences.

Definition total_length (sequences : list ApiSequence) : nat :=
  foldl (fun total_length sequence => total_length + len sequence) 0 sequences.

Definition line_of (label : string) (n : nat) : string := println (label +:+ usize_to_string n).

Section statistics.
(** [{}] of the quotient of two numbers as [f64]. *)
Context (show_quotient : nat -> nat -> string).

(** After the backward search: the sequences that decode nothing are skipped. *)
Definition backward_statistics (g : ApiGraph) : string :=
  let sequences := List.filter (fun sequence => negb (_has_no_fuzzables sequence)) (api_sequences g) in
  println "after backward search"
    +:+ line_of "targets = " (length sequences)
    +:+ line_of "total length = " (total_length sequences)
    +:+ println ("average time to visit = "
          +:+ show_quotient (total_length sequences) (size (covered_nodes sequences)))
    +:+ line_of "edge covered by reverse search = " (size (covered_edges sequences)).

(** Of the random choice ([who] is [Random selection]) and the first one ([Random walk]). *)
Definition choice_statistics (who : string) (res : list ApiSequence) : string :=
  println "-----------STATISTICS-----------"
    +:+ println (who +:+ " selected " +:+ usize_to_string (length res) +:+ " targets")
    +:+ println (who +:+ " covered " +:+ usize_to_string (size (covered_nodes res)) +:+ " nodes")
    +:+ println (who +:+ " covered " +:+ usize_to_string (size (covered_edges res)) +:+ " edges")
    +:+ println "--------------------------------".

(** The loop over the chosen sequences: how many are longer than 3, and the longest of these. *)
Definition reverse_statistics (res : list ApiSequence) : nat * nat :=
  foldl (fun '(covered_by_reverse_search, max_length) api_sequence =>
    if 3 <? len api_sequence then
      (covered_by_reverse_search + 1,
       if max_length <? len api_sequence then len api_sequence else max_length)
    else (covered_by_reverse_search, max_length)) (0, 0) res.

Definition valid_api_number (g : ApiGraph) : nat :=
  foldl (fun n api_function_ =>
    if negb (contains_unsupported_fuzzable_type api_function_ (full_name_map g)) then n + 1 else n)
    0 (api_functions g).

(** What [_heuristic_choose] prints at its end, for the state of its loops. *)
Definition heuristic_statistics (g : ApiGraph) (st : chosen) : outcome string :=
  res ← collect_sequences g (sorted_chosen_sequences st);
  let covered_node_num := size (chosen_nodes st) in
  let covered_edges_num := size (chosen_edges st) in
  let '(covered_by_reverse_search, max_length) := reverse_statistics res in
  mret (println "-----------STATISTICS-----------"
    +:+ line_of "total nodes: " (length (api_functions g))
    +:+ line_of "total edges: " (length (api_dependencies g))
    +:+ line_of "covered nodes: " covered_node_num
    +:+ line_of "covered edges: " covered_edges_num
    +:+ println ("node coverage: " +:+ show_quotient covered_node_num (valid_api_number g))
    +:+ println ("edge coverage: " +:+ show_quotient covered_edges_num (length (api_dependencies g)))
    +:+ line_of "targets covered by reverse search: " covered_by_reverse_search
    +:+ line_of "total targets: " (length res)
    +:+ line_of "max length = " max_length
    +:+ line_of "total length = " (total_length res)
    +:+ println ("average time to fuzz each api = "
          +:+ show_quotient (total_length res) covered_node_num)
    +:+ println "--------------------------------").
End statistics.

(** ** What is printed

    Nothing panics on a graph with well-formed sequences and dependencies. *)
Lemma messages_are_printed `{HashOrder} debug_type cache (g : ApiGraph) :
  deps_ok g -> Forall (wf_sequence g) (api_sequences g) ->
  length (api_functions_visited g) = length (api_functions g) ->
  returns (_print_pretty_sequences g) (fun _ => True) /\
  (forall check_visited, returns (_print_pretty_functions cache g check_visited) (fun _ => True)) /\
  returns (_print_pretty_dependencies debug_type g) (fun _ => True) /\
  returns (_print_generated_test_functions cache g) (fun _ => True) /\
  returns (_print_generated_afl_file cache g) (fun _ => True) /\
  returns (_print_generated_libfuzzer_file cache g) (fun _ => True).
Proof.
  intros Hdeps Hwf Hvis. rewrite Forall_lookup in Hwf.
  assert (Htexts : forall text title,
    (forall i s, api_sequences g !! i = Some s -> returns (text s i) (fun _ => True)) ->
    returns (print_texts g text title) (fun _ => True)).
  { intros text title Htext. apply (fold_loop_returns _ (fun _ _ => True)); [done|].
    intros pre i post out Hseq _. assert (Hi : i ∈ seq 0 (length (api_sequences g))) by (rewrite Hseq; set_solver).
    apply elem_of_seq in Hi. apply returns_bind_index; [lia|]. intros s Hs.
    eapply returns_bind; [by apply Htext|]. intros t _. by apply returns_ret. }
  split_and!.
  - apply (fold_loop_returns _ (fun _ _ => True)); [done|]. intros pre s post out Hss _.
    eapply (returns_bind _ _ (fun _ => True)); [|intros one _; by apply returns_ret].
    apply (fold_loop_returns _ (fun _ _ => True)); [done|]. intros pre' c post' one Hcs _.
    assert (Hs : api_sequences g !! length pre = Some s) by (rewrite Hss; by apply list_lookup_middle).
    assert (Hc : functions s !! length pre' = Some c) by (rewrite Hcs; by apply list_lookup_middle).
    destruct (wf_calls _ _ (Hwf _ _ Hs) _ _ Hc) as (f & Hf & _).
    eapply returns_bind_unwrap; [exact Hf|]. by apply returns_ret.
  - intros check_visited. apply (fold_loop_returns _ (fun _ _ => True)); [done|].
    intros pre i post out Hseq _. assert (Hi : i ∈ seq 0 (length (api_functions g))) by (rewrite Hseq; set_solver).
    apply elem_of_seq in Hi. apply (returns_bind _ _ (fun _ => True)).
    { destruct check_visited; [apply returns_index; [lia|done]|by apply returns_ret]. }
    intros [] _; [by apply returns_ret|]. apply returns_bind_index; [lia|]. intros f Hf. by apply returns_ret.
  - apply (fold_loop_returns _ (fun _ _ => True)); [done|]. intros pre d post out Hds _.
    assert (Hd : d ∈ api_dependencies g) by (rewrite Hds; set_solver).
    unfold deps_ok in Hdeps. rewrite Forall_forall in Hdeps.
    destruct (Hdeps d Hd) as (f1 & f2 & T & I & Hf1 & _ & Hf2 & _).
    eapply returns_bind_unwrap; [exact Hf1|]. eapply returns_bind_unwrap; [exact Hf2|]. by apply returns_ret.
  - apply Htexts. intros i s Hs. by apply well_written_returns, (Hwf i).
  - apply Htexts. intros i s Hs. by apply files_return, (Hwf i).
  - apply Htexts. intros i s Hs. by apply files_return, (Hwf i).
Qed.

(** *** The statistics are those of the chosen targets *)
Lemma elem_of_covered_nodes ss f :
  f ∈ covered_nodes ss <-> exists s, s ∈ ss /\ f ∈ _get_contained_api_functions s.
Proof.
  assert (Hin : forall fs (c : gset nat), f ∈ foldl (fun covered x => {[x]} ∪ covered) c fs <-> f ∈ c \/ f ∈ fs).
  { induction fs as [|x fs IH]; intros c; cbn; [set_solver|]. rewrite IH. set_solver. }
  assert (Hall : forall (c : gset nat), f ∈ foldl (fun covered sequence =>
    foldl (fun covered x => {[x]} ∪ covered) covered (_get_contained_api_functions sequence)) c ss <->
    f ∈ c \/ exists s, s ∈ ss /\ f ∈ _get_contained_api_functions s).
  { induction ss as [|s ss IH]; intros c; cbn; [set_solver|]. rewrite IH, Hin. set_solver. }
  unfold covered_nodes. rewrite Hall. set_solver.
Qed.

Lemma elem_of_covered_edges ss d :
  d ∈ covered_edges ss <-> exists s, s ∈ ss /\ d ∈ _covered_dependencies s.
Proof.
  assert (Hall : forall (c : gset nat), d ∈ foldl (fun covered sequence =>
    _covered_dependencies sequence ∪ covered) c ss <-> d ∈ c \/ exists s, s ∈ ss /\ d ∈ _covered_dependencies s).
  { induction ss as [|s ss IH]; intros c; cbn; [set_solver|]. rewrite IH. set_solver. }
  unfold covered_edges. rewrite Hall. set_solver.
Qed.

(** The numbers of nodes and edges that the heuristic choice prints are those of the targets
    that it returns. *)
Lemma heuristic_statistics_are_true `{HashOrder} (g : ApiGraph) (max_size : nat) (stop : bool) :
  Forall (wf_sequence g) (api_sequences g) ->
  returns (heuristic_chosen max_size stop g) (fun r =>
    match r with
    | None => _heuristic_choose max_size stop g = Ret []
    | Some st => exists res, _heuristic_choose max_size stop g = Ret res /\
        chosen_nodes st = covered_nodes res /\ chosen_edges st = covered_edges res
    end).
Proof.
  intros Hwf. unfold _heuristic_choose.
  pose proof (heuristic_chosen_returns g Hwf max_size stop) as Hr.
  destruct (heuristic_chosen max_size stop g) as [[st|]| |]; cbn; try done.
  destruct Hr as (Hch & _). pose proof (collect_selection g Hwf st Hch) as Hc.
  destruct (collect_sequences g _) as [res| |]; try done. exists res. split; [done|].
  split; apply set_eq; intros x.
  - rewrite (ch_nodes _ _ Hch), elem_of_covered_nodes. by apply selection_some.
  - rewrite (ch_edges _ _ Hch), elem_of_covered_edges. by apply selection_some.
Qed.

(** What is called the maximal length is that of the targets longer than 3, and 0 without. *)
Lemma short_targets_have_no_length (res : list ApiSequence) :
  Forall (fun s => len s <= 3) res -> reverse_statistics res = (0, 0).
Proof.
  unfold reverse_statistics. generalize (0, 0) as acc. intros acc H. revert acc.
  induction H as [|s res Hs _ IH]; intros [n m]; [done|]. cbn [foldl].
  destruct (Nat.ltb_spec 3 (len s)); [lia|apply IH].
Qed.
