(* ===== verification/FileUtil.v ===== *)
(** The files of a crate's fuzz targets ([fuzz_target/file_util.rs]): which crates get
    them, the [FileHelper] that holds their texts, and their writing: the directories of the
    targets hold exactly the emitted files, whatever they held before. *)

From S2P Require Import Prelude RustStd FileSystem CleanTypes CallTypes PreludeTypes.
From S2P Require Import FuzzableTypes ApiUtil ModVisibility ApiFunction ApiSequence.
From S2P Require Import ApiGraph Samples SequenceWf Satisfy DeadCode SequenceText.
From S2P Require Import ApiSearch SearchCorrect BackwardSearch ApiChoose ChooseCorrect.

(** ** Directories and limits *)

Definition CRATE_TEST_DIR : gmap string string := {[
  "url" := "/home/jjf/afl_fast_work/url_afl_work";
  "regex_syntax" := "/home/jjf/afl_fast_work/regex-syntax-afl-work";
  "semver_parser" := "/home/jjf/afl_fast_work/semver-parser-afl-work";
  "bat" := "/home/jjf/afl_fast_work/bat-afl-work";
  "xi_core_lib" := "/home/jjf/afl_fast_work/xi-core-lib-afl-work";
  "proc_macro2" := "/home/jjf/afl_fast_work/proc-macro2-afl-work";
  "clap" := "/home/jjf/afl_fast_work/clap-afl-work";
  "regex" := "/home/jjf/afl_fast_work/regex-afl-work";
  "serde_json" := "/home/jjf/afl_fast_work/serde-json-afl-work";
  "tui" := "/home/jjf/afl_fast_work/tui-afl-work";
  "semver" := "/home/jjf/afl_fast_work/semver-afl-work";
  "http" := "/home/jjf/afl_fast_work/http-afl-work"]}
  ∪ {[
  "flate2" := "/home/jjf/afl_fast_work/flate2-afl-work";
  "time" := "/home/jjf/afl_fast_work/time-afl-work";
  "fudge_like_url" := "/home/jjf/fudge_like_work/url-work";
  "fudge_like_regex" := "/home/jjf/fudge_like_work/regex-work";
  "fudge_like_time" := "/home/jjf/fudge_like_work/time-work";
  "fudge_regex" := "/home/jjf/fudge_work/regex-work";
  "fudge_url" := "/home/jjf/fudge_work/url-work";
  "fudge_time" := "/home/jjf/fudge_work/time-work"]}.

Definition RANDOM_TEST_DIR : gmap string string := {[
  "regex" := "/home/jjf/random_work/regex-work";
  "url" := "/home/jjf/random_work/url-work";
  "time" := "/home/jjf/random_work/time-work"]}.

Definition LIBFUZZER_FUZZ_TARGET_DIR : gmap string string := {[
  "url" := "/home/jjf/libfuzzer_work/url-libfuzzer-targets";
  "regex_syntax" := "/home/jjf/libfuzzer_work/regex-syntax-libfuzzer-targets";
  "syn" := "/home/jjf/libfuzzer_work/syn-libfuzzer-targets";
  "semver_parser" := "/home/jjf/libfuzzer_work/sem-libfuzzer-targets"]}.

Definition RANDOM_TEST_FILE_NUMBERS : gmap string nat :=
  {["url" := 61; "regex" := 67; "time" := 118]}.

Definition _TEST_FILE_DIR : string := "test_files".
Definition _REPRODUCE_FILE_DIR : string := "replay_files".
Definition _LIBFUZZER_DIR_NAME : string := "libfuzzer_files".
Definition MAX_TEST_FILE_NUMBER : nat := 300.
Definition DEFAULT_RANDOM_FILE_NUMBER : nat := 100.

Definition can_write_to_file (crate_name : string) (random_strategy : bool) : bool :=
  if negb random_strategy && bool_decide (is_Some (CRATE_TEST_DIR !! crate_name)) then true
  else if random_strategy && bool_decide (is_Some (RANDOM_TEST_DIR !! crate_name)) then true
  else false.

Definition can_generate_libfuzzer_target (crate_name : string) : bool :=
  bool_decide (is_Some (LIBFUZZER_FUZZ_TARGET_DIR !! crate_name)).

(** ** [FileHelper] *)

Record FileHelper := mk_FileHelper {
  crate_name : string;
  test_dir : string;
  test_files : list string;
  reproduce_files : list string;
  libfuzzer_files : list string
}.

(** The variables of the loop over the chosen sequences. *)
Record emitted := mk_emitted {
  sequence_count : nat;
  em_test : list string;
  em_reproduce : list string;
  em_libfuzzer : list string
}.

Section FileHelper.
Context `{HashOrder} (cache : gmap PrimitiveType DefId).

Definition emit_sequence (api_graph : ApiGraph) (sequence : ApiSequence) (st : emitted)
    : outcome (flow emitted Empty_set) :=
  if MAX_TEST_FILE_NUMBER <=? sequence_count st then mret (Break st)
  else
    test_file ← _to_afl_test_file cache sequence api_graph (sequence_count st);
    reproduce_file ← _to_replay_crash_file cache sequence api_graph (sequence_count st);
    libfuzzer_file ← _to_libfuzzer_test_file cache sequence api_graph (sequence_count st);
    mret (Next {| sequence_count := sequence_count st + 1;
                  em_test := em_test st ++ [test_file];
                  em_reproduce := em_reproduce st ++ [reproduce_file];
                  em_libfuzzer := em_libfuzzer st ++ [libfuzzer_file] |}).

Definition chosen_sequences (api_graph : ApiGraph) (random_strategy : bool)
    : outcome (list ApiSequence) :=
  if negb random_strategy then _heuristic_choose MAX_TEST_FILE_NUMBER true api_graph
  else
    let random_size :=
      match RANDOM_TEST_FILE_NUMBERS !! _crate_name api_graph with
      | Some n => n
      | None => DEFAULT_RANDOM_FILE_NUMBER
      end in
    _first_choose random_size api_graph.

Definition FileHelper_new (api_graph : ApiGraph) (random_strategy : bool)
    : outcome FileHelper :=
  let name := _crate_name api_graph in
  dir ← unwrap (if negb random_strategy then CRATE_TEST_DIR !! name else RANDOM_TEST_DIR !! name);
  sequences ← chosen_sequences api_graph random_strategy;
  st ← run_loop (emit_sequence api_graph) sequences (mk_emitted 0 [] [] []);
  mret {| crate_name := name; test_dir := dir; test_files := em_test st;
          reproduce_files := em_reproduce st; libfuzzer_files := em_libfuzzer st |}.
End FileHelper.

(** ** Writing *)

Definition ensure_empty_dir (p : path) (fs : Fs) : outcome Fs :=
  fs ← (if is_file fs p then remove_file fs p else mret fs);
  fs ← (if is_dir fs p then remove_dir_all fs p else mret fs);
  create_dir_all fs p.

Definition file_name (prefix crate_name : string) (i : nat) : string :=
  prefix +:+ "_" +:+ crate_name +:+ usize_to_string i +:+ ".rs".

Definition write_to_files (crate_name : string) (p : path) (contents : list string)
    (prefix : string) (fs : Fs) : outcome Fs :=
  fold_loop (fun i fs =>
    content ← contents.[i];
    write_file fs (path_join p (file_name prefix crate_name i)) content)
    (seq 0 (length contents)) fs.

Definition write_files (self : FileHelper) (fs : Fs) : outcome Fs :=
  let test_path := path_from (test_dir self) in
  fs ← (if is_file fs test_path then remove_file fs test_path else mret fs);
  let test_file_path := path_join test_path _TEST_FILE_DIR in
  fs ← ensure_empty_dir test_file_path fs;
  let reproduce_file_path := path_join test_path _REPRODUCE_FILE_DIR in
  fs ← ensure_empty_dir reproduce_file_path fs;
  fs ← write_to_files (crate_name self) test_file_path (test_files self) "test" fs;
  write_to_files (crate_name self) reproduce_file_path (reproduce_files self) "replay" fs.

Definition write_libfuzzer_files (self : FileHelper) (fs : Fs) : outcome Fs :=
  libfuzzer_dir ← unwrap (LIBFUZZER_FUZZ_TARGET_DIR !! crate_name self);
  let libfuzzer_path := path_from libfuzzer_dir in
  fs ← (if is_file fs libfuzzer_path then remove_file fs libfuzzer_path else mret fs);
  let libfuzzer_files_path := path_join libfuzzer_path _LIBFUZZER_DIR_NAME in
  fs ← ensure_empty_dir libfuzzer_files_path fs;
  write_to_files (crate_name self) libfuzzer_files_path (libfuzzer_files self) "fuzz_target" fs.

(** ** The files are the texts of the chosen sequences *)
Section files.
Context `{HashOrder} (cache : gmap PrimitiveType DefId) (g : ApiGraph).
Context (Hwf : Forall (wf_sequence g) (api_sequences g)).

(** [texts] are the texts of the first sequences of [ss], each with its index. *)
Definition texts_of (emit : ApiSequence -> ApiGraph -> nat -> outcome string)
    (ss : list ApiSequence) (texts : list string) : Prop :=
  length texts = Nat.min MAX_TEST_FILE_NUMBER (length ss) /\
  forall i text, texts !! i = Some text -> exists s, ss !! i = Some s /\ emit s g i = Ret text.

Definition helper_ok (ss : list ApiSequence) (h : FileHelper) : Prop :=
  texts_of (_to_afl_test_file cache) ss (test_files h) /\
  texts_of (_to_replay_crash_file cache) ss (reproduce_files h) /\
  texts_of (_to_libfuzzer_test_file cache) ss (libfuzzer_files h).

(** The texts of the sequences [pre], which are few enough. *)
Definition texts_so_far (emit : ApiSequence -> ApiGraph -> nat -> outcome string)
    (pre : list ApiSequence) (texts : list string) : Prop :=
  length texts = length pre /\
  forall i text, texts !! i = Some text -> exists s, pre !! i = Some s /\ emit s g i = Ret text.

Lemma texts_snoc emit pre texts s text :
  texts_so_far emit pre texts -> emit s g (length pre) = Ret text ->
  texts_so_far emit (pre ++ [s]) (texts ++ [text]).
Proof.
  intros [Hlen Hall] Hs. split; [rewrite !length_app; cbn; lia|].
  intros i t [[_ Ht]|[Hi Ht]]%lookup_snoc_Some.
  - destruct (Hall i t Ht) as (s' & Hs' & Ht'). exists s'. split; [|done].
    rewrite lookup_app_l; [done|]. by apply lookup_lt_Some in Hs'.
  - subst i t. rewrite Hlen. exists s. split; [by apply list_lookup_middle|done].
Qed.

Lemma texts_done emit pre post texts :
  texts_so_far emit pre texts -> length pre = Nat.min MAX_TEST_FILE_NUMBER (length (pre ++ post)) ->
  texts_of emit (pre ++ post) texts.
Proof.
  intros [Hlen Hall] Hpre. split; [lia|]. intros i t (s & Hs & Ht)%Hall. exists s.
  split; [|done]. rewrite lookup_app_l; [done|]. by apply lookup_lt_Some in Hs.
Qed.

Lemma emit_sequences_returns ss :
  Forall (wf_sequence g) ss ->
  returns (run_loop (emit_sequence cache g) ss (mk_emitted 0 [] [] [])) (fun st =>
    texts_of (_to_afl_test_file cache) ss (em_test st) /\
    texts_of (_to_replay_crash_file cache) ss (em_reproduce st) /\
    texts_of (_to_libfuzzer_test_file cache) ss (em_libfuzzer st)).
Proof.
  intros Hss. apply (run_loop_returns _ (fun pre st =>
    sequence_count st = length pre /\ length pre <= MAX_TEST_FILE_NUMBER /\
    texts_so_far (_to_afl_test_file cache) pre (em_test st) /\
    texts_so_far (_to_replay_crash_file cache) pre (em_reproduce st) /\
    texts_so_far (_to_libfuzzer_test_file cache) pre (em_libfuzzer st))).
  - split_and!; [done|cbn; lia|..]; by split.
  - intros pre s post st Heq (Hc & Hle & H1 & H2 & H3). unfold emit_sequence. rewrite Hc.
    destruct (Nat.leb_spec MAX_TEST_FILE_NUMBER (length pre)) as [Hmax|Hmax].
    { apply returns_ret. rewrite Heq.
      split_and!; (apply texts_done; [done|rewrite length_app; lia]). }
    assert (Hs : wf_sequence g s).
    { rewrite Forall_forall in Hss. apply Hss. rewrite Heq. set_solver. }
    destruct (files_return cache g s (length pre) Hs) as (F1 & F2 & F3).
    apply returns_exists in F1 as (t1 & F1 & _), F2 as (t2 & F2 & _), F3 as (t3 & F3 & _).
    rewrite F1. cbn [mbind outcome_bind]. rewrite F2. cbn [mbind outcome_bind].
    rewrite F3. cbn [mbind outcome_bind]. apply returns_ret. cbn.
    rewrite length_app. cbn. split_and!; [lia..| | |]; by apply texts_snoc.
  - intros st (Hc & Hle & H1 & H2 & H3). rewrite <- (app_nil_r ss).
    split_and!; (apply texts_done; [done|rewrite app_nil_r; lia]).
Qed.

Lemma good_choice_wf m ss : good_choice g m ss -> Forall (wf_sequence g) ss.
Proof using Hwf.
  intros ((idxs & _ & Hall) & _). apply Forall_lookup. intros n s Hn.
  destruct (Forall2_lookup_r _ _ _ _ _ Hall Hn) as (j & _ & Hs).
  pose proof Hwf as Hw. rewrite Forall_lookup in Hw. by apply (Hw j).
Qed.

Lemma FileHelper_new_returns dir :
  CRATE_TEST_DIR !! _crate_name g = Some dir ->
  returns (FileHelper_new cache g false) (fun h =>
    crate_name h = _crate_name g /\ test_dir h = dir /\
    exists ss, good_choice g MAX_TEST_FILE_NUMBER ss /\ helper_ok ss h).
Proof using Hwf.
  intros Hdir. unfold FileHelper_new. cbn [negb]. cbn zeta.
  eapply returns_bind_unwrap; [exact Hdir|].
  eapply returns_bind; [by apply heuristic_choose_returns|]. intros ss Hss.
  eapply returns_bind; [apply emit_sequences_returns; by eapply good_choice_wf|].
  intros st Hst. apply returns_ret. split_and!; [done..|]. by exists ss.
Qed.
End files.


(** ** Emptying a directory *)

(** What emptying the directory [p] leaves. *)
Record emptied (p : path) (fs fs' : Fs) : Prop := {
  em_dirs : forall n, 0 < n <= length p -> fs' !! take n p = Some Dir;
  em_empty : forall q, below p q -> fs' !! q = None;
  em_other : forall q, ~ p `prefix_of` q -> (forall n, 0 < n <= length p -> take n p <> q) ->
    fs' !! q = fs !! q
}.

Lemma ensure_empty_dir_returns fs p :
  fs_wf fs -> p <> [] -> no_file_above fs p ->
  returns (ensure_empty_dir p fs) (emptied p fs).
Proof.
  intros Hwf Hp Hno. unfold ensure_empty_dir.
  (** After the removals nothing is left at [p] or below. *)
  apply (returns_bind _ _ (fun fs1 => (forall c, fs1 !! p <> Some (File c)) /\
    (fs1 !! p = None -> forall q, below p q -> fs1 !! q = None) /\
    forall q, q <> p -> fs1 !! q = fs !! q)).
  { destruct (is_file fs p) eqn:Hf.
    - unfold remove_file. rewrite Hf. apply returns_ret. split_and!.
      + intros c. by rewrite lookup_delete_eq.
      + intros _ q Hq. rewrite lookup_delete_ne by (intros <-; by eapply below_irrefl).
        destruct (fs !! q) eqn:Hs; [|done].
        assert (fs !! p = Some Dir) as Hd by (eapply fs_wf_below; [done..|by rewrite Hs]).
        apply is_file_spec in Hf as [c Hc]. congruence.
      + intros q Hq. by rewrite lookup_delete_ne.
    - apply returns_ret. split_and!; [|intros Hn q Hq|done].
      + intros c Hc. assert (is_file fs p = true) by (apply is_file_spec; eauto). congruence.
      + destruct (fs !! q) eqn:Hs; [|done].
        assert (fs !! p = Some Dir) as Hd by (eapply fs_wf_below; [done..|by rewrite Hs]).
        congruence. }
  intros fs1 (Hnofile & Hbelow & Hsame1).
  apply (returns_bind _ _ (fun fs2 => (forall q, p `prefix_of` q -> fs2 !! q = None) /\
    forall q, ~ p `prefix_of` q -> fs2 !! q = fs !! q)).
  { assert (Hout : forall q, ~ p `prefix_of` q -> fs1 !! q = fs !! q)
      by (intros q Hq; apply Hsame1; by intros ->).
    destruct (is_dir fs1 p) eqn:Hd.
    - unfold remove_dir_all. rewrite Hd. apply returns_ret. split; intros q Hq.
      + apply map_lookup_filter_None. right. intros nd _ Hn. by apply Hn.
      + rewrite <- Hout by done. destruct (fs1 !! q) as [nd|] eqn:Hs.
        * by apply map_lookup_filter_Some.
        * apply map_lookup_filter_None. by left.
    - apply returns_ret. split; [|done].
      assert (Hnone : fs1 !! p = None).
      { destruct (fs1 !! p) as [[c|]|] eqn:Hs; [by destruct (Hnofile c)| |done].
        apply is_dir_spec in Hs. congruence. }
      intros q [->|Hq]%prefix_below; auto. }
  intros fs2 (Hgone & Hout). eapply returns_mono; [apply create_dir_all_returns|].
  - intros n Hn. apply not_true_iff_false. rewrite is_file_spec. intros (c & Hc).
    destruct (decide (n = length p)) as [->|Hne].
    + rewrite firstn_all, Hgone in Hc by done. done.
    + rewrite Hout in Hc.
      * assert (is_file fs (take n p) = true) as Hf by (apply is_file_spec; eauto).
        rewrite Hno in Hf by lia. done.
      * intros Hpre%prefix_length. rewrite length_take in Hpre. lia.
  - intros fs' [Hdirs Hrest]. split; [done| |].
    + intros q Hq. rewrite Hrest by (intros; by apply not_below_take). apply Hgone.
      destruct Hq as (x & r & ->). by apply prefix_app_r.
    + intros q Hq Hn. by rewrite Hrest, Hout.
Qed.

(** ** Writing the files *)

Lemma file_name_inj prefix crate i j :
  file_name prefix crate i = file_name prefix crate j -> i = j.
Proof.
  unfold file_name. intros Heq%String.app_inj%String.app_inj%String.app_inj.
  apply str_app_inj_r in Heq. by apply pretty_nat_inj in Heq.
Qed.

(** The directory [p] holds the files of [contents] and nothing else. *)
Definition holds_exactly (fs : Fs) (p : path) (prefix crate : string) (contents : list string)
    : Prop :=
  forall q nd, below p q -> fs !! q = Some nd <->
    exists i c, contents !! i = Some c /\ q = path_join p (file_name prefix crate i) /\ nd = File c.

Lemma write_to_files_returns fs p prefix crate contents :
  p <> [] -> fs !! p = Some Dir -> (forall q, below p q -> fs !! q = None) ->
  returns (write_to_files crate p contents prefix fs) (fun fs' =>
    holds_exactly fs' p prefix crate contents /\ forall q, ~ below p q -> fs' !! q = fs !! q).
Proof.
  intros Hp Hdir Hempty. unfold write_to_files.
  eapply returns_mono.
  - apply (fold_loop_returns _ (fun pre fs' =>
      holds_exactly fs' p prefix crate (take (length pre) contents) /\
      forall q, ~ below p q -> fs' !! q = fs !! q)).
    { split; [|done]. intros q nd Hq. rewrite Hempty by done.
      split; [done|]. by intros (i & c & Hi & _). }
    intros pre i post fs' Hseq [Hhold Hsame].
    assert (seq 0 (length contents) !! length pre = Some i) as Hi
      by (rewrite Hseq; by apply list_lookup_middle).
    apply lookup_seq in Hi as [Hi Hlt]. cbn in Hi. subst i.
    apply returns_bind_index; [done|]. intros c Hc.
    set (new := path_join p (file_name prefix crate (length pre))).
    assert (Hnew : fs' !! new = None).
    { destruct (fs' !! new) as [nd|] eqn:Hs; [|done].
      apply Hhold in Hs; [|apply below_join].
      destruct Hs as (i & c' & Hi & Heq & _). apply app_inv_head in Heq. injection Heq as Heq.
      apply file_name_inj in Heq. subst i. rewrite lookup_take_ge in Hi by lia. done. }
    unfold write_file. replace (take (length new - 1) new) with p.
    2:{ unfold new, path_join. rewrite length_app. cbn [length].
        rewrite Nat.add_sub, take_app_length. done. }
    assert (Hd : is_dir fs' p = true)
      by (apply is_dir_spec; rewrite Hsame by apply below_irrefl; done).
    rewrite Hd. unfold is_dir at 1. rewrite Hnew. cbn [negb andb]. apply returns_ret. split.
    + intros q nd Hq. rewrite length_app, Nat.add_1_r.
      rewrite (take_S_r _ _ c) by done.
      destruct (decide (q = new)) as [->|Hne].
      * rewrite lookup_insert_eq. split.
        -- intros [= <-]. exists (length pre), c. split_and!; [|done..].
           apply list_lookup_middle. rewrite length_take. lia.
        -- intros (i & c' & Hi & Heq & ->). apply app_inv_head in Heq. injection Heq as Heq.
           apply file_name_inj in Heq. subst i.
           rewrite list_lookup_middle in Hi by (rewrite length_take; lia). congruence.
      * rewrite lookup_insert_ne by done. rewrite (Hhold q nd Hq). split.
        -- intros (i & c' & Hi & Heq). exists i, c'. split; [|done].
           rewrite lookup_app_l; [done|]. by apply lookup_lt_Some in Hi.
        -- intros (i & c' & [[_ Hi]|[Hi Hi']]%lookup_snoc_Some & Heq & ?); [by exists i, c'|].
           exfalso. apply Hne. rewrite Heq. unfold new. rewrite Hi, length_take. f_equal. f_equal. lia.
    + intros q Hq. rewrite lookup_insert_ne; [by apply Hsame|]. intros <-. apply Hq, below_join.
  - intros fs' [Hhold Hsame]. rewrite length_seq, firstn_all in Hhold. done.
Qed.

(** ** All the files of a crate *)

Lemma path_from_nonempty s : path_from s <> [].
Proof. apply split_skip_nonempty. Qed.

Lemma below_siblings p a b q : a <> b -> below (path_join p a) q -> ~ path_join p b `prefix_of` q.
Proof.
  intros Hab (x & r & ->) Hpre. unfold path_join in Hpre. rewrite <- !app_assoc in Hpre.
  apply prefix_app_inv in Hpre as (r' & Hr). cbn in Hr. congruence.
Qed.

Lemma take_join p name n : n <= length p -> take n (path_join p name) = take n p.
Proof. intros Hn. unfold path_join. by rewrite take_app_le. Qed.

(** An emptied directory leaves a well-formed tree. *)
Lemma emptied_wf p fs fs' : p <> [] -> fs_wf fs -> emptied p fs fs' -> fs_wf fs'.
Proof.
  intros Hp Hwf [Hdirs Hempty Hother] q x Hq Hsome.
  destruct (decide (p `prefix_of` q)) as [Hpre|Hpre].
  { rewrite Hempty in Hsome; [by destruct Hsome|]. destruct Hpre as [r ->].
    destruct r as [|y r]; [exists x, []; by rewrite app_nil_r|exists y, (r ++ [x])].
    by rewrite <- app_assoc. }
  assert (Hcase : (exists n, 0 < n <= length p /\ take n p = q ++ [x]) \/
    forall n, 0 < n <= length p -> take n p <> q ++ [x]).
  { destruct (decide (q ++ [x] `prefix_of` p)) as [[r ->]|Hn]; [left|right].
    - exists (length (q ++ [x])). rewrite !length_app. cbn. split; [lia|].
      rewrite take_app_le by (rewrite length_app; cbn; lia). apply take_ge. rewrite length_app. cbn. lia.
    - intros n _ Heq. apply Hn. rewrite <- Heq. apply prefix_take. }
  destruct Hcase as [(n & Hn & Heq)|Hno].
  - assert (Hn' : n = S (length q)).
    { apply (f_equal length) in Heq. rewrite length_take, length_app in Heq. cbn in Heq. lia. }
    assert (Hqn : q = take (length q) p).
    { apply (f_equal (take (length q))) in Heq.
      rewrite take_take, Nat.min_l, take_app_length in Heq by lia. done. }
    rewrite Hqn. apply Hdirs. split; [|lia]. destruct q; [done|cbn; lia].
  - destruct (decide (p `prefix_of` q ++ [x])) as [[r Hr]|Hpre'].
    { exfalso. destruct (list_snoc_case r) as [->|(r' & y & ->)].
      - apply (Hno (length p)); [destruct p; [done|cbn; lia]|].
        by rewrite firstn_all, Hr, app_nil_r.
      - apply Hpre. rewrite app_assoc in Hr. apply app_inj_tail in Hr as [-> _].
        by apply prefix_app_r. }
    rewrite Hother in Hsome by done. apply Hwf in Hsome; [|done].
    destruct (decide (q `prefix_of` p)) as [[r ->]|Hqp].
    + rewrite <- (take_app_length q r). apply Hdirs. rewrite length_app.
      destruct q; [done|cbn; lia].
    + rewrite Hother; [done..|]. intros n _ <-. apply Hqp, prefix_take.
Qed.

(** ** What a writer leaves alone *)

Lemma emptied_framed p name fs fs' :
  fs_wf fs -> emptied (path_join p name) fs fs' -> framed p fs fs'.
Proof.
  intros Hwf Hem. assert (Hne : path_join p name <> []) by (by destruct p). split.
  - by eapply emptied_wf.
  - intros q [Hpq Hqp]. apply (em_other _ _ _ Hem).
    + intros [r ->]. apply Hpq. unfold path_join. rewrite <- app_assoc. by apply prefix_app_r.
    + intros n _ <-. destruct (decide (n <= length p)) as [Hn|Hn].
      * apply Hqp. unfold path_join. rewrite take_app_le by done. apply prefix_take.
      * apply Hpq. unfold path_join. rewrite take_app_ge by lia. by apply prefix_app_r.
  - apply (em_other _ _ _ Hem).
    + intros [r Hr]. by destruct p.
    + intros n [Hn _] Heq. destruct n; [lia|]. by destruct p.
Qed.

Lemma written_framed p name fs fs' prefix crate contents :
  fs_wf fs -> fs !! path_join p name = Some Dir ->
  holds_exactly fs' (path_join p name) prefix crate contents ->
  (forall q, ~ below (path_join p name) q -> fs' !! q = fs !! q) -> framed p fs fs'.
Proof.
  intros Hwf Hdir Hhold Hsame. set (d := path_join p name) in *. split.
  - intros q x Hq [nd Hx]. destruct (decide (d `prefix_of` q)) as [Hpre|Hpre].
    + assert (Hb : below d (q ++ [x])).
      { destruct Hpre as [[|y r] ->].
        - exists x, []. by rewrite app_nil_r.
        - exists y, (r ++ [x]). by rewrite <- app_assoc. }
      apply Hhold in Hx as (i & c & _ & Heq & _); [|done].
      apply app_inj_tail in Heq as [-> _]. rewrite Hsame by apply below_irrefl. done.
    + assert (Hnq : ~ below d q).
      { intros (y & r & ->). apply Hpre. by apply prefix_app_r. }
      rewrite Hsame by done. apply (Hwf q x Hq). exists nd. rewrite <- Hsame; [done|].
      intros (y & r & Heq). destruct (list_snoc_case (y :: r)) as [Hr|(r' & z & Hr)]; [done|].
      rewrite Hr, app_assoc in Heq. apply app_inj_tail in Heq as [-> _].
      apply Hpre. by apply prefix_app_r.
  - intros q [Hpq _]. apply Hsame. intros (y & r & ->). apply Hpq. unfold d, path_join.
    rewrite <- !app_assoc. by apply prefix_app_r.
  - apply Hsame. intros (y & r & Heq). by destruct d.
Qed.

Lemma holds_exactly_framed p q name prefix crate contents fs fs' :
  framed p fs fs' -> apart p q -> holds_exactly fs (path_join q name) prefix crate contents ->
  holds_exactly fs' (path_join q name) prefix crate contents.
Proof.
  intros Hf [Hpq Hqp] Hhold r nd Hr. rewrite (fr_same _ _ _ Hf); [by apply Hhold|].
  destruct Hr as (x & l & ->). unfold path_join. rewrite <- !app_assoc.
  destruct (decide (p `prefix_of` q ++ [name] ++ x :: l)) as [Hpre|Hpre].
  - exfalso. destruct (prefix_weak_total p q (q ++ [name] ++ x :: l) Hpre) as [?|?];
      [by apply prefix_app_r|done..].
  - split; [done|]. intros Hpre'. apply Hqp. etrans; [by apply prefix_app_r|exact Hpre'].
Qed.

(** The first step of the writers: a file in the place of the directory is removed. *)
Lemma clear_file_returns fs p :
  fs_wf fs -> p <> [] -> no_file_above fs p ->
  returns (if is_file fs p then remove_file fs p else mret fs) (fun fs1 =>
    framed p fs fs1 /\ forall name, no_file_above fs1 (path_join p name)).
Proof.
  intros Hwf Hp Hno.
  assert (Hjoin : forall fs1 : Fs, is_file fs1 p = false ->
    (forall q, q <> p -> fs1 !! q = fs !! q) -> forall name, no_file_above fs1 (path_join p name)).
  { intros fs1 Hf Hsame name n Hn. unfold path_join in Hn. rewrite length_app in Hn. cbn in Hn.
    rewrite take_join by lia. destruct (decide (n = length p)) as [->|Hne]; [by rewrite firstn_all|].
    unfold is_file. rewrite Hsame.
    - apply (Hno n). lia.
    - intros Heq. apply (f_equal length) in Heq. rewrite length_take in Heq. lia. }
  destruct (is_file fs p) eqn:Hf; [|by apply returns_ret; split; [split|apply Hjoin]].
  unfold remove_file. rewrite Hf. apply returns_ret.
  pose proof Hf as [c Hc]%is_file_spec. split; [split|].
  - intros q x Hq Hsome. assert (Hsome' : is_Some (fs !! (q ++ [x]))).
    { destruct Hsome as [nd Hnd]. by apply lookup_delete_Some in Hnd as [_ Hnd]. }
    apply Hwf in Hsome'; [|done]. rewrite lookup_delete_ne; [done|]. intros <-. congruence.
  - intros q [Hpq _]. rewrite lookup_delete_ne; [done|]. by intros ->.
  - by rewrite lookup_delete_ne by done.
  - apply Hjoin; [|intros q Hq; by rewrite lookup_delete_ne].
    unfold is_file. by rewrite lookup_delete_eq.
Qed.

(** A second directory next to an emptied one can be emptied. *)
Lemma emptied_sibling fs fs' p a b :
  no_file_above fs (path_join p a) -> emptied (path_join p a) fs fs' ->
  no_file_above fs' (path_join p b).
Proof.
  intros Hno [Hdirs _ Hother] n Hn. unfold path_join in Hn. rewrite length_app in Hn. cbn in Hn.
  rewrite take_join by lia. destruct n as [|n].
  - specialize (Hno 0). unfold is_file in *. cbn in *. rewrite Hother.
    + apply Hno. unfold path_join. rewrite length_app. cbn. lia.
    + intros [r Hr]. by destruct p.
    + intros n [Hn' _]. destruct n; [lia|]. by destruct p.
  - rewrite <- (take_join p a) by lia. unfold is_file. rewrite Hdirs; [done|].
    unfold path_join. rewrite length_app. cbn. lia.
Qed.

Lemma emptied_dir p fs fs' : p <> [] -> emptied p fs fs' -> fs' !! p = Some Dir.
Proof.
  intros Hp Hem. rewrite <- (firstn_all p) at 1. apply (em_dirs _ _ _ Hem).
  destruct p; [done|cbn; lia].
Qed.

(** One directory is emptied. *)
Lemma make_dir_returns fs p name :
  fs_wf fs -> no_file_above fs (path_join p name) ->
  returns (ensure_empty_dir (path_join p name) fs) (fun fs' =>
    emptied (path_join p name) fs fs' /\ framed p fs fs' /\
    fs' !! path_join p name = Some Dir).
Proof.
  intros Hwf Hno. eapply returns_mono;
    [apply ensure_empty_dir_returns; [done|apply join_nonempty|done]|].
  intros fs' Hem. split_and!; [done|by eapply emptied_framed|].
  by eapply emptied_dir; [apply join_nonempty|].
Qed.

(** The files are written into an empty directory. *)
Lemma fill_dir_returns fs p name prefix crate contents :
  fs_wf fs -> fs !! path_join p name = Some Dir ->
  (forall q, below (path_join p name) q -> fs !! q = None) ->
  returns (write_to_files crate (path_join p name) contents prefix fs) (fun fs' =>
    holds_exactly fs' (path_join p name) prefix crate contents /\ framed p fs fs' /\
    forall q, ~ below (path_join p name) q -> fs' !! q = fs !! q).
Proof.
  intros Hwf Hdir Hempty. eapply returns_mono;
    [apply write_to_files_returns; [apply join_nonempty|done..]|].
  intros fs' [Hhold Hsame]. split_and!; [done|by eapply written_framed|done].
Qed.

(** A sibling of an emptied directory keeps what it is. *)
Lemma emptied_keeps fs fs' p a b q :
  a <> b -> emptied (path_join p a) fs fs' -> q = path_join p b \/ below (path_join p b) q ->
  fs' !! q = fs !! q.
Proof.
  intros Hab Hem Hq. apply (em_other _ _ _ Hem).
  - destruct Hq as [->|Hq]; [|by apply (below_siblings p b a)].
    unfold path_join. intros [r Hr]%prefix_app_inv. cbn in Hr. congruence.
  - intros n Hn Heq.
    assert (Hpre : path_join p b `prefix_of` path_join p a).
    { etrans; [|apply (prefix_take _ n)]. rewrite Heq.
      destruct Hq as [->|(x & r & ->)]; [done|by apply prefix_app_r]. }
    unfold path_join in Hpre. apply prefix_app_inv in Hpre as [r Hr]. cbn in Hr. congruence.
Qed.

Lemma siblings_apart p a b q :
  a <> b -> q = path_join p b \/ below (path_join p b) q -> ~ below (path_join p a) q.
Proof.
  intros Hab Hq (x & r & ->). destruct Hq as [Heq|Hq].
  - unfold path_join in Heq. rewrite <- app_assoc in Heq. by apply app_inv_head in Heq.
  - apply (below_siblings p b a _ ltac:(done) Hq). by apply prefix_app_r.
Qed.

Lemma write_files_returns self fs :
  fs_wf fs -> no_file_above fs (path_from (test_dir self)) ->
  returns (write_files self fs) (fun fs' =>
    let p := path_from (test_dir self) in
    framed p fs fs' /\ fs' !! p = Some Dir /\
    holds_exactly fs' (path_join p _TEST_FILE_DIR) "test" (crate_name self) (test_files self) /\
    holds_exactly fs' (path_join p _REPRODUCE_FILE_DIR) "replay" (crate_name self)
      (reproduce_files self)).
Proof.
  intros Hwf Hno. unfold write_files. cbn zeta.
  pose proof (path_from_nonempty (test_dir self)) as Hp.
  set (p := path_from (test_dir self)) in *.
  assert (Hsib : _REPRODUCE_FILE_DIR <> _TEST_FILE_DIR) by done.
  eapply returns_bind; [by apply clear_file_returns|]. intros fs1 [Hf1 Hno1].
  eapply returns_bind; [apply make_dir_returns; [apply Hf1|apply Hno1]|].
  intros fs2 (Hem2 & Hf2 & Hd2).
  eapply returns_bind; [apply make_dir_returns;
    [apply Hf2|by apply (emptied_sibling _ _ _ _ _ (Hno1 _) Hem2)]|].
  intros fs3 (Hem3 & Hf3 & Hd3).
  eapply returns_bind; [apply fill_dir_returns; [apply Hf3| |]|].
  { rewrite (emptied_keeps _ _ _ _ _ _ Hsib Hem3) by (by left). exact Hd2. }
  { intros q Hq. rewrite (emptied_keeps _ _ _ _ _ _ Hsib Hem3) by (by right).
    by apply (em_empty _ _ _ Hem2). }
  intros fs4 (Hhold4 & Hf4 & Hs4).
  eapply returns_mono; [apply fill_dir_returns; [apply Hf4| |]|].
  { rewrite Hs4; [exact Hd3|]. apply (siblings_apart p _ _REPRODUCE_FILE_DIR); [done|by left]. }
  { intros q Hq. rewrite Hs4; [by apply (em_empty _ _ _ Hem3)|].
    apply (siblings_apart p _ _REPRODUCE_FILE_DIR); [done|by right]. }
  intros fs5 (Hhold5 & Hf5 & Hs5).
  assert (Hkeep : forall q, q = path_join p _TEST_FILE_DIR \/ below (path_join p _TEST_FILE_DIR) q ->
    fs5 !! q = fs4 !! q).
  { intros q Hq. apply Hs5. by apply (siblings_apart p _ _TEST_FILE_DIR). }
  split_and!; [by do 4 (eapply framed_trans; [eassumption|])| | |done].
  - apply (wf_dir_above _ _ _TEST_FILE_DIR); [apply Hf5|done|].
    rewrite Hkeep by (by left). rewrite Hs4 by apply below_irrefl.
    rewrite (emptied_keeps _ _ _ _ _ _ Hsib Hem3) by (by left). exact Hd2.
  - intros q nd Hq. rewrite Hkeep by (by right). by apply Hhold4.
Qed.

Lemma write_libfuzzer_files_returns self fs dir :
  LIBFUZZER_FUZZ_TARGET_DIR !! crate_name self = Some dir ->
  fs_wf fs -> no_file_above fs (path_from dir) ->
  returns (write_libfuzzer_files self fs) (fun fs' =>
    framed (path_from dir) fs fs' /\
    holds_exactly fs' (path_join (path_from dir) _LIBFUZZER_DIR_NAME) "fuzz_target"
      (crate_name self) (libfuzzer_files self)).
Proof.
  intros Hdir Hwf Hno. unfold write_libfuzzer_files.
  eapply returns_bind_unwrap; [exact Hdir|]. cbn zeta.
  pose proof (path_from_nonempty dir) as Hp.
  eapply returns_bind; [by apply clear_file_returns|]. intros fs1 [Hf1 Hno1].
  eapply returns_bind; [apply make_dir_returns; [apply Hf1|apply Hno1]|].
  intros fs2 (Hem2 & Hf2 & Hd2).
  eapply returns_mono; [apply fill_dir_returns; [apply Hf2|done|apply Hem2]|].
  intros fs3 (Hhold3 & Hf3 & _). split; [|done].
  by do 2 (eapply framed_trans; [eassumption|]).
Qed.

(** ** Properties *)

(** Whatever the file system holds, provided only that no file stands where a
    directory above the target directory should be, writing the files succeeds, and
    afterwards [test_files] and [replay_files] hold exactly the files of the helper,
    one per target, numbered from 0: nothing of an earlier run is left. *)
Lemma directories_hold_exactly_the_files (self : FileHelper) (fs : Fs) (Hfs : fs_wf fs)
    (Hno : no_file_above fs (path_from (test_dir self))) :
  returns (write_files self fs) (fun fs' =>
    holds_exactly fs' (path_join (path_from (test_dir self)) _TEST_FILE_DIR) "test"
      (crate_name self) (test_files self) /\
    holds_exactly fs' (path_join (path_from (test_dir self)) _REPRODUCE_FILE_DIR) "replay"
      (crate_name self) (reproduce_files self)).
Proof.
  eapply returns_mono; [by apply write_files_returns|]. by intros fs' (_ & _ & Htest & Hreplay).
Qed.

(** A tree with a file of an earlier run. *)
Definition sample_fs : Fs :=
  {[ [""] := Dir; [""; "w"] := Dir; [""; "w"; "test_files"] := Dir;
     [""; "w"; "test_files"; "old.rs"] := File "old" ]}.
Definition sample_helper : FileHelper :=
  {| crate_name := "url"; test_dir := "/w"; test_files := ["a"; "b"];
     reproduce_files := ["c"; "d"]; libfuzzer_files := [] |}.

Lemma sample_fs_wf : fs_wf sample_fs.
Proof.
  intros q x Hq [nd Hx].
  assert (Hall : Forall (fun e => e.1 = [""] \/ exists q x, e.1 = q ++ [x] /\
    sample_fs !! q = Some Dir) (map_to_list sample_fs)).
  { apply (Forall_impl (fun e => e.1 = [""] \/
      sample_fs !! take (length e.1 - 1) e.1 = Some Dir /\ 0 < length e.1)).
    - apply (bool_decide_unpack _). vm_compute. exact I.
    - intros [p n] [Hp|[Hd Hlen]]; [by left|right]. cbn in *.
      destruct (list_snoc_case p) as [->|(p' & y & ->)]; [cbn in Hlen; lia|].
      rewrite length_app in Hd. cbn in Hd. rewrite Nat.add_sub, take_app_length in Hd.
      exists p', y. done. }
  rewrite Forall_forall in Hall. destruct (Hall (q ++ [x], nd)) as [Hp|(q' & x' & Hp & Hd)].
  - by apply elem_of_map_to_list.
  - cbn in Hp. destruct q as [|y [|]]; [done|discriminate Hp..].
  - cbn in Hp. apply app_inj_tail in Hp as [<- _]. exact Hd.
Qed.

Lemma directories_hold_exactly_the_files_witness :
  returns (write_files sample_helper sample_fs) (fun fs' =>
    fs' !! [""; "w"; "test_files"; "test_url1.rs"] = Some (File "b") /\
    fs' !! [""; "w"; "test_files"; "old.rs"] = None).
Proof.
  pose proof (directories_hold_exactly_the_files sample_helper sample_fs sample_fs_wf
    ltac:(intros [|[|n]] Hn; [vm_compute; reflexivity..|exfalso; vm_compute in Hn; lia])) as Hr.
  apply (returns_mono _ _ _ Hr). intros fs' [Htest _]. split.
  - apply (Htest [""; "w"; "test_files"; "test_url1.rs"]); [by exists "test_url1.rs", []|].
    exists 1, "b". split_and!; by vm_compute.
  - destruct (fs' !! [""; "w"; "test_files"; "old.rs"]) as [nd|] eqn:Hold; [exfalso|reflexivity].
    apply Htest in Hold; [|by exists "old.rs", []].
    destruct Hold as (i & c & Hi & Heq & _). destruct i as [|[|i]]; vm_compute in Hi, Heq;
      discriminate.
Defined.
