(* ===== verification/ImplUtil.v ===== *)
(** The methods of the crate ([fuzz_target/impl_util.rs]): the impl blocks of the render
    cache, the substitution of [Self], and the functions that the impls add to the graph. *)

From S2P Require Import Prelude RustStd CleanTypes CleanItems DocFold Passes.
From S2P Require Import RenderCache CallTypes PreludeTypes FuzzableTypes ApiUtil ModVisibility.
From S2P Require Import ApiFunction ApiSequence ApiGraph Samples.

Record CrateImplCollection := mk_CrateImplCollection {
  impl_types : list (Impl Item);
  impl_trait_for_types : list (Impl Item)
}.

Definition CrateImplCollection_new : CrateImplCollection :=
  {| impl_types := []; impl_trait_for_types := [] |}.

Definition add_impl (self : CrateImplCollection) (impl_ : Impl Item) : CrateImplCollection :=
  match trait_ impl_ with
  | None => {| impl_types := impl_types self ++ [impl_];
               impl_trait_for_types := impl_trait_for_types self |}
  | Some _ => {| impl_types := impl_types self;
                 impl_trait_for_types := impl_trait_for_types self ++ [impl_] |}
  end.

Definition full_path (paths : list string) : string :=
  match head paths with
  | None => EmptyString
  | Some path =>
      foldl (fun full current_path => full +:+ "::" +:+ current_path) path (tail paths)
  end.

(** ** [Self] *)

Fixpoint is_param_self_type (ty_ : Type_) : bool :=
  if is_self_type ty_ then true
  else
    match ty_ with
    | BorrowedRef _ _ inner_ty => if is_param_self_type inner_ty then true else false
    | ResolvedPath (mk_Path _ _ segments) _ _ _ =>
        existsb (fun path_segment =>
          match path_segment with
          | mk_PathSegment _ (AngleBracketed args _) =>
              existsb (fun generic_arg =>
                match generic_arg with
                | GenericArg_Type generic_ty => is_param_self_type generic_ty
                | _ => false
                end) args
          | mk_PathSegment _ (Parenthesized inputs output) =>
              existsb is_param_self_type inputs
              || match output with
                 | Some output_type => is_param_self_type output_type
                 | None => false
                 end
          end) segments
    | _ => false
    end.

(** [if is_param_self_type(t) { replace(t) } else { t.clone() }]. *)
Definition replace_if_self (replace : Type_ -> Type_) (t : Type_) : Type_ :=
  if is_param_self_type t then replace t else t.

Fixpoint replace_self_type (self_type impl_type : Type_) : Type_ :=
  if is_self_type self_type then impl_type
  else
    match self_type with
    | BorrowedRef lifetime mutability inner_type =>
        if is_param_self_type inner_type then
          BorrowedRef lifetime mutability (replace_self_type inner_type impl_type)
        else self_type
    | ResolvedPath (mk_Path global res segments) param_names did is_generic =>
        if negb (is_param_self_type self_type) then self_type
        else
          let new_segments := List.map (fun path_segment =>
            match path_segment with
            | mk_PathSegment name (AngleBracketed args bindings) =>
                mk_PathSegment name (AngleBracketed
                  (List.map (fun generic_arg =>
                    match generic_arg with
                    | GenericArg_Type generic_type =>
                        GenericArg_Type
                          (replace_if_self (fun t => replace_self_type t impl_type) generic_type)
                    | _ => generic_arg
                    end) args) bindings)
            | mk_PathSegment name (Parenthesized inputs output) =>
                mk_PathSegment name (Parenthesized
                  (List.map (replace_if_self (fun t => replace_self_type t impl_type)) inputs)
                  (match output with
                   | None => None
                   | Some output_type =>
                       Some (replace_if_self (fun t => replace_self_type t impl_type) output_type)
                   end))
            end) segments in
          ResolvedPath (mk_Path global res new_segments) param_names did is_generic
    | _ => self_type
    end.

(** ** The methods of an impl *)
Section analyse.
Variable cache : gmap PrimitiveType DefId.

(** The loop that replaces [Self] in the parameters. *)
Definition replace_inputs (for_ : Type_) (inputs : list Type_) : outcome (list Type_ * bool) :=
  fold_loop (fun index '(inputs, contains_self_type) =>
    ty_ ← inputs.[index];
    if is_param_self_type ty_ then
      inputs ← vec_store inputs index (replace_self_type ty_ for_);
      mret (inputs, true)
    else mret (inputs, contains_self_type))
    (seq 0 (length inputs)) (inputs, false).

Definition replace_output (for_ : Type_) (output : option Type_) : option Type_ :=
  match output with
  | None => None
  | Some ty_ =>
      if is_param_self_type ty_ then Some (replace_self_type ty_ for_) else Some ty_
  end.

(** One item of an impl; [Break] is the [return] of [_analyse_impl]. *)
Definition analyse_item (impl_ : Impl Item) (trait_full_name type_full_name : option string)
    (item : Item) (api_graph : ApiGraph) : outcome (flow ApiGraph Empty_set) :=
  match item_inner item with
  | MethodItem _method =>
      let 'mk_FnDecl inputs output _ _ := fn_decl _method in
      let generics := fn_generics _method in
      let inputs := _extract_input_types inputs in
      let output := _extract_output_type output in
      r ← replace_inputs (for_ impl_) inputs;
      let '(inputs, contains_self_type) := (r : list Type_ * bool) in
      let output := replace_output (for_ impl_) output in
      let method_type_name :=
        if contains_self_type then
          match trait_full_name with
          | Some trait_name => Some trait_name
          | None => type_full_name
          end
        else type_full_name in
      match method_type_name with
      | None => mret (Break api_graph)
      | Some method_type_name =>
          name ← unwrap (item_name item);
          let method_name := method_type_name +:+ "::" +:+ name in
          let api_unsafety := ApiUnsafety._get_unsafety_from_fnheader (fn_unsafety _method) in
          match trait_ impl_ with
          | None =>
              mret (Next (add_api_function api_graph
                {| full_name := method_name; generics := generics; inputs := inputs;
                   output := output; _trait_full_path := None;
                   ApiFunction._unsafe_tag := api_unsafety |}))
          | Some _ =>
              match trait_full_name with
              | Some real_trait_name =>
                  mret (Next (add_api_function api_graph
                    {| full_name := method_name; generics := generics; inputs := inputs;
                       output := output; _trait_full_path := Some real_trait_name;
                       ApiFunction._unsafe_tag := api_unsafety |}))
              | None => mret (Break api_graph)
              end
          end
      end
  | _ => mret (Next api_graph)
  end.

Definition _analyse_impl (impl_ : Impl Item) (full_name_map : FullNameMap) (api_graph : ApiGraph)
    : outcome ApiGraph :=
  trait_full_name ←
    match trait_ impl_ with
    | None => mret None
    | Some trait_ =>
        trait_ty_def_id ← unwrap (def_id cache trait_);
        mret (_get_full_name full_name_map trait_ty_def_id)
    end;
  let type_full_name :=
    match def_id cache (for_ impl_) with
    | Some def_id => _get_full_name full_name_map def_id
    | None => None
    end in
  run_loop (analyse_item impl_ trait_full_name type_full_name) (items impl_) api_graph.
End analyse.

(** ** The names and the impls of the cache *)
Section extract.
Context `{HashOrder}.

Definition name_paths (cache : Cache) (full_name_map : FullNameMap) : FullNameMap :=
  foldl (fun m '(did, (strings, item_type)) => push_mapping m did (full_path strings) item_type)
    full_name_map (map_order 8 (paths (cache_crawl cache))).

Definition name_external_paths (cache : Cache) (full_name_map : FullNameMap) : FullNameMap :=
  foldl (fun m '(did, (strings, item_type)) =>
    let full_name := full_path strings in
    if is_preluded_type full_name then push_mapping m did full_name item_type else m)
    full_name_map (map_order 9 (external_paths (cache_info cache))).

Definition collect_type_impls (impls : list RenderImpl) (collection : CrateImplCollection)
    : outcome CrateImplCollection :=
  fold_loop (fun impl_ collection =>
    impl_ ← inner_impl impl_; mret (add_impl collection impl_)) impls collection.

Definition collect_impls (cache : Cache) (full_name_map : FullNameMap)
    : outcome CrateImplCollection :=
  fold_loop (fun '(did, impls) collection =>
    match _get_full_name full_name_map did with
    | Some _ => collect_type_impls impls collection
    | None => mret collection
    end) (map_order 10 (impls (cache_crawl cache))) CrateImplCollection_new.

(** The cache of the thread is set only after the extraction: [Type::def_id] finds no
    primitive type. *)
Definition extract_impls_from_cache (cache : Cache) (full_name_map : FullNameMap)
    (api_graph : ApiGraph) : outcome (FullNameMap * ApiGraph) :=
  let full_name_map := name_external_paths cache (name_paths cache full_name_map) in
  let api_graph := set_full_name_map api_graph full_name_map in
  crate_impl_collection ← collect_impls cache full_name_map;
  api_graph ← fold_loop (fun impl_ g => _analyse_impl unset_cache impl_ full_name_map g)
    (impl_types crate_impl_collection) api_graph;
  api_graph ← fold_loop (fun impl_ g => _analyse_impl unset_cache impl_ full_name_map g)
    (impl_trait_for_types crate_impl_collection) api_graph;
  mret (full_name_map, api_graph).
End extract.
