(* ===== verification/ImplCorrect.v ===== *)
(** What the extraction of the methods guarantees: the substitution of [Self] is complete,
    and the impls of the render cache add exactly their accepted methods to the graph. *)

From S2P Require Import Prelude RustStd CleanTypes CleanItems DocFold Passes.
From S2P Require Import RenderCache CallTypes PreludeTypes FuzzableTypes ApiUtil ModVisibility.
From S2P Require Import ApiFunction ApiSequence ApiGraph ItemSamples Samples ImplUtil.

(** ** Specification of the substitution *)

(** [Self] occurs in a type, below references and the arguments of paths. *)
Inductive mentions_self : Type_ -> Prop :=
| ms_self : mentions_self (Generic "Self")
| ms_reference lifetime mutability t :
    mentions_self t -> mentions_self (BorrowedRef lifetime mutability t)
| ms_argument path param_names did is_generic t :
    t ∈ path_types path -> mentions_self t ->
    mentions_self (ResolvedPath path param_names did is_generic).

(** ** Lemmas *)

Lemma is_param_self_type_step t :
  is_param_self_type t =
  match t with
  | Generic name => bool_decide (name = "Self")
  | BorrowedRef _ _ _ | ResolvedPath _ _ _ _ => existsb is_param_self_type (type_children t)
  | _ => false
  end.
Proof.
  destruct t as [[global res segments] names did gen| | | | | | | | | | | |]; try done.
  - cbn. unfold path_types. rewrite existsb_bind.
    apply existsb_ext_fun. intros [name [args bindings|ins out]]; cbn.
    + rewrite existsb_bind. apply existsb_ext_fun. intros []; cbn; by rewrite ?orb_false_r.
    + rewrite existsb_app. f_equal. destruct out; cbn; by rewrite ?orb_false_r.
  - cbn. by destruct (bool_decide _).
Qed.

Lemma is_param_self_type_spec t : is_param_self_type t = true <-> mentions_self t.
Proof.
  induction t as [t IH] using type_children_ind. rewrite is_param_self_type_step.
  assert (Hch : existsb is_param_self_type (type_children t) = true <->
    exists s, s ∈ type_children t /\ mentions_self s).
  { rewrite existsb_exists_elem. split; intros (s & Hs & Hg); exists s;
      (split; [done|]); by apply (IH s). }
  destruct t; try (split; [done|by inversion 1]).
  - rewrite Hch. cbn. split.
    + intros (s & Hs & Hm). by eapply ms_argument.
    + inversion 1; subst. eauto.
  - rewrite bool_decide_eq_true. split; [intros ->; constructor|by inversion 1].
  - rewrite Hch. cbn. split.
    + intros (s & ->%list_elem_of_singleton & Hm). by constructor.
    + inversion 1; subst. eexists. split; [by apply list_elem_of_singleton|done].
Qed.

Lemma is_param_self_type_false t : is_param_self_type t = false <-> ~ mentions_self t.
Proof. rewrite <- is_param_self_type_spec. by destruct (is_param_self_type t). Qed.

Definition replace_arg (impl_type t : Type_) : Type_ :=
  replace_if_self (fun t => replace_self_type t impl_type) t.

(** The substitution acts on the arguments of a path. *)
Lemma replace_path impl_type path param_names did is_generic :
  mentions_self (ResolvedPath path param_names did is_generic) ->
  exists path', replace_self_type (ResolvedPath path param_names did is_generic) impl_type =
    ResolvedPath path' param_names did is_generic /\
    path_types path' = List.map (replace_arg impl_type) (path_types path).
Proof.
  intros Hm%is_param_self_type_spec. destruct path as [global res segments].
  cbn [replace_self_type is_self_type]. rewrite Hm. cbn [negb].
  eexists. split; [reflexivity|]. unfold path_types. cbn [path_segments]. clear Hm.
  induction segments as [|[name [args bindings|ins out]] segments IH]; [done|..];
    cbn [List.map mbind list_bind segment_args args_types];
    rewrite map_app, IH; f_equal.
  - clear IH. induction args as [|[l|t|c] args IHa]; cbn; [done|..];
      rewrite ?IHa; try done.
  - rewrite map_app. f_equal. by destruct out.
Qed.

Lemma replace_self_same t impl_type : ~ mentions_self t -> replace_self_type t impl_type = t.
Proof.
  intros Hm%is_param_self_type_false. pose proof Hm as Hstep.
  rewrite is_param_self_type_step in Hstep.
  destruct t as [[global res segments] names did gen| | | | | | | | | | | |]; try done.
  - cbn [replace_self_type is_self_type]. by rewrite Hm.
  - cbn [replace_self_type is_self_type]. by rewrite Hstep.
  - cbn [replace_self_type is_self_type]. cbn in Hstep. rewrite orb_false_r in Hstep.
    by rewrite Hstep.
Qed.

Lemma replace_self_gone t impl_type :
  ~ mentions_self impl_type -> ~ mentions_self (replace_self_type t impl_type).
Proof.
  intros Himpl. induction t as [t IH] using type_children_ind.
  destruct (is_param_self_type t) eqn:Ht.
  2:{ apply is_param_self_type_false in Ht. by rewrite replace_self_same. }
  apply is_param_self_type_spec in Ht. destruct Ht as [|l m t Ht|path names did gen t Hin Ht].
  - by cbn.
  - cbn [replace_self_type is_self_type]. rewrite (proj2 (is_param_self_type_spec t) Ht).
    inversion 1; subst. eapply IH; [|done]. by apply list_elem_of_singleton.
  - destruct (replace_path impl_type path names did gen) as (path' & -> & Hpath);
      [by eapply ms_argument|].
    inversion 1 as [| |? ? ? ? s Hs Hm]; subst. rewrite Hpath in Hs.
    apply list_elem_of_In, in_map_iff in Hs as (s' & <- & Hs'%list_elem_of_In).
    unfold replace_arg, replace_if_self in Hm.
    destruct (is_param_self_type s') eqn:Hself.
    + by eapply (IH s').
    + by apply is_param_self_type_false in Hself.
Qed.

(** ** The functions of an impl *)

(** A function that the graph keeps. *)
Definition accepted (m : FullNameMap) (f : ApiFunction) : Prop :=
  _is_generic_function f = false /\ contains_unsupported_fuzzable_type f m = false.

(** From [g] to [g'] only accepted functions of [P] are added. *)
Record adds (P : ApiFunction -> Prop) (g g' : ApiGraph) : Prop := {
  ads_names : full_name_map g' = full_name_map g;
  ads_functions : exists new, api_functions g' = api_functions g ++ new /\
    Forall (fun f => accepted (full_name_map g) f /\ P f) new;
  ads_mods : mod_visibility g' = mod_visibility g;
  ads_crate : _crate_name g' = _crate_name g
}.

Lemma adds_refl P g : adds P g g.
Proof. split; try done. exists []. by rewrite app_nil_r. Qed.

Lemma adds_trans P g1 g2 g3 : adds P g1 g2 -> adds P g2 g3 -> adds P g1 g3.
Proof.
  intros [Hn1 (l1 & Hf1 & H1) Hm1 Hc1] [Hn2 (l2 & Hf2 & H2) Hm2 Hc2].
  split; [congruence| |congruence..]. exists (l1 ++ l2). rewrite Hf2, Hf1, app_assoc.
  split; [done|]. rewrite Hn1 in H2. by apply Forall_app.
Qed.

Lemma adds_mono (P Q : ApiFunction -> Prop) g g' : (forall f, P f -> Q f) -> adds P g g' -> adds Q g g'.
Proof.
  intros HPQ [Hn (l & Hf & Hl) Hm Hc]. split; try done. exists l. split; [done|].
  eapply Forall_impl; [exact Hl|]. naive_solver.
Qed.

Lemma add_api_function_adds (P : ApiFunction -> Prop) g f : P f -> adds P g (add_api_function g f).
Proof.
  intros HP. unfold add_api_function.
  destruct (_is_generic_function f) eqn:Hg; [apply (adds_trans _ _ g); [apply adds_refl|];
    split; try done; exists []; by rewrite app_nil_r|].
  destruct (contains_unsupported_fuzzable_type f (full_name_map g)) eqn:Hu.
  - split; try done. exists []. by rewrite app_nil_r.
  - split; try done. exists [f]. split; [done|]. by constructor.
Qed.

(** The loop over the parameters replaces [Self] everywhere. *)
Lemma replace_inputs_returns for_ ins :
  returns (replace_inputs for_ ins) (fun r =>
    r.1 = List.map (replace_arg for_) ins /\ (r.2 = true <-> Exists mentions_self ins)).
Proof.
  unfold replace_inputs. eapply returns_mono.
  - apply (fold_loop_returns _ (fun pre (r : list Type_ * bool) =>
      r.1 = List.map (replace_arg for_) (take (length pre) ins) ++ drop (length pre) ins /\
      (r.2 = true <-> Exists mentions_self (take (length pre) ins)))).
    { split; [done|]. split; [done|by inversion 1]. }
    intros pre i post [l flag] Hseq [Hl Hflag]. cbn [fst snd] in *.
    assert (seq 0 (length ins) !! length pre = Some i) as Hi
      by (rewrite Hseq; by apply list_lookup_middle).
    apply lookup_seq in Hi as [Hi Hlt]. cbn in Hi. subst i.
    apply lookup_lt_is_Some_2 in Hlt as [ty Hty]. pose proof (lookup_lt_Some _ _ _ Hty) as Hlt.
    assert (Hlen : length (List.map (replace_arg for_) (take (length pre) ins)) = length pre)
      by (rewrite length_map, length_take; lia).
    assert (Hat : l !! length pre = Some ty).
    { rewrite Hl, lookup_app_r, Hlen by lia.
      rewrite lookup_drop, Nat.sub_diag, Nat.add_0_r. exact Hty. }
    unfold vec_index. rewrite Hat. cbn [unwrap mbind outcome_bind].
    rewrite length_app. cbn [length]. rewrite Nat.add_1_r, (take_S_r _ _ ty) by done.
    rewrite map_app. cbn [List.map].
    rewrite (drop_S ins ty (length pre) Hty) in Hl.
    pose proof (is_param_self_type_spec ty) as Hself.
    assert (Harg : replace_arg for_ ty =
      if is_param_self_type ty then replace_self_type ty for_ else ty) by done.
    destruct (is_param_self_type ty).
    + unfold vec_store. rewrite decide_True by (by apply lookup_lt_Some in Hat).
      apply returns_ret. cbn [fst snd]. rewrite Exists_app, Exists_cons, Exists_nil.
      split; [|tauto]. rewrite Hl, Harg. rewrite insert_app_r_alt by lia.
      rewrite Hlen, Nat.sub_diag. cbn. by rewrite <- app_assoc.
    + apply returns_ret. cbn [fst snd]. rewrite Exists_app, Exists_cons, Exists_nil, Harg.
      split; [by rewrite Hl, <- app_assoc|]. rewrite Hflag. naive_solver.
  - intros [l flag]. cbn [fst snd]. rewrite length_seq, firstn_all, drop_all, app_nil_r. done.
Qed.

Section impl.
Context (cache : gmap PrimitiveType DefId) (impl_ : Impl Item) (m : FullNameMap).

(** The names of the trait and of the type, when the map knows them. *)
Definition trait_name : option string :=
  t ← trait_ impl_; d ← def_id cache t; _get_full_name m d.
Definition type_name : option string := d ← def_id cache (for_ impl_); _get_full_name m d.

Definition owner_name : option string :=
  match trait_name with Some t => Some t | None => type_name end.
Definition trait_path : option string :=
  match trait_ impl_ with Some _ => trait_name | None => None end.

(** The function of a method: [Self] is replaced everywhere; the name is that of the
    trait when a parameter mentions [Self], else that of the type. *)
Record method_of (item : Item) (f : ApiFunction) : Prop := {
  mo_item : exists method name owner,
    item_inner item = MethodItem method /\ item_name item = Some name /\
    full_name f = owner +:+ "::" +:+ name /\
    generics f = fn_generics method /\
    ApiFunction._unsafe_tag f = ApiUnsafety._get_unsafety_from_fnheader (fn_unsafety method) /\
    (exists ins out variadic attrs, fn_decl method = mk_FnDecl ins out variadic attrs /\
      inputs f = List.map (replace_arg (for_ impl_)) (_extract_input_types ins) /\
      output f = replace_arg (for_ impl_) <$> _extract_output_type out /\
      (Exists mentions_self (_extract_input_types ins) ->
         owner_name = Some owner) /\
      (~ Exists mentions_self (_extract_input_types ins) -> type_name = Some owner));
  mo_trait : _trait_full_path f = trait_path;
  mo_known : is_Some (trait_ impl_) -> is_Some trait_name
}.

Definition nameable : Prop := is_Some type_name /\ (is_Some (trait_ impl_) -> is_Some trait_name).

Lemma replace_output_map out : replace_output (for_ impl_) out = replace_arg (for_ impl_) <$> out.
Proof.
  destruct out as [t|]; [|done]. cbn. unfold replace_arg, replace_if_self.
  by destruct (is_param_self_type t).
Qed.

(** Two functions of the same method are equal. *)
Lemma method_of_unique item f f' : method_of item f -> method_of item f' -> f = f'.
Proof.
  intros [(me & n & o & He & Hn & Hfn & Hg & Hu & ins & out & v & a & Hd & Hi & Ho & H1 & H2) Ht _]
    [(me' & n' & o' & He' & Hn' & Hfn' & Hg' & Hu' & ins' & out' & v' & a' & Hd' & Hi' & Ho' & H1' & H2') Ht' _].
  rewrite He in He'. injection He' as <-. rewrite Hn in Hn'. injection Hn' as <-.
  rewrite Hd in Hd'. injection Hd' as <- <- <- <-.
  assert (o = o') as <-.
  { destruct (decide (existsb is_param_self_type (_extract_input_types ins) = true)) as [Hs|Hs].
    - apply existsb_exists_elem in Hs as (t & Hin & Hm%is_param_self_type_spec).
      assert (Exists mentions_self (_extract_input_types ins)) as Hex
        by (apply Exists_exists; eauto).
      specialize (H1 Hex). specialize (H1' Hex). congruence.
    - assert (~ Exists mentions_self (_extract_input_types ins)) as Hno.
      { intros (t & Hin & Hm)%Exists_exists. apply Hs, existsb_exists_elem.
        exists t. split; [done|by apply is_param_self_type_spec]. }
      specialize (H2 Hno). specialize (H2' Hno). congruence. }
  destruct f, f'; cbn in *. congruence.
Qed.

Definition item_named (item : Item) : Prop :=
  forall method, item_inner item = MethodItem method -> is_Some (item_name item).

Lemma analyse_item_returns item g :
  full_name_map g = m -> item_named item ->
  returns (analyse_item impl_ trait_name type_name item g) (fun r =>
    match r with
    | Next g' => adds (method_of item) g g' /\
        forall f, method_of item f -> accepted m f -> f ∈ api_functions g'
    | Break g' => g' = g /\ ~ nameable
    | Return _ => False
    end).
Proof.
  intros Hm Hnamed. unfold analyse_item.
  destruct (item_inner item) eqn:Hinner;
    try (apply returns_ret; split; [apply adds_refl|];
         intros f' [(? & ? & ? & Heq & _) _ _]; congruence).
  match type of Hinner with _ = MethodItem ?x => rename x into method end.
  destruct (fn_decl method) as [ins out variadic attrs] eqn:Hdecl.
  eapply returns_bind; [apply replace_inputs_returns|]. intros [new_ins flag] [Hins Hflag].
  cbn [fst snd] in *. rewrite replace_output_map.
  set (owner := if flag then _ else type_name).
  assert (Howner : (Exists mentions_self (_extract_input_types ins) ->
      owner_name = owner) /\
    (~ Exists mentions_self (_extract_input_types ins) -> type_name = owner)).
  { unfold owner. destruct flag; split; intros Hex; try tauto.
    by apply Hflag in Hex. }
  clearbody owner. destruct owner as [owner|].
  2:{ apply returns_ret. split; [done|]. intros [[t Ht] Htr].
      destruct Howner as [H1 H2].
      assert (Hno : ~ Exists mentions_self (_extract_input_types ins)).
      { intros Hex%H1. unfold owner_name in Hex. destruct trait_name; congruence. }
      apply H2 in Hno. congruence. }
  destruct (Hnamed method Hinner) as [name Hname]. rewrite Hname. cbn [unwrap mbind outcome_bind].
  assert (Hadd : forall path,
    path = trait_path ->
    (is_Some (trait_ impl_) -> is_Some trait_name) ->
    let f := mk_ApiFunction (owner +:+ "::" +:+ name) (fn_generics method) new_ins
      (replace_arg (for_ impl_) <$> _extract_output_type out) path
      (ApiUnsafety._get_unsafety_from_fnheader (fn_unsafety method)) in
    adds (method_of item) g (add_api_function g f) /\
    forall f', method_of item f' -> accepted m f' -> f' ∈ api_functions (add_api_function g f)).
  { intros path Htp Hknown f.
    assert (Hf : method_of item f).
    { split; [|done|done]. exists method, name, owner. split_and!; try done.
      exists ins, out, variadic, attrs. destruct Howner. split_and!; try done; auto. }
    split; [by apply add_api_function_adds|]. intros f' Hf' [Hgen Hsup].
    rewrite (method_of_unique item f' f Hf' Hf) in *. unfold add_api_function.
    rewrite Hgen, Hm, Hsup. cbn. set_solver. }
  unfold trait_path in Hadd. destruct (trait_ impl_) as [t|] eqn:Htr.
  - destruct trait_name as [tn|] eqn:Htn; apply returns_ret.
    + by apply Hadd.
    + split; [done|]. intros [_ Hk]. destruct Hk as [tn Hk]; [by rewrite Htr|congruence].
  - apply returns_ret. apply Hadd; [done|]. by intros [? ?].
Qed.

Lemma analyse_impl_returns g :
  full_name_map g = m -> Forall item_named (items impl_) ->
  (forall t, trait_ impl_ = Some t -> is_Some (def_id cache t)) ->
  returns (_analyse_impl cache impl_ m g) (fun g' =>
    adds (fun f => exists item, item ∈ items impl_ /\ method_of item f) g g' /\
    (nameable -> forall item f, item ∈ items impl_ -> method_of item f -> accepted m f ->
       f ∈ api_functions g')).
Proof.
  intros Hm Hnamed Htrait. unfold _analyse_impl.
  apply (returns_bind _ _ (fun tn => tn = trait_name)).
  { unfold trait_name. destruct (trait_ impl_) as [t|]; [|done].
    destruct (Htrait t eq_refl) as [d Hd]. cbn. rewrite Hd. done. }
  intros tn ->. cbn zeta.
  replace (match def_id cache (for_ impl_) with
    | Some def_id => _get_full_name m def_id | None => None end) with type_name
    by (unfold type_name; by destruct (def_id cache (for_ impl_))).
  apply (run_loop_returns _ (fun pre g' =>
    adds (fun f => exists item, item ∈ items impl_ /\ method_of item f) g g' /\
    (forall item f, item ∈ pre -> method_of item f -> accepted m f -> f ∈ api_functions g'))).
  - split; [apply adds_refl|]. intros item f ?%not_elem_of_nil. done.
  - intros pre item post g1 Hseq [Hadds Hall].
    assert (Hin : item ∈ items impl_) by (rewrite Hseq; set_solver).
    eapply returns_mono.
    { apply analyse_item_returns; [by rewrite (ads_names _ _ _ Hadds)|].
      rewrite Forall_forall in Hnamed. by apply Hnamed. }
    intros [g2|g2|[]].
    + intros [Hadds2 Hnew]. split.
      * eapply adds_trans; [exact Hadds|]. eapply adds_mono; [|exact Hadds2]. eauto.
      * destruct (ads_functions _ _ _ Hadds2) as (new & Heq & _).
        intros item' f [Hin'|Hin']%elem_of_app Hf Hacc.
        { rewrite Heq. apply elem_of_app. left. by eapply Hall. }
        apply list_elem_of_singleton in Hin' as ->. by apply Hnew.
    + intros [-> Hno]. split; [done|]. intros Hyes. done.
  - intros g1 [Hadds Hall]. split; [done|]. intros _ item f Hin Hf Hacc. by eapply Hall.
Qed.
End impl.

(** ** The whole extraction *)
Section extraction.
Context `{HashOrder} (c : Cache).

(** An impl that is listed for a type. *)
Definition listed_impl (did : DefId) (imp : Impl Item) : Prop :=
  exists ims im, impls (cache_crawl c) !! did = Some ims /\ im ∈ ims /\
    item_inner (impl_item im) = ImplItem imp.

(** The impls of the cache are well formed: they are impls, methods have names, and
    traits have ids. *)
Definition impls_ok : Prop :=
  forall did ims im, impls (cache_crawl c) !! did = Some ims -> im ∈ ims ->
    exists imp, item_inner (impl_item im) = ImplItem imp /\ Forall item_named (items imp) /\
      forall t, trait_ imp = Some t -> is_Some (def_id unset_cache t).

(** The function [f] is that of a method of an impl of a named type. *)
Definition impl_function (m : FullNameMap) (f : ApiFunction) : Prop :=
  exists did imp item, listed_impl did imp /\ is_Some (_get_full_name m did) /\
    item ∈ items imp /\ method_of unset_cache imp m item f.

Definition collected (col : CrateImplCollection) (imp : Impl Item) : Prop :=
  imp ∈ impl_types col \/ imp ∈ impl_trait_for_types col.

Lemma add_impl_collected col i imp : collected (add_impl col i) imp <-> collected col imp \/ imp = i.
Proof. unfold collected, add_impl. destruct (trait_ i); cbn; set_solver. Qed.

Lemma collect_type_impls_returns (ims : list RenderImpl) col :
  (forall im, im ∈ ims -> exists imp, item_inner (impl_item im) = ImplItem imp) ->
  returns (collect_type_impls ims col) (fun col' => forall imp, collected col' imp <->
    collected col imp \/ exists im, im ∈ ims /\ item_inner (impl_item im) = ImplItem imp).
Proof.
  intros Him. apply (fold_loop_returns _ (fun pre col' => forall imp, collected col' imp <->
    collected col imp \/ exists im, im ∈ pre /\ item_inner (impl_item im) = ImplItem imp)).
  - intros imp. setoid_rewrite elem_of_nil. naive_solver.
  - intros pre im post col1 Hl Hcol. destruct (Him im) as [i Hi]; [rewrite Hl; set_solver|].
    unfold inner_impl. rewrite Hi. apply returns_ret. intros imp.
    rewrite add_impl_collected, Hcol. setoid_rewrite elem_of_app.
    setoid_rewrite list_elem_of_singleton. split.
    + intros [[?|(? & ? & ?)]| ->]; [by left|right; eauto..].
    + intros [?|(? & [?| ->] & ?)]; [by left; left|left; right; eauto|right; congruence].
Qed.

Lemma collect_impls_returns m :
  impls_ok ->
  returns (collect_impls c m) (fun col => forall imp, collected col imp <->
    exists did, listed_impl did imp /\ is_Some (_get_full_name m did)).
Proof.
  intros Hok. unfold collect_impls. eapply returns_mono.
  - apply (fold_loop_returns _ (fun pre col => forall imp, collected col imp <->
      exists did ims im, (did, ims) ∈ pre /\ is_Some (_get_full_name m did) /\ im ∈ ims /\
        item_inner (impl_item im) = ImplItem imp)).
    + intros imp. setoid_rewrite elem_of_nil. unfold collected. cbn.
      setoid_rewrite elem_of_nil. naive_solver.
    + intros pre [did ims] post col Hl Hcol.
      assert (Hd : impls (cache_crawl c) !! did = Some ims)
        by (apply (elem_of_map_order 10); rewrite Hl; set_solver).
      assert (Hsnoc : forall d l, (d, l) ∈ pre ++ [(did, ims)] <->
        (d, l) ∈ pre \/ (d, l) = (did, ims)) by (intros d l; set_solver).
      destruct (_get_full_name m did) as [n|] eqn:Hn.
      * eapply returns_mono; [apply collect_type_impls_returns|].
        { intros im Him. destruct (Hok did ims im Hd Him) as (imp & Hi & _). by exists imp. }
        intros col' Hcol' imp. cbn beta in Hcol'. rewrite Hcol', Hcol. setoid_rewrite Hsnoc. split.
        -- intros [(d & l & im & ? & ? & ? & ?)|(im & ? & ?)];
             [exists d, l, im; eauto|exists did, ims, im; rewrite Hn; eauto].
        -- intros (d & l & im & [?|[= -> ->]] & ? & ? & ?); [left; exists d, l, im; eauto|right; eauto].
      * apply returns_ret. intros imp. rewrite Hcol. setoid_rewrite Hsnoc. split.
        -- intros (d & l & im & ? & ? & ? & ?). exists d, l, im; eauto.
        -- intros (d & l & im & [?|[= -> ->]] & [x Hx] & ? & ?); [exists d, l, im; eauto|congruence].
  - intros col Hcol imp. cbn beta in Hcol. rewrite Hcol. unfold listed_impl.
    setoid_rewrite elem_of_map_order. split.
    + intros (d & l & im & ? & ? & ? & ?). exists d. eauto 10.
    + intros (d & (l & im & ? & ? & ?) & ?). exists d, l, im. eauto.
Qed.

Lemma impl_loop_returns m ims g :
  full_name_map g = m ->
  (forall imp, imp ∈ ims -> exists did, listed_impl did imp /\ is_Some (_get_full_name m did)) ->
  impls_ok ->
  returns (fold_loop (fun impl_ g => _analyse_impl unset_cache impl_ m g) ims g)
    (fun g' => adds (impl_function m) g g' /\
      forall imp item f, imp ∈ ims -> nameable unset_cache imp m -> item ∈ items imp ->
        method_of unset_cache imp m item f -> accepted m f -> f ∈ api_functions g').
Proof.
  intros Hm Hims Hok.
  apply (fold_loop_returns _ (fun pre g' => adds (impl_function m) g g' /\
    forall imp item f, imp ∈ pre -> nameable unset_cache imp m -> item ∈ items imp ->
      method_of unset_cache imp m item f -> accepted m f -> f ∈ api_functions g')).
  { split; [apply adds_refl|]. intros imp item f ?%not_elem_of_nil. done. }
  intros pre imp post g1 Hseq [Hadds Hall].
  destruct (Hims imp) as (did & Hlisted & Hname); [rewrite Hseq; set_solver|].
  pose proof Hlisted as (imps & im & Hd & Hin & Hi).
  destruct (Hok did imps im Hd Hin) as (imp' & Hi' & Hnamed & Htrait).
  rewrite Hi in Hi'. injection Hi' as <-. eapply returns_mono.
  { apply analyse_impl_returns; [by rewrite (ads_names _ _ _ Hadds)|done..]. }
  intros g2 [Hadds2 Hnew]. split.
  - eapply adds_trans; [exact Hadds|]. eapply adds_mono; [|exact Hadds2].
    intros f (item & Hitem & Hmo). by exists did, imp, item.
  - destruct (ads_functions _ _ _ Hadds2) as (new & Heq & _).
    intros imp0 item f [Hin'|Hin']%elem_of_app Hnm Hitem Hf Hacc.
    { rewrite Heq. apply elem_of_app. left. by eapply Hall. }
    apply list_elem_of_singleton in Hin' as ->. by eapply Hnew.
Qed.

Lemma extract_returns fm g :
  impls_ok ->
  returns (extract_impls_from_cache c fm g) (fun r =>
    r.1 = name_external_paths c (name_paths c fm) /\
    adds (impl_function r.1) (set_full_name_map g r.1) r.2 /\
    forall f did imp item, listed_impl did imp -> is_Some (_get_full_name r.1 did) ->
      nameable unset_cache imp r.1 -> item ∈ items imp ->
      method_of unset_cache imp r.1 item f -> accepted r.1 f -> f ∈ api_functions r.2).
Proof.
  intros Hok. unfold extract_impls_from_cache. cbn zeta.
  set (m := name_external_paths c (name_paths c fm)).
  eapply returns_bind; [by apply collect_impls_returns|]. intros col Hcol.
  eapply returns_bind.
  { apply impl_loop_returns; [done| |done]. intros imp Him. apply Hcol. by left. }
  intros g1 [Hadds1 Hall1]. eapply returns_bind.
  { apply impl_loop_returns; [by rewrite (ads_names _ _ _ Hadds1)| |done].
    intros imp Him. apply Hcol. by right. }
  intros g2 [Hadds2 Hall2]. apply returns_ret. cbn [fst snd].
  split_and!; [done|by eapply adds_trans|].
  intros f did imp item Hl Hn Hnm Hitem Hf Hacc.
  destruct (proj2 (Hcol imp)) as [Hin|Hin]; [by exists did| |].
  - destruct (ads_functions _ _ _ Hadds2) as (new & -> & _).
    apply elem_of_app. left. by eapply Hall1.
  - by eapply Hall2.
Qed.
End extraction.

(** ** Properties *)

(** The substitution of [Self] in a signature is complete for references and path
    arguments: a type where [Self] does not occur there is unchanged, and after the
    substitution of a type without [Self] no such occurrence is left. *)
Lemma self_is_replaced (t impl_type : Type_) :
  (is_param_self_type t = true <-> mentions_self t) /\
  (~ mentions_self t -> replace_self_type t impl_type = t) /\
  (~ mentions_self impl_type -> ~ mentions_self (replace_self_type t impl_type)).
Proof.
  split_and!; [apply is_param_self_type_spec|apply replace_self_same|apply replace_self_gone].
Qed.

(** C36: the analysis of an impl never panics when its methods are named and its trait has
    an id. It adds to the graph only functions of methods of the impl, with [Self]
    replaced and the name of the trait (when a parameter mentions [Self]) or of the
    type; and when the type and the trait have names, every such function that is
    neither generic nor with an undecodable parameter is added. *)
Theorem methods_of_an_impl_are_added (cache : gmap PrimitiveType DefId) (impl_ : Impl Item)
    (m : FullNameMap) (g : ApiGraph) (Hm : full_name_map g = m)
    (Hnamed : Forall item_named (items impl_))
    (Htrait : forall t, trait_ impl_ = Some t -> is_Some (def_id cache t)) :
  returns (_analyse_impl cache impl_ m g) (fun g' =>
    adds (fun f => exists item, item ∈ items impl_ /\ method_of cache impl_ m item f) g g' /\
    (nameable cache impl_ m -> forall item f, item ∈ items impl_ ->
       method_of cache impl_ m item f -> accepted m f -> f ∈ api_functions g')).
Proof. by apply analyse_impl_returns. Qed.

Definition sample_names : FullNameMap :=
  push_mapping FullNameMap_new sample_did "c::T" ItemType.Struct.

Lemma sample_items_named : Forall item_named (items sample_impl).
Proof. constructor; [|constructor]. intros method _. by eexists. Qed.

Lemma methods_of_an_impl_are_added_witness :
  returns (_analyse_impl ∅ sample_impl sample_names
             (set_full_name_map (ApiGraph_new "c") sample_names)) (fun g' =>
    sample_function "c::T::get" [BorrowedRef None Not sample_type]
      (Some (Primitive PrimitiveType.U8)) ∈ api_functions g').
Proof.
  pose proof (methods_of_an_impl_are_added ∅ sample_impl sample_names
    (set_full_name_map (ApiGraph_new "c") sample_names) eq_refl sample_items_named
    ltac:(intros t Ht; discriminate)) as Hr.
  apply (returns_mono _ _ _ Hr). intros g' [_ Hall]. apply (Hall ltac:(split; [by eexists|by intros [? ?]])
    sample_method); [apply list_elem_of_here| |by vm_compute].
  split; [|done|by intros [? ?]].
  exists (sample_signature [BorrowedRef None Not (Generic "Self")]
      (Return_ (Primitive PrimitiveType.U8))), "get", "c::T".
  split_and!; try done. eexists _, _, _, _. split_and!; try done.
Defined.
