(* ===== verification/CrateWalk.v ===== *)
(** The walk over the modules of the crate ([html/render.rs]: [analyse_clean_krate] and
    [another_analyse_item]), which adds the free functions to the graph and records the
    visibility of the modules. *)

From S2P Require Import Prelude RustStd CleanTypes CleanItems DocFold Pruning.
From S2P Require Import ItemTree CallTypes PreludeTypes FuzzableTypes ApiUtil ModVisibility.
From S2P Require Import ApiFunction ApiSequence ApiGraph ItemSamples Samples ImplUtil ImplCorrect.

(** ** The walk over the modules *)

(** [full_path] of [render.rs]; [current] are the modules around the item. *)
Definition item_path (current : list string) (name : string) : string :=
  join "::" current +:+ "::" +:+ name.

(** One item: the new graph, and the items pushed on the work list, the last one first. *)
Definition another_analyse_item (current : list string) (item : Item) (g : ApiGraph)
    : outcome (ApiGraph * list (list string * Item)) :=
  module ← is_mod item;
  if module : bool then
    name ← unwrap (item_name item);
    if bool_decide (name = EmptyString) then Panicked
    else
      let current := current ++ [name] in
      let mod_name := join "::" current in
      let g := add_mod_visibility g mod_name (item_visibility item) in
      items ← match item_inner item with
              | StrippedItem (ModuleItem m) | ModuleItem m => mret (module_items_ m)
              | _ => Panicked
              end;
      mret (g, reverse (List.map (fun i => (current, i)) items))
  else
    match item_name item with
    | None => mret (g, [])
    | Some name =>
        kind ← item_type item;
        if bool_decide (kind = ItemType.Function_) then
          match item_inner item with
          | FunctionItem func =>
              let 'mk_FnDecl inputs output _ _ := fn_decl func in
              let api_fun :=
                {| full_name := item_path current name; generics := fn_generics func;
                   inputs := _extract_input_types inputs;
                   output := _extract_output_type output; _trait_full_path := None;
                   ApiFunction._unsafe_tag :=
                     ApiUnsafety._get_unsafety_from_fnheader (fn_unsafety func) |} in
              mret (add_api_function g api_fun, [])
          | _ => mret (g, [])
          end
        else mret (g, [])
    end.

(** [while let Some((cx, item)) = work.pop()], with fuel; the top of the stack is the
    head of [work]. *)
Fixpoint work_loop (fuel : nat) (work : list (list string * Item)) (g : ApiGraph)
    : outcome ApiGraph :=
  match work with
  | [] => mret g
  | (current, item) :: rest =>
      match fuel with
      | O => Panicked
      | S fuel =>
          r ← another_analyse_item current item g;
          let '(g, pushed) := (r : ApiGraph * list (list string * Item)) in
          work_loop fuel (pushed ++ rest) g
      end
  end.

Definition rename (item : Item) (name : option string) : Item :=
  {| item_name := name; item_attrs := item_attrs item; item_inner := item_inner item;
     item_visibility := item_visibility item; item_def_id := item_def_id item;
     item_source := item_source item |}.

Definition analyse_clean_krate (krate : Crate) (g : ApiGraph) : outcome ApiGraph :=
  match krate_module krate with
  | None => mret g
  | Some i =>
      let item := rename i (Some (krate_name krate)) in
      work_loop (item_size item) [([], item)] g
  end.

(** ** Specification of the walk *)

(** What rustdoc guarantees of the tree: modules are named, nothing is stripped twice. *)
Inductive walkable (item : Item) : Prop :=
| walkable_item kind :
    item_type item = Ret kind ->
    (kind = ItemType.Module_ -> exists items name, module_items item = Some items /\
       item_name item = Some name /\ name <> EmptyString) ->
    (forall items child, module_items item = Some items -> child ∈ items -> walkable child) ->
    walkable item.

(** The module [path], with its visibility. *)
Definition module_at (x : list string * Item) (path : string) (v : Visibility) : Prop :=
  exists name, item_name x.2 = Some name /\ is_Some (module_items x.2) /\
    path = join "::" (x.1 ++ [name]) /\ v = item_visibility x.2.

(** The free function of an item. *)
Definition function_at (x : list string * Item) (f : ApiFunction) : Prop :=
  exists name func ins out variadic attrs,
    item_name x.2 = Some name /\ item_inner x.2 = FunctionItem func /\
    fn_decl func = mk_FnDecl ins out variadic attrs /\
    f = {| full_name := item_path x.1 name; generics := fn_generics func;
           inputs := _extract_input_types ins; output := _extract_output_type out;
           _trait_full_path := None;
           ApiFunction._unsafe_tag :=
             ApiUnsafety._get_unsafety_from_fnheader (fn_unsafety func) |}.

(** From [g] to [g'] the functions and the modules of the items [P] are added. *)
Record walked (P : list string * Item -> Prop) (g g' : ApiGraph) : Prop := {
  wk_names : full_name_map g' = full_name_map g;
  wk_crate : _crate_name g' = _crate_name g;
  wk_functions : exists new, api_functions g' = api_functions g ++ new /\
    Forall (fun f => accepted (full_name_map g) f /\ exists x, P x /\ function_at x f) new;
  wk_all_functions : forall x f, P x -> function_at x f -> accepted (full_name_map g) f ->
    f ∈ api_functions g';
  wk_modules : forall path v, inner (mod_visibility g') !! path = Some v ->
    inner (mod_visibility g) !! path = Some v \/ exists x, P x /\ module_at x path v;
  wk_all_modules : forall path v,
    inner (mod_visibility g) !! path = Some v \/ (exists x, P x /\ module_at x path v) ->
    is_Some (inner (mod_visibility g') !! path);
  wk_root : ModVisibility.crate_name (mod_visibility g') =
            ModVisibility.crate_name (mod_visibility g)
}.

Lemma walked_none P g : (forall x, ~ P x) -> walked P g g.
Proof.
  intros Hno. split; try done.
  - exists []. by rewrite app_nil_r.
  - intros x f HP. by destruct (Hno x).
  - by left.
  - intros path v [Hv|(x & HP & _)]; [by exists v|by destruct (Hno x)].
Qed.

Lemma walked_trans P Q R g1 g2 g3 :
  (forall x, R x <-> P x \/ Q x) -> walked P g1 g2 -> walked Q g2 g3 -> walked R g1 g3.
Proof.
  intros HR [Hn Hc (l & Hf & Hl) Hall Hm Hma Hr] [Hn' Hc' (l' & Hf' & Hl') Hall' Hm' Hma' Hr'].
  split; [congruence..| | | | |congruence].
  - exists (l ++ l'). rewrite Hf', Hf, app_assoc. split; [done|]. apply Forall_app. split.
    + eapply Forall_impl; [exact Hl|]. intros f (? & x & ? & ?). split; [done|].
      exists x. rewrite HR. tauto.
    + rewrite Hn in Hl'. eapply Forall_impl; [exact Hl'|]. intros f (? & x & ? & ?).
      split; [done|]. exists x. rewrite HR. tauto.
  - intros x f [HP|HQ]%HR Hfx Ha.
    + rewrite Hf'. apply elem_of_app. left. by eapply Hall.
    + eapply Hall'; [done..|]. by rewrite Hn.
  - intros path v [Hv|(x & HQ & Hx)]%Hm'; [|right; exists x; rewrite HR; tauto].
    apply Hm in Hv as [?|(x & HP & Hx)]; [by left|right]. exists x. rewrite HR. tauto.
  - intros path v [Hv|(x & [HP|HQ]%HR & Hx)].
    + destruct (Hma path v) as [v' Hv']; [by left|]. apply (Hma' path v'). by left.
    + destruct (Hma path v) as [v' Hv']; [right; eauto|]. apply (Hma' path v'). by left.
    + apply (Hma' path v). right. eauto.
Qed.

Lemma walked_ext P Q g g' : (forall x, P x <-> Q x) -> walked P g g' -> walked Q g g'.
Proof.
  intros HPQ Hw. apply (walked_trans (fun _ => False) P Q g g g'); [| |done].
  - intros x. rewrite HPQ. tauto.
  - apply walked_none. tauto.
Qed.

(** Adding a function, and adding a module. *)
Lemma walked_function x f g :
  function_at x f -> module_items x.2 = None -> walked (eq x) g (add_api_function g f).
Proof.
  intros Hf Hno.
  destruct (add_api_function_adds (fun f => function_at x f) g f Hf)
    as [Hn (new & Hfs & Hnew) Hm Hc].
  split; try done; rewrite ?Hm; try done.
  - exists new. split; [done|]. eapply Forall_impl; [exact Hnew|]. intros f' [? ?]. eauto.
  - intros x' f' <- (name & func & ins & out & v & a & H1 & H2 & H3 & ->) [Hg Hs].
    destruct Hf as (name' & func' & ins' & out' & v' & a' & H1' & H2' & H3' & ->).
    assert (func' = func) as -> by congruence. assert (name' = name) as -> by congruence.
    rewrite H3 in H3'. injection H3' as -> -> _ _.
    unfold add_api_function. rewrite Hg, Hs. cbn. set_solver.
  - by left.
  - intros path v [Hv|(x' & <- & (name & _ & [items Hi] & _))]; [by exists v|]. congruence.
Qed.

Lemma walked_nothing x g :
  (forall f, ~ function_at x f) -> module_items x.2 = None -> walked (eq x) g g.
Proof.
  intros Hno Hmod. split; try done.
  - exists []. by rewrite app_nil_r.
  - intros x' f <- Hf. by destruct (Hno f).
  - by left.
  - intros path v [Hv|(x' & <- & (name & _ & [items Hi] & _))]; [by exists v|]. congruence.
Qed.

Lemma walked_module x name items g :
  item_name x.2 = Some name -> module_items x.2 = Some items ->
  walked (eq x) g (add_mod_visibility g (join "::" (x.1 ++ [name])) (item_visibility x.2)).
Proof.
  intros Hname Hitems.
  assert (Hat : module_at x (join "::" (x.1 ++ [name])) (item_visibility x.2))
    by (exists name; split_and!; eauto).
  split; try done.
  - exists []. by rewrite app_nil_r.
  - intros x' f <- (? & ? & ? & ? & ? & ? & _ & Hinner & _).
    unfold module_items, enum_module in Hitems. by rewrite Hinner in Hitems.
  - intros path v. cbn. intros [[<- <-]|[_ Hv]]%lookup_insert_Some; [right; eauto|by left].
  - intros path v Hv. cbn. destruct (decide (path = join "::" (x.1 ++ [name]))) as [->|Hne].
    + rewrite lookup_insert_eq. eauto.
    + rewrite lookup_insert_ne by done. destruct Hv as [Hv|(x' & <- & Hv)]; [by exists v|].
      destruct Hv as (name' & Hn' & _ & Hp & _). congruence.
Qed.

Lemma size_children item items :
  module_items item = Some items ->
  sum_list_with item_size items < item_size item.
Proof.
  intros Hi. rewrite item_size_members, (module_items_members _ _ Hi). lia.
Qed.

Definition work_size (work : list (list string * Item)) : nat :=
  sum_list_with (fun x => item_size x.2) work.

Lemma pushed_size current item items :
  module_items item = Some items ->
  work_size (reverse (List.map (fun i => (current, i)) items)) < item_size item.
Proof.
  intros Hi. unfold work_size. rewrite sum_list_with_reverse.
  apply size_children in Hi. assert (Heq : sum_list_with (fun x : list string * Item => item_size x.2)
    (List.map (fun i => (current, i)) items) = sum_list_with item_size items); [|lia].
  clear Hi. induction items as [|i items IH]; cbn; lia.
Qed.

(** One item, without the items below it. *)
Lemma analyse_item_walked current item g :
  walkable item ->
  returns (another_analyse_item current item g) (fun r =>
    walked (eq (current, item)) g r.1 /\ work_size r.2 < item_size item /\
    forall x, x ∈ r.2 <-> exists items child, module_items item = Some items /\
      child ∈ items /\ x = (current ++ option_list (item_name item), child)).
Proof.
  intros [kind Hkind Hmod _]. unfold another_analyse_item, is_mod. rewrite Hkind.
  cbn [mbind outcome_bind]. destruct (decide (kind = ItemType.Module_)) as [Hm|Hm];
    [rewrite (bool_decide_eq_true_2 (kind = ItemType.Module_)) by done
    |rewrite (bool_decide_eq_false_2 (kind = ItemType.Module_)) by done].
  - destruct (Hmod Hm) as (items & name & Hitems & Hname & Hne). rewrite Hname.
    cbn [unwrap mbind outcome_bind]. rewrite bool_decide_eq_false_2 by done.
    assert (Hret : match item_inner item with
      | StrippedItem (ModuleItem m) | ModuleItem m => mret (module_items_ m)
      | _ => Panicked end = Ret items).
    { by destruct (module_items_inv _ _ Hitems) as (m & <- & [-> | ->]). }
    rewrite Hret. cbn [mbind outcome_bind]. apply returns_ret. cbn [fst snd]. split_and!.
    + by apply (walked_module (current, item) name items).
    + by apply pushed_size.
    + intros x. rewrite elem_of_reverse. rewrite list_elem_of_In, in_map_iff.
      setoid_rewrite <- list_elem_of_In. split.
      * intros (child & <- & Hc). by exists items, child.
      * intros (items' & child & Hi & Hc & ->). exists child. split; [done|congruence].
  - assert (Hnone : module_items item = None).
    { destruct (module_items item) as [its|] eqn:Hits; [|done]. exfalso. apply Hm.
      unfold item_type in Hkind.
      destruct (module_items_inv _ _ Hits) as (m & _ & [Hi | Hi]); rewrite Hi in Hkind; cbn in Hkind;
        by injection Hkind as <-. }
    assert (Hnil : forall (x : list string * Item) names, x ∈ [] <-> exists items child,
      module_items item = Some items /\ child ∈ items /\ x = (current ++ names, child)).
    { intros x names. split; [by intros ?%not_elem_of_nil|]. intros (? & ? & Hi & _). congruence. }
    destruct (item_name item) as [name|] eqn:Hname.
    2:{ apply returns_ret. split_and!; [|apply item_size_pos|done]. apply walked_nothing; [|done].
        intros f (? & ? & ? & ? & ? & ? & Hn & _). cbn in Hn. congruence. }
    cbn [mbind outcome_bind]. case_bool_decide as Hfk.
    + destruct (item_inner item) eqn:Hinner;
        try (apply returns_ret; split_and!; [|apply item_size_pos|done]; apply walked_nothing; [|done];
             intros f' (? & ? & ? & ? & ? & ? & _ & Hi & _); cbn in Hi; congruence).
      match type of Hinner with _ = FunctionItem ?x => rename x into func end.
      destruct (fn_decl func) as [ins out v a] eqn:Hdecl. apply returns_ret. split_and!; [|apply item_size_pos|done].
      apply walked_function; [|done]. by exists name, func, ins, out, v, a.
    + apply returns_ret. split_and!; [|apply item_size_pos|done]. apply walked_nothing; [|done].
      intros f' (? & func & ? & ? & ? & ? & _ & Hi & _). cbn in Hi. apply Hfk.
      unfold item_type in Hkind. rewrite Hi in Hkind. by injection Hkind as <-.
Qed.

(** ** The whole walk *)

Lemma work_loop_returns fuel work g :
  work_size work <= fuel -> (forall x, x ∈ work -> walkable x.2) ->
  returns (work_loop fuel work g) (walked (fun y => exists x, x ∈ work /\ under x y) g).
Proof.
  revert work g. induction fuel as [|fuel IH]; intros [|[current item] work] g Hsize Hwalk;
    cbn [work_loop]; try (apply returns_ret, walked_none; by intros x (? & ?%not_elem_of_nil & _)).
  { exfalso. unfold work_size in Hsize. cbn in Hsize. pose proof (item_size_pos item). lia. }
  pose proof (Hwalk (current, item) ltac:(set_solver)) as Hitem. cbn in Hitem.
  eapply returns_bind; [by apply analyse_item_walked|].
  intros [g1 pushed] (Hw1 & Hlt & Hpushed). cbn [fst snd] in *. eapply returns_mono.
  - apply IH.
    + unfold work_size in *. cbn in Hsize. rewrite sum_list_with_app. lia.
    + intros x [Hx|Hx]%elem_of_app; [|apply Hwalk; set_solver].
      apply Hpushed in Hx as (items & child & Hi & Hc & ->).
      destruct Hitem as [_ _ _ Hch]. by eapply Hch.
  - intros g2 Hw2. eapply walked_trans; [|exact Hw1|exact Hw2].
    intros y. setoid_rewrite elem_of_app. split.
    + intros (x & [->|Hx]%elem_of_cons & Hy); [|right; eauto].
      inversion Hy as [|? ? items child ? Hi Hc Hu]; subst; [by left|right].
      exists (current ++ option_list (item_name item), child).
      split; [left; apply Hpushed; by exists items, child|done].
    + intros [<-|(x & [Hx|Hx] & Hy)].
      * exists (current, item). split; [set_solver|constructor].
      * apply Hpushed in Hx as (items & child & Hi & Hc & ->).
        exists (current, item). split; [set_solver|by eapply under_child].
      * exists x. set_solver.
Qed.

Lemma analyse_krate_returns krate root g :
  krate_module krate = Some root -> walkable (rename root (Some (krate_name krate))) ->
  returns (analyse_clean_krate krate g)
    (walked (under ([], rename root (Some (krate_name krate)))) g).
Proof.
  intros Hroot Hwalk. unfold analyse_clean_krate. rewrite Hroot. cbn zeta.
  eapply returns_mono.
  - apply work_loop_returns; [unfold work_size; cbn; lia|].
    intros x ->%list_elem_of_singleton. exact Hwalk.
  - intros g' Hw. eapply walked_ext; [|exact Hw]. intros y. cbn beta. split.
    + by intros (x & ->%list_elem_of_singleton & Hy).
    + intros Hy. eexists. split; [by apply list_elem_of_singleton|done].
Qed.

(** ** The whole crate *)

Definition in_crate (krate : Crate) (root : Item) (x : list string * Item) : Prop :=
  under ([], rename root (Some (krate_name krate))) x.

Lemma rename_module root name : module_items (rename root name) = module_items root.
Proof. by destruct root. Qed.

(** Every module but the root has a parent. *)
Lemma module_has_parent krate root x path v :
  in_crate krate root x -> module_at x path v -> path <> krate_name krate ->
  is_Some (get_parent_mod_name path).
Proof.
  intros Hx (name & Hname & _ & -> & _) Hne.
  unfold get_parent_mod_name. destruct (str_contains _ "::") eqn:Hc; [by eexists|].
  exfalso. inversion Hx as [|? ? items child ? Hi Hin Hu]; subst.
  - cbn in Hname. injection Hname as <-. by apply Hne.
  - destruct (under_modules _ _ Hu) as (extra & Heq). cbn in Heq.
    apply not_true_iff_false in Hc. apply Hc, str_contains_spec.
    exists (join "::" x.1), name. apply join_snoc. by rewrite Heq.
Qed.

(** ** Properties *)

Lemma sample_leaf_walkable i k :
  item_type i = Ret k -> k <> ItemType.Module_ -> module_items i = None -> walkable i.
Proof. intros Hk Hm Hn. econstructor; [exact Hk|done|]. intros items child Hi. congruence. Qed.

Lemma sample_module_walkable name v index its :
  name <> EmptyString -> Forall walkable its -> walkable (sample_module (Some name) v index its).
Proof.
  intros Hne Hall. econstructor; [reflexivity| |].
  - intros _. by exists its, name.
  - intros its' child [= <-] Hin. rewrite Forall_forall in Hall. by apply Hall.
Qed.

Lemma sample_root_walkable name :
  name <> EmptyString -> walkable (rename sample_root (Some name)).
Proof.
  intros Hname. apply (sample_module_walkable name Visibility.Public 0); [done|].
  repeat apply List.Forall_cons; try apply List.Forall_nil;
    try (eapply sample_leaf_walkable; [reflexivity|done|reflexivity]).
  apply sample_module_walkable; [done|]. repeat apply List.Forall_cons; try apply List.Forall_nil.
  eapply sample_leaf_walkable; [reflexivity|done|reflexivity].
Qed.

(** The walk over the crate visits every item below the root: it records exactly the
    modules, each with the path of the modules around it and its visibility, and adds
    exactly the accepted free functions under their paths; the fuel is enough. *)
Lemma walk_visits_every_item (krate : Crate) (root : Item) (g : ApiGraph)
    (Hroot : krate_module krate = Some root)
    (Hwalk : walkable (rename root (Some (krate_name krate)))) :
  returns (analyse_clean_krate krate g) (walked (in_crate krate root) g).
Proof. by apply analyse_krate_returns. Qed.

Lemma walk_visits_every_item_witness :
  returns (analyse_clean_krate sample_krate (ApiGraph_new "c")) (fun g' =>
    inner (mod_visibility g') !! "c::m" = Some Visibility.Inherited).
Proof.
  pose proof (walk_visits_every_item sample_krate sample_root (ApiGraph_new "c") eq_refl
    (sample_root_walkable "c" ltac:(done))) as Hr.
  apply (returns_mono _ _ _ Hr). intros g' Hw.
  destruct (wk_all_modules _ _ _ Hw "c::m" Visibility.Inherited) as [v Hv].
  { right. exists (["c"], sample_private). split.
    - eapply under_child; [reflexivity| |constructor].
      do 4 apply list_elem_of_further. apply list_elem_of_here.
    - exists "m". split_and!; [reflexivity|by eexists|reflexivity|reflexivity]. }
  destruct (wk_modules _ _ _ Hw _ _ Hv) as [Hold|(x & Hx & Hat)]; [by vm_compute in Hold|].
  rewrite Hv. f_equal. destruct Hat as (name & Hname & [its Hits] & Hpath & ->).
  inversion Hx as [|? ? i1 c1 ? Hi1 Hc1 Hu1]; subst.
  { injection Hname as <-. vm_compute in Hpath. discriminate Hpath. }
  injection Hi1 as <-.
  repeat (apply elem_of_cons in Hc1 as [->|Hc1]); [..|by apply not_elem_of_nil in Hc1].
  1-4: inversion Hu1 as [|? ? i2 c2 ? Hi2]; subst; [discriminate Hits|discriminate Hi2].
  inversion Hu1 as [|? ? i2 c2 ? Hi2 Hc2 Hu2]; subst; [reflexivity|].
  injection Hi2 as <-. apply list_elem_of_singleton in Hc2 as ->.
  inversion Hu2 as [|? ? i3 c3 ? Hi3]; subst; [discriminate Hits|discriminate Hi3].
Defined.
