(* ===== verification/Described.v ===== *)
(** The crates that the cleaning describes: the conditions under which the passes, the
    render cache and the walk do not panic. Pruning preserves them, and the crate that the
    render cache returns meets the contract of the generator. *)

From S2P Require Import Prelude RustStd CleanTypes CleanItems DocFold Pruning.
From S2P Require Import Passes PassesCorrect ItemTree DocPassesCorrect PassesSpec PassesRun.
From S2P Require Import CollectImpls UnindentCorrect Visitors CollectCorrect RenderCache CrawlSpec.
From S2P Require Import CacheCorrect CacheBuild CallTypes PreludeTypes FuzzableTypes ApiUtil.
From S2P Require Import ModVisibility ApiFunction ApiSequence ApiGraph ImplUtil ImplCorrect.
From S2P Require Import CrateWalk.

(** The methods of an impl are named, and its trait has an id. *)
Definition impl_good (i : Item) : Prop :=
  forall imp, item_inner i = ImplItem imp ->
    Forall item_named (items imp) /\
    forall t, trait_ imp = Some t -> is_Some (def_id unset_cache t).

Record described (root : Item) : Prop := {
  de_module : is_Some (module_items root);
  de_crawl : crawlable root;
  de_impls : all_below impl_good root;
  de_walk : forall name, name <> EmptyString -> walkable (rename root (Some name))
}.

Definition crate_described (c : Crate) : Prop :=
  forall root, krate_module c = Some root -> described root.

(** ** Pruning preserves them *)

Lemma types_named_pruned wrap i' i : edited wrap i' i -> types_named i -> types_named i'.
Proof.
  intros (_ & Hs & _)%pruned_inv Ht. destruct Hs as [Hs|(_ & _ & Hs)].
  - assert (Heq : forall d : Item, types_named d <->
      types_named (with_inner_enum d (shape (item_inner d)))).
    { intros d. unfold types_named. cbn. destruct (item_inner d); try done. by destruct v. }
    rewrite Heq in Ht. apply Heq. unfold types_named in *. cbn in *. by rewrite Hs.
  - apply shape_stripped_inv in Hs as (e & He & _). unfold types_named. by rewrite He.
Qed.

Lemma needs_owner_shape e : needs_owner (shape e) = needs_owner e.
Proof. destruct e; try done. by destruct v. Qed.
Lemma owns_shape e : owns (shape e) = owns e.
Proof. destruct e; try done. by destruct v. Qed.

Lemma crawlable_pruned wrap i' i : edited wrap i' i -> crawlable i -> crawlable i'.
Proof.
  revert i'. induction i as [i IH] using item_members_ind. intros i' Hp Hcr.
  inversion Hcr as [Hs Ht Hc Ho]; clear Hcr. constructor.
  - by apply (pruned_single _ _ _ _ Hp).
  - by eapply types_named_pruned.
  - pose proof Hp as (_ & _ & Hk)%pruned_inv. intros c' Hc'.
    destruct (kept_elem _ _ _ _ Hk Hc') as (c & Hc0 & Hcc). by apply (IH c Hc0); [|apply Hc].
  - pose proof Hp as (_ & Hsh & Hk)%pruned_inv. intros c' Hc' Hn.
    destruct (kept_elem _ _ _ _ Hk Hc') as (c & Hc0 & Hcc).
    assert (Hnc : needs_owner (item_inner c) = true).
    { apply pruned_inv in Hcc as (_ & [Hcs|(_ & _ & Hcs)] & _).
      - by rewrite <- needs_owner_shape, <- Hcs, needs_owner_shape.
      - by rewrite <- needs_owner_shape, Hcs in Hn. }
    specialize (Ho c Hc0 Hnc). destruct Hsh as [Hsh|(_ & Hw & _)].
    + by rewrite <- owns_shape, Hsh, owns_shape.
    + by destruct (item_inner i).
Qed.

Lemma inner_type_shape e : inner_type (shape e) = inner_type e.
Proof. destruct e; try done. by destruct v. Qed.

Lemma item_type_pruned wrap i' i : edited wrap i' i -> item_type i' = item_type i.
Proof.
  intros (_ & Hs & _)%pruned_inv.
  assert (Heq : forall d : Item, item_type d =
    match shape (item_inner d) with StrippedItem e => inner_type e | e => inner_type e end).
  { intros d. unfold item_type. destruct (item_inner d); try done.
    - by destruct v.
    - cbn. symmetry. apply inner_type_shape. }
  rewrite !Heq. destruct Hs as [->|(_ & Hw & ->)]; [done|]. by destruct (item_inner i).
Qed.

Lemma walkable_pruned wrap i' i : edited wrap i' i -> walkable i -> walkable i'.
Proof.
  revert i'. induction i as [i IH] using item_members_ind. intros i' Hp Hwalk.
  inversion Hwalk as [kind Hk Hm Hc]; clear Hwalk.
  pose proof Hp as ((Hname & _) & _ & Hkept)%pruned_inv.
  econstructor; [by rewrite (item_type_pruned _ _ _ Hp)| |].
  - intros Hkm. destruct (Hm Hkm) as (its & name & Hi & Hn & Hne).
    destruct (proj2 (pruned_module _ _ _ _ Hp) ltac:(by eexists)) as [its' Hi'].
    exists its', name. split_and!; [done|congruence|done].
  - intros its' c' Hi' Hc'.
    destruct (proj1 (pruned_module _ _ _ _ Hp) ltac:(by eexists)) as [its Hi].
    rewrite (module_items_members _ _ Hi), (module_items_members _ _ Hi') in Hkept.
    destruct (kept_elem _ _ _ _ Hkept Hc') as (c & Hc0 & Hcc).
    apply (IH c); [by rewrite (module_items_members _ _ Hi)|done|by eapply Hc].
Qed.

Lemma rename_pruned wrap i' i n :
  edited wrap i' i ->
  edited wrap (rename i' n) (rename i n).
Proof.
  intros ((_ & Ha & Hv & Hd & Hf) & Hs & Hk)%pruned_inv. constructor; [by split_and!|done..].
Qed.

Lemma item_named_pruned wrap i' i : edited wrap i' i -> item_named i -> item_named i'.
Proof.
  intros ((Hn & _) & Hs & _)%pruned_inv Hi method Hm. rewrite Hn. apply (Hi method).
  rewrite Hm in Hs. destruct Hs as [Hs|(_ & Hw & Hs)]; [|done].
  destruct (item_inner i) eqn:Hin; try done. by destruct v.
Qed.

Lemma impl_good_pruned wrap i' i : edited wrap i' i -> impl_good i -> impl_good i'.
Proof.
  intros (_ & Hs & Hk)%pruned_inv Hi imp' Himp'. rewrite Himp' in Hs, Hk.
  destruct Hs as [Hs|(_ & Hw & Hs)]; [|done].
  destruct (item_inner i) as [| | | | | | | | | | | | |imp| | | |v| | | | | | | | | |] eqn:Hin;
    try done; [|by destruct v].
  destruct (Hi imp Hin) as [Hnamed Htr]. cbn in Hk. split.
  - apply Forall_forall. intros c' Hc'. destruct (kept_elem _ _ _ _ Hk Hc') as (c & Hc & Hcc).
    eapply item_named_pruned; [exact Hcc|]. rewrite Forall_forall in Hnamed. by apply Hnamed.
  - injection Hs as _ _ _ Htrait _. by rewrite Htrait.
Qed.

Lemma described_pruned wrap root' root : edited wrap root' root -> described root -> described root'.
Proof.
  intros Hp [Hm Hc Hi Hw]. split.
  - by apply (pruned_module _ _ _ _ Hp).
  - by eapply crawlable_pruned.
  - eapply all_below_pruned; [|done..]. intros d' d. apply impl_good_pruned.
  - intros name Hn. eapply walkable_pruned; [by apply rename_pruned|by apply Hw].
Qed.

Lemma crate_described_pruned c' c : pruned_crate true c' c -> crate_described c -> crate_described c'.
Proof.
  intros Hp Hc root' Hr. destruct (pc_module _ _ _ Hp _ Hr) as (root & Hr0 & Hpr).
  exact (described_pruned _ _ _ (pruned_but_docs _ _ _ _ Hpr) (Hc _ Hr0)).
Qed.

Lemma crate_described_redocumented c' c :
  redocumented_crate c' c -> crate_described c -> crate_described c'.
Proof.
  intros Hr Hc root' Hroot. pose proof (rc_module _ _ _ Hr) as Hm. rewrite Hroot in Hm.
  inversion Hm as [? root Hp Heq Heq'|]; subst.
  eapply described_pruned; [by apply redocumented_edited|by apply Hc].
Qed.

(** ** Impls at the end of the root *)

(** What the generator needs of an impl that the compiler hands over. *)
Definition impl_described (i : Item) : Prop :=
  crawlable i /\ all_below impl_good i /\ all_below documented_ok i.

Section extended.
Context (root1 root' : Item) (m : Module_ Item) (extras : list Item).
Context (Hi1 : item_inner root1 = ModuleItem m) (Hh : same_header root' root1).
Context (Hi' : item_inner root' = ModuleItem (mk_Module (module_items_ m ++ extras) (is_crate m))).
Context (Himpl : forall i, i ∈ extras -> is_impl i /\ impl_described i).

Lemma extended_member c : c ∈ members (item_inner root') ->
  c ∈ members (item_inner root1) \/ c ∈ extras.
Proof using Hi1 Hi'. rewrite Hi1, Hi'. cbn. by rewrite elem_of_app. Qed.

Lemma extended_all_below (P : Item -> Prop) :
  P root' -> all_below P root1 -> (forall i, i ∈ extras -> all_below P i) -> all_below P root'.
Proof using Hi1 Hi'.
  intros Hr [_ Hm]%all_below_unfold He. apply all_below_unfold. split; [done|].
  intros c [Hc|Hc]%extended_member; [by apply Hm|by apply He].
Qed.

Lemma impl_walkable i : is_impl i -> walkable i.
Proof.
  intros [imp Hi]. apply (walkable_item _ ItemType.Impl); unfold item_type, module_items;
    by rewrite Hi.
Qed.

Lemma described_extended : described root1 -> described root'.
Proof using All.
  intros [_ Hc Hi Hw]. split.
  - unfold module_items. by rewrite Hi'.
  - inversion Hc as [_ _ Hcm Ho]. constructor.
    + by rewrite Hi'.
    + unfold types_named. by rewrite Hi'.
    + intros c [Hx|Hx]%extended_member; [by apply Hcm|by apply Himpl].
    + intros c [Hx|Hx]%extended_member Hn.
      * specialize (Ho c Hx Hn). by rewrite Hi1 in Ho.
      * destruct (Himpl c Hx) as [[imp Himp] _]. by rewrite Himp in Hn.
  - apply extended_all_below; [|done|].
    + intros imp Himp. congruence.
    + intros i Hx. by apply Himpl.
  - intros name Hn. specialize (Hw name Hn). inversion Hw as [kind Hk Hm Hcw].
    assert (kind = ItemType.Module_) as ->.
    { unfold item_type, rename in Hk. cbn in Hk. rewrite Hi1 in Hk. by injection Hk. }
    apply (walkable_item _ ItemType.Module_).
    + unfold item_type, rename. cbn. by rewrite Hi'.
    + intros _. rewrite rename_module. unfold module_items. rewrite Hi'. eauto.
    + intros its c. rewrite rename_module. unfold module_items. rewrite Hi'.
      intros [= <-] [Hx|Hx]%elem_of_app; [|by apply impl_walkable, Himpl].
      apply (Hcw (module_items_ m)); [|done]. rewrite rename_module. unfold module_items. by rewrite Hi1.
Qed.
End extended.

Lemma collected_described {X} (tcx : Tcx X) c cx c' cx' :
  trait_impls_added tcx impl_described c cx c' cx' -> bare c -> (exists root, rooted c root) ->
  crate_described c -> crate_docs_ok c ->
  crate_described c' /\ crate_docs_ok c' /\ krate_name c' = krate_name c.
Proof.
  intros [_ _ _ (c1 & visited & synth & cx1 & others & cx2 & prim & cx3 & local & sets & cleaner &
    [Hpr Hre] & _ & _ & _ & _ & _ & Hext & Hgood & _)] Hb
    [root Hroot] Hc Hd.
  assert (Hw : pruned_crate true c1 c) by (by eapply pruned_crate_wrap).
  pose proof (crate_described_pruned _ _ Hw Hc) as Hc1.
  assert (Hd1 : crate_docs_ok c1) by (by eapply crate_docs_ok_pruned).
  destruct (redocumented_root _ _ _ Hre Hroot) as [root1 Hroot1].
  destruct (bare_root _ _ Hroot1 (redocumented_bare _ _ Hre Hb)) as [m Hm].
  set (extras := synth ++ List.filter (keep_impl cleaner) (others ++ prim) ++ local) in *.
  assert (Himpl : forall i, i ∈ extras -> is_impl i /\ impl_described i).
  { intros i Hi. rewrite Forall_forall in Hgood.
    destruct (Hgood i) as (_ & HQ & imp & Himp & _); [|split; [by exists imp|done]].
    rewrite (elem_of_app synth), (elem_of_app (others ++ prim)).
    apply elem_of_app in Hi as [Hi|[Hi|Hi]%elem_of_app]; [auto| |auto].
    apply list_elem_of_In, filter_In in Hi as [Hi%list_elem_of_In _]. auto. }
  destruct (extend_root_returns c1 root1 m extras (proj1 Hroot1) Hm)
    as (c2 & root' & Hext' & Hr' & Htr & Hn & Hh & Hi').
  assert (c2 = c') as -> by (rewrite Hext' in Hext; by injection Hext).
  split_and!.
  - intros r Hr. assert (r = root') as -> by congruence.
    exact (described_extended root1 root' m extras Hm Hh Hi' Himpl (Hc1 _ (proj1 Hroot1))).
  - split.
    + intros r Hr. assert (r = root') as -> by congruence.
      pose proof (cd_module _ Hd1 _ (proj1 Hroot1)) as Hdr.
      apply (extended_all_below root1 root' m extras Hm Hi'); [|exact Hdr|].
      * apply all_below_unfold in Hdr as [Hdr _]. destruct Hh as (_ & Ha & _).
        unfold documented_ok. by rewrite Ha.
      * intros i Hi. by apply Himpl.
    + rewrite Htr. apply (cd_traits _ Hd1).
  - by rewrite Hn, (rc_name _ _ _ Hre).
Qed.
