(* ===== verification/CrateGraph.v ===== *)
(** From a crate to its fuzz targets ([html/render.rs]: [fuzz_target_run_clean_krate]): the
    graph of a crate, and from the graph to the files. *)

From S2P Require Import Prelude RustStd FileSystem CleanTypes CleanItems DocFold Pruning.
From S2P Require Import Passes PassesCorrect ItemTree DocPassesCorrect ItemSamples PassesSpec.
From S2P Require Import CollectImpls UnindentCorrect Visitors CollectCorrect.
From S2P Require Import PassesRun RenderCache CrawlSpec.
From S2P Require Import CacheCorrect CacheBuild CallTypes PreludeTypes FuzzableTypes ApiUtil.
From S2P Require Import ModVisibility ApiFunction ApiSequence ApiGraph Samples SequenceWf.
From S2P Require Import Satisfy DeadCode ApiSearch SearchCorrect BackwardSearch ApiChoose.
From S2P Require Import ChooseCorrect FileUtil ImplUtil ImplCorrect CrateWalk.
From S2P Require Import Described.

(** ** The phases *)
Section phases.
Context `{HashOrder} (rng : nat -> nat -> nat -> nat).

(** From the impls of the cache on. *)
Definition connect (krate : Crate) (api_dependency_graph : ApiGraph) : outcome ApiGraph :=
  api_dependency_graph ← analyse_clean_krate krate api_dependency_graph;
  api_dependency_graph ← filter_functions api_dependency_graph;
  find_all_dependencies api_dependency_graph.

(** The graph of a crate, with its dependencies. *)
Definition build_graph (cache : Cache) (krate : Crate) : outcome ApiGraph :=
  r ← extract_impls_from_cache cache FullNameMap_new (ApiGraph_new (krate_name krate));
  connect krate r.2.

(** From the graph on: the sequences, and the files when the crate has a directory. *)
Definition generate (cache : gmap PrimitiveType DefId) (random_strategy : bool) (g : ApiGraph)
    (fs : Fs) : outcome Fs :=
  g ← (if negb random_strategy then default_generate_sequences rng g
       else generate_all_possoble_sequences rng _RandomWalk g);
  if can_write_to_file (_crate_name g) random_strategy then
    file_helper ← FileHelper_new cache g random_strategy;
    fs ← write_files file_helper fs;
    if can_generate_libfuzzer_target (_crate_name g) then write_libfuzzer_files file_helper fs
    else mret fs
  else mret fs.

End phases.

(** ** The graph of a crate *)

(** What rustdoc guarantees of the crate: a root module, and well-formed items. *)
Record crate_ok (cache : Cache) (krate : Crate) (root : Item) : Prop := {
  ck_root : krate_module krate = Some root;
  ck_module : is_Some (module_items root);
  ck_walkable : walkable (rename root (Some (krate_name krate)));
  ck_impls : impls_ok cache
}.

(** Where the functions of the graph come from. *)
Definition crate_function (cache : Cache) (krate : Crate) (root : Item) (m : FullNameMap)
    (f : ApiFunction) : Prop :=
  impl_function cache m f \/ exists x, in_crate krate root x /\ function_at x f.

(** The functions that are sure to be found: the impl and its trait have names. *)
Definition found_function (cache : Cache) (krate : Crate) (root : Item) (m : FullNameMap)
    (f : ApiFunction) : Prop :=
  (exists did imp item, listed_impl cache did imp /\ is_Some (_get_full_name m did) /\
     nameable unset_cache imp m /\ item ∈ items imp /\ method_of unset_cache imp m item f) \/
  exists x, in_crate krate root x /\ function_at x f.

(** The name of the function or of its trait starts with [name]. *)
Definition starts_in (name : string) (f : ApiFunction) : Prop :=
  starts_with (full_name f) name = true \/
  exists t, _trait_full_path f = Some t /\ starts_with t name = true.

(** What the filters leave: no function of a prelude type, none of an invisible module. *)
Definition published (mods : ModVisibity) (f : ApiFunction) : Prop :=
  (forall p, p ∈ get_all_preluded_type -> ~ starts_in p f) /\
  forall name, ModVisibility.known mods name -> ~ visible mods name -> ~ starts_in name f.

Lemma starts_in_any (names : list string) f :
  existsb (fun name => starts_with (full_name f) name
    || match _trait_full_path f with Some t => starts_with t name | None => false end) names = true
  <-> exists name, name ∈ names /\ starts_in name f.
Proof.
  rewrite existsb_exists_elem. unfold starts_in. setoid_rewrite orb_true_iff.
  destruct (_trait_full_path f) as [t|]; split; intros (name & Hin & Hs); exists name;
    (split; [done|]).
  - destruct Hs as [?|?]; [by left|right; by exists t].
  - destruct Hs as [?|(? & [= <-] & ?)]; [by left|by right].
  - destruct Hs as [?|?]; [by left|done].
  - destruct Hs as [?|(? & ? & ?)]; [by left|done].
Qed.

Lemma prelude_filter (names : list string) f :
  is_defined_on_prelude_type f names = true <-> forall p, p ∈ names -> ~ starts_in p f.
Proof.
  unfold is_defined_on_prelude_type, starts_in. rewrite andb_true_iff, !negb_true_iff. split.
  - intros [Hn Ht] p Hp [Hs|(t & Htr & Hs)].
    + apply not_true_iff_false in Hn. apply Hn, existsb_exists_elem. by exists p.
    + rewrite Htr in Ht. apply not_true_iff_false in Ht. apply Ht, existsb_exists_elem. by exists p.
  - intros Hall. split.
    + apply not_true_iff_false. intros (p & Hp & Hs)%existsb_exists_elem.
      apply (Hall p Hp). by left.
    + destruct (_trait_full_path f) as [t|]; [|done]. apply not_true_iff_false.
      intros (p & Hp & Hs)%existsb_exists_elem. apply (Hall p Hp). right. by exists t.
Qed.

Section build.
Context `{HashOrder} (cache : Cache) (krate : Crate) (root : Item).
Context (Hok : crate_ok cache krate root).

(** The filters keep the published functions. *)
Lemma filter_returns g :
  is_Some (inner (mod_visibility g) !! ModVisibility.crate_name (mod_visibility g)) ->
  (forall name, is_Some (inner (mod_visibility g) !! name) ->
     name <> ModVisibility.crate_name (mod_visibility g) -> is_Some (get_parent_mod_name name)) ->
  returns (filter_functions g) (fun g' => exists fs,
    g' = with_functions g fs /\
    forall f, f ∈ fs <-> f ∈ api_functions g /\ published (mod_visibility g) f).
Proof.
  intros Hcrate Hparents. unfold filter_functions, filter_functions_defined_on_prelude_type.
  set (g1 := if _ <=? 0 then g else _).
  assert (Hg1 : exists fs, g1 = with_functions g fs /\ forall f, f ∈ fs <->
    f ∈ api_functions g /\ forall p, p ∈ get_all_preluded_type -> ~ starts_in p f).
  { unfold g1. destruct (size get_all_preluded_type <=? 0) eqn:Hsize.
    - exists (api_functions g). split; [by destruct g|]. intros f. split; [|by intros [? _]].
      intros Hf. split; [done|]. intros p Hp. apply Nat.leb_le in Hsize.
      apply Nat.le_0_r, size_empty_inv in Hsize. set_solver.
    - eexists. split; [reflexivity|]. intros f.
      rewrite list_elem_of_In, filter_In, <- list_elem_of_In, prelude_filter.
      by setoid_rewrite elem_of_hash_order. }
  destruct Hg1 as (fs & -> & Hfs). unfold filter_api_functions_by_mod_visibility.
  eapply returns_bind; [by apply invisible_mods_returns|]. intros mods Hmods.
  cbn [mod_visibility with_functions] in Hmods.
  assert (Hflag : forall f, invisible_flag f mods = false <->
    forall name, ModVisibility.known (mod_visibility g) name -> ~ visible (mod_visibility g) name ->
      ~ starts_in name f).
  { intros f. rewrite <- not_true_iff_false. unfold invisible_flag. rewrite starts_in_any. split.
    - intros Hno name Hk Hv Hs. apply Hno. exists name. split; [by apply Hmods|done].
    - intros Hall (name & [Hk Hv]%Hmods & Hs). by eapply Hall. }
  destruct (length mods <=? 0) eqn:Hlen; apply returns_ret.
  - exists fs. split; [done|]. intros f. rewrite Hfs. unfold published.
    assert (mods = []) as -> by (by apply length_zero_iff_nil, Nat.le_0_r, Nat.leb_le).
    rewrite <- Hflag. cbn. tauto.
  - eexists. split; [reflexivity|]. intros f. cbn [api_functions with_functions].
    rewrite list_elem_of_In, filter_In, <- list_elem_of_In, Hfs, negb_true_iff, Hflag.
    unfold published. tauto.
Qed.

Lemma build_graph_returns :
  returns (build_graph cache krate) (fun g =>
    _crate_name g = krate_name krate /\ deps_ok g /\
    (forall d, d ∈ api_dependencies g <-> considered g d) /\
    (forall f, f ∈ api_functions g -> accepted (full_name_map g) f /\
       published (mod_visibility g) f /\ crate_function cache krate root (full_name_map g) f) /\
    forall f, accepted (full_name_map g) f -> published (mod_visibility g) f ->
      found_function cache krate root (full_name_map g) f -> f ∈ api_functions g).
Proof using Hok.
  destruct Hok as [Hroot Hmod Hwalk Himpls]. unfold build_graph, connect.
  eapply returns_bind; [by apply extract_returns|]. intros [m g1] (Hm & Hadds & Hfound).
  cbn [fst snd] in *. clear Hm.
  eapply returns_bind; [by apply analyse_krate_returns|]. intros g2 Hw.
  eapply returns_bind.
  { apply filter_returns; rewrite (wk_root _ _ _ Hw), (ads_mods _ _ _ Hadds).
    - apply (wk_all_modules _ _ _ Hw _ (item_visibility root)). right.
      exists ([], rename root (Some (krate_name krate))). split; [constructor|].
      exists (krate_name krate). cbn [fst snd]. rewrite rename_module. by destruct root.
    - intros name [v Hv] Hne. apply (wk_modules _ _ _ Hw) in Hv as [Hv|(x & Hx & Hat)].
      + rewrite (ads_mods _ _ _ Hadds) in Hv. cbn in Hv. by rewrite lookup_empty in Hv.
      + by apply (module_has_parent krate root x name v). }
  intros g3 (fs & -> & Hfs).
  pose proof (find_dependencies_returns (with_functions g2 fs)) as Hfind.
  pose proof (found_deps_ok (with_functions g2 fs)) as Hdeps.
  destruct (find_all_dependencies _) as [g4| |]; try done. cbn [returns] in *.
  destruct Hfind as [Heq Hall]. specialize (Hdeps g4 eq_refl). rewrite Heq in *. clear Heq.
  destruct (wk_functions _ _ _ Hw) as (new & Hnew & Hall2).
  destruct (ads_functions _ _ _ Hadds) as (new1 & Hnew1 & Hall1).
  pose proof (wk_names _ _ _ Hw) as Hnames2. pose proof (ads_names _ _ _ Hadds) as Hnames1.
  split_and!; cbn.
  - by rewrite (wk_crate _ _ _ Hw), (ads_crate _ _ _ Hadds).
  - exact Hdeps.
  - intros d. rewrite Hall. done.
  - intros f [Hf Hpub]%Hfs. rewrite Hnames2, Hnames1. cbn.
    rewrite Hnew, Hnew1 in Hf. cbn in Hf. apply elem_of_app in Hf as [Hf|Hf].
    + rewrite Forall_forall in Hall1. apply Hall1 in Hf as [Ha Hi]. split_and!; [exact Ha|done|by left].
    + rewrite Forall_forall in Hall2. apply Hall2 in Hf as [Ha Hx].
      rewrite Hnames1 in Ha. split_and!; [exact Ha|done|by right].
  - intros f Ha Hpub Hsrc. rewrite Hnames2, Hnames1 in *. cbn in *. apply Hfs. split; [|done].
    destruct Hsrc as [(did & imp & item & Hl & Hn & Hnm & Hit & Hmo)|(x & Hx & Hat)].
    + rewrite Hnew. apply elem_of_app. left. by eapply Hfound.
    + eapply (wk_all_functions _ _ _ Hw); [exact Hx|exact Hat|]. by rewrite Hnames1.
Qed.
End build.

(** ** From the graph to the files *)

(** The directories of AFL and of libFuzzer are apart. *)
Lemma target_dirs_apart name dir ldir :
  CRATE_TEST_DIR !! name = Some dir -> LIBFUZZER_FUZZ_TARGET_DIR !! name = Some ldir ->
  apart (path_from dir) (path_from ldir).
Proof.
  intros Hdir Hldir.
  assert (Hall : forallb (fun e => match CRATE_TEST_DIR !! e.1 with
      | Some d => negb (bool_decide (path_from d `prefix_of` path_from e.2)) &&
                  negb (bool_decide (path_from e.2 `prefix_of` path_from d))
      | None => true
      end) (map_to_list LIBFUZZER_FUZZ_TARGET_DIR) = true) by (vm_compute; reflexivity).
  rewrite forallb_forall in Hall. specialize (Hall (name, ldir)). rewrite <- list_elem_of_In in Hall.
  rewrite elem_of_map_to_list in Hall. specialize (Hall Hldir). cbn [fst snd] in Hall.
  rewrite Hdir in Hall. apply andb_true_iff in Hall as [H1 H2].
  apply negb_true_iff, bool_decide_eq_false in H1, H2. by split.
Qed.

Section targets.
Context `{HashOrder} (rng : nat -> nat -> nat -> nat) (cache : gmap PrimitiveType DefId).

(** The directories of the crate hold exactly the texts of a good choice among the
    sequences that the searches find for the graph [g]. *)
Definition targets_written (g : ApiGraph) (dir : string) (fs' : Fs) : Prop :=
  exists g' ss h, search_ok g g' /\
    good_choice g' MAX_TEST_FILE_NUMBER ss /\ Forall (wf_sequence g) ss /\
    helper_ok cache g' ss h /\
    holds_exactly fs' (path_join (path_from dir) _TEST_FILE_DIR) "test" (_crate_name g)
      (test_files h) /\
    holds_exactly fs' (path_join (path_from dir) _REPRODUCE_FILE_DIR) "replay" (_crate_name g)
      (reproduce_files h) /\
    forall ldir, LIBFUZZER_FUZZ_TARGET_DIR !! _crate_name g = Some ldir ->
      holds_exactly fs' (path_join (path_from ldir) _LIBFUZZER_DIR_NAME) "fuzz_target"
        (_crate_name g) (libfuzzer_files h).

(** A tree in which the directories of the crate can be made. *)
Definition tree_ok (name dir : string) (fs : Fs) : Prop :=
  fs_wf fs /\ no_file_above fs (path_from dir) /\
  forall ldir, LIBFUZZER_FUZZ_TARGET_DIR !! name = Some ldir -> no_file_above fs (path_from ldir).

(** The indices of the sequences fit an [i32]. *)
Definition few_functions (g : ApiGraph) : Prop :=
  (Z.of_nat (sequences_bound (length (api_functions g)) 3 + length (api_functions g))
     <= 2 ^ 31)%Z.

Lemma write_all_returns h dir fs :
  CRATE_TEST_DIR !! crate_name h = Some dir -> test_dir h = dir ->
  tree_ok (crate_name h) dir fs ->
  returns (fs ← write_files h fs;
           if can_generate_libfuzzer_target (crate_name h) then write_libfuzzer_files h fs
           else mret fs) (fun fs' =>
    holds_exactly fs' (path_join (path_from dir) _TEST_FILE_DIR) "test" (crate_name h)
      (test_files h) /\
    holds_exactly fs' (path_join (path_from dir) _REPRODUCE_FILE_DIR) "replay" (crate_name h)
      (reproduce_files h) /\
    forall ldir, LIBFUZZER_FUZZ_TARGET_DIR !! crate_name h = Some ldir ->
      holds_exactly fs' (path_join (path_from ldir) _LIBFUZZER_DIR_NAME) "fuzz_target"
        (crate_name h) (libfuzzer_files h)).
Proof.
  intros Hdir <- (Hwf & Hno & Hlno).
  eapply returns_bind; [by apply write_files_returns|].
  intros fs1 (Hf1 & Hd1 & Htest & Hreplay). unfold can_generate_libfuzzer_target.
  destruct (LIBFUZZER_FUZZ_TARGET_DIR !! crate_name h) as [ldir|] eqn:Hl; cbn.
  2:{ apply returns_ret. by split_and!. }
  pose proof (target_dirs_apart _ _ _ Hdir Hl) as Hapart.
  eapply returns_mono.
  - apply (write_libfuzzer_files_returns h fs1 ldir Hl); [apply Hf1|].
    eapply no_file_above_framed; [done|apply path_from_nonempty|done..|by apply Hlno].
  - intros fs2 [Hf2 Hlib].
    assert (Hapart' : apart (path_from ldir) (path_from (test_dir h))) by (split; apply Hapart).
    split_and!; [by eapply holds_exactly_framed..|]. by intros ? [= <-].
Qed.

Lemma generate_returns g dir fs :
  deps_ok g -> few_functions g ->
  CRATE_TEST_DIR !! _crate_name g = Some dir -> tree_ok (_crate_name g) dir fs ->
  returns (generate rng cache false g fs) (targets_written g dir).
Proof.
  intros Hdeps Hbound Hdir Htree. unfold generate. cbn [negb].
  eapply returns_bind; [by apply default_returns|]. intros g' (g0 & _ & _ & Hsat).
  pose proof (sa_ok _ _ _ Hsat) as Hok.
  assert (Hname : _crate_name g' = _crate_name g) by (by destruct (so_searched _ _ Hok) as (? & ? & ->)).
  assert (Hwf : Forall (wf_sequence g') (api_sequences g')).
  { eapply Forall_impl; [apply (so_wf _ _ Hok)|]. intros s Hs.
    by apply (searched_wf g g' (so_searched _ _ Hok)). }
  rewrite Hname. unfold can_write_to_file. rewrite Hdir. cbn.
  rewrite <- Hname in Hdir.
  eapply returns_bind; [by apply (FileHelper_new_returns cache g' Hwf dir)|].
  intros h (Hn & Hd & ss & Hss & Hh). rewrite Hname in *. rewrite <- Hn in *.
  eapply returns_mono; [by apply write_all_returns|].
  intros fs' (Htest & Hreplay & Hlib). exists g', ss, h. rewrite <- Hn.
  split_and!; [done..| |done|done|done|done].
  eapply Forall_impl; [by apply (good_choice_wf g' Hwf MAX_TEST_FILE_NUMBER)|].
  intros s Hs. by apply (searched_wf g g' (so_searched _ _ Hok)).
Qed.

(** Without a directory for the crate nothing is written. *)
Lemma generate_nothing g fs :
  deps_ok g -> few_functions g -> CRATE_TEST_DIR !! _crate_name g = None ->
  generate rng cache false g fs = Ret fs.
Proof.
  intros Hdeps Hbound Hdir. unfold generate. cbn [negb].
  pose proof (default_returns g Hdeps rng Hbound) as Hr.
  destruct (default_generate_sequences rng g) as [g'| |]; [|done..].
  destruct Hr as (g0 & _ & _ & Hsat). pose proof (so_searched _ _ (sa_ok _ _ _ Hsat)) as (? & ? & ->).
  cbn [mbind outcome_bind]. unfold can_write_to_file. cbn. by rewrite Hdir.
Qed.
End targets.

(** ** Properties *)

(** For every crate with its cache that meets the contract of the generator (a root
    module, named modules, named methods, traits with ids), in every iteration order of
    the hash maps, the construction of the graph never panics. Its functions are accepted
    ones (not generic, with decodable parameters) of visible modules that come from a
    method of an impl of a named type, with [Self] replaced, or from a free function of
    the module tree, under its path; every such free function, and every such method
    whose type and trait have names, is one of them. Its dependencies are exactly the
    compatible pairs. *)
Lemma graph_of_a_crate_is_built `{HashOrder} (cache : Cache) (krate : Crate) (root : Item)
    (Hok : crate_ok cache krate root) :
  returns (build_graph cache krate) (fun g =>
    _crate_name g = krate_name krate /\ deps_ok g /\
    (forall d, d ∈ api_dependencies g <-> considered g d) /\
    (forall f, f ∈ api_functions g -> accepted (full_name_map g) f /\
       published (mod_visibility g) f /\ crate_function cache krate root (full_name_map g) f) /\
    forall f, accepted (full_name_map g) f -> published (mod_visibility g) f ->
      found_function cache krate root (full_name_map g) f -> f ∈ api_functions g).
Proof. by apply build_graph_returns. Qed.

(** *** The sample crate *)

Definition no_summary : Summary := fun _ => EmptyString.

Definition sample_info : CacheInfo :=
  initial_info (fun _ => false) sample_renderinfo false ∅ sample_krate.
Definition sample_cache : Cache :=
  ret_or (mk_Cache sample_info (initial_crawl sample_info sample_krate))
    (r ← from_krate (H := canonical_order) (H0 := no_summary) (fun _ => EmptyString)
           (fun _ => false) sample_renderinfo false ∅ sample_krate;
     mret r.2).

Lemma sample_described : described sample_root.
Proof.
  split; [by eexists|exact sample_crawlable| |intros name; apply sample_root_walkable].
  apply sample_below. intros i Hi. unfold sample_items in Hi.
  each Hi; intros imp Himp; try discriminate Himp. injection Himp as <-.
  split; [exact sample_items_named|done].
Qed.

Lemma sample_crate_ok name :
  name <> EmptyString -> crate_ok sample_cache (sample_crate name) sample_root.
Proof.
  intros Hname. split; [done|by eexists|by apply sample_root_walkable|].
  intros did ims im Hims Him.
  apply elem_of_map_to_list in Hims.
  assert (Hone : map_to_list (impls (cache_crawl sample_cache)) =
    [(sample_did, [mk_RenderImpl sample_impl_item])]) by (vm_compute; reflexivity).
  rewrite Hone in Hims. apply list_elem_of_singleton in Hims as [= -> ->].
  apply list_elem_of_singleton in Him as ->.
  exists sample_impl. split; [done|]. split; [exact sample_items_named|done].
Qed.

Lemma graph_of_a_crate_is_built_witness :
  exists g, build_graph (H := canonical_order) sample_cache sample_krate = Ret g /\
    List.map full_name (api_functions g) = ["c::T::get"; "c::debug"; "c::f"] /\ deps_ok g.
Proof.
  pose proof (graph_of_a_crate_is_built (H := canonical_order) sample_cache sample_krate
    sample_root (sample_crate_ok "c" ltac:(done))) as Hr.
  assert (Hnames : (fun g => List.map full_name (api_functions g)) <$>
    build_graph (H := canonical_order) sample_cache sample_krate =
    Ret ["c::T::get"; "c::debug"; "c::f"]) by (vm_compute; reflexivity).
  destruct (build_graph sample_cache sample_krate) as [g| |]; [|destruct Hr|destruct Hr].
  exists g. split; [reflexivity|]. destruct Hr as (_ & Hdeps & _).
  split; [injection Hnames as Hn; exact Hn|exact Hdeps].
Defined.
