(* ===== verification/CrateRun.v ===== *)
(** The run as a whole: [fuzz_target_generator_main_options] ([lib.rs]),
    [fuzz_target_generator_run_core] ([core.rs]) and [fuzz_target_run_clean_krate]
    ([html/render.rs]), from the cleaned crate to the files of its targets. *)

From S2P Require Import Prelude RustStd FileSystem CleanTypes CleanItems DocFold Pruning.
From S2P Require Import Sources SourcesCorrect.
From S2P Require Import Passes PassesCorrect ItemTree DocPassesCorrect ItemSamples PassesSpec.
From S2P Require Import CollectImpls UnindentCorrect Visitors CollectCorrect.
From S2P Require Import PassesRun RenderCache CrawlSpec.
From S2P Require Import CacheCorrect CacheBuild CallTypes PreludeTypes FuzzableTypes ApiUtil.
From S2P Require Import ModVisibility ApiFunction ApiSequence ApiGraph Samples SequenceWf.
From S2P Require Import Satisfy DeadCode ApiSearch SearchCorrect BackwardSearch ApiChoose.
From S2P Require Import ChooseCorrect FileUtil ImplUtil ImplCorrect CrateWalk.
From S2P Require Import Described.
From S2P Require Import CrateGraph.

(** ** The phases *)
Section run.
Context `{HashOrder} `{Summary} (rng : nat -> nat -> nat -> nat).
Context (to_json : CrateData -> string) (is_dir : string -> bool).
Context (run_pass : string -> Crate -> outcome Crate).
Context (render_with_highlighting : string -> string) (layout_render : Page -> string -> string).
Context (read_to_string : string -> option string).
(** [write_shared], on the cache, the crate and the search index: it writes the files that
    the pages share; [None] is an error. *)
Context (write_shared : Cache -> Crate -> string -> Fs -> option Fs).

(** The options that decide what is generated. *)
Record RustdocOptions := mk_RustdocOptions {
  opt_crate_name : option string;
  opt_crate_version : option string;
  opt_default_passes : DefaultPassOption;
  opt_manual_passes : list string;
  opt_document_private : bool;
  opt_document_hidden : bool;
  opt_output : path;
  opt_html_root_urls : gmap string string;
  opt_show_coverage : bool
}.

(** [fuzz_target_run_clean_krate] up to [write_shared]: the directories, the source pages,
    the render cache and its impls. [None]: the function returns with an error. *)
Definition set_up (options : RustdocOptions) (renderinfo : RenderInfo) (private : bool)
    (krate : Crate) (fs : Fs) : outcome (option (Cache * ApiGraph * Crate * Fs)) :=
  let scx := mk_SharedContext (src_root_of (krate_src krate)) true ∅ ∅ fs in
  match ensure_dir (opt_output options) scx with
  | None => mret None
  | Some scx =>
      rendered ← render render_with_highlighting layout_render read_to_string
        (opt_output options) scx krate;
      match rendered with
      | None => mret None
      | Some (krate, scx) =>
          r ← from_krate to_json is_dir renderinfo private (opt_html_root_urls options) krate;
          let '(krate, index, cache) := (r : Crate * string * Cache) in
          e ← extract_impls_from_cache cache FullNameMap_new (ApiGraph_new (krate_name krate));
          match write_shared cache krate index (scx_fs scx) with
          | None => mret None
          | Some fs => mret (Some (cache, e.2, krate, fs))
          end
      end
  end.

(** [fuzz_target_run_clean_krate]; [random_strategy] is [false] in the source. *)
Definition fuzz_target_run_clean_krate (options : RustdocOptions) (renderinfo : RenderInfo)
    (private : bool) (krate : Crate) (fs : Fs) : outcome (option Fs) :=
  s ← set_up options renderinfo private krate fs;
  match s with
  | None => mret None
  | Some (cache, api_dependency_graph, krate, fs) =>
      api_dependency_graph ← connect krate api_dependency_graph;
      fs ← generate rng (primitive_locations (cache_info cache)) false api_dependency_graph fs;
      mret (Some fs)
  end.

(** The name and the version of the options. *)
Definition name_crate (options : RustdocOptions) (krate : Crate) : Crate :=
  mk_Crate (default (krate_name krate) (opt_crate_name options)) (opt_crate_version options)
    (krate_src krate) (krate_module krate) (krate_externs krate) (krate_primitives krate)
    (external_traits krate) (masked_crates krate).

(** The end of [fuzz_target_generator_run_core], and the crate with its final name. *)
Definition final_crate (options : RustdocOptions) (renderinfo : RenderInfo) (krate : Crate)
    : outcome (Crate * bool) :=
  r ← run_passes run_pass (ri_access_levels renderinfo) (opt_default_passes options)
        (opt_manual_passes options) (opt_document_private options)
        (opt_document_hidden options) krate;
  mret (name_crate options r.1, r.2).

(** [fuzz_target_generator_main_options], from the cleaned crate on. *)
Definition fuzz_target_generator_main (options : RustdocOptions) (renderinfo : RenderInfo)
    (krate : Crate) (fs : Fs) : outcome (option Fs) :=
  r ← final_crate options renderinfo krate;
  if opt_show_coverage options then mret (Some fs)
  else fuzz_target_run_clean_krate options renderinfo r.2 r.1 fs.

(** The graph that the generator builds, with the cache it reads and the files so far. *)
Definition crate_graph (options : RustdocOptions) (renderinfo : RenderInfo) (krate : Crate)
    (fs : Fs) : outcome (option (Cache * ApiGraph * Fs)) :=
  r ← final_crate options renderinfo krate;
  s ← set_up options renderinfo r.2 r.1 fs;
  match s with
  | None => mret None
  | Some (cache, api_dependency_graph, krate, fs) =>
      api_dependency_graph ← connect krate api_dependency_graph;
      mret (Some (cache, api_dependency_graph, fs))
  end.
End run.

(** ** The crate that the generator receives *)
Section whole.
Context `{HashOrder} `{Summary} (rng : nat -> nat -> nat -> nat).
Context (to_json : CrateData -> string) (is_dir : string -> bool).
Context (run_pass : string -> Crate -> outcome Crate).

Lemma inside_below {info} (x y : list string * bool * Item) :
  inside (info := info) x y -> ItemTree.below x.2 y.2.
Proof. induction 1 as [|x c y _ Hc _ IH]; [constructor|by apply (below_member _ c)]. Qed.

(** The render cache and the crate that comes with it meet the contract of the
    generator. *)
Lemma cache_crate_ok renderinfo private urls krate root c'
    (cache : Crawl (initial_info is_dir renderinfo private urls krate)) :
  described root -> krate_name krate <> EmptyString ->
  cache_spec is_dir renderinfo private urls krate root c' cache ->
  exists root', crate_ok (mk_Cache _ cache) c' root' /\ pruned false root' root.
Proof.
  intros Hd Hname Hc.
  destruct (cs_root _ _ _ _ _ _ _ _ Hc) as (root' & [Hr Hm] & Hp & _).
  pose proof (described_pruned _ _ _ (pruned_but_docs _ _ _ _ Hp) Hd) as Hd'. exists root'. split; [|done]. split.
  - exact Hr.
  - exact Hm.
  - apply (de_walk _ Hd'). by rewrite (cs_name _ _ _ _ _ _ _ _ Hc).
  - intros did ims im Hims Him.
    destruct (cs_impls _ _ _ _ _ _ _ _ Hc did im) as (x & imp & Hx & [Hi Hpx] & _);
      [by exists ims|].
    exists imp. split; [exact Hi|]. eapply impl_good_pruned; [exact (pruned_but_docs _ _ _ _ Hpx)| |exact Hi].
    apply (de_impls _ Hd x.2). by apply (inside_below _ _ Hx).
Qed.

(** The free functions of the walk are those of the crate, below its name. *)
Lemma in_crate_function krate root x f :
  krate_module krate = Some root -> is_Some (module_items root) ->
  in_crate krate root x -> function_at x f ->
  exists path, x.1 = krate_name krate :: path /\ free_function krate path x.2.
Proof.
  intros Hr Hm Hx (name & func & ins & out & v & a & _ & Hi & _).
  inversion Hx as [|? ? items child ? Hit Hin Hu]; subst.
  { exfalso. cbn in Hi. destruct Hm as [its (m & _ & [Hm|Hm])%module_items_inv]; congruence. }
  destruct (under_shift _ _ Hu) as (path & Heq & Hall). cbn in Heq. exists path.
  split; [exact Heq|]. exists root, items, child, func. split_and!; [done..| |done].
  pose proof (Hall []) as Hall'. cbn in Hall'. by destruct x.
Qed.

Lemma crate_function_in krate root path d :
  krate_module krate = Some root -> is_Some (module_items root) ->
  free_function krate path d -> in_crate krate root (krate_name krate :: path, d).
Proof.
  intros Hr [its Hi] (r & its' & child & f & Hr' & Hi' & Hc & Hu & _).
  assert (r = root) as -> by congruence. assert (its' = its) as -> by congruence.
  destruct (under_shift _ _ Hu) as (p & Heq & Hall). cbn in Heq. subst p.
  eapply under_child; [by rewrite rename_module|exact Hc|]. exact (Hall [krate_name krate]).
Qed.

(** The function of the item [d] in the modules [path]. *)
Definition function_of_item (krate : string) (path : list string) (d : Item) (f : ApiFunction)
    : Prop := function_at (krate :: path, d) f.

Lemma function_of_item_same_code krate path d' d f :
  same_code d' d -> function_of_item krate path d' f -> function_of_item krate path d f.
Proof.
  intros (Hn & _ & Hi & _) (name & func & ins & out & v & a & H1 & H2 & H3 & ->).
  exists name, func, ins, out, v, a. cbn in *. split_and!; congruence.
Qed.

(** *** The passes and the crate they leave *)
Context (options : RustdocOptions) (renderinfo : RenderInfo) (krate : Crate) (root : Item).

Definition chosen_passes : list string :=
  passes_of (read_attributes root (opt_default_passes options) (opt_manual_passes options)
    (opt_document_private options)) (opt_document_hidden options).

Definition final_name : string := default (krate_name krate) (opt_crate_name options).

(** What every pass relies on and keeps. *)
Definition pass_invariant (c : Crate) : Prop :=
  crate_described c /\ crate_docs_ok c /\ krate_name c = krate_name krate.

Lemma pass_invariant_pruned c' c :
  pruned_crate true c' c -> pass_invariant c -> pass_invariant c'.
Proof.
  intros Hp (Hc & Hd & Hn). split_and!; [by eapply crate_described_pruned|
    by eapply crate_docs_ok_pruned|by rewrite (pc_name _ _ _ Hp)].
Qed.

Lemma pass_invariant_redocumented c' c :
  redocumented_crate c' c -> crate_docs_ok c' -> pass_invariant c -> pass_invariant c'.
Proof.
  intros Hr Hd' (Hc & _ & Hn). split_and!; [by eapply crate_described_redocumented|done|].
  by rewrite (rc_name _ _ _ Hr).
Qed.

(** [collect_trait_impls] keeps it, when the compiler hands over impls that the generator
    understands. *)
Lemma collecting_harmless {X} (tcx : Tcx X) (cx : Cx X) (others : string -> Crate -> outcome Crate) p :
  compiler_ok tcx impl_described -> harmless others pass_invariant p ->
  harmless (compiler_passes tcx cx others) pass_invariant p.
Proof.
  intros Hok Hothers c Hc HW Hb. unfold compiler_passes. case_decide as Hp; [|by apply Hothers].
  specialize (Hb (or_intror Hp)). eapply returns_bind; [by apply (collecting_returns tcx impl_described)|].
  intros r Hr. apply returns_ret. destruct HW as (Hd & Hdocs & Hn).
  destruct (collected_described tcx c cx r.1 r.2 Hr Hb (proj2 Hc) Hd Hdocs) as (Hd' & Hdocs' & Hn').
  destruct Hr. split_and!; [done|split_and!; [done|done|congruence]|done|done].
Qed.

(** The crate that the cleaning hands over. *)
Record cleaned : Prop := {
  cl_root : rooted krate root;
  cl_single : single_strip_crate krate;
  cl_bare : bare krate;
  cl_described : described root;
  cl_name : final_name <> EmptyString;
  cl_passes : hidden_first chosen_passes;
  cl_docs : crate_docs_ok krate;
  cl_harmless : forall p, p ∈ chosen_passes -> reads_compiler p ->
    harmless run_pass pass_invariant p
}.

Lemma functions_of_named c : forall path d,
  free_function (name_crate options c) path d <-> free_function c path d.
Proof. intros path d. unfold free_function. by cbn. Qed.

Lemma final_crate_returns :
  cleaned -> returns (final_crate run_pass options renderinfo krate) (fun r =>
    krate_name r.1 = final_name /\ crate_described r.1 /\ crate_wf r.1 /\
    functions_match (documented (ri_access_levels renderinfo) chosen_passes) r.1 krate).
Proof.
  intros [Hroot Hss Hb Hd Hname Hfirst Hdocs Hharm]. unfold final_crate, run_passes.
  rewrite (proj1 Hroot). cbn [unwrap mbind outcome_bind]. fold chosen_passes.
  assert (HWk : pass_invariant krate).
  { split_and!; [|done|done]. intros r Hr. rewrite (proj1 Hroot) in Hr. by injection Hr as <-. }
  pose proof (run_all_returns run_pass (ri_access_levels renderinfo) pass_invariant
    pass_invariant_pruned (fun c Hc => proj1 (proj2 Hc)) pass_invariant_redocumented
    chosen_passes krate Hharm Hfirst (conj Hss (ex_intro _ root Hroot)) HWk Hb) as Hrun.
  apply returns_exists in Hrun as (c & Hc & (Hwf & (Hd' & _ & Hn') & Hm)).
  rewrite Hc. cbn [mbind outcome_bind]. apply returns_ret. cbn [fst].
  split_and!; [|exact Hd'|exact Hwf|exact Hm].
  unfold name_crate, final_name. cbn. by rewrite Hn'.
Qed.

(** *** Setting up *)
Context (render_with_highlighting : string -> string) (layout_render : Page -> string -> string).
Context (read_to_string : string -> option string).
Context (write_shared : Cache -> Crate -> string -> Fs -> option Fs).

(** What can be read has a file name, and the shared files are below the output directory. *)
Record surroundings_ok : Prop := {
  sr_output : opt_output options <> [];
  sr_read : forall p contents, read_to_string p = Some contents ->
    is_Some (Sources.file_name (components p));
  sr_shared : forall cache c index fs fs', write_shared cache c index fs = Some fs' ->
    changes (opt_output options) fs fs'
}.
Context (Hsr : surroundings_ok).

#[local] Abbreviation set_up := (set_up to_json is_dir render_with_highlighting layout_render
  read_to_string write_shared options renderinfo).
#[local] Abbreviation crate_graph := (crate_graph to_json is_dir run_pass render_with_highlighting
  layout_render read_to_string write_shared options renderinfo krate).

(** A file is in the way of the directory of the pages, or the shared files cannot be written. *)
Definition not_set_up (name : string) (fs : Fs) : Prop :=
  (exists n, is_file fs (take n (path_join (path_join (opt_output options) "src") name)) = true) \/
  exists cache c index fs', write_shared cache c index fs' = None.

Lemma set_up_returns private c root1 fs :
  crate_wf c -> rooted c root1 -> described root1 -> krate_name c <> EmptyString ->
  returns (set_up private c fs) (fun s =>
    match s with
    | None => not_set_up (krate_name c) fs
    | Some (cache, g, c', fs') => changes (opt_output options) fs fs' /\
        fs' !! opt_output options = Some Dir /\ build_graph cache c' = connect c' g /\ krate_name c' = krate_name c /\
        (exists root', crate_ok cache c' root') /\
        exists c1, redocumented_crate c1 c /\
          forall path d, free_function c' path d <-> free_function c1 path d
    end).
Proof using Hsr.
  intros [Hss _] Hroot Hd Hname. destruct Hsr as [Hout Hread Hshared].
  unfold CrateRun.set_up. cbn zeta.
  set (out := path_join (path_join (opt_output options) "src") (krate_name c)).
  assert (Htake : forall n, exists m, take n (opt_output options) = take m out).
  { intros n. exists (n `min` length (opt_output options)). unfold out, path_join. rewrite <- app_assoc.
    rewrite take_app_le by lia. rewrite <- (firstn_all (opt_output options)) at 1.
    by rewrite take_take. }
  destruct (ensure_dir_cases (opt_output options)
    (mk_SharedContext (src_root_of (krate_src c)) true ∅ ∅ fs)) as
    [(scx & He & Hdir & Hr & Hinc & Hls & _ & _ & Hdirs)|[-> (n & Hn)]];
    [by intros d ?%not_elem_of_empty|done| |].
  2:{ apply returns_ret. left. destruct (Htake n) as [m Hm]. exists m. by rewrite Hm in Hn. }
  pose proof (fun q => ensure_dir_files _ _ _ q He) as Hfiles. cbn in Hfiles.
  rewrite He. apply (ensure_dir_changes (opt_output options)) in He; [|done..].
  eapply returns_bind.
  { apply (render_returns render_with_highlighting layout_render read_to_string Hread out
      (src_root scx) (join_nonempty _ _) (opt_output options) scx c); done. }
  intros [[c1 scx']|] Hren; cbn [returns].
  2:{ apply returns_ret. left. destruct Hren as [n Hn]. exists n. by apply Hfiles. }
  destruct Hren as (Hu & Hch & _).
  pose proof (uc_same _ _ Hu) as Hsame.
  destruct (redocumented_root _ _ _ Hsame Hroot) as [root2 Hroot2].
  pose proof (crate_described_redocumented _ _ Hsame) as Hcd.
  assert (Hd2 : described root2).
  { apply Hcd; [|apply Hroot2]. intros r Hr'. rewrite (proj1 Hroot) in Hr'. by injection Hr' as <-. }
  eapply returns_bind; [apply (from_krate_returns to_json is_dir renderinfo private _ c1 root2 Hroot2), Hd2|].
  intros [[c' index] cache'] (cache & Hcache & Hspec). cbn [fst snd] in *. subst cache'.
  pose proof (rc_name _ _ _ Hsame) as Hn1.
  destruct (cache_crate_ok _ _ _ _ _ _ _ Hd2 ltac:(by rewrite Hn1) Hspec) as (root' & Hok & _).
  pose proof (extract_returns (mk_Cache _ cache) FullNameMap_new (ApiGraph_new (krate_name c')) (ck_impls _ _ _ Hok)) as Hex.
  destruct (extract_impls_from_cache _ _ _) as [e| |] eqn:Hext; [|done..]. cbn [mbind outcome_bind].
  destruct (write_shared _ c' index (scx_fs scx')) as [fs'|] eqn:Hws; apply returns_ret.
  2:{ right. by eexists _, _, _, _. }
  split_and!.
  - eapply changes_trans; [exact He|]. eapply changes_trans; [exact Hch|]. by eapply Hshared.
  - apply (Hshared _ _ _ _ _ Hws), Hch, Hdir.
  - unfold build_graph. by rewrite Hext.
  - by rewrite (cs_name _ _ _ _ _ _ _ _ Hspec).
  - by exists root'.
  - exists c1. split; [done|]. apply (cs_functions _ _ _ _ _ _ _ _ Hspec).
Qed.

(** [f] is the function of an item of the crate that the chosen passes leave. *)
Definition source_function (f : ApiFunction) : Prop :=
  exists path d, free_function krate path d /\
    documented (ri_access_levels renderinfo) chosen_passes d /\
    function_of_item final_name path d f.

(** The graph of the crate: exactly the published functions that the passes leave. *)
Record documented_graph (cache : Cache) (g : ApiGraph) : Prop := {
  dg_name : _crate_name g = final_name;
  dg_deps : deps_ok g;
  dg_pairs : forall d, d ∈ api_dependencies g <-> considered g d;
  dg_sound : forall f, f ∈ api_functions g -> accepted (full_name_map g) f /\
    published (mod_visibility g) f /\ (impl_function cache (full_name_map g) f \/ source_function f);
  dg_complete : forall f, accepted (full_name_map g) f -> published (mod_visibility g) f ->
    source_function f -> f ∈ api_functions g
}.

(** The free functions below the root of the crate of the graph. *)
Lemma source_functions cache c c1 c' root' (f : ApiFunction) :
  functions_match (documented (ri_access_levels renderinfo) chosen_passes) c krate ->
  redocumented_crate c1 c -> (forall path d, free_function c' path d <-> free_function c1 path d) ->
  crate_ok cache c' root' -> krate_name c' = final_name ->
  ((exists x, in_crate c' root' x /\ function_at x f) <-> source_function f).
Proof.
  intros Hm Hre Hfree [Hr' Hmod' _ _] Hn.
  assert (Hm1 : functions_match (documented (ri_access_levels renderinfo) chosen_passes) c1 krate).
  { eapply functions_match_ext; [|apply (functions_match_trans
      (documented (ri_access_levels renderinfo) chosen_passes) (fun _ => True) krate c c1);
      [tauto|exact Hm|by apply redocumented_functions]]. intros d. cbn. tauto. }
  split.
  - intros (x & Hx & Hat).
    destruct (in_crate_function _ _ _ _ Hr' Hmod' Hx Hat) as (path & Hpath & Hf).
    apply Hfree in Hf. destruct (proj1 (Hm1 path) _ Hf) as (d & Hd0 & Hsame & Hdoc).
    exists path, d. split_and!; [done..|].
    apply (function_of_item_same_code _ _ x.2); [done|]. unfold function_of_item.
    destruct x as [cur i]. cbn in *. subst cur. by rewrite Hn in Hat.
  - intros (path & d & Hf & Hdoc & Hat).
    destruct (proj2 (Hm1 path) d Hf Hdoc) as (d' & Hd' & Hsame). apply Hfree in Hd'.
    exists (krate_name c' :: path, d'). split; [by apply crate_function_in|].
    rewrite Hn. by apply (function_of_item_same_code _ _ d); [symmetry|].
Qed.

Lemma crate_graph_returns fs :
  cleaned -> returns (crate_graph fs) (fun s =>
    match s with
    | None => not_set_up final_name fs
    | Some (cache, g, fs') => documented_graph cache g /\
        changes (opt_output options) fs fs' /\ fs' !! opt_output options = Some Dir
    end).
Proof using Hsr.
  intros Hcl. unfold CrateRun.crate_graph.
  eapply returns_bind; [by apply final_crate_returns|].
  intros [c private] (Hn & Hd & Hwf & Hm). cbn [fst snd] in *.
  pose proof (proj2 Hwf) as [root1 Hr1].
  eapply returns_bind.
  { apply (set_up_returns private c root1 fs Hwf Hr1); [by apply Hd, Hr1|rewrite Hn; apply Hcl]. }
  rewrite Hn. intros [[[[cache g0] c'] fs']|] Hs; [|by apply returns_ret].
  destruct Hs as (Hch & Hdir & Hb & Hn' & [root' Hok] & c1 & Hre & Hfree). rewrite <- Hb.
  eapply returns_bind; [by apply (build_graph_returns _ _ root' Hok)|].
  intros g (Hgn & Hdeps & Hds & Hfs & Hall). apply returns_ret. split; [|done].
  assert (Hsrc : forall f, (exists x, in_crate c' root' x /\ function_at x f) <-> source_function f)
    by (intros f; by apply (source_functions cache c c1)).
  split; [congruence|done|done| |].
  - intros f Hf. destruct (Hfs f Hf) as (Ha & Hpub & [Himpl|Hx]); split_and!; [done|done|by left|done|done|].
    right. by apply Hsrc.
  - intros f Ha Hpub Hf. apply Hall; [done..|]. right. by apply Hsrc.
Qed.

(** *** The run *)

(** The directories of the crate can be made, and are apart from the output. *)
Definition place_ok (dir : string) (fs : Fs) : Prop :=
  tree_ok final_name dir fs /\ apart (opt_output options) (path_from dir) /\
  forall ldir, LIBFUZZER_FUZZ_TARGET_DIR !! final_name = Some ldir ->
    apart (opt_output options) (path_from ldir).

Lemma tree_ok_changes dir fs fs' :
  changes (opt_output options) fs fs' -> fs' !! opt_output options = Some Dir ->
  place_ok dir fs -> tree_ok final_name dir fs'.
Proof using Hsr.
  intros [Hf _] Hdir [(Hwf & Hno & Hlno) [Ha Hla]]. specialize (Hf Hwf).
  split_and!; [apply Hf|..].
  - eapply no_file_above_framed; [done|apply Hsr|done..].
  - intros ldir Hl. eapply no_file_above_framed; [done|apply Hsr|done|by apply Hla|by apply Hlno].
Qed.

Lemma generator_returns fs :
  cleaned ->
  (forall cache g fs', crate_graph fs = Ret (Some (cache, g, fs')) -> few_functions g) ->
  (forall dir, CRATE_TEST_DIR !! final_name = Some dir -> place_ok dir fs) ->
  returns (fuzz_target_generator_main rng to_json is_dir run_pass render_with_highlighting
      layout_render read_to_string write_shared options renderinfo krate fs)
    (fun r =>
      if opt_show_coverage options then r = Some fs
      else exists s, crate_graph fs = Ret s /\
        match s with
        | None => r = None
        | Some (cache, g, fs1) => exists fs', r = Some fs' /\
            match CRATE_TEST_DIR !! final_name with
            | Some dir => targets_written (primitive_locations (cache_info cache)) g dir fs'
            | None => fs' = fs1
            end
        end).
Proof using Hsr.
  intros Hcl Hfew Htree. pose proof (crate_graph_returns fs Hcl) as Hg.
  pose proof (final_crate_returns Hcl) as Hfinal.
  unfold fuzz_target_generator_main, CrateRun.crate_graph in *.
  destruct (final_crate run_pass options renderinfo krate) as [[c private]| |]; [|done..].
  cbn [mbind outcome_bind fst snd] in *. destruct (opt_show_coverage options); [by apply returns_ret|].
  unfold fuzz_target_run_clean_krate.
  destruct (set_up private c fs) as [[[[[cache g0] c'] fs1]|]| |]; cbn [mbind outcome_bind] in *; [|by apply returns_ret; exists None|done..].
  destruct (connect c' g0) as [g| |]; cbn [mbind outcome_bind] in *; [|done..].
  destruct Hg as (Hg & Hch & Hout). specialize (Hfew cache g fs1 eq_refl).
  pose proof (dg_name _ _ Hg) as Hn. rewrite <- Hn in *.
  destruct (CRATE_TEST_DIR !! _crate_name g) as [dir|] eqn:Hdir.
  - eapply returns_bind; [apply (generate_returns rng _ g dir fs1 (dg_deps _ _ Hg) Hfew Hdir)|].
    + rewrite Hn. apply (tree_ok_changes dir fs); [done|done|by apply Htree].
    + intros fs' Hw. apply returns_ret. eexists. split; [done|]. by exists fs'.
  - rewrite generate_nothing by (try apply Hg; done). apply returns_ret. eexists. split; [done|]. by exists fs1.
Qed.
End whole.

(** ** Properties *)

(** The options of a crate [name], with the output directory [doc]. *)
Definition sample_options (name : string) : RustdocOptions :=
  mk_RustdocOptions (Some name) None Default [] false false ["doc"] ∅ false.

(** C7: the passes, the source pages, the render cache, the impls, the walk, the filters and
    the dependencies together never panic on a crate as the cleaning describes it: a named
    root module, nothing stripped, described items, and documentation that can be unindented
    (behind a blank first line it cannot). The chosen passes strip nothing before the hidden
    items are stripped and the impls collected, and those that read the compiler keep these
    conditions; files that can be read have names, and the shared files go below the output. The
    generator stops with an error only when a file is in the way of the directory of the
    source pages or the shared files cannot be written. Otherwise it has changed nothing but
    the output directory, and the graph carries the final name of the crate. Its functions
    are accepted functions of visible modules that are methods of the impls of the cache or
    exactly those free functions of the cleaned crate that the chosen passes leave, under
    their paths in that crate. *)
Theorem graph_holds_the_documented_functions `{HashOrder} `{Summary}
    (to_json : CrateData -> string) (is_dir : string -> bool)
    (run_pass : string -> Crate -> outcome Crate)
    (render_with_highlighting : string -> string) (layout_render : Page -> string -> string)
    (read_to_string : string -> option string)
    (write_shared : Cache -> Crate -> string -> Fs -> option Fs) (options : RustdocOptions)
    (renderinfo : RenderInfo) (krate : Crate) (root : Item) (fs : Fs)
    (Hcl : cleaned run_pass options krate root)
    (Hsr : surroundings_ok options read_to_string write_shared) :
  returns (crate_graph to_json is_dir run_pass render_with_highlighting layout_render
      read_to_string write_shared options renderinfo krate fs) (fun s =>
    match s with
    | None => not_set_up options write_shared (final_name options krate) fs
    | Some (cache, g, fs') => documented_graph options renderinfo krate root cache g /\
        changes (opt_output options) fs fs' /\ fs' !! opt_output options = Some Dir
    end).
Proof. by apply crate_graph_returns. Qed.

(** The passes that read the sample compiler: the impls are collected. *)
Definition sample_passes : string -> Crate -> outcome Crate :=
  compiler_passes (H := canonical_order) sample_tcx (mk_Cx ∅ tt) (fun _ c => Ret c).

(** Only the lock is written. *)
Definition sample_shared_files (_ : Cache) (_ : Crate) (_ : string) (fs : Fs) : option Fs :=
  io_result (write_file fs ["doc"; ".lock"] EmptyString).

Lemma sample_impl_described t index : impl_described (sample_trait_impl t index).
Proof.
  assert (Hleaf : forall P : Item -> Prop, P (sample_trait_impl t index) ->
    all_below P (sample_trait_impl t index)).
  { intros P HP. apply all_below_unfold. split; [done|]. intros c Hc. by apply not_elem_of_nil in Hc. }
  split_and!; [apply crawlable_below|..]; apply Hleaf.
  - split_and!; [done|done|constructor].
  - intros imp [= <-]. split; [constructor|done].
  - split; constructor.
Qed.

Lemma sample_cleaned name :
  name <> EmptyString ->
  cleaned sample_passes (sample_options name) sample_krate sample_root.
Proof.
  intros Hname. split; [apply sample_rooted|apply sample_single_strip|apply sample_bare
    |exact sample_described|done|by apply passes_hidden_first, (no_needs_bare [])|exact sample_docs_ok|].
  intros p _ _. apply collecting_harmless; [|apply same_passes_harmless].
  apply sample_compiler_ok, sample_impl_described.
Qed.

Lemma sample_surroundings name :
  surroundings_ok (sample_options name) sample_read sample_shared_files.
Proof.
  split; [done|exact sample_read_ok|]. intros cache c index fs fs'. unfold sample_shared_files.
  destruct (write_file_cases fs ["doc"; ".lock"] EmptyString) as [[Hw Hg]|[Hw _]]; rewrite Hw; [|done].
  intros [= <-]. split; [|done]. intros Hwf. eapply write_file_framed; [done|done| |exact Hw].
  by exists [".lock"].
Qed.

#[local] Abbreviation sample_graph name fs := (crate_graph (H := canonical_order) (H0 := no_summary)
  (fun _ => EmptyString) (fun _ => false) sample_passes (fun s => s) (fun _ s => s) sample_read
  sample_shared_files (sample_options name) sample_renderinfo sample_krate fs).

(** Neither the hidden function nor the private one is in the graph. *)
Lemma graph_holds_the_documented_functions_witness :
  exists cache g fs, sample_graph "c" ∅ = Ret (Some (cache, g, fs)) /\
    List.map full_name (api_functions g) = ["c::T::get"; "c::f"] /\ deps_ok g /\
    is_file fs ["doc"; "src"; "c"; "lib.rs.html"] = true.
Proof.
  pose proof (graph_holds_the_documented_functions (H := canonical_order) (H0 := no_summary)
    (fun _ => EmptyString) (fun _ => false) sample_passes (fun s => s) (fun _ s => s) sample_read
    sample_shared_files (sample_options "c") sample_renderinfo sample_krate sample_root ∅
    (sample_cleaned "c" ltac:(done)) (sample_surroundings "c")) as Hr.
  assert (Hnames : (fun s : option (Cache * ApiGraph * Fs) => match s with
      | Some (_, g, fs) => Some (List.map full_name (api_functions g),
          is_file fs ["doc"; "src"; "c"; "lib.rs.html"])
      | None => None end) <$> sample_graph "c" ∅ =
    Ret (Some (["c::T::get"; "c::f"], true))) by (vm_compute; reflexivity).
  destruct (sample_graph "c" ∅) as [[[[cache g] fs]|]| |]; [|discriminate Hnames|destruct Hr|destruct Hr].
  exists cache, g, fs. split; [reflexivity|]. destruct Hr as ([_ Hdeps _ _ _] & _).
  injection Hnames as Hn Hf. split_and!; [exact Hn|exact Hdeps|exact Hf].
Defined.

(** C2: the whole run, from the crate that the cleaning hands over, in every iteration
    order of the hash maps, never panics under the conditions of C7 ([cleaned]: the crate is as
    the cleaning describes it, its documentation can be unindented, the chosen passes are in
    order and harmless; [surroundings_ok]: readable files have names, the shared files go below
    the output), when the crate has few enough functions for the indices of
    the sequences to fit an [i32] and its directories can be made and are apart from the
    output. When only the coverage is asked for it changes nothing; an error
    while the output directory is set up ends it without targets. Otherwise, without a
    directory for the crate nothing else is written, and with one its directories hold
    afterwards exactly the texts of at most 300 distinct targets: each a well-formed
    sequence of functions of the graph of the crate, found by the searches, with something
    to decode and no dead call but the last, in the order of the choice; and unless all
    dependencies are covered or the limit is reached, the targets call every function that a
    usable sequence calls. *)
Theorem generator_writes_well_formed_targets `{HashOrder} `{Summary}
    (rng : nat -> nat -> nat -> nat) (to_json : CrateData -> string) (is_dir : string -> bool)
    (run_pass : string -> Crate -> outcome Crate)
    (render_with_highlighting : string -> string) (layout_render : Page -> string -> string)
    (read_to_string : string -> option string)
    (write_shared : Cache -> Crate -> string -> Fs -> option Fs) (options : RustdocOptions)
    (renderinfo : RenderInfo) (krate : Crate) (root : Item) (fs : Fs)
    (Hcl : cleaned run_pass options krate root)
    (Hsr : surroundings_ok options read_to_string write_shared) :
  let crate_graph := crate_graph to_json is_dir run_pass render_with_highlighting layout_render
    read_to_string write_shared options renderinfo krate fs in
  forall (Hfew : forall cache g fs', crate_graph = Ret (Some (cache, g, fs')) -> few_functions g)
    (Htree : forall dir, CRATE_TEST_DIR !! final_name options krate = Some dir ->
      place_ok options krate dir fs),
  returns (fuzz_target_generator_main rng to_json is_dir run_pass render_with_highlighting
      layout_render read_to_string write_shared options renderinfo krate fs)
    (fun r =>
      if opt_show_coverage options then r = Some fs
      else exists s, crate_graph = Ret s /\
        match s with
        | None => r = None
        | Some (cache, g, fs1) => exists fs', r = Some fs' /\
            match CRATE_TEST_DIR !! final_name options krate with
            | Some dir => targets_written (primitive_locations (cache_info cache)) g dir fs'
            | None => fs' = fs1
            end
        end).
Proof. cbv zeta. intros Hfew Htree. by apply (generator_returns _ _ _ _ _ _ krate root). Qed.

(** The sample crate, as the crate [url]. *)
Lemma generator_writes_well_formed_targets_witness :
  returns (fuzz_target_generator_main (H := canonical_order) (H0 := no_summary)
    (fun _ low _ => low) (fun _ => EmptyString) (fun _ => false) sample_passes
    (fun s => s) (fun _ s => s) sample_read sample_shared_files
    (sample_options "url") sample_renderinfo sample_krate sample_fs) (fun r =>
    exists cache g fs1 fs', sample_graph "url" sample_fs = Ret (Some (cache, g, fs1)) /\
      r = Some fs' /\
      targets_written (H := canonical_order) (primitive_locations (cache_info cache)) g
        "/home/jjf/afl_fast_work/url_afl_work" fs').
Proof.
  assert (Hnum : (fun s : option (Cache * ApiGraph * Fs) => match s with
      | Some (_, g, _) => Some (length (api_functions g)) | None => None end) <$>
    sample_graph "url" sample_fs = Ret (Some 2)) by (vm_compute; reflexivity).
  pose proof (generator_writes_well_formed_targets (H := canonical_order) (H0 := no_summary)
    (fun _ low _ => low) (fun _ => EmptyString) (fun _ => false) sample_passes
    (fun s => s) (fun _ s => s) sample_read sample_shared_files
    (sample_options "url") sample_renderinfo sample_krate sample_root sample_fs
    (sample_cleaned "url" ltac:(done)) (sample_surroundings "url")) as Hr. cbv zeta in Hr.
  eapply returns_mono; [apply Hr; clear Hr|clear Hr].
  - intros cache g fs' Hg. rewrite Hg in Hnum. injection Hnum as Hnum. unfold few_functions.
    rewrite Hnum. apply Z.leb_le. vm_compute. reflexivity.
  - intros dir Hdir. vm_compute in Hdir. injection Hdir as <-. split; [split_and!|split].
    + apply sample_fs_wf.
    + apply no_file_above_check. vm_compute. reflexivity.
    + intros ldir Hl. vm_compute in Hl. injection Hl as <-. apply no_file_above_check.
      vm_compute. reflexivity.
    + split; apply (bool_decide_unpack _); vm_compute; exact I.
    + intros ldir Hl. vm_compute in Hl. injection Hl as <-.
      split; apply (bool_decide_unpack _); vm_compute; exact I.
  - intros r (s & Hs & Hres). rewrite Hs in Hnum.
    destruct s as [[[cache g] fs1]|]; [|discriminate Hnum]. destruct Hres as (fs' & -> & Hw).
    exists cache, g, fs1, fs'. split_and!; [exact Hs|reflexivity|exact Hw].
Defined.
